(* ===== verification/_CoqProject ===== *)
-Q . S2P
Prelude.v
Atlas.v
Errors.v
View.v
Messages.v
Decisions.v
Verification.v
Deciding.v
Log.v
Network.v
SyncAccessory.v
Accessory.v
Decision.v
Agreement.v
Metrics.v
Progress.v
Consensus.v
ConsensusFacts.v
Offers.v
Waiting.v
Liveness.v
Replicas.v
Sync.v
Collects.v
SyncFacts.v
Proposer.v
ProposerFacts.v
LeaderProgress.v
Protocol.v
ProtocolFacts.v
ProtocolPhases.v
ProtocolPolling.v
Cluster.v
ClusterFacts.v
StateTransfer.v
StateTransferFacts.v
CheckpointService.v
Sample.v
Witnesses.v
ReplicasWitnesses.v
SyncWitnesses.v
StWitnesses.v
ProtocolWitnesses.v
ProposerWitnesses.v
LivenessWitnesses.v
ClusterWitnesses.v
