(* ===== verification/Prelude.v ===== *)
(** * FeBFT: a verification development

    FeBFT is a replicated state machine library in Rust; its crate
    [febft-pbft-consensus] implements the PBFT ordering protocol on top of the Atlas
    framework, [febft-state-transfer] the transfer of checkpoints.  This library models
    both and proves what makes them correct.

    ** The program and where it is modelled

    Paths are relative to [febft-pbft-consensus/src/bft], unless they start with a crate.  The order protocol owns
    the synchronizer, the window of instances and the log and calls them for each message, poll and timeout; the proposer
    is a thread of its own that shares a guard with the window; state transfer runs beside them.

    - [sync/view] (views, leaders, division of the request space): file [View].
    - [message] (messages), the data of [log/decisions]: file [Messages]; the
      operations on the proof of a decision and its verification: file [Decisions]; the verification of messages on
      arrival ([message/serialize]): file [Verification].
    - [log/deciding] (the working log of one instance: proposals, votes, duplicate
      detection): file [Deciding].
    - [log], [log/decided] (the log of decisions, conversion of a proof to the
      decision handed to the layers above): file [Log].
    - [consensus/accessory] (voting, COMMITs signed ahead of time): file [Accessory].
    - [consensus/decision] (one consensus instance, its phases and message queues):
      file [Decision]; [Agreement] and [Progress] hold its two main theorems.
    - [consensus] (the window of instances, messages past the window, wake-up
      signals, the guard shared with the proposer): file [Consensus], with its theorems in
      [ConsensusFacts].
    - the part of the synchronizer a consensus instance calls
      ([sync/replica_sync], [sync/follower_sync]): file [SyncAccessory].
    - [sync] (the view change protocol, its timeouts, reconfiguration, messages out of context, the predicates on
      STOP-DATA messages): file [Sync]; theorems on the predicates in [Collects] (Module [SyncPredicates]), on the protocol
      in [SyncFacts].
    - [mod.rs] ([PBFTOrderProtocol]: routing by phase, finalization, delivery of decisions, timeouts, state transfer and
      reconfiguration calls): file [Protocol]; theorems in [ProtocolFacts], [ProtocolPhases] and [ProtocolPolling].
    - [proposer] (collecting requests and proposing batches): file [Proposer], with its theorems in [ProposerFacts]; the
      numbers the guard gives it: [Offers].
    - [febft-state-transfer/src] (checkpoints, queries of a recovering replica, replies): file [StateTransfer]; theorems
      in [StateTransferFacts]; the abstract checkpoint service and its refinement in [CheckpointService].
    - [metric], [febft-state-transfer/src/metrics] (what is measured, the registries, the time stamps of an instance): file
      [Metrics].

    Two files compose the components into distributed systems.  [Replicas] is a system of replicas that each run a window of
    instances; which messages wait in a window is the subject of [Waiting].  [Cluster] is the system of replicas that each run the whole
    [PBFTOrderProtocol], with its synchronizer, and the proposer; its theorem is in [ClusterFacts].  [Liveness] has the replicas run one
    instance each and records what was said to whom; [LeaderProgress] puts the proposer of the leader in front of it.

    [Atlas] lists what the sources take from the external crates ([SeqNo] arithmetic, the
    tbo queues, hashing, big integers, system parameters, headers) as a class of operations with
    a class of laws; [Network] lists the orders given to the node and the timeout layer;
    [Errors] the error enums.  [Sample] instantiates all classes and runs the
    model on concrete data; [Witnesses], [ReplicasWitnesses], [SyncWitnesses], [StWitnesses], [ProtocolWitnesses],
    [ProposerWitnesses], [LivenessWitnesses] and [ClusterWitnesses] apply the properties to those runs.

    ** How code is translated

    A struct is a record, an enum an inductive type, a [HashMap] a [gmap], a set a [gset], a
    [Vec] or [VecDeque] a list; a method on [&mut self] is a computation of the monad [M]
    below: it returns an outcome ([Ok], [Err] or [Panic]), the state left behind, and the orders emitted.  A
    [BinaryHeap<Reverse<SeqNo>>] is the list of its elements whose minimum is popped.  [NodeId] and
    [SeqNo] are numbers ([N]); the wrap-around of [SeqNo] is behind the class
    [Atlas]: its laws only speak of numbers at most [sn_window] apart.  Logging is dropped, and the calls that
    measure time, but for those of an instance, which [Metrics.Metered] adds to the model of file [Decision].  Work given to the thread pool is a list of pending steps performed at arbitrary
    later points ([ReplicaAccessory.tick]).  What other threads do while the proposer runs is a list of interferences, one of
    which happens before each of its accesses to shared state ([Proposer.advance]); theorems quantify over the list.
    The iteration order of hash maps, signature checks, the pre-processor and the results of the network and the persistent
    log are parameters.

    ** What the theorems show

    - [Agreement]: two correct replicas never decide differently in a view (safety, by quorum
      intersection over an invariant of the whole system).
    - [Replicas]: for every sequence number the system of windows refines the system of single instances of [Agreement]; so
      correct replicas finalize the same batches in the same order (total order within a view).
    - [ClusterFacts]: the same for the logs of replicas that run the whole protocol, in calm executions (nobody asks for
      another view); [ClusterWitnesses] has a run in which nobody is faulty and the decisions differ, across views.
    - [Progress]: an instance that was given enough messages, in whatever order, decides.
    - [Liveness], [LeaderProgress]: if the members are the nodes 0 to n-1, at most f of them faulty, and the leader's one proposal reaches the
      correct ones, they all decide it within three message delays, in asynchronous executions and in rounds that are computed, whatever
      the thread pools do; what is decided are the requests the proposer broadcast.  (Also there: votes of nodes outside the
      view count, which the agreement theorems exclude by assumption.)
    - [Decision]: the invariant of an instance and its consequences: certificates,
      consistent votes, totality of the handler, finalization, what is
      reported to the view change.
    - [ConsensusFacts]: the window stays full and consecutive under every operation, nobody's
      wake-up is lost, polling ends, installing any sequence number or view works, catching up moves
      the log and the window together.
    - [Offers]: the leader is given no sequence number twice in a view, as long as no installed number sets the window back
      ([ProposerWitnesses.numbers_offered_again] shows what happens then).
    - [SyncFacts], [Collects]: a view is left only with a quorum of STOP messages, for the next view if they came after the last view
      that state transfer installed; window and synchronizer stay in one view,
      what the STOP-DATA messages say does not depend on the iteration order; and where the implementation falls short: collects that
      are never cleared, STOP messages that outlive an installed view ([SyncWitnesses.stale_stops_counted]), SYNC messages that are not checked, proofs one replica can forge.
    - [ProtocolFacts], [ProtocolPhases], [ProtocolPolling]: decided instances are delivered in order and once, the phases of
      the protocol and the synchronizer fit and the proposer is locked out during a view change, polling
      returns, and when it does not; for which [n] the tolerance functions are right.
    - [Metrics]: every measurement refers to a registered metric of the right kind; which values a decided instance has reported.
    - [ProposerFacts]: when a batch is proposed under any interference, with which number, view and requests; which requests are
      left out after a view change; and the situations in which the proposer gets stuck.
    - [StateTransferFacts], [CheckpointService]: a state is installed only on f + 1 matching replies; the component refines
      an abstract checkpoint service (a labelled transition system).
    - [Deciding], [Decisions], [Verification], [Log], [Accessory], [View]: functional correctness, round trips and
      equivalences of the parts.

    ** Fuel

    [Consensus.poll_loop] gets one unit per signal and instance plus one; [ConsensusFacts.poll_correct] shows that it never
    runs out.  [Progress.drain], the loop of the replica thread over one instance, is shown to end within the number of queued
    messages plus two.  [Liveness.settle] polls once per queued message and once to open the instance, which is enough
    ([Liveness.settle_spec]).  [PBFTOrderProtocol.finalize_loop] gets one unit per decided instance at the front of the window plus one,
    shown to be enough with the delivery theorem.  [PBFTOrderProtocol.poll] takes its fuel as an argument: one unit is enough
    where polling returns, and no amount is where it does not, both theorems of [ProtocolPolling].
    [Proposer.wait_until_can_propose] gets one unit per interference plus one; more makes no difference
    ([ProposerFacts.wait_fuel_enough]).  The loops over received messages follow the list of receptions, and running
    to its end means waiting.

    ** What is not modelled

    The serde functions only call an external encoder; the capnp wire format is behind a feature that no longer builds (it
    names types the crate does not have any more).  Observers and the configuration hold data and no logic; the durations measured around
    single calls of the proposer and the synchronizer are left out; the follower proposer is not part of
    the build (its module is commented out).  Timeouts are requested and reported, not timed.  Mutexes are not
    modelled: each is held for the length of one method, or one scope of the proposer, which is one step of the model.  The
    agreement theorems are about one view: across views agreement would need the proposal of a SYNC message to be the value the
    STOP-DATA messages bind, which the code does not ensure (the theorem on SYNC messages in [SyncFacts]), and replicas do
    decide differently ([ClusterWitnesses.decisions_differ_across_views]). *)
From stdpp Require Export base option list sets gmap sorting.
From Stdlib Require Export NArith Lia.
From Stdlib Require Export Strings.Byte.

(** ** Outcomes of fallible Rust code

    [Ok] and [Err] are the two constructors of [Result]; [Panic] stands for
    [panic!], [unwrap] on [None], [unreachable!], [todo!], a failed [assert_eq!],
    an out-of-range index and, as in the dev profile, an arithmetic overflow. *)
Inductive Res (E A : Type) : Type :=
  | Ok (a : A)
  | Err (e : E)
  | Panic.
Arguments Ok {E A} a.
Arguments Err {E A} e.
Arguments Panic {E A}.

#[global] Instance Res_ret E : MRet (Res E) := fun A a => Ok a.
#[global] Instance Res_bind E : MBind (Res E) := fun A B f r =>
  match r with Ok a => f a | Err e => Err e | Panic => Panic end.

(** ** Methods on [&mut self]

    A computation of type [M S W E A] takes the state [S] a method mutates and
    returns its outcome, the state left behind (also on [Err], where Rust keeps
    the mutations made before the early return) and the list of external
    effects (messages handed to the network, requests to the timeout layer) in
    program order. *)
Record Run (S W E A : Type) : Type := mkRun {
  r_out : Res E A;
  r_st : S;
  r_eff : list W;
}.
Arguments mkRun {S W E A} r_out r_st r_eff.
Arguments r_out {S W E A} r.
Arguments r_st {S W E A} r.
Arguments r_eff {S W E A} r.

Definition M (S W E A : Type) : Type := S -> Run S W E A.

Section monad.
Context {S W E : Type}.

Definition ret {A} (a : A) : M S W E A := fun s => mkRun (Ok a) s [].

Definition bind {A B} (m : M S W E A) (k : A -> M S W E B) : M S W E B :=
  fun s =>
    let r := m s in
    match r.(r_out) with
    | Ok a =>
        let r' := k a r.(r_st) in
        mkRun r'.(r_out) r'.(r_st) (r.(r_eff) ++ r'.(r_eff))
    | Err e => mkRun (Err e) r.(r_st) r.(r_eff)
    | Panic => mkRun Panic r.(r_st) r.(r_eff)
    end.

Definition fail {A} (e : E) : M S W E A := fun s => mkRun (Err e) s [].
Definition panic {A} : M S W E A := fun s => mkRun Panic s [].
Definition get : M S W E S := fun s => mkRun (Ok s) s [].
Definition put (s : S) : M S W E unit := fun _ => mkRun (Ok tt) s [].
Definition modify (f : S -> S) : M S W E unit := fun s => mkRun (Ok tt) (f s) [].
Definition emit (ws : list W) : M S W E unit := fun s => mkRun (Ok tt) s ws.

(** [lift r] is the [?] operator applied to a pure result. *)
Definition lift {A} (r : Res E A) : M S W E A := fun s => mkRun r s [].

(** [unwrap o] is [Option::unwrap]. *)
Definition unwrap {A} (o : option A) : M S W E A :=
  match o with Some a => ret a | None => panic end.

(** [ok_or o e] is [Option::ok_or] followed by [?]. *)
Definition ok_or {A} (o : option A) (e : E) : M S W E A :=
  match o with Some a => ret a | None => fail e end.
End monad.

(** [zoom get set m] runs the method [m] of a field of the state. *)
Definition zoom {S T W E A} (pr : S -> T) (up : T -> S -> S) (m : M T W E A) : M S W E A :=
  fun s =>
    let r := m (pr s) in
    mkRun r.(r_out) (up r.(r_st) s) r.(r_eff).

(** With these instances the monadic code is written in stdpp's notation,
    [x ← m; k] and [m;; k]. *)
#[global] Instance M_ret S W E : MRet (M S W E) := fun A => @ret S W E A.
#[global] Instance M_bind S W E : MBind (M S W E) := fun A B k m => bind m k.

(** *** Symbolic execution

    One equation per primitive; [run] rewrites with them until the code waits
    for a case analysis. *)
Definition prepend {S W E A} (ws : list W) (r : Run S W E A) : Run S W E A :=
  mkRun r.(r_out) r.(r_st) (ws ++ r.(r_eff)).

Section run.
Context {S T W E A B : Type}.
Implicit Types (s : S) (k : A -> M S W E B).

Lemma Run_eta (r : Run S W E A) : mkRun r.(r_out) r.(r_st) r.(r_eff) = r.
Proof. by destruct r. Qed.
Lemma prepend_nil (r : Run S W E A) : prepend [] r = r.
Proof. by destruct r. Qed.

Lemma bind_Ok (m : M S W E A) k s a s' ws :
  m s = mkRun (Ok a) s' ws -> (m ≫= k) s = prepend ws (k a s').
Proof. intros H. unfold mbind, M_bind, bind. by rewrite H. Qed.
Lemma bind_Err (m : M S W E A) k s e s' ws :
  m s = mkRun (Err e) s' ws -> (m ≫= k) s = mkRun (Err e) s' ws.
Proof. intros H. unfold mbind, M_bind, bind. by rewrite H. Qed.
Lemma bind_Panic (m : M S W E A) k s s' ws :
  m s = mkRun Panic s' ws -> (m ≫= k) s = mkRun Panic s' ws.
Proof. intros H. unfold mbind, M_bind, bind. by rewrite H. Qed.
Lemma bind_Ok_nil (m : M S W E A) k s a s' :
  m s = mkRun (Ok a) s' [] -> (m ≫= k) s = k a s'.
Proof. intros H. rewrite (bind_Ok _ _ _ _ _ _ H). unfold prepend. by destruct (k a s'). Qed.

Lemma run_ret a k s : (ret a ≫= k) s = k a s.
Proof. by apply bind_Ok_nil. Qed.
Lemma run_get (k : S -> M S W E B) s : (get ≫= k) s = k s s.
Proof. unfold mbind, M_bind, bind. cbn. by destruct (k s s). Qed.
Lemma run_put (k : unit -> M S W E B) s' s : (put s' ≫= k) s = k tt s'.
Proof. unfold mbind, M_bind, bind. cbn. by destruct (k tt s'). Qed.
Lemma run_modify (k : unit -> M S W E B) f s : (modify f ≫= k) s = k tt (f s).
Proof. unfold mbind, M_bind, bind. cbn. by destruct (k tt (f s)). Qed.
Lemma run_emit (k : unit -> M S W E B) ws s : (emit ws ≫= k) s = prepend ws (k tt s).
Proof. done. Qed.
Lemma run_fail e k s : (fail e ≫= k) s = mkRun (Err e) s [].
Proof. done. Qed.
Lemma run_panic k s : (panic ≫= k) s = mkRun Panic s [].
Proof. done. Qed.
Lemma run_lift_Ok a k s : (lift (Ok a) ≫= k) s = k a s.
Proof. by apply bind_Ok_nil. Qed.
Lemma run_lift_Err e k s : (lift (Err e) ≫= k) s = mkRun (Err e) s [].
Proof. done. Qed.
Lemma run_unwrap_Some a k s : (unwrap (Some a) ≫= k) s = k a s.
Proof. by apply bind_Ok_nil. Qed.
Lemma run_ok_or_Some a e k s : (ok_or (Some a) e ≫= k) s = k a s.
Proof. by apply bind_Ok_nil. Qed.
End run.

Section run_zoom.
Context {S T W E A B : Type}.

Lemma run_zoom_Ok (pr : S -> T) up (m : M T W E A) (k : A -> M S W E B) s a t' :
  m (pr s) = mkRun (Ok a) t' [] -> (zoom pr up m ≫= k) s = k a (up t' s).
Proof. intros H. apply bind_Ok_nil. unfold zoom. by rewrite H. Qed.

Lemma run_zoom_Err (pr : S -> T) up (m : M T W E A) (k : A -> M S W E B) s e t' :
  m (pr s) = mkRun (Err e) t' [] -> (zoom pr up m ≫= k) s = mkRun (Err e) (up t' s) [].
Proof. intros H. apply bind_Err. unfold zoom. by rewrite H. Qed.
End run_zoom.

Create Rewrite HintDb run.
#[export] Hint Rewrite @run_ret @run_get @run_put @run_modify @run_emit @run_fail @run_panic
  @run_lift_Ok @run_lift_Err @run_unwrap_Some @run_ok_or_Some : run.

Ltac run := autorewrite with run; cbn beta.

(** *** Inversion of successful runs

    [inv_run H] takes the run in [H] apart, primitive by primitive. *)
Section inversion.
Context {S T W E A B : Type}.

Lemma bind_inv (m : M S W E A) (k : A -> M S W E B) s b s' ws :
  (m ≫= k) s = mkRun (Ok b) s' ws ->
  exists a s1 ws1 ws2, m s = mkRun (Ok a) s1 ws1 /\ k a s1 = mkRun (Ok b) s' ws2 /\ ws = ws1 ++ ws2.
Proof.
  unfold mbind, M_bind, bind. destruct (m s) as [[a|e|] s1 ws1]; cbn; [|done..].
  destruct (k a s1) as [o s2 ws2] eqn:Hk. cbn. intros [= -> -> <-]. eauto 10.
Qed.

Lemma bind_ret_state (m : M S W E A) (x : B) s out s' ws :
  (m ≫= fun _ => ret x) s = mkRun out s' ws -> exists o1 ws1, m s = mkRun o1 s' ws1.
Proof.
  unfold mbind, M_bind, bind. destruct (m s) as [[a|e|] s1 ws1]; cbn; intros [= <- <- <-]; eauto.
Qed.

Lemma lift_inv (r : Res E A) (s : S) a s' (ws : list W) :
  lift r s = mkRun (Ok a) s' ws -> r = Ok a /\ s' = s /\ ws = [].
Proof. unfold lift. by intros [= -> -> <-]. Qed.
Lemma unwrap_inv (o : option A) (s : S) a s' (ws : list W) :
  unwrap (E := E) o s = mkRun (Ok a) s' ws -> o = Some a /\ s' = s /\ ws = [].
Proof. destruct o; cbn; [|done]. by intros [= -> -> <-]. Qed.
Lemma zoom_inv (pr : S -> T) up (m : M T W E A) s a s' ws :
  zoom pr up m s = mkRun (Ok a) s' ws -> exists t', m (pr s) = mkRun (Ok a) t' ws /\ s' = up t' s.
Proof. unfold zoom. destruct (m (pr s)) as [o t' ws']. cbn. intros [= -> <- ->]. eauto. Qed.
End inversion.

Ltac inv_run H :=
  lazymatch type of H with
  | (_ ≫= _) _ = mkRun _ _ _ =>
      let a := fresh "a" in let s1 := fresh "s" in let w1 := fresh "ws" in let w2 := fresh "ws" in
      let H1 := fresh "Hr" in let H2 := fresh "Hr" in
      apply bind_inv in H as (a & s1 & w1 & w2 & H1 & H2 & ->); inv_run H1; inv_run H2
  | lift _ _ = mkRun _ _ _ => apply lift_inv in H as (H & -> & ->)
  | unwrap _ _ = mkRun _ _ _ => apply unwrap_inv in H as (H & -> & ->)
  | get _ = mkRun _ _ _ => first [injection H as <- <- <- | injection H as <- <-]
  | put _ _ = mkRun _ _ _ => first [injection H as <- <- <- | injection H as <- <-]
  | modify _ _ = mkRun _ _ _ => first [injection H as <- <- <- | injection H as <- <-]
  | ret _ _ = mkRun _ _ _ => first [injection H as <- <- <- | injection H as <- <-]
  | emit _ _ = mkRun _ _ _ => first [injection H as <- <- <- | injection H as <- <-]
  | panic _ = mkRun _ _ _ => discriminate H
  | fail _ _ = mkRun _ _ _ => discriminate H
  | zoom _ _ _ _ = mkRun _ _ _ =>
      let t := fresh "t" in let H1 := fresh "Hr" in
      apply zoom_inv in H as (t & H1 & ->); inv_run H1
  | _ => idtac
  end.

(** Name the part of a run that is left. *)
Ltac rest_as Hnew := match goal with H : _ = mkRun _ _ _ |- _ => rename H into Hnew end.

(** *** What a computation leaves alone, whatever its outcome

    [keeps f m]: running [m] does not change what [f] observes of the state. *)
Definition keeps {S W E X Y} (f : S -> Y) (m : M S W E X) : Prop := forall s, f (m s).(r_st) = f s.

Section keeps.
Context {S T W E X Y Z : Type} (f : S -> Z).

Lemma keeps_ret (x : X) : keeps f (ret x : M S W E X).
Proof. done. Qed.
Lemma keeps_fail e : keeps f (fail e : M S W E X).
Proof. done. Qed.
Lemma keeps_panic : keeps f (panic : M S W E X).
Proof. done. Qed.
Lemma keeps_get : keeps f (get : M S W E S).
Proof. done. Qed.
Lemma keeps_emit ws : keeps f (emit ws : M S W E unit).
Proof. done. Qed.
Lemma keeps_lift r : keeps f (lift r : M S W E X).
Proof. done. Qed.
Lemma keeps_unwrap (o : option X) : keeps f (unwrap o : M S W E X).
Proof. by destruct o. Qed.
Lemma keeps_modify g : (forall s, f (g s) = f s) -> keeps f (modify g : M S W E unit).
Proof. intros Hg s. apply Hg. Qed.
Lemma keeps_bind (m : M S W E X) (k : X -> M S W E Y) :
  keeps f m -> (forall x, keeps f (k x)) -> keeps f (m ≫= k).
Proof.
  intros Hm Hk s. specialize (Hm s). unfold mbind, M_bind, bind. destruct (m s) as [[x|e|] s1 w]; cbn in *; [|done..].
  by rewrite Hk.
Qed.
Lemma keeps_zoom (pr : S -> T) up (m : M T W E X) :
  (forall t s, f (up t s) = f s) \/ (exists g, (forall t s, f (up t s) = g t) /\ (forall s, f s = g (pr s)) /\ keeps g m) ->
  keeps f (zoom pr up m).
Proof.
  intros [Hup|(g & Hup & Hg & Hm)] s; unfold zoom; cbn; rewrite Hup; [done|]. by rewrite Hm, Hg.
Qed.
End keeps.

Create HintDb keeps.

(** Take code apart; calls are left to the lemmas of the database [keeps]. *)
Ltac keep_step :=
  lazymatch goal with
  | |- keeps _ (ret _) => apply keeps_ret
  | |- keeps _ (mret _) => apply keeps_ret
  | |- keeps _ (fail _) => apply keeps_fail
  | |- keeps _ panic => apply keeps_panic
  | |- keeps _ get => apply keeps_get
  | |- keeps _ (emit _) => apply keeps_emit
  | |- keeps _ (lift _) => apply keeps_lift
  | |- keeps _ (unwrap _) => apply keeps_unwrap
  | |- keeps _ (modify _) => apply keeps_modify; first [done | solve [auto with keeps nocore]]
  | |- keeps _ (_ ≫= _) => apply keeps_bind; [|intro]
  | |- keeps _ (match _ with _ => _ end) => case_match
  | |- keeps _ (let _ := _ in _) => cbn zeta
  | |- keeps _ _ => solve [auto with keeps nocore]
  end.
Ltac keep := repeat keep_step.

(** [emits P m]: all that [m] writes satisfies [P]. *)
Definition emits {S W E X} (P : W -> Prop) (m : M S W E X) : Prop := forall s, Forall P (m s).(r_eff).

Section emits.
Context {S W E X Y : Type} (P : W -> Prop).

Lemma emits_emit ws : Forall P ws -> emits P (emit ws : M S W E unit).
Proof. by intros H s. Qed.
Lemma emits_bind (m : M S W E X) (k : X -> M S W E Y) : emits P m -> (forall x, emits P (k x)) -> emits P (m ≫= k).
Proof.
  intros Hm Hk s. specialize (Hm s). unfold mbind, M_bind, bind. destruct (m s) as [[x|e|] s1 w]; cbn in *; [|done..].
  by apply Forall_app_2, Hk.
Qed.
End emits.

Ltac emit_step :=
  lazymatch goal with
  | |- emits _ (_ ≫= _) => apply emits_bind; [|intro]
  | |- emits _ (match _ with _ => _ end) => case_match
  | |- emits _ (let _ := _ in _) => cbn zeta
  | |- emits _ (emit _) => apply emits_emit
  | |- emits _ _ => solve [by intros ?]
  end.

(** ** Operations of [Vec] and [Iterator] *)

(** [iter().position(P)]. *)
Definition position {X} (P : X -> Prop) `{forall x, Decision (P x)} (l : list X) : option nat :=
  fst <$> list_find P l.

(** [Vec::swap_remove(i)]: the last element takes the place of the removed one;
    [None] is the panic of an index out of range. *)
Definition swap_remove {X} (i : nat) (l : list X) : option (X * list X) :=
  x ← l !! i;
  y ← last l;
  Some (x, take (length l - 1) (<[i := y]> l)).

(** ** Generic lemmas *)

Create HintDb febft.

Lemma foldl_snoc {X Y} (f : Y -> X -> Y) y l x :
  foldl f y (l ++ [x]) = f (foldl f y l) x.
Proof. by rewrite foldl_app. Qed.

(** A left fold in [Res] that starts from a failure stays there. *)
Lemma foldl_stuck {X Y E} (f : Y -> X -> Res E Y) (r : Res E Y) l :
  (forall y, r <> Ok y) ->
  foldl (fun acc x => y ← acc; f y x) r l = r.
Proof.
  intros Hr. induction l as [|x l IH]; [done|]. simpl.
  destruct r; [by destruct (Hr a)|done..].
Qed.

(** ** Quorum intersection *)

Lemma size_inter_lower `{Countable X} (U P Q : gset X) :
  P ⊆ U -> Q ⊆ U -> size P + size Q <= size U + size (P ∩ Q).
Proof.
  intros HP HQ.
  assert (size (P ∪ Q) <= size U) by (apply subseteq_size; set_solver).
  rewrite size_union_alt in *.
  rewrite size_difference_alt in *.
  replace (Q ∩ P) with (P ∩ Q) in * by set_solver.
  assert (size (P ∩ Q) <= size Q) by (apply subseteq_size; set_solver).
  lia.
Qed.

(** Two quorums of [2f+1] among at most [3f+1] nodes share a node outside any
    set of at most [f] faulty ones. *)
Lemma quorum_share_correct `{Countable X} (U P Q B : gset X) f :
  size U <= 3 * f + 1 -> size B <= f ->
  P ⊆ U -> Q ⊆ U -> 2 * f + 1 <= size P -> 2 * f + 1 <= size Q ->
  exists x, x ∈ P /\ x ∈ Q /\ x ∉ B.
Proof.
  intros HU HB HP HQ HsP HsQ.
  pose proof (size_inter_lower U P Q HP HQ).
  assert (size ((P ∩ Q) ∖ B) <> 0) as Hne.
  { rewrite size_difference_alt.
    assert (size ((P ∩ Q) ∩ B) <= size B) by (apply subseteq_size; set_solver). lia. }
  apply size_non_empty_iff, set_choose in Hne as [x Hx]; set_solver.
Qed.

Lemma size_list_to_set_NoDup `{Countable X} (l : list X) :
  NoDup l -> size (list_to_set l : gset X) = length l.
Proof. apply size_list_to_set. Qed.

Lemma position_Some {X} (P : X -> Prop) `{forall x, Decision (P x)} l i :
  position P l = Some i <->
  exists x, l !! i = Some x /\ P x /\ forall j y, l !! j = Some y -> j < i -> ~ P y.
Proof.
  unfold position. split.
  - intros ([j x] & Hf & ->)%fmap_Some. apply list_find_Some in Hf. eauto.
  - intros (x & Hf). apply fmap_Some. exists (i, x). split; [|done]. by apply list_find_Some.
Qed.

Lemma position_None {X} (P : X -> Prop) `{forall x, Decision (P x)} l :
  position P l = None <-> Forall (fun x => ~ P x) l.
Proof. unfold position. by rewrite fmap_None, list_find_None. Qed.

Lemma swap_remove_spec {X} i (l : list X) x :
  l !! i = Some x -> exists l', swap_remove i l = Some (x, l') /\ x :: l' ≡ₚ l.
Proof.
  intros Hx. unfold swap_remove. rewrite Hx. cbn.
  destruct l as [|y l _] using rev_ind; [done|].
  rewrite last_snoc. cbn. eexists. split; [reflexivity|].
  rewrite length_app. cbn. rewrite Nat.add_sub.
  destruct (decide (i < length l)) as [Hi|Hi].
  - rewrite insert_app_l by done. rewrite take_app_length' by (by rewrite length_insert).
    rewrite lookup_app_l in Hx by done.
    rewrite (insert_take_drop l i y Hi).
    transitivity (x :: y :: take i l ++ drop (S i) l).
    { by rewrite <- Permutation_middle. }
    rewrite <- (Permutation_cons_append l y).
    rewrite perm_swap. apply perm_skip.
    rewrite Permutation_middle. by rewrite (take_drop_middle l i x Hx).
  - pose proof (lookup_lt_Some _ _ _ Hx) as Hlt. rewrite length_app in Hlt. cbn in Hlt.
    replace i with (length l) in * by lia.
    rewrite list_lookup_middle in Hx by done. simplify_eq.
    rewrite insert_app_r_alt, Nat.sub_diag by lia. cbn.
    rewrite take_app_length. by rewrite Permutation_app_comm.
Qed.

(** ** Vectors of optional values filled slot by slot *)

Lemma omap_insert_None {X} (l : list (option X)) i x :
  l !! i = Some None -> omap id (<[i := Some x]> l) ≡ₚ x :: omap id l.
Proof.
  revert i. induction l as [|o l IH]; intros [|i]; cbn; [done|done| |].
  - by intros [= ->].
  - intros Hi. destruct o as [y|]; cbn; rewrite (IH _ Hi); [apply perm_swap|done].
Qed.

Lemma omap_id_length {X} (l : list (option X)) : length (omap id l) <= length l.
Proof. induction l as [|[x|] l IH]; cbn; lia. Qed.

Lemma omap_id_full {X} (l : list (option X)) :
  length (omap id l) = length l <-> mapM id l = Some (omap id l).
Proof.
  induction l as [|[x|] l IH]; cbn; [done| |].
  - split.
    + intros [= Hl]. apply IH in Hl. by rewrite Hl.
    + destruct (mapM id l) as [r|] eqn:E; cbn; [|done]. intros [= ->]. f_equal. by apply IH.
  - pose proof (omap_id_length l). split; [lia|done].
Qed.

Lemma omap_id_replicate_None {X} n : omap id (replicate n (@None X)) = [].
Proof. by induction n. Qed.

Lemma omap_id_elem {X} (l : list (option X)) x : x ∈ omap id l <-> exists i, l !! i = Some (Some x).
Proof.
  rewrite list_elem_of_omap. split.
  - intros (o & Ho & Hx). cbn in Hx. subst. by apply list_elem_of_lookup in Ho.
  - intros [i Hi]. exists (Some x). split; [|done]. by eapply list_elem_of_lookup_2.
Qed.

Lemma mapM_Some_id {X} (l : list (option X)) (r : list X) : mapM id l = Some r -> l = Some <$> r.
Proof.
  revert r. induction l as [|[x|] l IH]; intros r; cbn; [by intros [= <-]| |done].
  destruct (mapM id l) as [r'|]; cbn; [|done]. intros [= <-]. cbn. by rewrite (IH r').
Qed.

Lemma omap_id_Some {X} (l : list X) : omap id (Some <$> l) = l.
Proof. induction l as [|x l IH]; [done|]. cbn. f_equal. exact IH. Qed.

Lemma elem_of_snoc {X} (l : list X) x y : x ∈ l ++ [y] <-> x ∈ l \/ x = y.
Proof. by rewrite elem_of_app, list_elem_of_singleton. Qed.

(** The values of a map that determine their keys have pairwise different ones. *)
Lemma values_NoDup {K X} `{Countable K} (key : X -> K) (m : gmap K X) :
  (forall k x, m !! k = Some x -> key x = k) -> NoDup (key <$> (map_to_list m).*2).
Proof.
  intros Hk. rewrite <- list_fmap_compose.
  replace ((key ∘ snd) <$> map_to_list m) with ((map_to_list m).*1); [apply NoDup_fst_map_to_list|].
  apply list_fmap_ext. intros i [k x] Hi. apply list_elem_of_lookup_2, elem_of_map_to_list in Hi.
  cbn. symmetry. by apply Hk.
Qed.
