(* ===== verification/Atlas.v ===== *)
(** * The Atlas crates, as the sources use them

    The ordering protocol is built on the crates [atlas-common],
    [atlas-communication] and [atlas-core] and on [num-bigint], none of which is
    part of this repository.  What the protocol takes from them is a parameter
    of the model: the class [Atlas] lists the opaque types and operations and
    [AtlasLaws] the documented behaviour the proofs rely on.  [SampleAtlas]
    (file Sample) is a concrete instance.  Plain data carriers whose
    content the sources build or take apart themselves ([StoredMessage],
    [ClientRqInfo]) are records. *)
From S2P Require Import Prelude.

#[global] Instance byte_eq_dec : EqDecision byte := Byte.byte_eq_dec.
#[global] Instance byte_countable : Countable byte.
Proof.
  refine (inj_countable Byte.to_N Byte.of_N _).
  intros b. apply Byte.of_to_N.
Defined.

(** [NodeId] and [SeqNo] wrap a [u32] ([SeqNo::from(u32)], [into_u32]); a
    [Digest] is the byte array [as_ref] gives. *)
Abbreviation NodeId := N (only parsing).
Abbreviation SeqNo := N (only parsing).
Abbreviation Digest := (list byte) (only parsing).
Abbreviation HashSpace := (list byte * list byte)%type (only parsing).

Definition ZERO : SeqNo := 0%N.
Definition ONE : SeqNo := 1%N.

(** [atlas_common::ordering::InvalidSeqNo], the left side of [SeqNo::index]. *)
Inductive InvalidSeqNo := Small | Big.

(** Errors raised by the external crates; febft never inspects them. *)
Inductive ExternalError := MkExternalError.

Class Atlas := {
  (** *** [atlas_common::ordering::SeqNo] *)
  sn_next : SeqNo -> SeqNo;
  sn_prev : SeqNo -> SeqNo;
  sn_add : SeqNo -> SeqNo -> SeqNo;
  sn_index : SeqNo -> SeqNo -> InvalidSeqNo + nat;
  sn_cmp : SeqNo -> SeqNo -> comparison;
  sn_window : nat;
  sn_max : N;
  (** *** [atlas_common::ordering::tbo_*], the out-of-context message queues *)
  tbo_queue_message : forall {X : Type}, SeqNo -> list (list X) -> SeqNo * X -> list (list X);
  tbo_advance_message_queue : forall {X : Type}, list (list X) -> list (list X);
  tbo_advance_message_queue_return :
    forall {X : Type}, list (list X) -> option (list X) * list (list X);
  tbo_pop_message : forall {X : Type}, list (list X) -> option X * list (list X);
  (** *** [atlas_common::node_id::NodeId::targets], [targets_u32] *)
  node_targets : nat -> list NodeId;
  (** *** [atlas_common::system_params::SystemParams] *)
  SystemParams : Type;
  sp_new : nat -> nat -> ExternalError + SystemParams;
  sp_n : SystemParams -> nat;
  sp_f : SystemParams -> nat;
  sp_quorum : SystemParams -> nat;
  (** *** [atlas_common::crypto::hash] *)
  digest_length : nat;
  HashContext : Type;
  ctx_new : HashContext;
  ctx_update : HashContext -> list byte -> HashContext;
  ctx_finish : HashContext -> Digest;
  (** *** [num_bigint::BigUint], with [N] for the numbers themselves *)
  from_bytes_be : list byte -> N;
  to_bytes_be : N -> list byte;
  (** *** [atlas_communication::message::Header] *)
  Header : Type;
  hdr_from : Header -> NodeId;
  hdr_digest : Header -> Digest;
  hdr_unique_digest : Header -> Digest;
  (** *** The client request type, [SerMsg + SessionBased] *)
  RQ : Type;
  rq_sequence_number : RQ -> SeqNo;
  rq_session_number : RQ -> SeqNo;
}.

(** [StoredMessage<M>]: a message with the header it arrived with; a
    [ShareableMessage<M>] is an [Arc] of it. *)
Record StoredMessage {A : Atlas} (X : Type) : Type := mkStored {
  header : Header;
  message : X;
}.
Arguments mkStored {A X} header message.
Arguments header {A X} s.
Arguments message {A X} s.

(** [atlas_core::messages::ClientRqInfo]. *)
Record ClientRqInfo : Type := mkClientRqInfo {
  rq_digest : Digest;
  rq_sender : NodeId;
  rq_seq_no : SeqNo;
  rq_session : SeqNo;
}.

#[global] Instance ClientRqInfo_eq_dec : EqDecision ClientRqInfo.
Proof. solve_decision. Defined.

(** [ClientRqInfo::from(&StoredMessage<O>)] (also written out by hand at every
    place of the sources that handles a batch). *)
Definition rq_info {A : Atlas} (x : StoredMessage RQ) : ClientRqInfo :=
  mkClientRqInfo (hdr_unique_digest x.(header)) (hdr_from x.(header))
    (rq_sequence_number x.(message)) (rq_session_number x.(message)).

(** Big-endian value of a byte string. *)
Definition be_value (bs : list byte) : N :=
  foldl (fun acc b => (acc * 256 + Byte.to_N b)%N) 0%N bs.

(** The bucket of a [tbo] queue a distance ahead of its base. *)
Definition bucket {X : Type} (i : nat) (q : list (list X)) : list X := default [] (q !! i).

(** Comparisons of the [Ord] instance of [SeqNo]. *)
Definition sn_ltb {A : Atlas} (s t : SeqNo) : bool :=
  match sn_cmp s t with Lt => true | _ => false end.
Definition sn_gtb {A : Atlas} (s t : SeqNo) : bool :=
  match sn_cmp s t with Gt => true | _ => false end.
Definition sn_geb {A : Atlas} (s t : SeqNo) : bool :=
  match sn_cmp s t with Lt => false | _ => true end.

(** The [n]-th successor. *)
Definition sn_plus {A : Atlas} (n : nat) (s : SeqNo) : SeqNo := Nat.iter n sn_next s.
Arguments sn_plus : simpl never.

(** ** Documented behaviour

    Sequence numbers wrap around, so nothing is claimed of numbers more than
    [sn_window] apart: [index] measures how far ahead of its argument a number
    is and answers [Left] for one that is behind; [next] adds one below the
    largest number [sn_max]. *)
Class AtlasLaws {A : Atlas} : Prop := {
  sn_index_plus : forall n s, n <= sn_window -> sn_index (sn_plus n s) s = inr n;
  sn_index_sound : forall s t n, sn_index s t = inr n -> s = sn_plus n t;
  sn_index_behind : forall n s, 0 < n <= sn_window ->
    exists e, sn_index s (sn_plus n s) = inl e;
  sn_add_plus : forall n s, n <= sn_window -> sn_add s (N.of_nat n) = sn_plus n s;
  sn_cmp_eq : forall s t, sn_cmp s t = Eq <-> s = t;
  sn_cmp_plus : forall n s, 0 < n <= sn_window -> sn_cmp s (sn_plus n s) = Lt;
  sn_cmp_plus_rev : forall n s, 0 < n <= sn_window -> sn_cmp (sn_plus n s) s = Gt;
  sn_window_pos : 0 < sn_window;
  sn_next_succ : forall s, (s < sn_max)%N -> sn_next s = (s + 1)%N;
  tbo_queue_behind : forall X base (q : list (list X)) s x e,
    sn_index s base = inl e -> tbo_queue_message base q (s, x) = q;
  tbo_queue_ahead : forall X base (q : list (list X)) s x i,
    sn_index s base = inr i ->
    forall j, bucket j (tbo_queue_message base q (s, x)) =
              bucket j q ++ (if decide (i = j) then [x] else []);
  tbo_advance_tail : forall X (q : list (list X)), tbo_advance_message_queue q = tail q;
  tbo_advance_return_head : forall X (q : list (list X)),
    tbo_advance_message_queue_return q = (head q, tail q);
  tbo_pop_none : forall X (q : list (list X)),
    bucket 0 q = [] -> tbo_pop_message q = (None, q);
  tbo_pop_some : forall X (x : X) b q,
    tbo_pop_message ((x :: b) :: q) = (Some x, b :: q);
  node_targets_range : forall n, node_targets n = N.of_nat <$> seq 0 n;
  sp_new_ok : forall n f p, sp_new n f = inr p -> sp_n p = n /\ sp_f p = f /\ 3 * f + 1 <= n;
  sp_new_accepts : forall n f, 3 * f + 1 <= n -> exists p, sp_new n f = inr p;
  sp_quorum_2f1 : forall p, sp_quorum p = 2 * sp_f p + 1;
  from_bytes_be_value : forall bs, from_bytes_be bs = be_value bs;
  from_to_bytes_be : forall n, from_bytes_be (to_bytes_be n) = n;
}.

(** ** Numbers close to each other are totally ordered *)

Section near.
Context {A : Atlas} {L : AtlasLaws}.

Definition near (base s : SeqNo) : Prop := exists k, k <= sn_window /\ s = sn_plus k base.

Lemma sn_plus_add n m s : sn_plus (n + m) s = sn_plus n (sn_plus m s).
Proof. unfold sn_plus. by rewrite Nat.iter_add. Qed.

Lemma near_cmp b i j : i <= sn_window -> j <= sn_window ->
  sn_cmp (sn_plus i b) (sn_plus j b) = Nat.compare i j.
Proof.
  intros Hi Hj. destruct (Nat.compare_spec i j) as [->|Hlt|Hgt].
  - by apply sn_cmp_eq.
  - replace j with ((j - i) + i) by lia. rewrite sn_plus_add. apply sn_cmp_plus. lia.
  - replace i with ((i - j) + j) by lia. rewrite sn_plus_add. apply sn_cmp_plus_rev. lia.
Qed.
End near.

(** ** Hash maps *)

(** Iterating a hash map or hash set visits its elements in an unspecified order. *)
Class IterationOrder := {
  in_some_order : forall {X : Type}, list X -> list X;
}.
Class IterationOrderLaws {IO : IterationOrder} : Prop := {
  in_some_order_perm : forall X (l : list X), in_some_order l ≡ₚ l;
}.


(** [values()] of a hash map, [into_values()], [drain()]. *)
Definition map_values {K X} `{Countable K} {IO : IterationOrder} (m : gmap K X) : list X :=
  in_some_order (map_to_list m).*2.
