(* ===== verification/Errors.v ===== *)
(** * The error enums of the two crates

    [anyhow::Error] erases the concrete error type; [Error] keeps it, so that a
    theorem can say which error an operation returns. *)
From S2P Require Import Prelude Atlas.

(** [bft/sync/view/mod.rs]. *)
Inductive ViewError :=
  | LeaderNotInQuorum (leader : NodeId) (quorum : list NodeId).

(** [bft/log/deciding/mod.rs]. *)
Inductive DecidingLogError :=
  | ProposerNotInLeaderSet (proposer : NodeId) (leader_set : list NodeId)
  | PrePrepareNotPartOfSet (d : Digest) (set : list (list byte))
  | DuplicateVoteFromNode (n : NodeId)
  | FailedToCalculateDigest (s : SeqNo)
  | LeaderNotInLeaderSet (n : NodeId)
  | BatchContainsRequestsNotInLeaderAddrSpace (n : NodeId)
  | FailedToGetLeadersRequestSpace (n : NodeId).

(** [bft/log/decisions/mod.rs]. *)
Inductive ProofError :=
  | PrePrepareNotContainedInMetadata
  | PrePrepareListNotComplete
  | WrongPrePrepareCount (expected got : nat)
  | BatchDigestsDoNotMatch.

(** [bft/log/mod.rs]. *)
Inductive LogError :=
  | CannotInstallDecisionAlreadyAhead (install_attempt already_installed : SeqNo)
  | CannotInstallWouldSkip (install_attempt currently_installed : SeqNo).

(** [bft/consensus/decision/mod.rs]. *)
Inductive DecisionError :=
  | CannotFinalizeUndecidedBatch (s : SeqNo)
  | FailedToFinalizeBatch (s : SeqNo).

(** [febft-state-transfer/src/lib.rs]. *)
Inductive StateTransferError :=
  | CheckpointAlreadyFinalized
  | CheckpointNotInitiated.

(** What [atlas_common::error::Error] can hold. *)
Inductive Error :=
  | EView (e : ViewError)
  | EDecidingLog (e : DecidingLogError)
  | EProof (e : ProofError)
  | ELog (e : LogError)
  | EDecision (e : DecisionError)
  | EStateTransfer (e : StateTransferError)
  | EAnyhow
  | EExternal (e : ExternalError).

Abbreviation Result := (Res Error).
