(* ===== verification/View.v ===== *)
(** * Views ([bft/sync/view/mod.rs])

    A view fixes the quorum members, the leaders and the slice of the request
    hash space each leader may propose from. *)
From S2P Require Import Prelude Atlas Errors.

Section hash_space.
Context {A : Atlas}.

(** *** Division of the hash space *)

(** One iteration of the loop of [divide_hash_space]. *)
Definition divide_step (end_ increment : N) (count : nat)
    (acc : N * list HashSpace) (i : nat) : N * list HashSpace :=
  let '(start, slices) := acc in
  let slice_start := to_bytes_be start in
  let start := (start + increment)%N in
  let slice_end := if decide (i = count) then to_bytes_be end_ else to_bytes_be start in
  let start := (start + 1)%N in
  (start, slices ++ [(slice_start, slice_end)]).

Definition divide_hash_space (size_bytes count : nat) : Result (list HashSpace) :=
  let last_hash := replicate size_bytes xff in
  let end_ := from_bytes_be last_hash in
  if decide (count = 0) then Panic
  else
    let increment := (end_ / N.of_nat count)%N in
    Ok (foldl (divide_step end_ increment count) (0%N, []) (List.seq 1 count)).2.

Definition calculate_hash_space_division (leader_set : list NodeId)
    : Result (gmap NodeId HashSpace) :=
  slices ← divide_hash_space digest_length (length leader_set);
  foldl (fun acc '(leader_id, slice) =>
           slice_for_leaders ← acc;
           match leader_set !! leader_id with
           | Some leader => Ok (<[leader := slice]> slice_for_leaders)
           | None => Panic
           end)
    (Ok ∅) (imap pair slices).

Definition is_request_in_hash_space (rq : Digest) (hash_space : HashSpace) : bool :=
  let start_bi := from_bytes_be hash_space.1 in
  let end_bi := from_bytes_be hash_space.2 in
  let rq_digest := from_bytes_be rq in
  (start_bi <=? rq_digest)%N && (rq_digest <=? end_bi)%N.

(** *** Lemmas: the slices in closed form *)

(** The [i]-th slice (from 0) of [count] slices of width [inc + 1]. *)
Definition slice_of (end_ inc : N) (count i : nat) : HashSpace :=
  let start := (N.of_nat i * (inc + 1))%N in
  (to_bytes_be start,
   if decide (S i = count) then to_bytes_be end_ else to_bytes_be (start + inc)%N).

Lemma divide_fold end_ inc count k :
  foldl (divide_step end_ inc count) (0%N, []) (List.seq 1 k) =
  ((N.of_nat k * (inc + 1))%N, slice_of end_ inc count <$> List.seq 0 k).
Proof.
  induction k as [|k IH]; [done|].
  rewrite !seq_S, foldl_snoc, IH, fmap_app. unfold divide_step. simpl.
  replace (N.of_nat k * (inc + 1) + inc + 1)%N with (N.of_nat (S k) * (inc + 1))%N by lia.
  done.
Qed.

Lemma divide_hash_space_ok size count :
  count <> 0 ->
  divide_hash_space size count =
  Ok (slice_of (from_bytes_be (replicate size xff))
        (from_bytes_be (replicate size xff) / N.of_nat count)%N count <$> List.seq 0 count).
Proof.
  intros H. unfold divide_hash_space. rewrite decide_False by done.
  by rewrite divide_fold.
Qed.

Lemma be_value_app bs b : be_value (bs ++ [b]) = (be_value bs * 256 + Byte.to_N b)%N.
Proof. unfold be_value. by rewrite foldl_snoc. Qed.

Lemma be_value_bound bs : (be_value bs < 256 ^ N.of_nat (length bs))%N.
Proof.
  induction bs as [|b bs IH] using rev_ind; [done|].
  rewrite be_value_app, length_app. simpl.
  replace (N.of_nat (length bs + 1)) with (N.succ (N.of_nat (length bs))) by lia.
  rewrite N.pow_succ_r'. pose proof (Byte.to_N_bounded b). lia.
Qed.

Lemma be_value_ff n : (be_value (replicate n xff) + 1 = 256 ^ N.of_nat n)%N.
Proof.
  induction n as [|n IH]; [done|].
  rewrite replicate_S_end, be_value_app, Nat2N.inj_succ, N.pow_succ_r', <- IH.
  replace (Byte.to_N xff) with 255%N by done. lia.
Qed.

Context {L : AtlasLaws}.

(** A number below the end of the space lies in the slice its quotient by the
    slice width selects, and in no other one. *)
Lemma slice_of_contains end_ inc count i x d :
  i < count -> from_bytes_be d = x -> (x <= end_)%N ->
  is_request_in_hash_space d (slice_of end_ inc count i) = true <->
  i = N.to_nat (N.min (x / (inc + 1)) (N.of_nat (count - 1))).
Proof.
  intros Hi Hd Hx. unfold is_request_in_hash_space, slice_of. simpl. rewrite Hd.
  rewrite andb_true_iff, !N.leb_le.
  pose proof (N.div_mod x (inc + 1) ltac:(lia)) as Hdm.
  pose proof (N.mod_lt x (inc + 1) ltac:(lia)) as Hml.
  set (q := (x / (inc + 1))%N) in *. set (r := (x mod (inc + 1))%N) in *.
  destruct (decide (S i = count)) as [Hlast|Hlast]; rewrite !from_to_bytes_be.
  - split; [intros [H _]|intros H].
    + assert (N.of_nat i <= q)%N; [|lia].
      destruct (N.le_gt_cases (N.of_nat i) q) as [?|Hgt]; [done|]. exfalso.
      assert ((q + 1) * (inc + 1) <= N.of_nat i * (inc + 1))%N
        by (apply N.mul_le_mono_r; lia). lia.
    + split; [|done]. assert (N.of_nat i <= q)%N as Hle by lia.
      apply (N.mul_le_mono_r _ _ (inc + 1)) in Hle. lia.
  - split; [intros [H1 H2]|intros H].
    + assert (q = N.of_nat i); [|lia].
      apply N.le_antisymm.
      * destruct (N.le_gt_cases q (N.of_nat i)) as [?|Hgt]; [done|]. exfalso.
        assert ((N.of_nat i + 1) * (inc + 1) <= q * (inc + 1))%N
          by (apply N.mul_le_mono_r; lia). lia.
      * destruct (N.le_gt_cases (N.of_nat i) q) as [?|Hgt]; [done|]. exfalso.
        assert ((q + 1) * (inc + 1) <= N.of_nat i * (inc + 1))%N
          by (apply N.mul_le_mono_r; lia). lia.
    + assert (q = N.of_nat i) as <- by lia. lia.
Qed.

Lemma digest_below_end d :
  (from_bytes_be d <= from_bytes_be (replicate (length d) xff))%N.
Proof.
  rewrite !from_bytes_be_value.
  pose proof (be_value_bound d). pose proof (be_value_ff (length d)). lia.
Qed.

(** The map built from the leaders and their slices. *)
Lemma division_fold (leaders : list NodeId) (sl : nat -> HashSpace) k :
  NoDup leaders -> k <= length leaders ->
  exists m : gmap NodeId HashSpace,
    foldl (fun acc '(leader_id, slice) =>
             slice_for_leaders ← acc;
             match leaders !! leader_id with
             | Some leader => Ok (<[leader := slice]> slice_for_leaders)
             | None => Panic
             end) (Ok ∅ : Result _) (imap pair (sl <$> List.seq 0 k)) = Ok m /\
    (forall i l, leaders !! i = Some l -> m !! l = if decide (i < k) then Some (sl i) else None) /\
    (forall l, is_Some (m !! l) -> l ∈ leaders).
Proof.
  intros Hnd. induction k as [|k IH]; intros Hk.
  - exists ∅. split_and!; [done| |].
    + intros i l _. by rewrite decide_False by lia.
    + intros l. rewrite lookup_empty. by intros [??].
  - destruct IH as (m & Hm & Hl & Hd); [lia|].
    destruct (lookup_lt_is_Some_2 leaders k) as [x Hx]; [lia|].
    exists (<[x := sl k]> m). split_and!.
    + rewrite seq_S, fmap_app, imap_app, foldl_app, Hm. simpl.
      rewrite length_fmap, length_seq, Nat.add_0_r, Hx. done.
    + intros i l Hi. destruct (decide (i = k)) as [->|Hne].
      * simplify_eq. rewrite lookup_insert_eq. by rewrite decide_True by lia.
      * rewrite lookup_insert_ne; [|intros ->; by eapply Hne, NoDup_lookup].
        rewrite (Hl i l Hi). repeat case_decide; lia || done.
    + intros l [y Hy]. destruct (decide (x = l)) as [<-|Hne].
      * eapply list_elem_of_lookup_2, Hx.
      * rewrite lookup_insert_ne in Hy by done. eauto.
Qed.

Lemma division_ok (leaders : list NodeId) :
  NoDup leaders -> leaders <> [] ->
  let end_ := from_bytes_be (replicate digest_length xff) in
  exists m, calculate_hash_space_division leaders = Ok m /\
    (forall i l, leaders !! i = Some l -> m !! l = Some
      (slice_of end_ (end_ / N.of_nat (length leaders)) (length leaders) i)) /\
    (forall l, is_Some (m !! l) -> l ∈ leaders).
Proof.
  intros Hnd Hne end_. unfold calculate_hash_space_division.
  rewrite divide_hash_space_ok by (by destruct leaders). simpl.
  edestruct (division_fold leaders) as (m & Hm & Hl & Hd); [done|reflexivity|].
  exists m. split_and!; [exact Hm| |exact Hd].
  intros i l Hi. rewrite (Hl i l Hi). by rewrite decide_True by by eapply lookup_lt_Some.
Qed.

(** C40. The slices the leaders of a view get partition the digests: exactly one
    leader may propose a given request. *)
Theorem division_partition (leaders : list NodeId) (d : Digest) :
  NoDup leaders -> leaders <> [] -> length d = digest_length ->
  exists m, calculate_hash_space_division leaders = Ok m /\
    exists l, (l ∈ leaders /\ exists sp, m !! l = Some sp /\ is_request_in_hash_space d sp = true) /\
      forall l', (l' ∈ leaders /\
          exists sp, m !! l' = Some sp /\ is_request_in_hash_space d sp = true) -> l' = l.
Proof.
  intros Hnd Hne Hlen. destruct (division_ok leaders Hnd Hne) as (m & Hm & Hl & _).
  exists m. split; [done|].
  pose proof (digest_below_end d) as Hd. rewrite Hlen in Hd.
  set (end_ := from_bytes_be (replicate digest_length xff)) in *.
  set (inc := (end_ / N.of_nat (length leaders))%N) in *.
  set (j := N.to_nat (N.min (from_bytes_be d / (inc + 1)) (N.of_nat (length leaders - 1)))).
  assert (0 < length leaders) as Hpos by (destruct leaders; simpl; [done|lia]).
  destruct (lookup_lt_is_Some_2 leaders j) as [x Hx]; [lia|].
  exists x. split.
  - split; [by eapply list_elem_of_lookup_2|]. eexists. split; [by apply Hl|].
    eapply slice_of_contains; [lia|reflexivity|done..].
  - intros l' (Hin & sp & Hsp & Hb). apply list_elem_of_lookup in Hin as [i Hi].
    rewrite (Hl _ _ Hi) in Hsp. simplify_eq.
    eapply slice_of_contains in Hb; [|by eapply lookup_lt_Some|reflexivity|done].
    fold j in Hb. congruence.
Qed.

End hash_space.
Arguments calculate_hash_space_division : simpl never.
Arguments divide_hash_space : simpl never.

Module ViewInfo.
Section view_info.
Context {A : Atlas}.

Record t : Type := mk {
  seq : SeqNo;
  quorum_members : list NodeId;
  leader_set : list NodeId;
  leader_hash_space_division : gmap NodeId HashSpace;
  params : SystemParams;
}.

Definition LEADER_COUNT : nat := 1.

(** [n as u32] on a [usize]. *)
Definition as_u32 (n : nat) : nat := N.to_nat (N.of_nat n `mod` 2 ^ 32)%N.

(** [v[i % n]]: remainder by zero and an index out of range panic. *)
Definition index_mod (v : list NodeId) (i n : nat) : Result NodeId :=
  if decide (n = 0) then Panic
  else match v !! (i mod n) with Some x => Ok x | None => Panic end.

(** *** Construction *)

Definition sys_params (n f : nat) : Result SystemParams :=
  match sp_new n f with inr p => Ok p | inl e => Err (EExternal e) end.

(** The loop that appends the other leaders ([1..LEADER_COUNT]). *)
Definition other_leaders (quorum_members : list NodeId) (seq : SeqNo) (n : nat)
    : Result (list NodeId) :=
  foldl (fun acc i =>
           l ← acc;
           x ← index_mod quorum_members (N.to_nat seq + i) n;
           Ok (l ++ [x]))
    (Ok []) (List.seq 1 (LEADER_COUNT - 1)).

Definition build (seq : SeqNo) (quorum_members : list NodeId) (n : nat) (params : SystemParams)
    : Result t :=
  destined_leader ← index_mod quorum_members (N.to_nat seq) n;
  others ← other_leaders quorum_members seq n;
  let leader_set := destined_leader :: others in
  division ← calculate_hash_space_division leader_set;
  Ok (mk seq quorum_members leader_set division params).

Definition new (seq : SeqNo) (n f : nat) : Result t :=
  params ← sys_params n f;
  let quorum_members := node_targets (as_u32 n) in
  build seq quorum_members n params.

(** [(n - 1) / 3] underflows for an empty quorum. *)
Definition from_quorum (seq : SeqNo) (quorum_members : list NodeId) : Result t :=
  let n := length quorum_members in
  if decide (n = 0) then Panic
  else
    let f := (n - 1) / 3 in
    params ← sys_params n f;
    build seq quorum_members n params.

Fixpoint check_leaders (leaders quorum_participants : list NodeId) : Result unit :=
  match leaders with
  | [] => Ok tt
  | x :: leaders =>
      if decide (x ∈ quorum_participants) then check_leaders leaders quorum_participants
      else Err (EView (LeaderNotInQuorum x quorum_participants))
  end.

Definition with_leader_set (seq : SeqNo) (n f : nat)
    (quorum_participants leader_set : list NodeId) : Result t :=
  params ← sys_params n f;
  check_leaders leader_set quorum_participants ≫= fun _ =>
  division ← calculate_hash_space_division leader_set;
  Ok (mk seq quorum_participants leader_set division params).

(** [Result::unwrap]. *)
Definition unwrap_res {X} (r : Result X) : Result X :=
  match r with Ok x => Ok x | _ => Panic end.

Definition next_view (v : t) : Result t :=
  unwrap_res (new (sn_next v.(seq)) (sp_n v.(params)) (sp_f v.(params))).

Definition next_view_with_new_node (v : t) (joined_node : NodeId) : Result t :=
  let quorum_members := v.(quorum_members) ++ [joined_node] in
  unwrap_res (from_quorum (sn_next v.(seq)) quorum_members).

Definition previous_view (v : t) : Result (option t) :=
  if decide (v.(seq) = ZERO) then Ok None
  else
    p ← unwrap_res (new (sn_prev v.(seq)) (sp_n v.(params)) (sp_f v.(params)));
    Ok (Some p).

Definition peek (v : t) (seq : SeqNo) : Result t :=
  unwrap_res (new seq (sp_n v.(params)) (sp_f v.(params))).

Definition leader (v : t) : Result NodeId :=
  index_mod v.(quorum_members) (N.to_nat v.(seq)) (sp_n v.(params)).

(** [NetworkView]. *)
Definition primary (v : t) : Result NodeId := leader v.
Definition quorum (v : t) : nat := sp_quorum v.(params).
Definition f (v : t) : nat := sp_f v.(params).
Definition n (v : t) : nat := sp_n v.(params).
Definition sequence_number (v : t) : SeqNo := v.(seq).
(** *** Well-formed views *)

Definition wf (v : t) : Prop :=
  NoDup v.(quorum_members) /\
  length v.(quorum_members) = n v /\
  3 * f v + 1 <= n v /\
  (exists l, leader v = Ok l /\ v.(leader_set) = [l] /\ l ∈ v.(quorum_members)) /\
  calculate_hash_space_division v.(leader_set) = Ok v.(leader_hash_space_division).

Context {L : AtlasLaws}.

Lemma index_mod_ok (q : list NodeId) i :
  q <> [] -> exists x, index_mod q i (length q) = Ok x /\ x ∈ q /\ q !! (i mod length q) = Some x.
Proof.
  intros Hq. assert (length q <> 0) as Hl by (by destruct q).
  destruct (lookup_lt_is_Some_2 q (i mod length q)) as [x Hx].
  { by apply Nat.mod_upper_bound. }
  exists x. unfold index_mod. rewrite decide_False, Hx by done.
  eauto using list_elem_of_lookup_2.
Qed.

Lemma build_ok s (q : list NodeId) p :
  q <> [] -> NoDup q -> sp_n p = length q -> 3 * sp_f p + 1 <= length q ->
  exists v, build s q (length q) p = Ok v /\ wf v /\
    v.(seq) = s /\ v.(quorum_members) = q /\ v.(params) = p.
Proof.
  intros Hq Hnd Hn Hf. destruct (index_mod_ok q (N.to_nat s) Hq) as (x & Hx & Hin & _).
  destruct (division_ok [x]) as (m & Hm & _); [by apply NoDup_singleton|done|].
  exists (mk s q [x] m p). unfold build, other_leaders. rewrite Hx. cbn. rewrite Hm. cbn.
  split_and!; try done. unfold wf, n, f. cbn. split_and!; [done|done|lia| |done].
  exists x. unfold leader. cbn. by rewrite Hn.
Qed.

Lemma sys_params_ok n f p :
  sys_params n f = Ok p -> sp_n p = n /\ sp_f p = f /\ 3 * f + 1 <= n.
Proof. unfold sys_params. destruct (sp_new n f) eqn:E; [done|]. intros ?; simplify_eq. by apply sp_new_ok. Qed.

Lemma sys_params_accepts n f : 3 * f + 1 <= n -> exists p, sys_params n f = Ok p.
Proof. intros H. unfold sys_params. destruct (sp_new_accepts n f H) as [p ->]. eauto. Qed.

Lemma as_u32_small n : (N.of_nat n < 2 ^ 32)%N -> as_u32 n = n.
Proof. intros H. unfold as_u32. rewrite N.mod_small by done. lia. Qed.

Lemma targets_length n : length (node_targets n) = n.
Proof. by rewrite node_targets_range, length_fmap, length_seq. Qed.

Lemma targets_NoDup n : NoDup (node_targets n).
Proof.
  rewrite node_targets_range. apply NoDup_fmap_2; [|apply NoDup_seq].
  intros ??. lia.
Qed.

Lemma new_ok s n f :
  (N.of_nat n < 2 ^ 32)%N -> 3 * f + 1 <= n ->
  exists v, new s n f = Ok v /\ wf v /\ v.(seq) = s /\
    v.(quorum_members) = node_targets n /\ sp_n v.(params) = n /\ sp_f v.(params) = f.
Proof.
  intros H32 Hf. destruct (sys_params_accepts n f Hf) as [p Hp].
  destruct (sys_params_ok _ _ _ Hp) as (Hn & Hpf & _).
  assert (node_targets n <> []) as Hne.
  { intros E. pose proof (targets_length n) as Hl. rewrite E in Hl. simpl in Hl. lia. }
  destruct (build_ok s (node_targets n) p) as (v & Hb & Hwf & Hs & Hq & Hvp); eauto using targets_NoDup.
  { by rewrite targets_length. }
  { rewrite targets_length. lia. }
  exists v. unfold new. rewrite Hp. simpl. rewrite as_u32_small by done.
  rewrite targets_length in Hb. split_and!; try done; congruence.
Qed.

Lemma from_quorum_ok s (q : list NodeId) :
  NoDup q -> q <> [] ->
  exists v, from_quorum s q = Ok v /\ wf v /\ v.(seq) = s /\ v.(quorum_members) = q /\
    f v = (length q - 1) / 3.
Proof.
  intros Hnd Hq. assert (length q <> 0) as Hl by (by destruct q).
  assert (3 * ((length q - 1) / 3) + 1 <= length q) as H3.
  { pose proof (Nat.Div0.mul_div_le (length q - 1) 3). lia. }
  destruct (sys_params_accepts _ _ H3) as [p Hp].
  destruct (sys_params_ok _ _ _ Hp) as (Hn & Hpf & _).
  destruct (build_ok s q p) as (v & Hb & Hwf & Hs & Hvq & Hvp); [done..|by rewrite Hpf|].
  exists v. unfold from_quorum. rewrite decide_False by done. rewrite Hp. simpl.
  split_and!; try done. unfold f. by rewrite Hvp.
Qed.

Lemma wf_leader_division v l :
  wf v -> l ∈ v.(leader_set) -> is_Some (v.(leader_hash_space_division) !! l).
Proof.
  intros (_ & _ & _ & (l0 & _ & Hs & _) & Hd) Hl. rewrite Hs in *.
  destruct (division_ok [l0]) as (m & Hm & Hml & _); [apply NoDup_singleton|done|].
  rewrite Hd in Hm. simplify_eq. apply list_elem_of_singleton in Hl as ->.
  rewrite (Hml 0 l0); [eauto|done].
Qed.

(** The leader of a view may propose any request. *)
Lemma wf_leader_accepts v l d :
  wf v -> l ∈ v.(leader_set) -> length d = digest_length ->
  exists slice, v.(leader_hash_space_division) !! l = Some slice /\ is_request_in_hash_space d slice = true.
Proof.
  intros (_ & _ & _ & (l0 & _ & Hs & _) & Hd) Hl Hlen. rewrite Hs in *.
  destruct (division_ok [l0]) as (m & Hm & Hml & _); [apply NoDup_singleton|done|].
  rewrite Hd in Hm. simplify_eq. apply list_elem_of_singleton in Hl as ->.
  eexists. split; [by apply (Hml 0)|]. pose proof (digest_below_end d) as Hb. rewrite Hlen in Hb.
  eapply slice_of_contains; [cbn; lia|reflexivity|done|]. cbn. by rewrite N.min_0_r.
Qed.

(** *** Properties *)

(** The [k]-th view after [v], through [next_view]. *)
Fixpoint views_ahead (k : nat) (v : t) : Result t :=
  match k with
  | 0 => Ok v
  | S k => views_ahead k v ≫= next_view
  end.

Lemma next_view_ok v :
  (N.of_nat (n v) < 2 ^ 32)%N -> 3 * f v + 1 <= n v ->
  exists v', next_view v = Ok v' /\ wf v' /\ v'.(seq) = sn_next v.(seq) /\
    v'.(quorum_members) = node_targets (n v) /\ n v' = n v /\ f v' = f v.
Proof.
  intros H32 Hf. destruct (new_ok (sn_next v.(seq)) (n v) (f v) H32 Hf)
    as (v' & Hv' & Hrest).
  exists v'. unfold next_view, n, f in *. by rewrite Hv'.
Qed.

Lemma views_ahead_ok s m ft k v :
  (N.of_nat m < 2 ^ 32)%N -> 3 * ft + 1 <= m -> (s + N.of_nat k <= sn_max)%N ->
  new s m ft = Ok v ->
  exists v', views_ahead k v = Ok v' /\ wf v' /\ v'.(seq) = (s + N.of_nat k)%N /\
    v'.(quorum_members) = node_targets m /\ n v' = m /\ f v' = ft.
Proof.
  intros H32 Hf. revert v. induction k as [|k IH]; intros v Hk Hv.
  - destruct (new_ok s m ft H32 Hf) as (w & Hw & Hwf & Hs & Hq & Hn & Hpf).
    rewrite Hv in Hw. simplify_eq. exists w. cbn. split_and!; try done. lia.
  - destruct (IH v) as (w & Hw & Hwf & Hs & Hq & Hn & Hpf); [lia|done|].
    destruct (next_view_ok w) as (w' & Hw' & Hwf' & Hs' & Hq' & Hn' & Hf').
    { by rewrite Hn. } { by rewrite Hpf, Hn. }
    exists w'. cbn [views_ahead]. rewrite Hw. cbn. rewrite Hw'. split_and!; try congruence.
    rewrite Hs', Hs, sn_next_succ by lia. lia.
Qed.

(** Leadership rotates: within [n] consecutive views every member of the quorum
    is the leader of one of them. *)
Theorem leader_rotation s m ft v x :
  (N.of_nat m < 2 ^ 32)%N -> 3 * ft + 1 <= m -> (s + N.of_nat m <= sn_max)%N ->
  new s m ft = Ok v -> x ∈ v.(quorum_members) ->
  exists k v', k < m /\ views_ahead k v = Ok v' /\ leader v' = Ok x /\ v'.(leader_set) = [x].
Proof.
  intros H32 Hf Hmax Hv Hx.
  destruct (new_ok s m ft H32 Hf) as (w & Hw & _ & _ & Hq & _). rewrite Hv in Hw. simplify_eq.
  rewrite Hq, node_targets_range in Hx. apply list_elem_of_fmap in Hx as (i & -> & Hi).
  apply elem_of_seq in Hi.
  set (r := N.to_nat s mod m). assert (r < m) by (apply Nat.mod_upper_bound; lia).
  set (k := (i + m - r) mod m). assert (k < m) by (apply Nat.mod_upper_bound; lia).
  destruct (views_ahead_ok s m ft k w) as (v' & Hv' & Hwf & Hs & Hq' & Hn & _); [done|done|lia|done|].
  assert (leader v' = Ok (N.of_nat i)) as Hl.
  { unfold leader, index_mod. fold (n v'). rewrite Hn, decide_False by lia.
    rewrite Hs, Hq', node_targets_range, list_lookup_fmap, lookup_seq_lt.
    2: { apply Nat.mod_upper_bound. lia. }
    cbn. do 2 f_equal.
    replace (N.to_nat (s + N.of_nat k)) with (N.to_nat s + k) by lia.
    rewrite <- Nat.Div0.add_mod_idemp_l. fold r. unfold k.
    rewrite Nat.Div0.add_mod_idemp_r.
    replace (r + (i + m - r)) with (i + 1 * m) by lia.
    rewrite Nat.Div0.mod_add. apply Nat.mod_small. lia. }
  exists k, v'. split_and!; [done..|].
  destruct Hwf as (_ & _ & _ & (l & Hl' & Hset & _) & _). congruence.
Qed.

End view_info.
Arguments t : clear implicits.
Arguments t {A}.
End ViewInfo.
