(* ===== verification/Messages.v ===== *)
(** * Protocol messages ([bft/message/mod.rs]) and the data of decisions
      ([bft/log/decisions/mod.rs], [LeaderCollects] of [bft/sync/mod.rs])

    The types refer to each other: a STOP-DATA message carries the proof of the
    last decision, which is made of consensus messages, and a SYNC message
    carries STOP-DATA messages. *)
From S2P Require Import Prelude Atlas Errors View.

Section messages.
Context {A : Atlas}.

(** ** Consensus messages *)

Inductive ConsensusMessageKind :=
  | PrePrepare (rqs : list (StoredMessage RQ))
  | Prepare (d : Digest)
  | Commit (d : Digest).

Record ConsensusMessage := mkConsensusMessage {
  cm_seq : SeqNo;
  cm_view : SeqNo;
  cm_nonce : N;
  cm_kind : ConsensusMessageKind;
}.

(** ** Decisions and proofs *)

(** [ViewDecisionPair(SeqNo, Digest)]. *)
Record ViewDecisionPair := mkViewDecisionPair {
  vdp_view : SeqNo;
  vdp_digest : Digest;
}.

(** [PrepareSet(Vec<ViewDecisionPair>)] is written as its content. *)
Record IncompleteProof := mkIncompleteProof {
  in_exec : SeqNo;
  write_set : list ViewDecisionPair;
  quorum_prepares : option ViewDecisionPair;
}.

Record ProofMetadata := mkProofMetadata {
  pm_seq_no : SeqNo;
  pm_batch_digest : Digest;
  pm_pre_prepare_ordering : list (list byte);
  pm_contained_client_rqs : nat;
}.

Record FwdConsensusMessage := mkFwdConsensusMessage {
  fwd_header : Header;
  fwd_consensus_msg : ConsensusMessage;
}.

(** ** Observer messages *)

Inductive ObserveEventKind :=
  | CheckpointStart (s : SeqNo)
  | CheckpointEnd (s : SeqNo)
  | Ready (s : SeqNo)
  | PrepareEvent (s : SeqNo)
  | CommitEvent (s : SeqNo)
  | ConsensusEvent (s : SeqNo)
  | Executed (s : SeqNo)
  | NormalPhaseEvent (v : ViewInfo.t) (s : SeqNo)
  | ViewChangePhase
  | CollabStateTransfer.

Inductive ObserverMessage :=
  | ObserverRegister
  | ObserverRegisterResponse (b : bool)
  | ObserverUnregister
  | ObservedValue (e : ObserveEventKind).

(** ** The protocol messages *)

(** STOP-DATA and SYNC messages carry protocol messages, and are protocol messages: their types are parametric in
    the type [M] of the messages they carry, and [PBFTMessage] closes the circle. *)
Inductive DecProofOf (M : Type) :=
  | mkDecProof (metadata : ProofMetadata) (pre_prepares prepares commits : list (StoredMessage M)).

Inductive CollectDataOf (M : Type) :=
  | mkCollectData (incomplete_proof : IncompleteProof) (last_proof : option (DecProofOf M)).

Inductive LeaderCollectsOf (M : Type) :=
  | mkLeaderCollects (proposed : FwdConsensusMessage) (collects : list (StoredMessage M)).

Inductive ViewChangeMessageKindOf (M : Type) :=
  | Stop (rqs : list (StoredMessage RQ))
  | StopQuorumJoin (node : NodeId)
  | StopData (data : CollectDataOf M)
  | Sync (collects : LeaderCollectsOf M).

Inductive ViewChangeMessageOf (M : Type) :=
  | mkViewChangeMessage (view : SeqNo) (kind : ViewChangeMessageKindOf M).

Inductive PBFTMessage :=
  | Consensus (m : ConsensusMessage)
  | ViewChange (m : ViewChangeMessageOf PBFTMessage)
  | Observer (m : ObserverMessage).
End messages.
Arguments mkDecProof {A M}.
Arguments mkCollectData {A M}.
Arguments mkLeaderCollects {A M}.
Arguments Stop {A M}.
Arguments StopQuorumJoin {A M}.
Arguments StopData {A M}.
Arguments Sync {A M}.
Arguments mkViewChangeMessage {A M}.

Abbreviation DecProof := (DecProofOf PBFTMessage).
Abbreviation CollectData := (CollectDataOf PBFTMessage).
Abbreviation LeaderCollects := (LeaderCollectsOf PBFTMessage).
Abbreviation ViewChangeMessageKind := (ViewChangeMessageKindOf PBFTMessage).
Abbreviation ViewChangeMessage := (ViewChangeMessageOf PBFTMessage).

(** A [ShareableMessage<PBFTMessage<RQ>>], also the [StoredConsensusMessage]. *)
Abbreviation Shareable := (StoredMessage PBFTMessage).

Section operations.
Context {A : Atlas}.

(** *** [ConsensusMessage] *)

(** [fastrand::u16(0..u16::MAX)] draws the nonce. *)
Definition ConsensusMessage_new (nonce : N) (seq view : SeqNo) (kind : ConsensusMessageKind)
    : ConsensusMessage :=
  mkConsensusMessage seq view nonce kind.

Definition has_proposed_digest (m : ConsensusMessage) (digest : Digest) : option bool :=
  match m.(cm_kind) with
  | PrePrepare _ => None
  | Prepare d | Commit d => Some (bool_decide (d = digest))
  end.

Definition take_proposed_requests (m : ConsensusMessage)
    : option (list (StoredMessage RQ)) * ConsensusMessage :=
  match m.(cm_kind) with
  | PrePrepare v => (Some v, mkConsensusMessage m.(cm_seq) m.(cm_view) m.(cm_nonce) (PrePrepare []))
  | _ => (None, m)
  end.

(** *** [ViewChangeMessage] *)

Definition vc_view (m : ViewChangeMessage) : SeqNo :=
  match m with mkViewChangeMessage v _ => v end.
Definition vc_kind (m : ViewChangeMessage) : ViewChangeMessageKind :=
  match m with mkViewChangeMessage _ k => k end.

Definition take_collects (m : ViewChangeMessage) : option LeaderCollects :=
  match vc_kind m with Sync collects => Some collects | _ => None end.

(** *** [PBFTMessage] *)

Definition msg_sequence_number (m : PBFTMessage) : SeqNo :=
  match m with
  | Consensus c => c.(cm_seq)
  | ViewChange v => vc_view v
  | Observer _ => ZERO
  end.

Definition consensus (m : PBFTMessage) : Result ConsensusMessage :=
  match m with Consensus c => Ok c | _ => Panic end.

Definition view_change (m : PBFTMessage) : Result ViewChangeMessage :=
  match m with ViewChange v => Ok v | _ => Panic end.

Definition observer_message (m : PBFTMessage) : Result ObserverMessage :=
  match m with Observer o => Ok o | _ => Panic end.

(** *** [CollectData], [LeaderCollects], [FwdConsensusMessage] *)

Definition cd_incomplete_proof (c : CollectData) : IncompleteProof :=
  match c with mkCollectData i _ => i end.
Definition cd_last_proof (c : CollectData) : option DecProof :=
  match c with mkCollectData _ p => p end.

Definition lc_into_inner (l : LeaderCollects) : FwdConsensusMessage * list Shareable :=
  match l with mkLeaderCollects p c => (p, c) end.

Definition fwd_into_inner (m : FwdConsensusMessage) : Header * ConsensusMessage :=
  (m.(fwd_header), m.(fwd_consensus_msg)).
End operations.
