(* ===== verification/Decisions.v ===== *)
(** * Proofs of decisions ([bft/log/decisions/mod.rs])

    A [DecProof] holds the PRE-PREPARE, PREPARE and COMMIT messages that decided
    one consensus instance, with metadata that fixes the order of the
    pre-prepares.  Proofs travel as a flat list of messages and are rebuilt by
    [init_from_messages]. *)
From S2P Require Import Prelude Atlas Errors View Messages.

Module DecProof.
Section dec_proof.
Context {A : Atlas}.

Definition metadata (p : DecProof) : ProofMetadata := match p with mkDecProof m _ _ _ => m end.
Definition pre_prepares (p : DecProof) : list Shareable := match p with mkDecProof _ x _ _ => x end.
Definition prepares (p : DecProof) : list Shareable := match p with mkDecProof _ _ x _ => x end.
Definition commits (p : DecProof) : list Shareable := match p with mkDecProof _ _ _ x => x end.

Definition sequence_number (p : DecProof) : SeqNo := (metadata p).(pm_seq_no).

(** The kind of a stored consensus message; [consensus()] panics on another one. *)
Definition kind_of (x : Shareable) : Result ConsensusMessageKind :=
  c ← consensus x.(message); Ok c.(cm_kind).

(** The digest of a stored message. *)
Definition digest_of (x : Shareable) : Digest := hdr_digest x.(header).

(** The three vectors [init_from_messages] fills. *)
Definition Buckets : Type := list (option Shareable) * list Shareable * list Shareable.

(** One iteration of the loop over the messages. *)
Definition sort_message (ordering : list (list byte)) (acc : Buckets) (x : Shareable)
    : Result Buckets :=
  let '(pre_prepares, prepares, commits) := acc in
  k ← kind_of x;
  match k with
  | PrePrepare _ =>
      match position (fun digest => digest_of x = digest) ordering with
      | None => Err (EProof PrePrepareNotContainedInMetadata)
      | Some index => Ok (<[index := Some x]> pre_prepares, prepares, commits)
      end
  | Prepare _ => Ok (pre_prepares, prepares ++ [x], commits)
  | Commit _ => Ok (pre_prepares, prepares, commits ++ [x])
  end.

Definition sort_messages (ordering : list (list byte)) (acc : Result Buckets)
    (messages : list Shareable) : Result Buckets :=
  foldl (fun acc x => b ← acc; sort_message ordering b x) acc messages.

(** The loop that requires every slot to be filled. *)
Fixpoint complete (slots : list (option Shareable)) : Result (list Shareable) :=
  match slots with
  | [] => Ok []
  | None :: _ => Err (EProof PrePrepareListNotComplete)
  | Some m :: slots => rest ← complete slots; Ok (m :: rest)
  end.

Definition init_from_messages (metadata : ProofMetadata) (messages : list Shareable)
    : Result DecProof :=
  let ordering := metadata.(pm_pre_prepare_ordering) in
  '(pre_prepares, prepares, commits) ←
    sort_messages ordering (Ok (replicate (length ordering) None, [], [])) messages;
  pre_prepares_f ← complete pre_prepares;
  Ok (mkDecProof metadata pre_prepares_f prepares commits).

Definition check_pre_prepare_sizes (p : DecProof) : Result unit :=
  let expected := length (metadata p).(pm_pre_prepare_ordering) in
  let got := length (pre_prepares p) in
  if decide (expected = got) then Ok tt
  else Err (EProof (WrongPrePrepareCount expected got)).

(** [for index in 0..ordering.len()]. *)
Fixpoint ordered_loop (ordering : list (list byte)) (pps : list Shareable) : Result bool :=
  match ordering, pps with
  | [], _ => Ok true
  | d :: ordering, m :: pps =>
      if decide (d = digest_of m) then ordered_loop ordering pps else Ok false
  | _ :: _, [] => Panic
  end.

Definition are_pre_prepares_ordered (p : DecProof) : Result bool :=
  check_pre_prepare_sizes p ≫= fun _ =>
  ordered_loop (metadata p).(pm_pre_prepare_ordering) (pre_prepares p).

(** The loop of [order_pre_prepares]: the outcome, with the messages already
    moved to the ordered vector, and what is left in [self.pre_prepares]. *)
Fixpoint order_loop (ordering : list (list byte)) (pps ordered : list Shareable)
    : Result (list Shareable) * list Shareable :=
  match ordering with
  | [] => (Ok ordered, pps)
  | digest :: ordering =>
      match position (fun msg => digest_of msg = digest) pps with
      | Some index =>
          match swap_remove index pps with
          | Some (message, pps) => order_loop ordering pps (ordered ++ [message])
          | None => (Panic, pps)
          end
      | None => (Err (EProof BatchDigestsDoNotMatch), pps)
      end
  end.

(** [&mut self]: on an error the proof keeps the messages not yet moved. *)
Definition order_pre_prepares (p : DecProof) : Result unit * DecProof :=
  match check_pre_prepare_sizes p with
  | Ok _ =>
      match order_loop (metadata p).(pm_pre_prepare_ordering) (pre_prepares p) [] with
      | (Ok ordered, _) => (Ok tt, mkDecProof (metadata p) ordered (prepares p) (commits p))
      | (Err e, rest) => (Err e, mkDecProof (metadata p) rest (prepares p) (commits p))
      | (Panic, rest) => (Panic, mkDecProof (metadata p) rest (prepares p) (commits p))
      end
  | Err e => (Err e, p)
  | Panic => (Panic, p)
  end.

Definition into_parts (p : DecProof) : ProofMetadata * list Shareable :=
  (metadata p, pre_prepares p ++ prepares p ++ commits p).

(** *** Checking a received proof ([bft/message/serialize/mod.rs])

    [verify] is [OPVH::verify_protocol_message]. *)
Fixpoint verify_all (verify : Header -> PBFTMessage -> Result unit) (messages : list Shareable)
    : Result unit :=
  match messages with
  | [] => Ok tt
  | m :: messages => verify m.(header) m.(message) ≫= fun _ => verify_all verify messages
  end.

Definition verify_proof (verify : Header -> PBFTMessage -> Result unit) (p : DecProof)
    : Result DecProof :=
  let '(metadata, messages) := into_parts p in
  verify_all verify messages ≫= fun _ =>
  init_from_messages metadata messages.

(** ** Well-formed proofs *)

(** Each vector holds messages of its own kind, and the pre-prepares are the
    distinct ones the metadata names, in its order. *)
Definition is_pre_prepare (x : Shareable) : Prop := exists rqs, kind_of x = Ok (PrePrepare rqs).
Definition is_prepare (x : Shareable) : Prop := exists d, kind_of x = Ok (Prepare d).
Definition is_commit (x : Shareable) : Prop := exists d, kind_of x = Ok (Commit d).

Record wf (p : DecProof) : Prop := {
  wf_ordering : (metadata p).(pm_pre_prepare_ordering) = digest_of <$> pre_prepares p;
  wf_distinct : NoDup (metadata p).(pm_pre_prepare_ordering);
  wf_pre_prepares : Forall is_pre_prepare (pre_prepares p);
  wf_prepares : Forall is_prepare (prepares p);
  wf_commits : Forall is_commit (commits p);
}.

(** ** Lemmas *)

Lemma sort_messages_app ord acc l1 l2 :
  sort_messages ord acc (l1 ++ l2) = sort_messages ord (sort_messages ord acc l1) l2.
Proof. apply foldl_app. Qed.

Lemma sort_messages_cons ord b x l :
  sort_messages ord (Ok b) (x :: l) = sort_messages ord (sort_message ord b x) l.
Proof. done. Qed.

Arguments sort_messages : simpl never.

Lemma sort_prepares ord pp ps cs l :
  Forall is_prepare l ->
  sort_messages ord (Ok (pp, ps, cs)) l = Ok (pp, ps ++ l, cs).
Proof.
  intros Hl. revert ps. induction Hl as [|x l [d Hd] Hl IH]; intros ps.
  - by rewrite app_nil_r.
  - rewrite sort_messages_cons. cbn. rewrite Hd. cbn. rewrite IH, <- app_assoc. done.
Qed.

Lemma sort_commits ord pp ps cs l :
  Forall is_commit l ->
  sort_messages ord (Ok (pp, ps, cs)) l = Ok (pp, ps, cs ++ l).
Proof.
  intros Hl. revert cs. induction Hl as [|x l [d Hd] Hl IH]; intros cs.
  - by rewrite app_nil_r.
  - rewrite sort_messages_cons. cbn. rewrite Hd. cbn. rewrite IH, <- app_assoc. done.
Qed.

Lemma position_of_digest (ord : list (list byte)) i d :
  NoDup ord -> ord !! i = Some d -> position (fun d' => d = d') ord = Some i.
Proof.
  intros Hnd Hi. apply position_Some. exists d. split_and!; [done..|].
  intros j y Hj Hlt <-. pose proof (NoDup_lookup _ _ _ _ Hnd Hi Hj). lia.
Qed.

(** The pre-prepares fill their slots from left to right. *)
Lemma sort_pre_prepares (done_ todo : list Shareable) ps cs :
  let ord := digest_of <$> done_ ++ todo in
  NoDup ord -> Forall is_pre_prepare todo ->
  sort_messages ord (Ok ((Some <$> done_) ++ replicate (length todo) None, ps, cs)) todo =
  Ok (Some <$> done_ ++ todo, ps, cs).
Proof.
  intros ord Hnd Htodo. subst ord. revert done_ Hnd.
  induction Htodo as [|x todo [rqs Hx] Htodo IH]; intros done_ Hnd.
  - by rewrite !app_nil_r.
  - rewrite sort_messages_cons. cbn. rewrite Hx. cbn.
    rewrite (position_of_digest _ (length done_)); [|done|].
    2: { rewrite list_lookup_fmap, list_lookup_middle; done. }
    rewrite insert_app_r_alt by (by rewrite length_fmap).
    rewrite length_fmap, Nat.sub_diag. cbn.
    specialize (IH (done_ ++ [x])). rewrite <- !app_assoc in IH. cbn in IH.
    rewrite <- IH by done. by rewrite (fmap_app _ done_ [x]), <- app_assoc.
Qed.

Lemma complete_all (l : list Shareable) : complete (Some <$> l) = Ok l.
Proof. induction l as [|x l IH]; [done|]. cbn. by rewrite IH. Qed.

Lemma init_wf (p : DecProof) :
  wf p -> init_from_messages (metadata p) (pre_prepares p ++ prepares p ++ commits p) = Ok p.
Proof.
  intros [Ho Hd Hpp Hp Hc]. unfold init_from_messages. rewrite Ho in *.
  rewrite length_fmap, !sort_messages_app.
  pose proof (sort_pre_prepares [] (pre_prepares p) [] [] Hd Hpp) as Hs. cbn in Hs.
  rewrite Hs, sort_prepares by done. rewrite sort_commits by done. cbn.
  rewrite complete_all. cbn. by destruct p.
Qed.

Lemma verify_all_ok verify l :
  Forall (fun m => verify m.(header) m.(message) = Ok tt) l -> verify_all verify l = Ok tt.
Proof. induction 1 as [|m l Hm _ IH]; [done|]. cbn. by rewrite Hm. Qed.

Lemma ordered_loop_true ord pps :
  length ord = length pps ->
  ordered_loop ord pps = Ok true <-> ord = digest_of <$> pps.
Proof.
  revert pps. induction ord as [|d ord IH]; intros [|m pps]; cbn; [done..|].
  intros [=Hl]. case_decide as Hd.
  - rewrite IH by done. split; [by intros ->; subst|congruence].
  - split; congruence.
Qed.

Lemma ordered_loop_total ord pps :
  length ord = length pps -> exists b, ordered_loop ord pps = Ok b.
Proof.
  revert pps. induction ord as [|d ord IH]; intros [|m pps]; cbn; try done; eauto.
  intros [=Hl]. case_decide; eauto.
Qed.

Lemma order_loop_ok ord pps acc l rest :
  order_loop ord pps acc = (Ok l, rest) ->
  exists moved, l = acc ++ moved /\ ord = digest_of <$> moved /\ moved ++ rest ≡ₚ pps.
Proof.
  revert pps acc. induction ord as [|d ord IH]; intros pps acc; cbn.
  - intros ?. simplify_eq. exists []. by rewrite app_nil_r.
  - destruct (position _ pps) as [i|] eqn:Hp; [|done].
    apply position_Some in Hp as (m & Hm & Hd & _).
    destruct (swap_remove_spec _ _ _ Hm) as (pps' & -> & Hperm).
    intros (moved & -> & -> & Hmv)%IH. exists (m :: moved).
    rewrite <- app_assoc. cbn. rewrite Hd. split_and!; [done..|].
    by rewrite Hmv.
Qed.

Lemma order_loop_complete ord pps acc :
  ord ≡ₚ digest_of <$> pps -> exists l, order_loop ord pps acc = (Ok l, []).
Proof.
  revert pps acc. induction ord as [|d ord IH]; intros pps acc Hperm.
  - apply Permutation_nil_l in Hperm. destruct pps; [|done]. cbn. eauto.
  - cbn. destruct (position (fun msg => digest_of msg = d) pps) as [i|] eqn:Hp.
    + apply position_Some in Hp as (m & Hm & Hd & _).
      destruct (swap_remove_spec _ _ _ Hm) as (pps' & -> & Hp').
      apply IH. apply (Permutation_cons_inv (a := d)).
      rewrite Hperm, <- Hp', fmap_cons, Hd. done.
    + exfalso. apply position_None in Hp. rewrite Forall_forall in Hp.
      assert (d ∈ digest_of <$> pps) as Hin by (rewrite <- Hperm; left).
      apply list_elem_of_fmap in Hin as (m & -> & Hm). by eapply Hp.
Qed.
(** The boolean kind tests. *)
Definition is_prepareb (x : Shareable) : bool :=
  match kind_of x with Ok (Prepare _) => true | _ => false end.
Definition is_commitb (x : Shareable) : bool :=
  match kind_of x with Ok (Commit _) => true | _ => false end.

Lemma filter_all (P : Shareable -> bool) l :
  Forall (fun x => P x = true) l -> filter (fun x => P x = true) l = l.
Proof.
  induction 1 as [|x l Hx _ IH]; [done|]. by rewrite filter_cons_True, IH.
Qed.

Lemma filter_none (P : Shareable -> bool) l :
  Forall (fun x => P x = false) l -> filter (fun x => P x = true) l = [].
Proof.
  induction 1 as [|x l Hx _ IH]; [done|]. rewrite filter_cons_False, IH; [done|congruence].
Qed.

(** A slot vector agrees with the pre-prepares [pps] and holds those of [seen]. *)
Definition slots_for (pps : list Shareable) (seen : Shareable -> Prop)
    (slots : list (option Shareable)) : Prop :=
  length slots = length pps /\
  forall i x, pps !! i = Some x ->
    (slots !! i = Some (Some x) /\ seen x) \/ (slots !! i = Some None /\ ~ seen x).

Lemma slots_for_insert pps seen slots i x :
  NoDup pps -> slots_for pps seen slots -> pps !! i = Some x ->
  slots_for pps (fun y => y = x \/ seen y) (<[i := Some x]> slots).
Proof.
  intros Hnd [Hl Hs] Hi. split; [by rewrite length_insert|].
  intros j y Hj. destruct (decide (i = j)) as [->|Hne].
  - simplify_eq. left. split; [|by left].
    apply list_lookup_insert_eq. rewrite Hl. by eapply lookup_lt_Some.
  - rewrite list_lookup_insert_ne by done.
    destruct (Hs j y Hj) as [[? ?]|[? ?]]; [left; tauto|right].
    split; [done|]. intros [->|?]; [|done]. by eapply Hne, NoDup_lookup.
Qed.

Lemma slots_for_ext pps (seen seen' : Shareable -> Prop) slots :
  (forall x, seen x <-> seen' x) -> slots_for pps seen slots -> slots_for pps seen' slots.
Proof.
  intros He [Hl Hs]. split; [done|]. intros i x Hi. destruct (Hs i x Hi); rewrite He in *; tauto.
Qed.

(** Messages in any order: the pre-prepares land in their slots, the votes keep
    their order of arrival. *)
Lemma sort_any_order (pps l : list Shareable) seen slots ps cs :
  NoDup (digest_of <$> pps) ->
  Forall (fun x => (is_pre_prepare x /\ x ∈ pps) \/ is_prepare x \/ is_commit x) l ->
  slots_for pps seen slots ->
  exists slots', sort_messages (digest_of <$> pps) (Ok (slots, ps, cs)) l =
      Ok (slots', ps ++ filter (fun x => is_prepareb x = true) l,
                  cs ++ filter (fun x => is_commitb x = true) l) /\
    slots_for pps (fun x => seen x \/ (x ∈ l /\ is_pre_prepare x)) slots'.
Proof.
  intros Hnd Hl. revert seen slots ps cs.
  induction Hl as [|x l Hx Hl IH]; intros seen slots ps cs Hs.
  { exists slots. rewrite !app_nil_r. split; [done|]. eapply slots_for_ext, Hs. set_solver. }
  rewrite sort_messages_cons. cbn [sort_message].
  destruct Hx as [[[r Hk] Hin]|[[d Hk]|[d Hk]]]; rewrite Hk; cbn [mbind Res_bind].
  - apply list_elem_of_lookup in Hin as [i Hi].
    rewrite (position_of_digest _ i); [|done|by rewrite list_lookup_fmap, Hi].
    destruct (IH _ _ ps cs (slots_for_insert _ _ _ _ _ (NoDup_fmap_1 _ _ Hnd) Hs Hi))
      as (slots' & -> & Hs').
    exists slots'. rewrite !filter_cons_False by (unfold is_prepareb, is_commitb; by rewrite Hk).
    split; [done|]. eapply slots_for_ext, Hs'. intros y. rewrite elem_of_cons.
    split; [|tauto]. intros [[->|?]|?]; [|tauto..]. right. split; [by left|]. by exists r.
  - destruct (IH seen slots (ps ++ [x]) cs Hs) as (slots' & -> & Hs').
    exists slots'. rewrite filter_cons_True, filter_cons_False, <- app_assoc
      by (unfold is_prepareb, is_commitb; by rewrite Hk).
    split; [done|]. eapply slots_for_ext, Hs'. intros y. rewrite elem_of_cons.
    unfold is_pre_prepare. split; [tauto|]. intros [?|[[->|?] [? ?]]]; eauto. congruence.
  - destruct (IH seen slots ps (cs ++ [x]) Hs) as (slots' & -> & Hs').
    exists slots'. rewrite filter_cons_False, filter_cons_True, <- app_assoc
      by (unfold is_prepareb, is_commitb; by rewrite Hk).
    split; [done|]. eapply slots_for_ext, Hs'. intros y. rewrite elem_of_cons.
    unfold is_pre_prepare. split; [tauto|]. intros [?|[[->|?] [? ?]]]; eauto. congruence.
Qed.

Lemma slots_for_full pps seen slots :
  slots_for pps seen slots -> (forall x, x ∈ pps -> seen x) -> slots = Some <$> pps.
Proof.
  intros [Hl Hs] Hseen. apply list_eq_same_length with (length pps); [|done|].
  { by rewrite length_fmap. }
  intros i o o' Hlt Ho Ho'. rewrite list_lookup_fmap in Ho'.
  destruct (lookup_lt_is_Some_2 pps i Hlt) as [x Hx]. rewrite Hx in Ho'. cbn in Ho'.
  destruct (Hs i x Hx) as [[? ?]|[? Hn]]; simplify_eq; [done|].
  destruct Hn. apply Hseen. by eapply list_elem_of_lookup_2.
Qed.

(** Every filled slot carries the digest the metadata gives it. *)
Definition slots_ordered (ord : list (list byte)) (slots : list (option Shareable)) : Prop :=
  length slots = length ord /\
  forall i x, slots !! i = Some (Some x) -> ord !! i = Some (digest_of x).

Lemma sort_message_ordered ord b x b' :
  slots_ordered ord b.1.1 -> sort_message ord b x = Ok b' -> slots_ordered ord b'.1.1.
Proof.
  destruct b as [[pp ps] cs]. unfold sort_message. intros [Hl Hs].
  destruct (kind_of x) as [[]| |]; cbn; try done; [|by intros ?; simplify_eq..].
  destruct (position _ ord) as [i|] eqn:Hp; [|done]. intros ?; simplify_eq. cbn in *.
  apply position_Some in Hp as (d & Hd & Hdx & _). split; [by rewrite length_insert|].
  intros j y. destruct (decide (i = j)) as [->|Hne].
  - rewrite list_lookup_insert_eq by (rewrite Hl; by eapply lookup_lt_Some).
    intros; by simplify_eq.
  - rewrite list_lookup_insert_ne by done. apply Hs.
Qed.

Lemma sort_messages_ordered ord l : forall b b',
  slots_ordered ord b.1.1 -> sort_messages ord (Ok b) l = Ok b' -> slots_ordered ord b'.1.1.
Proof.
  induction l as [|x l IH]; intros b b' Hb.
  - intros [= <-]. done.
  - rewrite sort_messages_cons. destruct (sort_message ord b x) as [b1|e|] eqn:E.
    + apply IH. by eapply sort_message_ordered.
    + unfold sort_messages. by rewrite foldl_stuck.
    + unfold sort_messages. by rewrite foldl_stuck.
Qed.

Lemma complete_inv slots l : complete slots = Ok l -> slots = Some <$> l.
Proof.
  revert l. induction slots as [|[m|] slots IH]; intros l; cbn; [by intros [= <-]| |done].
  destruct (complete slots) as [r| |] eqn:E; [|done..]. cbn. intros [= <-].
  by rewrite (IH r).
Qed.

Lemma init_ordered m l q :
  init_from_messages m l = Ok q ->
  metadata q = m /\ pm_pre_prepare_ordering m = digest_of <$> pre_prepares q.
Proof.
  unfold init_from_messages. set (ord := pm_pre_prepare_ordering m).
  destruct (sort_messages ord _ l) as [[[pp ps] cs]| |] eqn:Hs; [|done..]. cbn.
  destruct (complete pp) as [f| |] eqn:Hc; [|done..]. cbn. intros [= <-]. cbn.
  split; [done|]. apply complete_inv in Hc as ->.
  apply sort_messages_ordered in Hs as [Hl Hslot]; cbn in *.
  2: { split; [by rewrite length_replicate|]. intros i x Hx.
       apply lookup_replicate in Hx as [? _]. done. }
  apply list_eq. intros i. rewrite list_lookup_fmap.
  destruct (f !! i) as [x|] eqn:Hx; cbn.
  - apply Hslot. by rewrite list_lookup_fmap, Hx.
  - apply lookup_ge_None. rewrite <- Hl, length_fmap. by apply lookup_ge_None.
Qed.

Lemma ordered_proof_check p :
  pm_pre_prepare_ordering (metadata p) = digest_of <$> pre_prepares p ->
  are_pre_prepares_ordered p = Ok true.
Proof.
  intros Ho. unfold are_pre_prepares_ordered, check_pre_prepare_sizes.
  rewrite Ho, length_fmap, decide_True by done. cbn.
  apply ordered_loop_true; [by rewrite length_fmap|done].
Qed.

(** ** Properties *)

(** C36. Rebuilding a well-formed proof from its messages in any order of arrival
    gives back the metadata and the pre-prepares in the order the metadata
    fixes, and the prepares and commits up to order; in the order of
    [into_parts] the very same proof comes back. *)
Theorem init_from_messages_roundtrip (p : DecProof) (l : list Shareable) :
  wf p -> l ≡ₚ (into_parts p).2 ->
  init_from_messages (into_parts p).1 (into_parts p).2 = Ok p /\
  exists ps cs, init_from_messages (into_parts p).1 l =
      Ok (mkDecProof (metadata p) (pre_prepares p) ps cs) /\
    ps ≡ₚ prepares p /\ cs ≡ₚ commits p.
Proof.
  intros Hwf Hl. split; [by apply init_wf|]. destruct Hwf as [Ho Hd Hpp Hp Hc].
  cbn in *. unfold init_from_messages. rewrite Ho in *. rewrite length_fmap.
  edestruct (sort_any_order (pre_prepares p) l (fun _ => False)
    (replicate (length (pre_prepares p)) None) [] []) as (slots & Hsort & Hslots); [done|..].
  - rewrite Hl, !Forall_app, !Forall_forall in *.
    split_and!; intros x Hx; [left|right; left|right; right]; eauto.
  - split; [by rewrite length_replicate|]. intros i x Hx. right. split; [|tauto].
    apply lookup_replicate. split; [done|]. by eapply lookup_lt_Some.
  - apply slots_for_full in Hslots.
    2: { intros x Hx. right. rewrite Hl, !elem_of_app. rewrite Forall_forall in Hpp. eauto. }
    rewrite Hsort. cbn. rewrite Hslots, complete_all. cbn. do 2 eexists. split; [reflexivity|].
    rewrite Hl, !filter_app.
    rewrite (filter_none is_prepareb (pre_prepares p)), (filter_all is_prepareb (prepares p)),
      (filter_none is_prepareb (commits p)), (filter_none is_commitb (pre_prepares p)),
      (filter_none is_commitb (prepares p)), (filter_all is_commitb (commits p)), !app_nil_r; [done|..].
    all: eapply Forall_impl; [eassumption|]; intros x [? Hk];
      unfold is_prepareb, is_commitb; by rewrite Hk.
Qed.

(** Whatever the peers sent, a proof accepted by [verify_proof] passes the
    order check that the conversion to a decision relies on ([todo!()]
    otherwise), and a well-formed proof whose messages all verify is accepted
    unchanged. *)
Theorem verify_proof_correct (verify : Header -> PBFTMessage -> Result unit) (p : DecProof) :
  (forall q, verify_proof verify p = Ok q ->
     metadata q = metadata p /\ are_pre_prepares_ordered q = Ok true) /\
  (wf p -> Forall (fun m => verify m.(header) m.(message) = Ok tt) (into_parts p).2 ->
     verify_proof verify p = Ok p).
Proof.
  split.
  - intros q. unfold verify_proof. cbn.
    destruct (verify_all _ _) as [[]| |]; [|done..]. cbn. intros [Hm Ho]%init_ordered.
    split; [done|]. apply ordered_proof_check. by rewrite Hm.
  - intros Hwf Hv. unfold verify_proof. cbn in *. rewrite verify_all_ok by done. cbn.
    by apply init_wf.
Qed.

(** [order_pre_prepares] succeeds exactly when the digests of the stored
    pre-prepares are the ones the metadata lists, whatever their order; it then
    permutes them into that order and touches nothing else. *)
Theorem order_pre_prepares_correct (p : DecProof) :
  (pm_pre_prepare_ordering (metadata p) ≡ₚ digest_of <$> pre_prepares p ->
     exists p', order_pre_prepares p = (Ok tt, p')) /\
  (forall p', order_pre_prepares p = (Ok tt, p') ->
     pm_pre_prepare_ordering (metadata p) ≡ₚ digest_of <$> pre_prepares p /\
     are_pre_prepares_ordered p' = Ok true /\ pre_prepares p' ≡ₚ pre_prepares p /\
     metadata p' = metadata p /\ prepares p' = prepares p /\ commits p' = commits p).
Proof.
  unfold order_pre_prepares, check_pre_prepare_sizes. split.
  - intros Hperm. rewrite decide_True by (by rewrite Hperm, length_fmap).
    destruct (order_loop_complete _ _ [] Hperm) as [l ->]. eauto.
  - intros p'. case_decide as Hlen; [|done].
    destruct (order_loop _ _ _) as [[l|e|] rest] eqn:Ho; intros Hp'; simplify_eq.
    apply order_loop_ok in Ho as (moved & -> & Hord & Hperm). cbn in *.
    assert (rest = []) as ->.
    { apply nil_length_inv. apply Permutation_length in Hperm.
      rewrite length_app in Hperm. rewrite Hord, length_fmap in Hlen. lia. }
    rewrite app_nil_r in Hperm. rewrite Hord. split_and!; try done; [by rewrite Hperm|].
    by apply ordered_proof_check.
Qed.
End dec_proof.
End DecProof.
