(* ===== verification/Verification.v ===== *)
(** * Verification of received messages ([bft/message/serialize/mod.rs])

    Before a message is handed to the protocol, the messages and client requests inside it are verified through the helper of
    the communication layer; [verify_request] and [verify_protocol] stand for its two operations. *)
From S2P Require Import Prelude Atlas Errors View Messages Decisions.

Module Verification.
Section verification.
Context {A : Atlas}.
Context (verify_request : Header -> RQ -> Result unit) (verify_protocol : Header -> PBFTMessage -> Result unit).

(** [for request in requests { OPVH::verify_request_message(..)?; }]. *)
Fixpoint verify_requests (requests : list (StoredMessage RQ)) : Result unit :=
  match requests with
  | [] => Ok tt
  | request :: requests =>
      verify_request request.(header) request.(message) ≫= fun _ => verify_requests requests
  end.

Definition verify_sync (collects : LeaderCollects) : Result unit :=
  let '(mkLeaderCollects fwd collects) := collects in
  verify_protocol fwd.(fwd_header) (Messages.Consensus fwd.(fwd_consensus_msg)) ≫= fun _ =>
  DecProof.verify_all verify_protocol collects.

Definition internally_verify_message (m : PBFTMessage) : Result unit :=
  match m with
  | Messages.Consensus consensus =>
      match consensus.(cm_kind) with
      | PrePrepare requests => verify_requests requests
      | Prepare _ | Commit _ => Ok tt
      end
  | ViewChange (mkViewChangeMessage _ kind) =>
      match kind with
      | Stop timed_out_req => verify_requests timed_out_req
      | StopQuorumJoin _ => Ok tt
      | StopData _ => Ok tt
      | Sync leader_collects => verify_sync leader_collects
      end
  | Observer _ => Ok tt
  end.

(** ** What an accepted message guarantees *)

(** The client requests a message hands to the protocol: proposed, stopped for, or proposed by the new leader.  Those inside
    the proof of a STOP-DATA message are told apart, since nothing looks at them. *)
Inductive carries : PBFTMessage -> StoredMessage RQ -> Prop :=
  | carries_pre_prepare c rqs r : c.(cm_kind) = PrePrepare rqs -> r ∈ rqs -> carries (Messages.Consensus c) r
  | carries_stop v rqs r : r ∈ rqs -> carries (ViewChange (mkViewChangeMessage v (Stop rqs))) r
  | carries_proposed v fwd collects r : carries (Messages.Consensus fwd.(fwd_consensus_msg)) r ->
      carries (ViewChange (mkViewChangeMessage v (Sync (mkLeaderCollects fwd collects)))) r
  | carries_collect v fwd collects c r : c ∈ collects -> carries c.(message) r ->
      carries (ViewChange (mkViewChangeMessage v (Sync (mkLeaderCollects fwd collects)))) r.

(** The messages a SYNC message embeds. *)
Definition embeds (m : PBFTMessage) (x : Header * PBFTMessage) : Prop :=
  match m with
  | ViewChange (mkViewChangeMessage _ (Sync (mkLeaderCollects fwd collects))) =>
      x = (fwd.(fwd_header), Messages.Consensus fwd.(fwd_consensus_msg)) \/ exists c, c ∈ collects /\ x = (c.(header), c.(message))
  | _ => False
  end.

Lemma verify_requests_ok rqs :
  verify_requests rqs = Ok tt <-> Forall (fun r => verify_request r.(header) r.(message) = Ok tt) rqs.
Proof.
  induction rqs as [|r rqs IH]; cbn; [split; [constructor|done]|]. rewrite Forall_cons, <- IH.
  destruct (verify_request _ _) as [[]| |]; cbn; naive_solver.
Qed.

Lemma verify_all_inv l :
  DecProof.verify_all verify_protocol l = Ok tt <-> Forall (fun m => verify_protocol m.(header) m.(message) = Ok tt) l.
Proof.
  split; [|apply DecProof.verify_all_ok]. induction l as [|m l IH]; cbn; [constructor|].
  destruct (verify_protocol _ _) as [[]| |] eqn:E; cbn; [|done..]. constructor; auto.
Qed.

Lemma verify_sync_ok fwd collects :
  verify_sync (mkLeaderCollects fwd collects) = Ok tt <->
  verify_protocol fwd.(fwd_header) (Messages.Consensus fwd.(fwd_consensus_msg)) = Ok tt /\
  Forall (fun m => verify_protocol m.(header) m.(message) = Ok tt) collects.
Proof.
  unfold verify_sync. rewrite <- verify_all_inv.
  destruct (verify_protocol _ _) as [[]| |]; cbn; naive_solver.
Qed.

(** C35. The verification is thorough but for one place.  If the helper of the communication layer accepts a protocol message
    only when it passes [internally_verify_message] in turn, a message is accepted only if every message
    it embeds and every client request it carries, at any depth, was verified; but a STOP-DATA message is accepted whatever the proof and
    the prepared values in it are. *)
Theorem accepted_verified m :
  (forall h x, verify_protocol h x = Ok tt -> internally_verify_message x = Ok tt) ->
  (internally_verify_message m = Ok tt ->
     (forall x, embeds m x -> verify_protocol x.1 x.2 = Ok tt) /\
     (forall r, carries m r -> verify_request r.(header) r.(message) = Ok tt)) /\
  (forall v data, internally_verify_message (ViewChange (mkViewChangeMessage v (StopData data))) = Ok tt).
Proof.
  intros Hrec. split; [|done]. intros Hok. split.
  - intros x Hx. destruct m as [c|[v [rqs|n|data|[fwd collects]]]|o]; try done.
    apply verify_sync_ok in Hok as [Hf Hc]. rewrite Forall_forall in Hc. destruct Hx as [-> | (c & Hin & ->)]; [done|by apply Hc].
  - intros r Hr. induction Hr as [c rqs r Hk Hin|v rqs r Hin|v fwd collects r Hr IH|v fwd collects c r Hin Hr IH].
    + cbn in Hok. rewrite Hk, verify_requests_ok, Forall_forall in Hok. by apply Hok.
    + cbn in Hok. rewrite verify_requests_ok, Forall_forall in Hok. by apply Hok.
    + apply verify_sync_ok in Hok as [Hf _]. apply IH. by eapply Hrec.
    + apply verify_sync_ok in Hok as [_ Hc]. rewrite Forall_forall in Hc. apply IH. eapply Hrec. by apply Hc.
Qed.
End verification.
End Verification.
