(* ===== verification/Deciding.v ===== *)
(** * The log of an instance being decided ([bft/log/deciding/mod.rs])

    A [WorkingDecisionLog] collects the pre-prepares of the leaders and the votes
    of the replicas for one consensus instance and, when every leader has
    proposed, fixes the digest of the whole batch. *)
From S2P Require Import Prelude Atlas Errors View Messages Decisions.

(** [v[i] = x]; [None] is the panic of an index out of range. *)
Definition vec_set {X} (i : nat) (x : X) (l : list X) : option (list X) :=
  if decide (i < length l) then Some (<[i := x]> l) else None.

(** [opt.unwrap()] on every element of a vector. *)
Definition unwrap_all {X} (l : list (option X)) : option (list X) := mapM id l.

Module MessageLog.
Section message_log.
Context {A : Atlas}.

Record t := mk {
  pre_prepare : list (option Shareable);
  prepares : list Shareable;
  commits : list Shareable;
}.

(** The [quorum] argument only sizes the vectors. *)
Definition with_leader_count (leaders quorum : nat) : t := mk (replicate leaders None) [] [].

Definition insert_pre_prepare {W} (index : nat) (m : Shareable) : M t W Error unit :=
  l ← get;
  pp ← unwrap (vec_set index (Some m) l.(pre_prepare));
  put (mk pp l.(prepares) l.(commits)).

Definition insert_prepare (prepare : Shareable) (l : t) : t :=
  mk l.(pre_prepare) (l.(prepares) ++ [prepare]) l.(commits).

Definition insert_commit (commit : Shareable) (l : t) : t :=
  mk l.(pre_prepare) l.(prepares) (l.(commits) ++ [commit]).
End message_log.
End MessageLog.

Section finished.
Context {A : Atlas}.

Record FinishedMessageLog := mkFinished {
  fin_pre_prepares : list Shareable;
  fin_prepares : list Shareable;
  fin_commits : list Shareable;
}.

Definition MessageLog_finalize (l : MessageLog.t) : Result FinishedMessageLog :=
  match unwrap_all l.(MessageLog.pre_prepare) with
  | Some pp => Ok (mkFinished pp l.(MessageLog.prepares) l.(MessageLog.commits))
  | None => Panic
  end.

(** [BatchMeta]: of the measurements kept about a batch only the number of
    requests is not a point in time. *)
Record BatchMeta := mkBatchMeta { batch_size : nat }.

Record CompletedBatch := mkCompletedBatch {
  cb_seq : SeqNo;
  cb_digest : Digest;
  cb_pre_prepare_ordering : list (list byte);
  cb_contained_messages : FinishedMessageLog;
  cb_client_request_info : list ClientRqInfo;
  cb_client_requests : list (StoredMessage RQ);
  cb_batch_meta : BatchMeta;
}.

Definition request_count (b : CompletedBatch) : nat := length b.(cb_client_requests).
End finished.

Module DuplicateReplicaEvaluator.
Record t := mk {
  leader_set : list NodeId;
  received_pre_prepare_messages : gset NodeId;
  received_prepare_messages : gset NodeId;
  received_commit_messages : gset NodeId;
}.

Definition default : t := mk [] ∅ ∅ ∅.

Definition insert_pre_prepare_received {W} (node_id : NodeId) : M t W Error unit :=
  e ← get;
  if decide (node_id ∈ e.(received_pre_prepare_messages))
  then fail (EDecidingLog (DuplicateVoteFromNode node_id))
  else put (mk e.(leader_set) ({[node_id]} ∪ e.(received_pre_prepare_messages))
              e.(received_prepare_messages) e.(received_commit_messages)).

Definition insert_prepare_received {W} (node_id : NodeId) : M t W Error unit :=
  e ← get;
  if decide (node_id ∈ e.(received_prepare_messages))
  then fail (EDecidingLog (DuplicateVoteFromNode node_id))
  else put (mk e.(leader_set) e.(received_pre_prepare_messages)
              ({[node_id]} ∪ e.(received_prepare_messages)) e.(received_commit_messages)).

Definition insert_commit_received {W} (node_id : NodeId) : M t W Error unit :=
  e ← get;
  if decide (node_id ∈ e.(received_commit_messages))
  then fail (EDecidingLog (DuplicateVoteFromNode node_id))
  else put (mk e.(leader_set) e.(received_pre_prepare_messages)
              e.(received_prepare_messages) ({[node_id]} ∪ e.(received_commit_messages))).
End DuplicateReplicaEvaluator.

(** *** Positions in the proposal vectors *)

Definition pre_prepare_index_from_digest_opt (prepare_set : list (option (list byte)))
    (digest : Digest) : Result nat :=
  match position (fun pp => pp = Some digest) prepare_set with
  | None => Err (EDecidingLog (PrePrepareNotPartOfSet digest (omap id prepare_set)))
  | Some pos => Ok pos
  end.

Definition pre_prepare_index_of_from_digest (prepare_set : list (list byte))
    (pre_prepare : Digest) : Result nat :=
  match position (fun d => pre_prepare = d) prepare_set with
  | None => Err (EDecidingLog (PrePrepareNotPartOfSet pre_prepare prepare_set))
  | Some pos => Ok pos
  end.

Definition pre_prepare_index_of (leader_set : list NodeId) (proposer : NodeId) : Result nat :=
  match position (fun node => node = proposer) leader_set with
  | None => Err (EDecidingLog (ProposerNotInLeaderSet proposer leader_set))
  | Some pos => Ok pos
  end.

Module WorkingDecisionLog.
Section working_log.
Context {A : Atlas}.

Record t := mk {
  node_id : NodeId;
  seq_no : SeqNo;
  duplicate_detection : DuplicateReplicaEvaluator.t;
  batch_digest : option (list byte);
  pre_prepare_digests : list (option (list byte));
  current_received_pre_prepares : nat;
  current_batch_size : nat;
  client_rqs : list ClientRqInfo;
  leader_set : list NodeId;
  request_space_slices : gmap NodeId HashSpace;
  message_log : MessageLog.t;
  batch_meta : BatchMeta;
  contained_requests : list (option (list (StoredMessage RQ)));
}.

Definition set_duplicate_detection x l := mk l.(node_id) l.(seq_no) x l.(batch_digest)
  l.(pre_prepare_digests) l.(current_received_pre_prepares) l.(current_batch_size) l.(client_rqs)
  l.(leader_set) l.(request_space_slices) l.(message_log) l.(batch_meta) l.(contained_requests).
Definition set_batch_digest x l := mk l.(node_id) l.(seq_no) l.(duplicate_detection) x
  l.(pre_prepare_digests) l.(current_received_pre_prepares) l.(current_batch_size) l.(client_rqs)
  l.(leader_set) l.(request_space_slices) l.(message_log) l.(batch_meta) l.(contained_requests).
Definition set_pre_prepare_digests x l := mk l.(node_id) l.(seq_no) l.(duplicate_detection)
  l.(batch_digest) x l.(current_received_pre_prepares) l.(current_batch_size) l.(client_rqs)
  l.(leader_set) l.(request_space_slices) l.(message_log) l.(batch_meta) l.(contained_requests).
Definition set_message_log x l := mk l.(node_id) l.(seq_no) l.(duplicate_detection)
  l.(batch_digest) l.(pre_prepare_digests) l.(current_received_pre_prepares)
  l.(current_batch_size) l.(client_rqs) l.(leader_set) l.(request_space_slices) x l.(batch_meta)
  l.(contained_requests).
Definition set_batch_meta x l := mk l.(node_id) l.(seq_no) l.(duplicate_detection)
  l.(batch_digest) l.(pre_prepare_digests) l.(current_received_pre_prepares)
  l.(current_batch_size) l.(client_rqs) l.(leader_set) l.(request_space_slices) l.(message_log) x
  l.(contained_requests).
Definition set_contained_requests x l := mk l.(node_id) l.(seq_no) l.(duplicate_detection)
  l.(batch_digest) l.(pre_prepare_digests) l.(current_received_pre_prepares)
  l.(current_batch_size) l.(client_rqs) l.(leader_set) l.(request_space_slices) l.(message_log)
  l.(batch_meta) x.
(** The counters and the request list grow together. *)
Definition count_batch (rqs : list ClientRqInfo) l := mk l.(node_id) l.(seq_no)
  l.(duplicate_detection) l.(batch_digest) l.(pre_prepare_digests)
  (l.(current_received_pre_prepares) + 1) (l.(current_batch_size) + length rqs)
  (l.(client_rqs) ++ rqs) l.(leader_set) l.(request_space_slices) l.(message_log) l.(batch_meta)
  l.(contained_requests).

Definition new (node : NodeId) (seq : SeqNo) (view : ViewInfo.t) : t :=
  let leader_count := length view.(ViewInfo.leader_set) in
  mk node seq DuplicateReplicaEvaluator.default None (replicate leader_count None) 0 0 []
    view.(ViewInfo.leader_set) view.(ViewInfo.leader_hash_space_division)
    (MessageLog.with_leader_count leader_count (ViewInfo.quorum view))
    (mkBatchMeta 0) (replicate leader_count None).

Definition update_current_view (view : ViewInfo.t) (l : t) : t :=
  mk l.(node_id) l.(seq_no) l.(duplicate_detection) l.(batch_digest) l.(pre_prepare_digests)
    l.(current_received_pre_prepares) l.(current_batch_size) l.(client_rqs)
    view.(ViewInfo.leader_set) view.(ViewInfo.leader_hash_space_division) l.(message_log)
    l.(batch_meta) l.(contained_requests).

(** The loop over the slots: hash the digests in leader order. *)
Fixpoint hash_digests (ctx : HashContext) (slots : list (option (list byte)))
    : option (list byte * list (list byte)) :=
  match slots with
  | [] => Some (ctx_finish ctx, [])
  | Some digest :: slots =>
      '(d, ordered) ← hash_digests (ctx_update ctx digest) slots;
      Some (d, digest :: ordered)
  | None :: _ => None
  end.

Definition calculate_instance_digest (l : t) : option (list byte * list (list byte)) :=
  hash_digests ctx_new l.(pre_prepare_digests).

Definition process_pre_prepare {W} (s_message : Shareable) (digest : Digest)
    (batch_rq_digests : list ClientRqInfo) : M t W Error (option ProofMetadata) :=
  message ← lift (consensus s_message.(message));
  let sending_leader := hdr_from s_message.(header) in
  self ← get;
  slice ← ok_or (self.(request_space_slices) !! sending_leader)
            (EDecidingLog (FailedToGetLeadersRequestSpace sending_leader));
  (if decide (sending_leader <> self.(node_id)) then
     if forallb (fun request => is_request_in_hash_space request.(rq_digest) slice) batch_rq_digests
     then ret tt
     else fail (EDecidingLog (BatchContainsRequestsNotInLeaderAddrSpace sending_leader))
   else ret tt);;
  zoom duplicate_detection set_duplicate_detection
    (DuplicateReplicaEvaluator.insert_pre_prepare_received sending_leader);;
  leader_index ← lift (pre_prepare_index_of self.(leader_set) sending_leader);
  (if decide (length self.(pre_prepare_digests) <= leader_index)
   then fail (EDecidingLog (LeaderNotInLeaderSet sending_leader)) else ret tt);;
  digests ← unwrap (vec_set leader_index (Some (hdr_digest s_message.(header)))
                      self.(pre_prepare_digests));
  modify (set_pre_prepare_digests digests);;
  requests ← match message.(cm_kind) with
             | PrePrepare requests => ret requests
             | _ => panic
             end;
  contained ← unwrap (vec_set leader_index (Some requests) self.(contained_requests));
  modify (set_contained_requests contained);;
  modify (count_batch batch_rq_digests);;
  zoom message_log set_message_log (MessageLog.insert_pre_prepare leader_index s_message);;
  self ← get;
  if decide (self.(current_received_pre_prepares) = length self.(leader_set)) then
    '(digest, ordering) ← ok_or (calculate_instance_digest self)
                            (EDecidingLog (FailedToCalculateDigest self.(seq_no)));
    modify (set_batch_digest (Some digest));;
    ret (Some (mkProofMetadata self.(seq_no) digest ordering self.(current_batch_size)))
  else ret None.

Definition process_message {W} (s_message : Shareable) : M t W Error unit :=
  message ← lift (consensus s_message.(message));
  match message.(cm_kind) with
  | Prepare _ =>
      zoom duplicate_detection set_duplicate_detection
        (DuplicateReplicaEvaluator.insert_prepare_received (hdr_from s_message.(header)));;
      modify (fun l => set_message_log (MessageLog.insert_prepare s_message l.(message_log)) l)
  | Commit _ =>
      zoom duplicate_detection set_duplicate_detection
        (DuplicateReplicaEvaluator.insert_commit_received (hdr_from s_message.(header)));;
      modify (fun l => set_message_log (MessageLog.insert_commit s_message l.(message_log)) l)
  | PrePrepare _ => panic
  end.

Definition current_digest (l : t) : option (list byte) := l.(batch_digest).

(** *** [deciding]: what this replica has prepared so far *)

(** The view and digest a stored PREPARE votes for; the log holds no other kind. *)
Definition prepare_vote (m : Shareable) : Result ViewDecisionPair :=
  c ← consensus m.(message);
  match c.(cm_kind) with
  | Prepare d => Ok (mkViewDecisionPair c.(cm_view) d)
  | _ => Panic
  end.

Fixpoint collect_write_set (l : list Shareable) : Result (list ViewDecisionPair) :=
  match l with
  | [] => Ok []
  | m :: l => v ← prepare_vote m; rest ← collect_write_set l; Ok (v :: rest)
  end.

(** The search for [quorum] consecutive PREPAREs of one view, latest first. *)
Fixpoint find_quorum (quorum : nat) (last_view : option SeqNo) (count : nat) (l : list Shareable)
    : Result (option ViewDecisionPair) :=
  match l with
  | [] => Ok None
  | stored :: l =>
      c ← consensus stored.(message);
      let count :=
        match last_view with
        | None => count
        | Some v => if decide (c.(cm_view) = v) then count else 0
        end in
      let count := count + 1 in
      if decide (count = quorum) then v ← prepare_vote stored; Ok (Some v)
      else find_quorum quorum (Some c.(cm_view)) count l
  end.

(** [f << 1] is [2 * f]. *)
Definition deciding (f : nat) (l : t) : Result IncompleteProof :=
  let prepares := rev l.(message_log).(MessageLog.prepares) in
  write_set ← collect_write_set prepares;
  quorum_prepares ← find_quorum (f * 2) None 0 prepares;
  Ok (mkIncompleteProof l.(seq_no) write_set quorum_prepares).

(** [?] on the missing batch digest gives [None]; a missing pre-prepare panics. *)
Definition finish_processing_batch (l : t) : Result (option CompletedBatch) :=
  match l.(batch_digest) with
  | None => Ok None
  | Some current_digest =>
      match unwrap_all l.(pre_prepare_digests), unwrap_all l.(contained_requests) with
      | Some pre_prepare_ordering, Some requests =>
          log ← MessageLog_finalize l.(message_log);
          Ok (Some (mkCompletedBatch l.(seq_no) current_digest pre_prepare_ordering log
                      l.(client_rqs) (concat requests) l.(batch_meta)))
      | _, _ => Panic
      end
  end.

(** ** Invariant *)

(** The three vectors say the same about a leader's slot. *)
Definition slot_ok (leader : NodeId) (d : option (list byte))
    (c : option (list (StoredMessage RQ))) (m : option Shareable) : Prop :=
  match m with
  | None => d = None /\ c = None
  | Some m =>
      hdr_from m.(header) = leader /\ d = Some (hdr_digest m.(header)) /\
      exists rqs, DecProof.kind_of m = Ok (PrePrepare rqs) /\ c = Some rqs
  end.

Definition senders (l : list Shareable) : list NodeId := (fun m => hdr_from m.(header)) <$> l.

Record slots_inv (l : t) : Prop := {
  si_digests : length l.(pre_prepare_digests) = length l.(leader_set);
  si_contained : length l.(contained_requests) = length l.(leader_set);
  si_log : length l.(message_log).(MessageLog.pre_prepare) = length l.(leader_set);
  si_slots : forall i x d c m, l.(leader_set) !! i = Some x ->
    l.(pre_prepare_digests) !! i = Some d -> l.(contained_requests) !! i = Some c ->
    l.(message_log).(MessageLog.pre_prepare) !! i = Some m -> slot_ok x d c m;
  si_count : l.(current_received_pre_prepares) =
    length (omap id l.(message_log).(MessageLog.pre_prepare));
  si_received : l.(duplicate_detection).(DuplicateReplicaEvaluator.received_pre_prepare_messages) =
    list_to_set (senders (omap id l.(message_log).(MessageLog.pre_prepare)));
  si_client_rqs : l.(client_rqs) ≡ₚ rq_info <$> concat (omap id l.(contained_requests));
  si_one_leader : length l.(leader_set) = 1 ->
    l.(client_rqs) = rq_info <$> concat (omap id l.(contained_requests));
  si_size : l.(current_batch_size) = length l.(client_rqs);
  si_digest : l.(batch_digest) =
    if decide (l.(current_received_pre_prepares) = length l.(leader_set))
    then fst <$> calculate_instance_digest l else None;
}.

(** Votes are stored once per replica. *)
Record votes_inv (l : t) : Prop := {
  vi_prepares : Forall DecProof.is_prepare l.(message_log).(MessageLog.prepares);
  vi_prepare_once : NoDup (senders l.(message_log).(MessageLog.prepares));
  vi_prepare_set : l.(duplicate_detection).(DuplicateReplicaEvaluator.received_prepare_messages) =
    list_to_set (senders l.(message_log).(MessageLog.prepares));
  vi_commits : Forall DecProof.is_commit l.(message_log).(MessageLog.commits);
  vi_commit_once : NoDup (senders l.(message_log).(MessageLog.commits));
  vi_commit_set : l.(duplicate_detection).(DuplicateReplicaEvaluator.received_commit_messages) =
    list_to_set (senders l.(message_log).(MessageLog.commits));
}.

Record inv (l : t) : Prop := {
  inv_leaders : NoDup l.(leader_set) /\ l.(leader_set) <> [];
  inv_slices : forall x, x ∈ l.(leader_set) -> is_Some (l.(request_space_slices) !! x);
  inv_slots : slots_inv l;
  inv_votes : votes_inv l;
}.

(** ** Lemmas *)

Lemma omap_nones {X} n : length (omap id (replicate n (@None X))) = 0.
Proof. by rewrite omap_id_replicate_None. Qed.

Lemma hash_digests_full ctx slots :
  is_Some (hash_digests ctx slots) <-> length (omap id slots) = length slots.
Proof.
  revert ctx. induction slots as [|[d|] slots IH]; intros ctx; cbn.
  - split; eauto.
  - split.
    + intros [r Hr]. destruct (hash_digests (ctx_update ctx d) slots) as [[? ?]|] eqn:E; [|done].
      f_equal. apply (IH (ctx_update ctx d)). by rewrite E.
    + intros [= Hl]. apply (IH (ctx_update ctx d)) in Hl as [[e o] ->]. cbn. eauto.
  - pose proof (omap_id_length slots). split; [by intros [? ?]|lia].
Qed.

Lemma hash_digests_ordering ctx slots d ord :
  hash_digests ctx slots = Some (d, ord) -> slots = Some <$> ord.
Proof.
  revert ctx d ord. induction slots as [|[x|] slots IH]; intros ctx d ord; cbn; [by intros [= _ <-]| |done].
  destruct (hash_digests _ slots) as [[e o]|] eqn:E; cbn; [|done]. intros [= <- <-].
  by rewrite (IH _ _ _ E).
Qed.

Lemma new_inv (L : AtlasLaws) node seq v : ViewInfo.wf v -> inv (new node seq v).
Proof.
  intros Hwf. split; cbn.
  - destruct Hwf as (_ & _ & _ & (x & _ & -> & _) & _). split; [apply NoDup_singleton|done].
  - intros x. by apply ViewInfo.wf_leader_division.
  - split; cbn; rewrite ?length_replicate, ?omap_id_replicate_None; try done.
    + intros i x d c m _ [-> _]%lookup_replicate [-> _]%lookup_replicate [-> _]%lookup_replicate.
      done.
    + destruct Hwf as (_ & _ & _ & (x & _ & -> & _) & _). done.
  - split; cbn; try done; apply NoDup_nil_2.
Qed.

(** *** Votes *)

Lemma set_duplicate_detection_id l : set_duplicate_detection l.(duplicate_detection) l = l.
Proof. by destruct l. Qed.

Definition from_of (m : Shareable) : NodeId := hdr_from m.(header).

Definition store_prepare (m : Shareable) (l : t) : t :=
  let e := l.(duplicate_detection) in
  set_message_log (MessageLog.insert_prepare m l.(message_log))
    (set_duplicate_detection
       (DuplicateReplicaEvaluator.mk e.(DuplicateReplicaEvaluator.leader_set)
          e.(DuplicateReplicaEvaluator.received_pre_prepare_messages)
          ({[from_of m]} ∪ e.(DuplicateReplicaEvaluator.received_prepare_messages))
          e.(DuplicateReplicaEvaluator.received_commit_messages)) l).

Definition store_commit (m : Shareable) (l : t) : t :=
  let e := l.(duplicate_detection) in
  set_message_log (MessageLog.insert_commit m l.(message_log))
    (set_duplicate_detection
       (DuplicateReplicaEvaluator.mk e.(DuplicateReplicaEvaluator.leader_set)
          e.(DuplicateReplicaEvaluator.received_pre_prepare_messages)
          e.(DuplicateReplicaEvaluator.received_prepare_messages)
          ({[from_of m]} ∪ e.(DuplicateReplicaEvaluator.received_commit_messages))) l).

Lemma kind_of_consensus m k :
  DecProof.kind_of m = Ok k -> exists c, consensus m.(message) = Ok c /\ c.(cm_kind) = k.
Proof.
  unfold DecProof.kind_of. destruct (consensus _) as [c| |]; cbn; try done.
  intros [= <-]. eauto.
Qed.

Lemma process_prepare_run {W} m d l :
  DecProof.kind_of m = Ok (Prepare d) ->
  process_message (W := W) m l =
  if decide (from_of m ∈ l.(duplicate_detection).(DuplicateReplicaEvaluator.received_prepare_messages))
  then mkRun (Err (EDecidingLog (DuplicateVoteFromNode (from_of m)))) l []
  else mkRun (Ok tt) (store_prepare m l) [].
Proof.
  intros (c & Hc & Hk)%kind_of_consensus. unfold process_message. rewrite Hc. run. rewrite Hk.
  case_decide as Hd.
  - erewrite run_zoom_Err.
    2: { unfold DuplicateReplicaEvaluator.insert_prepare_received. run. by rewrite decide_True. }
    by rewrite set_duplicate_detection_id.
  - erewrite run_zoom_Ok.
    2: { unfold DuplicateReplicaEvaluator.insert_prepare_received. run. by rewrite decide_False. }
    done.
Qed.

Lemma process_commit_run {W} m d l :
  DecProof.kind_of m = Ok (Commit d) ->
  process_message (W := W) m l =
  if decide (from_of m ∈ l.(duplicate_detection).(DuplicateReplicaEvaluator.received_commit_messages))
  then mkRun (Err (EDecidingLog (DuplicateVoteFromNode (from_of m)))) l []
  else mkRun (Ok tt) (store_commit m l) [].
Proof.
  intros (c & Hc & Hk)%kind_of_consensus. unfold process_message. rewrite Hc. run. rewrite Hk.
  case_decide as Hd.
  - erewrite run_zoom_Err.
    2: { unfold DuplicateReplicaEvaluator.insert_commit_received. run. by rewrite decide_True. }
    by rewrite set_duplicate_detection_id.
  - erewrite run_zoom_Ok.
    2: { unfold DuplicateReplicaEvaluator.insert_commit_received. run. by rewrite decide_False. }
    done.
Qed.

Lemma senders_app l m : senders (l ++ [m]) = senders l ++ [from_of m].
Proof. unfold senders. by rewrite fmap_app. Qed.

Lemma NoDup_snoc_set (l : list NodeId) x (X : gset NodeId) :
  NoDup l -> X = list_to_set l -> x ∉ X -> NoDup (l ++ [x]) /\ {[x]} ∪ X = list_to_set (l ++ [x]).
Proof.
  intros Hl -> Hx. split.
  - apply NoDup_app. split_and!; [done| |by apply NoDup_singleton].
    intros y Hy Hy'. apply list_elem_of_singleton in Hy' as ->. apply Hx. by apply elem_of_list_to_set.
  - rewrite list_to_set_app_L. cbn. set_solver.
Qed.

Lemma store_prepare_inv m l :
  inv l -> DecProof.is_prepare m ->
  from_of m ∉ l.(duplicate_detection).(DuplicateReplicaEvaluator.received_prepare_messages) ->
  inv (store_prepare m l).
Proof.
  intros [Hl Hsl [] []] Hm Hnew. split; [done..| |].
  - by split.
  - destruct (NoDup_snoc_set _ _ _ vi_prepare_once0 vi_prepare_set0 Hnew) as [? ?].
    split; cbn; try done; rewrite ?senders_app; try done.
    apply Forall_app. split; [done|]. by apply Forall_singleton.
Qed.

Lemma store_commit_inv m l :
  inv l -> DecProof.is_commit m ->
  from_of m ∉ l.(duplicate_detection).(DuplicateReplicaEvaluator.received_commit_messages) ->
  inv (store_commit m l).
Proof.
  intros [Hl Hsl [] []] Hm Hnew. split; [done..| |].
  - by split.
  - destruct (NoDup_snoc_set _ _ _ vi_commit_once0 vi_commit_set0 Hnew) as [? ?].
    split; cbn; try done; rewrite ?senders_app; try done.
    apply Forall_app. split; [done|]. by apply Forall_singleton.
Qed.

(** *** Pre-prepares *)

(** The log after the batch of the [i]-th leader is stored. *)
Definition store_pre_prepare (i : nat) (m : Shareable) (rqs : list (StoredMessage RQ))
    (infos : list ClientRqInfo) (l : t) : t :=
  let e := l.(duplicate_detection) in
  let g := l.(message_log) in
  set_message_log
    (MessageLog.mk (<[i := Some m]> g.(MessageLog.pre_prepare)) g.(MessageLog.prepares)
       g.(MessageLog.commits))
    (count_batch infos
       (set_contained_requests (<[i := Some rqs]> l.(contained_requests))
          (set_pre_prepare_digests (<[i := Some (hdr_digest m.(header))]> l.(pre_prepare_digests))
             (set_duplicate_detection
                (DuplicateReplicaEvaluator.mk e.(DuplicateReplicaEvaluator.leader_set)
                   ({[from_of m]} ∪ e.(DuplicateReplicaEvaluator.received_pre_prepare_messages))
                   e.(DuplicateReplicaEvaluator.received_prepare_messages)
                   e.(DuplicateReplicaEvaluator.received_commit_messages)) l)))).

Lemma index_of_leader (leaders : list NodeId) i x :
  NoDup leaders -> leaders !! i = Some x -> pre_prepare_index_of leaders x = Ok i.
Proof.
  intros Hnd Hi. unfold pre_prepare_index_of.
  assert (position (fun node => node = x) leaders = Some i) as ->; [|done].
  apply position_Some. exists x. split_and!; [done..|].
  intros j y Hj Hlt ->. pose proof (NoDup_lookup _ _ _ _ Hnd Hi Hj). lia.
Qed.

Lemma vec_set_ok {X} i (x : X) l : i < length l -> vec_set i x l = Some (<[i := x]> l).
Proof. intros. unfold vec_set. by rewrite decide_True. Qed.

(** The check that the requests of another leader fit its slice. *)
Definition in_slice (m : Shareable) (infos : list ClientRqInfo) (l : t) : bool :=
  bool_decide (from_of m = l.(node_id)) ||
  match l.(request_space_slices) !! from_of m with
  | Some slice => forallb (fun r => is_request_in_hash_space r.(rq_digest) slice) infos
  | None => false
  end.

Lemma process_pre_prepare_run {W} m rqs dg infos l i :
  inv l -> DecProof.kind_of m = Ok (PrePrepare rqs) -> l.(leader_set) !! i = Some (from_of m) ->
  process_pre_prepare (W := W) m dg infos l =
  if in_slice m infos l then
    if decide (from_of m ∈ l.(duplicate_detection).(DuplicateReplicaEvaluator.received_pre_prepare_messages))
    then mkRun (Err (EDecidingLog (DuplicateVoteFromNode (from_of m)))) l []
    else
      let l' := store_pre_prepare i m rqs infos l in
      if decide (l'.(current_received_pre_prepares) = length l.(leader_set)) then
        match calculate_instance_digest l' with
        | Some (d, ord) =>
            mkRun (Ok (Some (mkProofMetadata l.(seq_no) d ord l'.(current_batch_size))))
              (set_batch_digest (Some d) l') []
        | None => mkRun (Err (EDecidingLog (FailedToCalculateDigest l.(seq_no)))) l' []
        end
      else mkRun (Ok None) l' []
  else mkRun (Err (EDecidingLog (BatchContainsRequestsNotInLeaderAddrSpace (from_of m)))) l [].
Proof.
  intros [[Hnd _] Hsl [Hd Hc Hg _ _ _ _ _ _ _] _] (c & Hcm & Hk)%kind_of_consensus Hi.
  pose proof (lookup_lt_Some _ _ _ Hi) as Hlt.
  destruct (Hsl (from_of m)) as [slice Hslice]; [by eapply list_elem_of_lookup_2|].
  unfold process_pre_prepare, in_slice. rewrite Hcm. run. fold (from_of m). rewrite Hslice. run.
  match goal with |- ((if _ then _ else _) ≫= ?k) l = _ => set (K := k) end.
  transitivity (if bool_decide (from_of m = l.(node_id)) ||
                  forallb (fun r => is_request_in_hash_space r.(rq_digest) slice) infos
                then K tt l
                else mkRun (Err (EDecidingLog (BatchContainsRequestsNotInLeaderAddrSpace (from_of m)))) l []).
  { destruct (decide (from_of m = node_id l)) as [He|He].
    - rewrite decide_False by (by intros []). rewrite bool_decide_true by done. cbn [orb]. by run.
    - rewrite decide_True by done. rewrite bool_decide_false by done. cbn [orb].
      destruct (forallb _ _); by run. }
  destruct (_ || _); [|done]. subst K. cbn beta.
  case_decide as Hdup.
  { erewrite run_zoom_Err.
    2: { unfold DuplicateReplicaEvaluator.insert_pre_prepare_received. run. by rewrite decide_True. }
    by rewrite set_duplicate_detection_id. }
  erewrite run_zoom_Ok.
  2: { unfold DuplicateReplicaEvaluator.insert_pre_prepare_received. run. by rewrite decide_False. }
  rewrite (index_of_leader _ _ _ Hnd Hi). run.
  rewrite decide_False by lia. run.
  rewrite vec_set_ok by lia. run. rewrite Hk. run. rewrite vec_set_ok by lia. run.
  erewrite run_zoom_Ok.
  2: { unfold MessageLog.insert_pre_prepare. run. cbn. rewrite vec_set_ok by lia. by run. }
  run. fold (store_pre_prepare i m rqs infos l).
  case_decide as H1; case_decide as H2; try done.
  change (calculate_instance_digest _) with (calculate_instance_digest (store_pre_prepare i m rqs infos l)).
  destruct (calculate_instance_digest (store_pre_prepare i m rqs infos l)) as [[d ord]|]; by run.
Qed.

(** A leader not heard from has an empty slot in each of the three vectors. *)
Lemma slot_empty l i x :
  slots_inv l -> l.(leader_set) !! i = Some x ->
  x ∉ l.(duplicate_detection).(DuplicateReplicaEvaluator.received_pre_prepare_messages) ->
  l.(pre_prepare_digests) !! i = Some None /\ l.(contained_requests) !! i = Some None /\
  l.(message_log).(MessageLog.pre_prepare) !! i = Some None.
Proof.
  intros [Hd Hc Hg Hs _ Hr _ _ _ _] Hi Hx. pose proof (lookup_lt_Some _ _ _ Hi) as Hlt.
  destruct (lookup_lt_is_Some_2 (pre_prepare_digests l) i) as [d Hdi]; [lia|].
  destruct (lookup_lt_is_Some_2 (contained_requests l) i) as [c Hci]; [lia|].
  destruct (lookup_lt_is_Some_2 (MessageLog.pre_prepare (message_log l)) i) as [m Hmi]; [lia|].
  pose proof (Hs i x d c m Hi Hdi Hci Hmi) as Hok. destruct m as [m|].
  - destruct Hx. rewrite Hr. apply elem_of_list_to_set, list_elem_of_fmap. exists m.
    destruct Hok as [<- _]. split; [done|]. apply omap_id_elem. eauto.
  - destruct Hok as [-> ->]. done.
Qed.

(** The digest vector and the message vector have the same slots filled. *)
Lemma slots_filled l :
  slots_inv l ->
  length (omap id l.(pre_prepare_digests)) = length (omap id l.(message_log).(MessageLog.pre_prepare)) /\
  length (omap id l.(contained_requests)) = length (omap id l.(message_log).(MessageLog.pre_prepare)).
Proof.
  intros [Hd Hc Hg Hs _ _ _ _ _ _]. revert Hd Hc Hg Hs.
  generalize (pre_prepare_digests l) (contained_requests l) (MessageLog.pre_prepare (message_log l)).
  induction (leader_set l) as [|x leaders IH]; intros [|d ds] [|c cs] [|m ms]; try done.
  intros [= Hd] [= Hc] [= Hg] Hs. pose proof (Hs 0 x d c m eq_refl eq_refl eq_refl eq_refl) as H0.
  destruct (IH ds cs ms Hd Hc Hg) as [IH1 IH2].
  { intros j. apply (Hs (S j)). }
  destruct m as [m|]; cbn in H0.
  - destruct H0 as (_ & -> & rqs & _ & ->). cbn. lia.
  - destruct H0 as [-> ->]. cbn. lia.
Qed.

(** What the log is once the batch is stored and, after the last leader's, hashed. *)
Definition after_pre_prepare (i : nat) (m : Shareable) (rqs : list (StoredMessage RQ))
    (infos : list ClientRqInfo) (l : t) : t :=
  let l' := store_pre_prepare i m rqs infos l in
  if decide (l'.(current_received_pre_prepares) = length l.(leader_set))
  then set_batch_digest (fst <$> calculate_instance_digest l') l' else l'.

Lemma after_eq i m rqs infos l :
  exists o, after_pre_prepare i m rqs infos l = set_batch_digest o (store_pre_prepare i m rqs infos l).
Proof.
  unfold after_pre_prepare. cbn zeta. case_decide; [eauto|]. exists l.(batch_digest). by destruct l.
Qed.

Lemma concat_insert_None {X} (l : list (option (list X))) i x :
  l !! i = Some None -> concat (omap id (<[i := Some x]> l)) ≡ₚ concat (omap id l) ++ x.
Proof.
  intros Hi. rewrite (omap_insert_None l i x Hi). cbn. by rewrite Permutation_app_comm.
Qed.

Lemma store_pre_prepare_slots i m rqs l :
  inv l -> DecProof.kind_of m = Ok (PrePrepare rqs) -> l.(leader_set) !! i = Some (from_of m) ->
  from_of m ∉ l.(duplicate_detection).(DuplicateReplicaEvaluator.received_pre_prepare_messages) ->
  slots_inv (after_pre_prepare i m rqs (rq_info <$> rqs) l).
Proof.
  intros [[Hnd _] _ Hinv _] Hk Hi Hnew.
  destruct (slot_empty _ _ _ Hinv Hi Hnew) as (Hed & Hec & Heg).
  destruct Hinv as [Hd Hc Hg Hs Hcnt Hr Hrq Hone Hsz Hdg].
  pose proof (omap_insert_None _ i m Heg) as Hperm.
  set (l' := store_pre_prepare i m rqs (rq_info <$> rqs) l).
  assert (l'.(batch_digest) = None) as Hnone.
  { cbn. rewrite Hdg, decide_False; [done|]. rewrite Hcnt.
    pose proof (Permutation_length Hperm) as Hp. cbn in Hp.
    pose proof (omap_id_length (<[i:=Some m]> (MessageLog.pre_prepare (message_log l)))) as Hle.
    rewrite length_insert in Hle. lia. }
  assert (slots_inv (set_batch_digest
    (if decide (l'.(current_received_pre_prepares) = length l'.(leader_set))
     then fst <$> calculate_instance_digest l' else None) l')) as H.
  { split; cbn; rewrite ?length_insert; try done.
    - intros j x d c g Hj Hjd Hjc Hjg. destruct (decide (i = j)) as [<-|Hne].
      + rewrite list_lookup_insert_eq in Hjd by (by eapply lookup_lt_Some).
        rewrite list_lookup_insert_eq in Hjc by (by eapply lookup_lt_Some).
        rewrite list_lookup_insert_eq in Hjg by (by eapply lookup_lt_Some).
        simplify_eq. cbn. split_and!; eauto.
      + rewrite list_lookup_insert_ne in Hjd by done. rewrite list_lookup_insert_ne in Hjc by done.
        rewrite list_lookup_insert_ne in Hjg by done. eauto.
    - rewrite Hperm. cbn. lia.
    - rewrite Hr. unfold senders. apply set_eq. intros x.
      rewrite elem_of_union, !elem_of_list_to_set. cbn. rewrite Hperm. cbn.
      rewrite elem_of_cons, elem_of_singleton. done.
    - rewrite (concat_insert_None _ _ _ Hec), fmap_app. by rewrite Hrq.
    - intros H1. rewrite (Hone H1).
      pose proof (lookup_lt_Some _ _ _ Hec) as Hi0.
      destruct (contained_requests l) as [|c [|]]; cbn in *; try lia.
      destruct i; cbn in Hec; [|done]. simplify_eq. cbn. by rewrite app_nil_r.
    - rewrite length_app. lia. }
  unfold after_pre_prepare. fold l'. change (length (leader_set l)) with (length (leader_set l')).
  case_decide; [done|]. by rewrite <- Hnone in H.
Qed.

Lemma after_pre_prepare_inv i m rqs l :
  inv l -> DecProof.kind_of m = Ok (PrePrepare rqs) -> l.(leader_set) !! i = Some (from_of m) ->
  from_of m ∉ l.(duplicate_detection).(DuplicateReplicaEvaluator.received_pre_prepare_messages) ->
  inv (after_pre_prepare i m rqs (rq_info <$> rqs) l).
Proof.
  intros Hinv Hk Hi Hnew. pose proof (store_pre_prepare_slots _ _ _ _ Hinv Hk Hi Hnew).
  destruct Hinv as [Hl Hsl _ [Hp1 Hp2 Hp3 Hc1 Hc2 Hc3]].
  destruct (after_eq i m rqs (rq_info <$> rqs) l) as [o Ho]. rewrite Ho in *. split; [done..|by split].
Qed.

(** [process_pre_prepare] never fails to calculate the digest: the count of
    received proposals reaches the number of leaders only with every slot full. *)
Lemma process_pre_prepare_ok {W} i m rqs dg l :
  inv l -> DecProof.kind_of m = Ok (PrePrepare rqs) -> l.(leader_set) !! i = Some (from_of m) ->
  from_of m ∉ l.(duplicate_detection).(DuplicateReplicaEvaluator.received_pre_prepare_messages) ->
  in_slice m (rq_info <$> rqs) l = true ->
  let l' := after_pre_prepare i m rqs (rq_info <$> rqs) l in
  process_pre_prepare (W := W) m dg (rq_info <$> rqs) l =
  mkRun (Ok ('(d, ord) ← (if decide (l'.(current_received_pre_prepares) = length l'.(leader_set))
                          then calculate_instance_digest l' else None);
             Some (mkProofMetadata l'.(seq_no) d ord l'.(current_batch_size)))) l' [].
Proof.
  intros Hinv Hk Hi Hnew Hsl l'. rewrite (process_pre_prepare_run m rqs dg _ l i Hinv Hk Hi), Hsl.
  rewrite decide_False by done. pose proof (store_pre_prepare_slots _ _ _ _ Hinv Hk Hi Hnew) as Hs.
  subst l'. unfold after_pre_prepare in *. cbn zeta in *.
  case_decide as Hc; [|by rewrite decide_False].
  destruct Hs as [Hd' _ Hg' Hs' Hcnt' _ _ _ _ _].
  destruct (hash_digests_full ctx_new (store_pre_prepare i m rqs (rq_info <$> rqs) l).(pre_prepare_digests))
    as [_ Hfull].
  rewrite (decide_True (P := current_received_pre_prepares (set_batch_digest _ _) = _)) by done.
  pose proof (store_pre_prepare_slots _ _ _ _ Hinv Hk Hi Hnew) as Hs''.
  unfold after_pre_prepare in Hs''. cbn zeta in Hs''. rewrite decide_True in Hs'' by done.
  destruct (slots_filled _ Hs'') as [Hf _]. cbn [pre_prepare_digests set_batch_digest message_log] in Hf.
  destruct Hfull as [[d ord] Hdo].
  { rewrite Hf. cbn in Hcnt', Hc, Hd' |- *. rewrite <- Hcnt', Hc. done. }
  change (calculate_instance_digest (set_batch_digest _ _)) with
    (calculate_instance_digest (store_pre_prepare i m rqs (rq_info <$> rqs) l)).
  unfold calculate_instance_digest. rewrite Hdo. done.
Qed.

(** *** The finished batch *)

Lemma finish_ok l :
  inv l -> l.(current_received_pre_prepares) = length l.(leader_set) ->
  exists d ord pps reqs,
    calculate_instance_digest l = Some (d, ord) /\ l.(batch_digest) = Some d /\
    l.(message_log).(MessageLog.pre_prepare) = Some <$> pps /\
    l.(contained_requests) = Some <$> reqs /\
    finish_processing_batch l =
    Ok (Some (mkCompletedBatch l.(seq_no) d ord
                (mkFinished pps l.(message_log).(MessageLog.prepares) l.(message_log).(MessageLog.commits))
                l.(client_rqs) (concat reqs) l.(batch_meta))).
Proof.
  intros [_ _ Hs _] Hfull. destruct (slots_filled _ Hs) as [Hf1 Hf2].
  destruct Hs as [Hd Hc Hg _ Hcnt _ _ _ _ Hdg].
  destruct (hash_digests_full ctx_new l.(pre_prepare_digests)) as [_ Hh].
  destruct Hh as [[d ord] Hdo]; [lia|].
  pose proof (hash_digests_ordering _ _ _ _ Hdo) as Hord.
  exists d, ord, (omap id (MessageLog.pre_prepare (message_log l))), (omap id (contained_requests l)).
  assert (mapM id (MessageLog.pre_prepare (message_log l)) = Some (omap id (MessageLog.pre_prepare (message_log l)))) as Hm1
    by (apply omap_id_full; lia).
  assert (mapM id (contained_requests l) = Some (omap id (contained_requests l))) as Hm2
    by (apply omap_id_full; lia).
  assert (mapM id (pre_prepare_digests l) = Some ord) as Hm3.
  { rewrite Hord. clear. induction ord as [|x o IH]; [done|]. cbn. by rewrite IH. }
  unfold calculate_instance_digest in *. rewrite decide_True, Hdo in Hdg by done. split_and!; [done|done| | |].
  - by apply mapM_Some_id.
  - by apply mapM_Some_id.
  - unfold finish_processing_batch, MessageLog_finalize, unwrap_all. rewrite Hdg, Hm1, Hm2, Hm3. done.
Qed.

(** The vectors of a complete log, slot by slot. *)
Lemma filled_slots l d ord pps reqs :
  inv l -> calculate_instance_digest l = Some (d, ord) ->
  l.(message_log).(MessageLog.pre_prepare) = Some <$> pps ->
  l.(contained_requests) = Some <$> reqs ->
  ord = DecProof.digest_of <$> pps /\ from_of <$> pps = l.(leader_set) /\
  Forall2 (fun m r => DecProof.kind_of m = Ok (PrePrepare r)) pps reqs.
Proof.
  intros [_ _ [Hld Hlc Hlg Hslots _ _ _ _ _ _] _] Hc Hpps Hreqs.
  pose proof (hash_digests_ordering _ _ _ _ Hc) as Hord.
  rewrite Hpps, Hreqs, Hord in *. rewrite !length_fmap in *.
  assert (forall i x m, leader_set l !! i = Some x -> pps !! i = Some m ->
    exists r, reqs !! i = Some r /\ ord !! i = Some (DecProof.digest_of m) /\
      from_of m = x /\ DecProof.kind_of m = Ok (PrePrepare r)) as Hslot.
  { intros i x m Hi Hm. pose proof (lookup_lt_Some _ _ _ Hm).
    destruct (lookup_lt_is_Some_2 ord i) as [o Ho]; [lia|].
    destruct (lookup_lt_is_Some_2 reqs i) as [r Hr]; [lia|].
    pose proof (Hslots i x (Some o) (Some r) (Some m) Hi) as Hok.
    rewrite !list_lookup_fmap, Ho, Hr, Hm in Hok.
    destruct (Hok eq_refl eq_refl eq_refl) as (? & Ho' & r' & ? & Hr'). simplify_eq. eauto. }
  assert (forall i m, pps !! i = Some m -> exists x, leader_set l !! i = Some x) as Hleader.
  { intros i m Hm. apply lookup_lt_is_Some_2. pose proof (lookup_lt_Some _ _ _ Hm). lia. }
  split_and!.
  - apply list_eq_same_length with (n := length ord); [rewrite length_fmap; lia|done|].
    intros i o o' Hi Ho Hm. apply list_lookup_fmap_Some_1 in Hm as (m & -> & Hm).
    destruct (Hleader i m Hm) as [x Hx]. destruct (Hslot i x m Hx Hm) as (_ & _ & ? & _). congruence.
  - apply list_eq_same_length with (n := length pps); [lia|by rewrite length_fmap|].
    intros i x y Hi Hx Hy. apply list_lookup_fmap_Some_1 in Hx as (m & -> & Hm).
    by destruct (Hslot i y m Hy Hm) as (_ & _ & _ & ? & _).
  - apply Forall2_same_length_lookup_2; [lia|]. intros i m r Hm Hr.
    destruct (Hleader i m Hm) as [x Hx]. destruct (Hslot i x m Hx Hm) as (? & ? & _ & _ & ?). congruence.
Qed.

(** *** What the log reports to a view change *)

(** Votes of one view for one digest. *)
Definition votes_for (v : SeqNo) (d : Digest) (m : Shareable) : Prop :=
  exists c, consensus m.(message) = Ok c /\ c.(cm_view) = v /\ c.(cm_kind) = Prepare d.

Lemma prepare_vote_ok v d m : votes_for v d m -> prepare_vote m = Ok (mkViewDecisionPair v d).
Proof. intros (c & Hc & <- & Hk). unfold prepare_vote. rewrite Hc. cbn. by rewrite Hk. Qed.

Lemma collect_write_set_ok v d l :
  Forall (votes_for v d) l -> collect_write_set l = Ok (replicate (length l) (mkViewDecisionPair v d)).
Proof.
  induction 1 as [|m l Hm _ IH]; [done|]. cbn. rewrite (prepare_vote_ok _ _ _ Hm). cbn. by rewrite IH.
Qed.

Lemma find_quorum_ok q v d last count l :
  Forall (votes_for v d) l -> (last = None /\ count = 0 \/ last = Some v) ->
  find_quorum q last count l =
  Ok (if decide (count < q /\ q <= count + length l) then Some (mkViewDecisionPair v d) else None).
Proof.
  intros Hl. revert last count. induction Hl as [|m l Hm _ IH]; intros last count Hlast; cbn.
  - by rewrite decide_False by lia.
  - pose proof (prepare_vote_ok _ _ _ Hm) as Hp. destruct Hm as (c & Hc & Hv & Hk). rewrite Hc. cbn.
    assert (match last with None => count | Some v' => if decide (cm_view c = v') then count else 0 end
            = count) as ->.
    { destruct Hlast as [[-> ->]| ->]; [done|]. by rewrite decide_True. }
    destruct (decide (count + 1 = q)) as [Hq|Hq].
    + rewrite Hp. cbn. by rewrite decide_True by lia.
    + rewrite (IH (Some (cm_view c)) (count + 1)) by (right; congruence).
      f_equal. destruct (decide (count + 1 < q /\ _)), (decide (count < q /\ _)); lia || done.
Qed.
End working_log.
End WorkingDecisionLog.
