(* ===== verification/Log.v ===== *)
(** * The log of decisions ([bft/log/mod.rs], [bft/log/decided/mod.rs])

    A replica keeps the proof of its last decision.  [finalize_batch] turns the
    batch a replica has just decided into that proof and into the decision handed
    to the executor; [install_proof] does the same for a proof received from
    another replica. *)
From S2P Require Import Prelude Atlas Errors View Messages Decisions Deciding.

(** What [atlas_core::ordering_protocol] offers to build the decisions handed
    to the layers above; a [MaybeVec] is a list. *)
Class AtlasDecisions {A : Atlas} := {
  BatchedDecision : Type;
  bd_new_with_cap : SeqNo -> nat -> BatchedDecision;
  bd_add_message : BatchedDecision -> StoredMessage RQ -> BatchedDecision;
  ProtocolConsensusDecision : Type;
  pcd_new : SeqNo -> BatchedDecision -> list ClientRqInfo -> Digest -> ProtocolConsensusDecision;
  pcd_sequence_number : ProtocolConsensusDecision -> SeqNo;
  (** [Decision<ProofMetadata, (), PBFTMessage<O>, O>]. *)
  FeDecision : Type;
  dec_full_decision_info : SeqNo -> ProofMetadata -> list unit -> list Shareable ->
    ProtocolConsensusDecision -> FeDecision;
  dec_from_message : SeqNo -> Shareable -> FeDecision;
  dec_from_metadata_and_messages : SeqNo -> ProofMetadata -> list unit -> list Shareable -> FeDecision;
  dec_completed : SeqNo -> ProtocolConsensusDecision -> FeDecision;
  dec_sequence_number : FeDecision -> SeqNo;
  (** [Decision::merge_decisions]. *)
  dec_merge : FeDecision -> FeDecision -> ExternalError + FeDecision;
  (** [append_decision_info(DecisionInfo::DecisionDone(decision))]. *)
  dec_append_done : FeDecision -> ProtocolConsensusDecision -> FeDecision;
}.

Class AtlasDecisionsLaws {A : Atlas} {D : AtlasDecisions} : Prop := {
  pcd_new_seq : forall s b i d, pcd_sequence_number (pcd_new s b i d) = s;
  dec_full_seq : forall s md a ms p, dec_sequence_number (dec_full_decision_info s md a ms p) = s;
  dec_message_seq : forall s m, dec_sequence_number (dec_from_message s m) = s;
  dec_metadata_seq : forall s md a ms,
    dec_sequence_number (dec_from_metadata_and_messages s md a ms) = s;
  dec_completed_seq : forall s p, dec_sequence_number (dec_completed s p) = s;
  dec_merge_same : forall d e, dec_sequence_number d = dec_sequence_number e ->
    exists r, dec_merge d e = inr r /\ dec_sequence_number r = dec_sequence_number d;
  dec_append_seq : forall d p, dec_sequence_number (dec_append_done d p) = dec_sequence_number d;
}.

(** ** [DecisionLog] *)

Module DecisionLog.
Section decision_log.
Context {A : Atlas}.

Record t := mk { last_decision : option DecProof }.

Definition init (last_proof : option DecProof) : t := mk last_proof.
Definition install_proof (proof : DecProof) (l : t) : t := mk (Some proof).
Definition last_execution (l : t) : option SeqNo :=
  DecProof.sequence_number <$> l.(last_decision).
Definition append_proof (proof : DecProof) (l : t) : t := mk (Some proof).
Definition sequence_number (l : t) : SeqNo := default ZERO (last_execution l).
End decision_log.
End DecisionLog.

(** ** [operation_key] *)

(** [client_id | (session_id << 32)] on [u64]. *)
Definition operation_key_raw (from : NodeId) (session : SeqNo) : N :=
  N.lor from (N.shiftl session 32 `mod` 2 ^ 64)%N.

Definition operation_key {A : Atlas} (h : Header) (m : RQ) : N :=
  operation_key_raw (hdr_from h) (rq_session_number m).

(** ** [From<&Proof<O>> for ProtocolConsensusDecision<O>] *)

Section from_proof.
Context {A : Atlas} {D : AtlasDecisions}.

(** The inner loop over the requests of a batch. *)
Definition add_requests (acc : list ClientRqInfo * BatchedDecision)
    (reqs : list (StoredMessage RQ)) : list ClientRqInfo * BatchedDecision :=
  foldl (fun '(client_rqs, batch) request =>
           (client_rqs ++ [rq_info request], bd_add_message batch request)) acc reqs.

(** The outer loop over the pre-prepares. *)
Fixpoint add_pre_prepares (acc : list ClientRqInfo * BatchedDecision) (pps : list Shareable)
    : Result (list ClientRqInfo * BatchedDecision) :=
  match pps with
  | [] => Ok acc
  | pre_prepare :: pps =>
      k ← DecProof.kind_of pre_prepare;
      match k with
      | PrePrepare reqs => add_pre_prepares (add_requests acc reqs) pps
      | _ => Panic
      end
  end.

(** [unwrap] on the order check, [todo!()] for pre-prepares out of order. *)
Definition decision_from_proof (p : DecProof) : Result ProtocolConsensusDecision :=
  let md := DecProof.metadata p in
  match DecProof.are_pre_prepares_ordered p with
  | Ok true =>
      '(client_rqs, decided_batch) ←
        add_pre_prepares ([], bd_new_with_cap md.(pm_seq_no) md.(pm_contained_client_rqs))
          (DecProof.pre_prepares p);
      Ok (pcd_new md.(pm_seq_no) decided_batch client_rqs md.(pm_batch_digest))
  | _ => Panic
  end.
End from_proof.

(** ** [Log] *)

Module Log.
Section log.
Context {A : Atlas} {D : AtlasDecisions}.

Record t := mk { decided : DecisionLog.t }.

Definition initialize_decided_log (_node_id : NodeId) : t := mk (DecisionLog.init None).

Definition last_proof (l : t) : option DecProof := l.(decided).(DecisionLog.last_decision).
Definition last_execution (l : t) : option SeqNo := DecisionLog.last_execution l.(decided).
Definition append_proof (p : DecProof) (l : t) : t := mk (DecisionLog.append_proof p l.(decided)).

Definition install_proof {W} (proof : DecProof) : M t W Error FeDecision :=
  self ← get;
  let seq := DecProof.sequence_number proof in
  match last_execution self with
  | Some decision =>
      match sn_index seq decision with
      | inl _ | inr 0 => fail (ELog (CannotInstallDecisionAlreadyAhead seq decision))
      | inr 1 => modify (append_proof proof)
      | inr _ => fail (ELog (CannotInstallWouldSkip seq decision))
      end
  | None => ret tt
  end;;
  batch_info ← lift (decision_from_proof proof);
  let '(metadata, messages) := DecProof.into_parts proof in
  ret (dec_full_decision_info seq metadata [] messages batch_info).

Definition proof_of_batch (c : CompletedBatch) : DecProof :=
  let metadata := mkProofMetadata c.(cb_seq) c.(cb_digest) c.(cb_pre_prepare_ordering)
                    (length c.(cb_client_requests)) in
  let log := c.(cb_contained_messages) in
  mkDecProof metadata log.(fin_pre_prepares) log.(fin_prepares) log.(fin_commits).

Definition finalize_batch {W} (completed : CompletedBatch)
    : M t W Error ProtocolConsensusDecision :=
  modify (append_proof (proof_of_batch completed));;
  let batch := foldl bd_add_message
                 (bd_new_with_cap completed.(cb_seq) (length completed.(cb_client_requests)))
                 completed.(cb_client_requests) in
  ret (pcd_new completed.(cb_seq) batch completed.(cb_client_request_info) completed.(cb_digest)).

(** ** Lemmas *)

Lemma add_requests_eq infos b reqs :
  add_requests (infos, b) reqs = (infos ++ (rq_info <$> reqs), foldl bd_add_message b reqs).
Proof.
  unfold add_requests. revert infos b. induction reqs as [|r reqs IH]; intros infos b; cbn.
  - by rewrite app_nil_r.
  - rewrite IH, <- app_assoc. done.
Qed.

Lemma add_pre_prepares_eq infos b pps reqs :
  Forall2 (fun m r => DecProof.kind_of m = Ok (PrePrepare r)) pps reqs ->
  add_pre_prepares (infos, b) pps =
  Ok (infos ++ (rq_info <$> concat reqs), foldl bd_add_message b (concat reqs)).
Proof.
  intros H. revert infos b. induction H as [|m r pps reqs Hm H IH]; intros infos b; cbn.
  - by rewrite app_nil_r.
  - rewrite Hm. cbn. rewrite add_requests_eq, IH, fmap_app, foldl_app, app_assoc. done.
Qed.

(** The finished batch, slot by slot. *)
Lemma finish_slots (l : WorkingDecisionLog.t) :
  WorkingDecisionLog.inv l ->
  WorkingDecisionLog.current_received_pre_prepares l = length (WorkingDecisionLog.leader_set l) ->
  exists b reqs, WorkingDecisionLog.finish_processing_batch l = Ok (Some b) /\
    b.(cb_seq) = WorkingDecisionLog.seq_no l /\
    WorkingDecisionLog.batch_digest l = Some b.(cb_digest) /\
    b.(cb_pre_prepare_ordering) = DecProof.digest_of <$> b.(cb_contained_messages).(fin_pre_prepares) /\
    b.(cb_client_requests) = concat reqs /\
    b.(cb_client_request_info) ≡ₚ rq_info <$> concat reqs /\
    (length (WorkingDecisionLog.leader_set l) = 1 ->
       b.(cb_client_request_info) = rq_info <$> concat reqs) /\
    length reqs = length (WorkingDecisionLog.leader_set l) /\
    b.(cb_contained_messages).(fin_prepares) = l.(WorkingDecisionLog.message_log).(MessageLog.prepares) /\
    b.(cb_contained_messages).(fin_commits) = l.(WorkingDecisionLog.message_log).(MessageLog.commits) /\
    WorkingDecisionLog.from_of <$> b.(cb_contained_messages).(fin_pre_prepares) =
      WorkingDecisionLog.leader_set l /\
    Forall2 (fun m r => DecProof.kind_of m = Ok (PrePrepare r))
      b.(cb_contained_messages).(fin_pre_prepares) reqs.
Proof.
  intros Hinv Hfull. destruct (WorkingDecisionLog.finish_ok l Hinv Hfull)
    as (d & ord & pps & reqs & Hc & Hd & Hpps & Hreqs & Hfin).
  destruct (WorkingDecisionLog.filled_slots l d ord pps reqs Hinv Hc Hpps Hreqs) as (Hord & Hfrom & Hk).
  rewrite Hfin. eexists _, reqs. split; [reflexivity|]. cbn.
  destruct Hinv as [_ _ [_ Hlc _ _ _ _ Hrq Hone _ _] _].
  rewrite Hreqs in *. rewrite omap_id_Some, ?length_fmap in *. split_and!; done.
Qed.

(** The proof of a finished batch passes the order check and gives back the
    requests in leader order. *)
Lemma decision_of_finished b reqs :
  b.(cb_pre_prepare_ordering) = DecProof.digest_of <$> b.(cb_contained_messages).(fin_pre_prepares) ->
  Forall2 (fun m r => DecProof.kind_of m = Ok (PrePrepare r))
    b.(cb_contained_messages).(fin_pre_prepares) reqs ->
  b.(cb_client_requests) = concat reqs ->
  decision_from_proof (proof_of_batch b) =
  Ok (pcd_new b.(cb_seq)
        (foldl bd_add_message (bd_new_with_cap b.(cb_seq) (length b.(cb_client_requests)))
           b.(cb_client_requests))
        (rq_info <$> b.(cb_client_requests)) b.(cb_digest)).
Proof.
  intros Hord Hk Hreq. unfold decision_from_proof.
  rewrite (DecProof.ordered_proof_check (proof_of_batch b)) by done. cbn.
  rewrite (add_pre_prepares_eq _ _ _ _ Hk), <- Hreq. done.
Qed.

Context {L : AtlasLaws}.

(** The conversion of a proof panics or succeeds; it never returns an error. *)
Lemma decision_from_proof_no_err p e : decision_from_proof p <> Err e.
Proof.
  unfold decision_from_proof. destruct (DecProof.are_pre_prepares_ordered p) as [[]| |]; try done.
  assert (forall acc pps, add_pre_prepares acc pps <> Err e) as Hn.
  { intros acc pps. revert acc. induction pps as [|m pps IH]; intros acc; [done|]. cbn.
    unfold DecProof.kind_of, consensus. destruct (message m); cbn; try done.
    destruct (cm_kind _); cbn; try done. }
  destruct (add_pre_prepares _ _) as [[]| |] eqn:E; cbn; try done.
  intros [= ->]. by destruct (Hn _ _ E).
Qed.

Lemma sn_index_next s : sn_index (sn_next s) s = inr 1.
Proof. apply (sn_index_plus 1 s). pose proof sn_window_pos. lia. Qed.

(** The two ways [install_proof] gets past its checks, and the end of both. *)
Definition installed (p : DecProof) : Result FeDecision :=
  d ← decision_from_proof p;
  Ok (dec_full_decision_info (DecProof.sequence_number p) (DecProof.metadata p) []
        (DecProof.into_parts p).2 d).

Lemma install_proof_run {W} p l :
  let seq := DecProof.sequence_number p in
  install_proof (W := W) p l =
  match last_execution l with
  | None => mkRun (installed p) l []
  | Some s =>
      match sn_index seq s with
      | inl _ | inr 0 => mkRun (Err (ELog (CannotInstallDecisionAlreadyAhead seq s))) l []
      | inr 1 => mkRun (installed p) (append_proof p l) []
      | inr _ => mkRun (Err (ELog (CannotInstallWouldSkip seq s))) l []
      end
  end.
Proof.
  cbn zeta. unfold install_proof, installed. run.
  destruct (last_execution l) as [s|]; [destruct (sn_index _ s) as [e|[|[|n]]]|]; run; try done.
  all: pose proof (decision_from_proof_no_err p);
    destruct (decision_from_proof p) as [d|e'|]; [|by edestruct H|]; by run.
Qed.

(** Installing a proof advances the log by exactly one decision: a log
    that stands at [s] accepts only the successor of [s]; an older (or equal) or a later
    proof is refused with the matching error and leaves the log as it is.  A log
    without any decision hands out the decision of whatever proof it is given but
    stays empty: the proof is not recorded. *)
Theorem install_proof_spec {W} (p : DecProof) (l : t) :
  let r := install_proof (W := W) p l in
  let seq := DecProof.sequence_number p in
  (forall s, last_execution l = Some s -> forall d, r.(r_out) = Ok d ->
     seq = sn_next s /\ last_proof r.(r_st) = Some p) /\
  (forall e, r.(r_out) = Err e -> r.(r_st) = l /\ exists s, last_execution l = Some s /\
     ((e = ELog (CannotInstallDecisionAlreadyAhead seq s) /\ forall n, 0 < n <= sn_window -> seq <> sn_plus n s) \/
      (e = ELog (CannotInstallWouldSkip seq s) /\ exists n, 2 <= n /\ seq = sn_plus n s))) /\
  (last_execution l = None -> r.(r_st) = l) /\
  (decision_from_proof p <> Panic -> (last_execution l = None \/ exists s, last_execution l = Some s /\ seq = sn_next s) ->
     exists d, decision_from_proof p = Ok d /\
       r.(r_out) = Ok (dec_full_decision_info seq (DecProof.metadata p) [] (DecProof.into_parts p).2 d)).
Proof.
  cbn zeta. rewrite install_proof_run. unfold installed. set (seq := DecProof.sequence_number p).
  pose proof (decision_from_proof_no_err p) as Hne.
  destruct (last_execution l) as [s|] eqn:Hs.
  - assert (seq = sn_next s -> sn_index seq s = inr 1) as Hnext by (intros ->; apply sn_index_next).
    assert (forall n, n <= sn_window -> seq = sn_plus n s -> sn_index seq s = inr n) as Hplus
      by (intros n Hn ->; by apply sn_index_plus).
    destruct (sn_index seq s) as [e|[|[|n]]] eqn:Hi; cbn.
    3: { apply sn_index_sound in Hi. destruct (decision_from_proof p) as [d|e|]; cbn; [|by edestruct Hne|].
         - split_and!; try done; [by intros s' [= <-]|eauto].
         - by split_and!. }
    all: split_and!; try done; [intros e' [= <-]; split; [done|]; exists s; split; [done|]|
      intros _ [?|(s' & [= <-] & ?%Hnext)]; done].
    + left. split; [done|]. intros n Hn ?%Hplus; [done|lia].
    + left. split; [done|]. intros n Hn Hp%Hplus; [|lia]. injection Hp. lia.
    + right. split; [done|]. exists (S (S n)). apply sn_index_sound in Hi. split; [lia|done].
  - destruct (decision_from_proof p) as [d|e|]; cbn; [|by edestruct Hne|]; split_and!; try done. eauto.
Qed.

(** C19. A replica that catches up from a proof executes the batch the proof's
    owner executed: the proof [finalize_batch] records for a finished working log
    is accepted by [install_proof] on any log that stands one decision
    behind, with the same sequence number, digest and requests in the same order
    (with one leader the two decisions are the same value), and is recorded there. *)
Theorem catch_up_same_batch {W} (l : WorkingDecisionLog.t) (mine other : t) s :
  WorkingDecisionLog.inv l ->
  WorkingDecisionLog.current_received_pre_prepares l = length (WorkingDecisionLog.leader_set l) ->
  last_execution other = Some s -> WorkingDecisionLog.seq_no l = sn_next s ->
  exists b p batch infos infos',
    WorkingDecisionLog.finish_processing_batch l = Ok (Some b) /\
    finalize_batch (W := W) b mine =
      mkRun (Ok (pcd_new (WorkingDecisionLog.seq_no l) batch infos b.(cb_digest))) (append_proof p mine) [] /\
    install_proof (W := W) p other =
      mkRun (Ok (dec_full_decision_info (WorkingDecisionLog.seq_no l) (DecProof.metadata p) []
                   (DecProof.into_parts p).2
                   (pcd_new (WorkingDecisionLog.seq_no l) batch infos' b.(cb_digest))))
        (append_proof p other) [] /\
    infos' ≡ₚ infos /\ WorkingDecisionLog.batch_digest l = Some b.(cb_digest) /\
    (length (WorkingDecisionLog.leader_set l) = 1 -> infos' = infos).
Proof.
  intros Hinv Hfull Hother Hseq.
  destruct (finish_slots l Hinv Hfull)
    as (b & reqs & Hb & Hbs & Hd & Hord & Hreq & Hinfo & Hone & Hlen & Hp & Hc & _ & Hk).
  exists b, (proof_of_batch b). do 3 eexists. split; [done|]. split; [|split].
  - unfold finalize_batch. run. rewrite Hbs. reflexivity.
  - rewrite install_proof_run, Hother. change (DecProof.sequence_number _) with (cb_seq b).
    rewrite Hbs, Hseq, sn_index_next. unfold installed.
    rewrite (decision_of_finished b reqs Hord Hk Hreq). cbn. rewrite Hbs, Hseq. reflexivity.
  - rewrite Hreq. split_and!; [by rewrite Hinfo|done|]. intros H1. by rewrite (Hone H1).
Qed.
End log.
End Log.

(** No two clients sessions share a key: [operation_key_raw] is injective on
    pairs of 32-bit values and never leaves 64 bits. *)
Theorem operation_key_raw_injective (a b s t : N) :
  (a < 2 ^ 32)%N -> (b < 2 ^ 32)%N -> (s < 2 ^ 32)%N -> (t < 2 ^ 32)%N ->
  (operation_key_raw a s < 2 ^ 64)%N /\
  (operation_key_raw a s = operation_key_raw b t -> a = b /\ s = t).
Proof.
  assert (forall a s, (a < 2 ^ 32)%N -> (s < 2 ^ 32)%N -> operation_key_raw a s = (a + s * 2 ^ 32)%N) as H.
  { intros x y Hx Hy. unfold operation_key_raw. rewrite N.shiftl_mul_pow2, N.mod_small.
    2: { change (2 ^ 64)%N with (2 ^ 32 * 2 ^ 32)%N. by apply N.mul_lt_mono_pos_r. }
    symmetry. enough (N.land x (y * 2 ^ 32) = 0)%N as Hl
      by (by rewrite N.add_nocarry_lxor, N.lxor_lor).
    apply N.bits_inj. intros n. rewrite N.land_spec, N.bits_0.
    destruct (N.lt_ge_cases n 32) as [Hn|Hn].
    - rewrite N.mul_pow2_bits_low, andb_false_r; done.
    - rewrite (N.bits_above_log2 x n); [done|]. destruct (decide (x = 0%N)) as [->|Hx0]; [cbn; lia|].
      pose proof (proj1 (N.log2_lt_pow2 x 32 ltac:(lia)) Hx). lia. }
  intros Ha Hb Hs Ht. rewrite !H by done. lia.
Qed.
