(* ===== verification/Network.v ===== *)
(** * What the protocol asks of its environment

    The node handle ([OrderProtocolSendNode]) and the timeout layer
    ([TimeoutModHandle]) only receive orders; their results are discarded
    everywhere ([let _ = ...]).  An order is a value of [Effect], emitted in
    program order. *)
From S2P Require Import Prelude Atlas Errors View Messages.

(** [TimeoutID::SessionBased]. *)
Record TimeoutID := mkTimeoutID {
  t_session : SeqNo;
  t_seq_no : SeqNo;
  t_from : NodeId;
}.

Section effects.
Context {A : Atlas}.

Inductive Effect :=
  (** [node.broadcast_signed(message, targets)] *)
  | BroadcastSigned (m : PBFTMessage) (targets : list NodeId)
  (** [node.send_signed(message, target, flush)] *)
  | SendSigned (m : PBFTMessage) (target : NodeId)
  (** [node.broadcast_serialized(messages)], messages already signed *)
  | BroadcastSerialized (ms : gmap NodeId Shareable)
  (** [node.forward_requests(requests, targets)] *)
  | ForwardRequests (rqs : list (StoredMessage RQ)) (targets : list NodeId)
  (** [timeouts.request_timeouts(ids, dur, needed acks, cumulative)] *)
  | RequestTimeouts (ids : list (TimeoutID * ClientRqInfo)) (acks : nat) (cumulative : bool)
  (** [timeouts.acks_received(acks)] *)
  | AcksReceived (acks : list (TimeoutID * NodeId))
  | CancelAllTimeouts
  | ResetAllTimeouts
  (** [pre_processor.process_stopped_requests(requests)] *)
  | ProcessStoppedRequests (rqs : list (StoredMessage RQ)).

(** The consensus messages an order hands to the network, with their receiver. *)
Definition sent_of (e : Effect) : list (NodeId * PBFTMessage) :=
  match e with
  | BroadcastSigned m targets => (fun t => (t, m)) <$> targets
  | SendSigned m target => [(target, m)]
  | BroadcastSerialized ms => (fun x => (x.1, x.2.(message))) <$> map_to_list ms
  | _ => []
  end.

Definition sent (l : list Effect) : list (NodeId * PBFTMessage) := l ≫= sent_of.

Lemma sent_app l k : sent (l ++ k) = sent l ++ sent k.
Proof. unfold sent. apply bind_app. Qed.

(** [WireMessage::new(my_id, peer, .., digest, key_pair)]: the header of a
    message signed by this node for one peer. *)
Class WireFormat := {
  wire_header : NodeId -> NodeId -> PBFTMessage -> Header;
}.
Class WireFormatLaws {WF : WireFormat} : Prop := {
  wire_header_from : forall me peer m, hdr_from (wire_header me peer m) = me;
}.
End effects.

(** [transform_client_rq_to_timeouts] and [transform_client_rq_to_timeouts_ack]
    ([bft/sync/replica_sync/mod.rs]). *)
Definition timeout_id (rq : ClientRqInfo) : TimeoutID :=
  mkTimeoutID rq.(rq_session) rq.(rq_seq_no) rq.(rq_sender).
Definition transform_client_rq_to_timeouts (rqs : list ClientRqInfo)
    : list (TimeoutID * ClientRqInfo) := (fun rq => (timeout_id rq, rq)) <$> rqs.
Definition transform_client_rq_to_timeouts_ack (rqs : list ClientRqInfo) (from : NodeId)
    : list (TimeoutID * NodeId) := (fun rq => (timeout_id rq, from)) <$> rqs.
