(* ===== verification/SyncAccessory.v ===== *)
(** * What a consensus instance needs from the synchronizer

    [ConsensusDecision] reads the current view and reports every batch it
    receives; [SyncHandle] is that interface and [SyncHandleLaws] its contract.
    The replica and the follower accessories of the synchronizer
    ([bft/sync/replica_sync/mod.rs], [bft/sync/follower_sync/mod.rs]) both
    implement it. *)
From S2P Require Import Prelude Atlas Errors View Messages Network.

Section interface.
Context {A : Atlas}.

(** [view()] and [request_batch_received(header, pre_prepare, timeouts)]. *)
Class SyncHandle (Sy : Type) := {
  sy_view : Sy -> ViewInfo.t;
  sy_request_batch_received : Sy -> Header -> ConsensusMessage -> Result (list ClientRqInfo) * list Effect;
}.

(** The batch is reported back request by request, in order, and nothing is
    handed to the network. *)
Class SyncHandleLaws (Sy : Type) {SH : SyncHandle Sy} : Prop := {
  sy_batch_infos : forall sy h c rqs, c.(cm_kind) = PrePrepare rqs ->
    exists eff, sy_request_batch_received sy h c = (Ok (rq_info <$> rqs), eff) /\ sent eff = [];
}.

(** ** The loops of the two accessories *)

(** [for x in requests { digests.push(ClientRqInfo::new(..)) }]. *)
Definition batch_digests (requests : list (StoredMessage RQ)) : list ClientRqInfo :=
  foldl (fun digests x => digests ++ [rq_info x]) [] requests.

Lemma batch_digests_eq rqs : batch_digests rqs = rq_info <$> rqs.
Proof.
  unfold batch_digests. induction rqs as [|x rqs IH] using rev_ind; [done|].
  rewrite foldl_snoc, IH, fmap_app. done.
Qed.
End interface.

Module ReplicaSynchronizer.
Section replica.
Context {A : Atlas}.

Definition received_request_batch (h : Header) (pre_prepare : ConsensusMessage)
    : Result (list ClientRqInfo) * list Effect :=
  match pre_prepare.(cm_kind) with
  | PrePrepare requests =>
      let digests := batch_digests requests in
      let timeout_info := batch_digests requests in
      (Ok digests, [AcksReceived (transform_client_rq_to_timeouts_ack timeout_info (hdr_from h))])
  | _ => (Panic, [])
  end.

(** [timeouts.request_timeouts(.., 1, true)]. *)
Definition watch_received_requests (requests : list ClientRqInfo) : list Effect :=
  [RequestTimeouts (transform_client_rq_to_timeouts requests) 1 true].
End replica.
End ReplicaSynchronizer.

Module FollowerSynchronizer.
Section follower.
Context {A : Atlas}.

Definition watch_request_batch (pre_prepare : ConsensusMessage) : Result (list ClientRqInfo) :=
  match pre_prepare.(cm_kind) with
  | PrePrepare requests => Ok (batch_digests requests)
  | _ => Panic
  end.
End follower.
End FollowerSynchronizer.

(** ** The dispatch of [Synchronizer::request_batch_received] *)

Inductive SynchronizerRole := ReplicaRole | FollowerRole.

Section dispatch.
Context {A : Atlas}.

Definition request_batch_received (role : SynchronizerRole) (h : Header)
    (pre_prepare : ConsensusMessage) : Result (list ClientRqInfo) * list Effect :=
  match role with
  | ReplicaRole => ReplicaSynchronizer.received_request_batch h pre_prepare
  | FollowerRole => (FollowerSynchronizer.watch_request_batch pre_prepare, [])
  end.

(** A synchronizer as the consensus sees it: its role and its current view. *)
#[global] Instance role_handle : SyncHandle (SynchronizerRole * ViewInfo.t) := {
  sy_view := snd;
  sy_request_batch_received sy h c := request_batch_received sy.1 h c;
}.

#[global] Instance role_handle_laws : SyncHandleLaws (SynchronizerRole * ViewInfo.t).
Proof.
  split. intros [[] v] h c rqs Hk; cbn;
    unfold ReplicaSynchronizer.received_request_batch, FollowerSynchronizer.watch_request_batch;
    rewrite Hk, batch_digests_eq; eauto.
Qed.
End dispatch.
