(* ===== verification/Accessory.v ===== *)
(** * The accessory of a consensus instance ([bft/consensus/accessory])

    On a replica the accessory sends the votes.  When the proposals are complete
    it broadcasts the PREPARE and starts a job of the thread pool that signs one
    COMMIT per peer in advance; on a quorum of PREPAREs it sends those commits if
    the job is done, and signs a COMMIT on the spot otherwise.  The job shares
    the map of commits with the replica thread: its remaining insertions are part
    of the state, and [tick] performs one of them at an arbitrary moment. *)
From S2P Require Import Prelude Atlas Errors View Messages Deciding Network.

Module ReplicaAccessory.
Section replica_accessory.
Context {A : Atlas} {WF : WireFormat}.

Record t := mk {
  speculative_commits : gmap NodeId Shareable;
  (** Insertions the jobs of the thread pool have still to do. *)
  jobs : list (list (NodeId * Shareable));
}.

Definition new : t := mk ∅ [].

(** The next insertion of the [j]-th job, under the lock of the map. *)
Definition tick (j : nat) (a : t) : t :=
  match a.(jobs) !! j with
  | Some ((peer_id, stored) :: rest) =>
      mk (<[peer_id := stored]> a.(speculative_commits)) (<[j := rest]> a.(jobs))
  | _ => a
  end.

Definition take_speculative_commits {W} : M t W Error (gmap NodeId Shareable) :=
  self ← get;
  put (mk ∅ self.(jobs));;
  ret self.(speculative_commits).

Definition valid_spec_commits (commits : gmap NodeId Shareable) (seq_no : SeqNo)
    (view : ViewInfo.t) : bool :=
  if decide (size commits <> ViewInfo.n view) then false
  else forallb (fun '(_, commit) => bool_decide (msg_sequence_number commit.(message) = seq_no))
         (map_to_list commits).

(** The body of the thread-pool job: one signed commit per peer. *)
Definition commit_job (me : NodeId) (m : PBFTMessage) (n : nat) : list (NodeId * Shareable) :=
  (fun peer_id => (peer_id, mkStored (wire_header me peer_id m) m)) <$> node_targets n.

Definition vote (nonce : N) (log : WorkingDecisionLog.t) (view : ViewInfo.t)
    (kind : ConsensusMessageKind) : PBFTMessage :=
  Consensus (ConsensusMessage_new nonce (WorkingDecisionLog.seq_no log) (ViewInfo.sequence_number view) kind).

Definition handle_partial_pre_prepare : M t Effect Error unit := ret tt.

Definition handle_pre_prepare_phase_completed (rng : nat -> N) (me : NodeId)
    (deciding_log : WorkingDecisionLog.t) (view : ViewInfo.t) : M t Effect Error unit :=
  current_digest ← unwrap (WorkingDecisionLog.current_digest deciding_log);
  let commit := vote (rng 0) deciding_log view (Commit current_digest) in
  modify (fun a => mk a.(speculative_commits)
                     (a.(jobs) ++ [commit_job me commit (ViewInfo.n view)]));;
  let message := vote (rng 1) deciding_log view (Prepare current_digest) in
  emit [BroadcastSigned message view.(ViewInfo.quorum_members)].

Definition handle_preparing_no_quorum : M t Effect Error unit := ret tt.

Definition handle_preparing_quorum (rng : nat -> N) (deciding_log : WorkingDecisionLog.t)
    (view : ViewInfo.t) : M t Effect Error unit :=
  current_digest ← unwrap (WorkingDecisionLog.current_digest deciding_log);
  commits ← take_speculative_commits;
  if valid_spec_commits commits (WorkingDecisionLog.seq_no deciding_log) view
  then emit [BroadcastSerialized commits]
  else
    let message := vote (rng 0) deciding_log view (Commit current_digest) in
    emit [BroadcastSigned message view.(ViewInfo.quorum_members)].

Definition handle_committing_no_quorum : M t Effect Error unit := ret tt.
Definition handle_committing_quorum : M t Effect Error unit := ret tt.

(** ** Every commit prepared in advance is the vote of this replica *)

(** [m] is a COMMIT for the digest, sequence number and view of the instance. *)
Definition commits_to (seq view : SeqNo) (d : Digest) (m : PBFTMessage) : Prop :=
  exists nonce, m = Consensus (mkConsensusMessage seq view nonce (Commit d)).

Definition prepares_for (seq view : SeqNo) (d : Digest) (m : PBFTMessage) : Prop :=
  exists nonce, m = Consensus (mkConsensusMessage seq view nonce (Prepare d)).

Definition spec_inv (P : NodeId -> PBFTMessage -> Prop) (a : t) : Prop :=
  map_Forall (fun peer (x : Shareable) => P peer x.(message)) a.(speculative_commits) /\
  Forall (Forall (fun x : NodeId * Shareable => P x.1 x.2.(message))) a.(jobs).

Lemma new_spec_inv P : spec_inv P new.
Proof. split; [apply map_Forall_empty|constructor]. Qed.

Lemma tick_inv P j a : spec_inv P a -> spec_inv P (tick j a).
Proof.
  intros [Hm Hj]. unfold tick. destruct (jobs a !! j) as [[|[peer x] rest]|] eqn:E; try by split.
  pose proof (Forall_lookup_1 _ _ _ _ Hj E) as Hx. apply Forall_cons in Hx as [Hx Hrest].
  split; cbn; [by apply map_Forall_insert_2|by apply Forall_insert].
Qed.

Lemma completed_run rng me l v a d :
  WorkingDecisionLog.batch_digest l = Some d ->
  handle_pre_prepare_phase_completed rng me l v a =
  mkRun (Ok tt)
    (mk a.(speculative_commits)
       (a.(jobs) ++ [commit_job me (vote (rng 0) l v (Commit d)) (ViewInfo.n v)]))
    [BroadcastSigned (vote (rng 1) l v (Prepare d)) v.(ViewInfo.quorum_members)].
Proof.
  intros Hd. unfold handle_pre_prepare_phase_completed, WorkingDecisionLog.current_digest.
  rewrite Hd. by run.
Qed.

Lemma completed_inv (P : NodeId -> PBFTMessage -> Prop) a me m n :
  spec_inv P a -> (forall peer, peer ∈ node_targets n -> P peer m) ->
  spec_inv P (mk a.(speculative_commits) (a.(jobs) ++ [commit_job me m n])).
Proof.
  intros [Hm Hj] HP. split; [done|]. cbn. apply Forall_app. split; [done|].
  apply Forall_singleton. unfold commit_job. apply Forall_fmap, Forall_forall. apply HP.
Qed.

Lemma quorum_run rng l v a d :
  WorkingDecisionLog.batch_digest l = Some d ->
  handle_preparing_quorum rng l v a =
  mkRun (Ok tt) (mk ∅ a.(jobs))
    [if valid_spec_commits a.(speculative_commits) (WorkingDecisionLog.seq_no l) v
     then BroadcastSerialized a.(speculative_commits)
     else BroadcastSigned (vote (rng 0) l v (Commit d)) v.(ViewInfo.quorum_members)].
Proof.
  intros Hd. unfold handle_preparing_quorum, WorkingDecisionLog.current_digest.
  rewrite Hd. run. erewrite bind_Ok_nil; [|reflexivity].
  by destruct (valid_spec_commits _ _ _).
Qed.

Lemma taken_inv P a : spec_inv P a -> spec_inv P (mk ∅ a.(jobs)).
Proof. intros [_ Hj]. split; [apply map_Forall_empty|done]. Qed.

(** Whichever way the commits are sent, each of them is this replica's commit. *)
Lemma quorum_sent rng l v a d to m :
  WorkingDecisionLog.batch_digest l = Some d ->
  spec_inv (fun _ => commits_to (WorkingDecisionLog.seq_no l) (ViewInfo.seq v) d) a ->
  (to, m) ∈ sent (handle_preparing_quorum rng l v a).(r_eff) ->
  commits_to (WorkingDecisionLog.seq_no l) (ViewInfo.seq v) d m.
Proof.
  intros Hd [Hm _]. rewrite (quorum_run rng l v a d Hd). cbn. rewrite app_nil_r.
  destruct (valid_spec_commits _ _ _); cbn.
  - intros ([p x] & Heq & Hin)%list_elem_of_fmap. cbn in Heq. simplify_eq.
    apply elem_of_map_to_list in Hin. apply (Hm _ _ Hin).
  - intros (t' & Heq & _)%list_elem_of_fmap. simplify_eq. by exists (rng 0).
Qed.

Lemma valid_spec_size mp s v : valid_spec_commits mp s v = true -> size mp = ViewInfo.n v.
Proof.
  unfold valid_spec_commits. destruct (decide (size mp = ViewInfo.n v)); [done|].
  by rewrite decide_True.
Qed.

Context {L : AtlasLaws}.

(** A full map of one message for the peers [0..n] reaches every one of them once. *)
Lemma full_map_targets (mp : gmap NodeId Shareable) m n :
  map_Forall (fun peer (x : Shareable) => x.(message) = m /\ peer ∈ node_targets n) mp -> size mp = n ->
  sent [BroadcastSerialized mp] ≡ₚ (fun peer => (peer, m)) <$> node_targets n.
Proof.
  intros Hmp Hsz. cbn. rewrite app_nil_r.
  assert ((fun x : NodeId * Shareable => (x.1, x.2.(message))) <$> map_to_list mp =
          (fun peer => (peer, m)) <$> (map_to_list mp).*1) as ->.
  { rewrite <- list_fmap_compose. apply list_fmap_ext. intros i [peer x] Hi%list_elem_of_lookup_2.
    apply elem_of_map_to_list in Hi. by destruct (Hmp _ _ Hi) as [<- _]. }
  apply fmap_Permutation, submseteq_length_Permutation.
  - apply NoDup_submseteq; [apply NoDup_fst_map_to_list|].
    intros peer ([p x] & -> & Hin)%list_elem_of_fmap. apply elem_of_map_to_list in Hin.
    by destruct (Hmp _ _ Hin).
  - rewrite length_fmap, length_map_to_list, ViewInfo.targets_length. lia.
Qed.

(** C29. Signing the commits ahead of time changes nothing for the peers, in a view whose
    members are the nodes 0 to n-1 (in other views it does, see [speculative_commits_miss]).
    After the proposals are complete, the thread pool may perform any part of its job
    ([js] lists the steps it gets) before the quorum of PREPAREs arrives:
    every member is still sent exactly one COMMIT, for the digest, sequence number
    and view of this instance. *)
Theorem speculative_commits_equivalent (rng rng' : nat -> N) me l v d (js : list nat) :
  WorkingDecisionLog.batch_digest l = Some d ->
  v.(ViewInfo.quorum_members) = node_targets (ViewInfo.n v) ->
  let r := handle_pre_prepare_phase_completed rng me l v new in
  let r' := handle_preparing_quorum rng' l v (foldl (fun a j => tick j a) r.(r_st) js) in
  r.(r_out) = Ok tt /\ r'.(r_out) = Ok tt /\
  sent r.(r_eff) = (fun peer => (peer, vote (rng 1) l v (Prepare d))) <$> v.(ViewInfo.quorum_members) /\
  exists nonce, sent r'.(r_eff) ≡ₚ
    (fun peer => (peer, vote nonce l v (Commit d))) <$> v.(ViewInfo.quorum_members).
Proof.
  intros Hd Hq r r'. subst r r'. rewrite (completed_run _ _ _ _ _ _ Hd). cbn [r_st].
  set (P := fun peer m => m = vote (rng 0) l v (Commit d) /\ peer ∈ node_targets (ViewInfo.n v)).
  match goal with |- context [foldl ?f ?a js] => assert (spec_inv P (foldl f a js)) as [Hm _] end.
  { induction js as [|j js IH] using rev_ind; cbn [foldl].
    - apply (completed_inv P new); [apply new_spec_inv|]. by split.
    - rewrite foldl_snoc. by apply tick_inv. }
  rewrite (quorum_run _ _ _ _ _ Hd). split_and!; [done|done|cbn; by rewrite app_nil_r|].
  cbn [r_eff]. destruct (valid_spec_commits _ _ _) eqn:Hv.
  - exists (rng 0). rewrite Hq. apply full_map_targets; [done|].
    by eapply valid_spec_size.
  - exists (rng' 0). cbn. by rewrite app_nil_r.
Qed.
(** *** A job that ran to its end *)

Lemma ticks_all mp job :
  foldl (fun a j => tick j a) (mk mp [job]) (replicate (length job) 0) =
  mk (foldl (fun mp p => <[p.1 := p.2]> mp) mp job) [[]].
Proof. revert mp. induction job as [|[peer x] job IH]; intros mp; [done|]. cbn. apply IH. Qed.

Lemma inserted_dom (mp : gmap NodeId Shareable) (job : list (NodeId * Shareable)) :
  dom (foldl (fun mp p => <[p.1 := p.2]> mp) mp job) = dom mp ∪ list_to_set job.*1.
Proof. revert mp. induction job as [|[peer x] job IH]; intros mp; cbn; [set_solver|]. rewrite IH, dom_insert_L. set_solver. Qed.

Lemma inserted_forall (P : NodeId -> Shareable -> Prop) (mp : gmap NodeId Shareable) (job : list (NodeId * Shareable)) :
  map_Forall P mp -> Forall (fun p => P p.1 p.2) job -> map_Forall P (foldl (fun mp p => <[p.1 := p.2]> mp) mp job).
Proof.
  revert mp. induction job as [|[peer x] job IH]; intros mp Hmp Hj; cbn; [done|]. apply Forall_cons in Hj as [Hx Hj].
  apply IH; [|done]. by apply map_Forall_insert_2.
Qed.

(** COMMITs signed ahead of time may miss members.  They are addressed to the nodes [0..n], not to the members of the view.  For a member with another
    id it depends on the speed of the thread pool whether it is sent a COMMIT: it is when the job has not started, and it is not when the job is done. *)
Theorem speculative_commits_miss (rng rng' : nat -> N) me l v d x :
  WorkingDecisionLog.batch_digest l = Some d -> ViewInfo.n v <> 0 ->
  x ∈ v.(ViewInfo.quorum_members) -> x ∉ node_targets (ViewInfo.n v) ->
  let r := handle_pre_prepare_phase_completed rng me l v new in
  let r' js := handle_preparing_quorum rng' l v (foldl (fun a j => tick j a) r.(r_st) js) in
  (x, vote (rng' 0) l v (Commit d)) ∈ sent (r' []).(r_eff) /\
  forall m, (x, m) ∉ sent (r' (replicate (ViewInfo.n v) 0)).(r_eff).
Proof.
  intros Hd Hn Hx Hout r r'. subst r r'. cbn beta. rewrite (completed_run _ _ _ _ _ _ Hd). cbn [r_st].
  rewrite !(quorum_run _ _ _ _ _ Hd). cbn [r_eff]. split.
  { cbn [foldl speculative_commits new]. unfold valid_spec_commits. rewrite map_size_empty, decide_True by lia. cbn. rewrite app_nil_r.
    apply list_elem_of_fmap. eauto. }
  set (c := vote (rng 0) l v (Commit d)). assert (length (commit_job me c (ViewInfo.n v)) = ViewInfo.n v) as Hlen
    by (unfold commit_job; by rewrite length_fmap, ViewInfo.targets_length).
  cbn [new speculative_commits jobs app]. pose proof (ticks_all ∅ (commit_job me c (ViewInfo.n v))) as Ht. rewrite Hlen in Ht.
  rewrite Ht. cbn [speculative_commits].
  set (mp := foldl _ _ _).
  assert (dom mp = list_to_set (node_targets (ViewInfo.n v))) as Hdom.
  { subst mp. rewrite inserted_dom, dom_empty_L. unfold commit_job. rewrite <- list_fmap_compose. cbn. rewrite list_fmap_id. set_solver. }
  assert (map_Forall (fun _ (y : Shareable) => y.(message) = c) mp) as Hall.
  { apply inserted_forall; [apply map_Forall_empty|]. unfold commit_job. by apply Forall_fmap, Forall_true. }
  assert (valid_spec_commits mp (WorkingDecisionLog.seq_no l) v = true) as ->.
  { unfold valid_spec_commits. rewrite decide_False.
    - apply forallb_forall. intros [peer y] Hy%list_elem_of_In%elem_of_map_to_list. apply bool_decide_eq_true. by rewrite (Hall _ _ Hy).
    - rewrite <- size_dom, Hdom, size_list_to_set_NoDup, ViewInfo.targets_length; [lia|apply ViewInfo.targets_NoDup]. }
  intros m. cbn. rewrite app_nil_r. intros ([peer y] & Heq & Hin)%list_elem_of_fmap. injection Heq as -> _.
  apply elem_of_map_to_list, elem_of_dom_2 in Hin. rewrite Hdom in Hin. by apply elem_of_list_to_set in Hin.
Qed.
End replica_accessory.
End ReplicaAccessory.

(** ** The dispatch on the role *)

Section dispatch.
Context {A : Atlas} {WF : WireFormat}.

Inductive ConsensusDecisionAccessory :=
  | Follower
  | Replica (rep : ReplicaAccessory.t).

(** [match self { Follower => {}, Replica(rep) => rep.handle(..) }]. *)
Definition on_replica (m : M ReplicaAccessory.t Effect Error unit)
    : M ConsensusDecisionAccessory Effect Error unit :=
  fun a => match a with
           | Follower => mkRun (Ok tt) Follower []
           | Replica rep => let r := m rep in mkRun r.(r_out) (Replica r.(r_st)) r.(r_eff)
           end.

Definition handle_partial_pre_prepare := on_replica ReplicaAccessory.handle_partial_pre_prepare.
Definition handle_pre_prepare_phase_completed rng me log view :=
  on_replica (ReplicaAccessory.handle_pre_prepare_phase_completed rng me log view).
Definition handle_preparing_no_quorum := on_replica ReplicaAccessory.handle_preparing_no_quorum.
Definition handle_preparing_quorum rng log view :=
  on_replica (ReplicaAccessory.handle_preparing_quorum rng log view).
Definition handle_committing_no_quorum := on_replica ReplicaAccessory.handle_committing_no_quorum.
Definition handle_committing_quorum := on_replica ReplicaAccessory.handle_committing_quorum.

(** One step of the thread pool. *)
Definition accessory_tick (j : nat) (a : ConsensusDecisionAccessory) : ConsensusDecisionAccessory :=
  match a with Follower => Follower | Replica rep => Replica (ReplicaAccessory.tick j rep) end.
End dispatch.
