(* ===== verification/Decision.v ===== *)
(** * One consensus instance ([bft/consensus/decision/mod.rs])

    A [ConsensusDecision] goes through the phases Initialize, PrePreparing,
    Preparing, Committing and Decided.  Messages of a later phase wait in its
    queue; [poll] says what to do next and [process_message] is the whole
    handler of a message. *)
From S2P Require Import Prelude Atlas Errors View Messages Decisions Deciding Network.
From S2P Require Import SyncAccessory Accessory.

(** ** Data *)

Inductive DecisionPhase :=
  | Initialize
  | PrePreparing (received : nat)
  | Preparing (received : nat)
  | Committing (received : nat)
  | PhaseDecided.

#[global] Instance DecisionPhase_eq_dec : EqDecision DecisionPhase.
Proof. solve_decision. Defined.

Section data.
Context {A : Atlas}.

Inductive DecisionPollStatus :=
  | TryPropose
  | Recv
  | NextMessage (m : Shareable)
  | PollDecided.

Inductive DecisionStatus :=
  | VotedTwice (n : NodeId)
  | MessageIgnored
  | MessageQueued
  | Deciding (m : Shareable)
  | Transitioned (md : option ProofMetadata) (m : Shareable)
  | Decided (m : Shareable)
  | DecidedIgnored.
End data.

(** ** The message queue *)

Module MessageQueue.
Section message_queue.
Context {A : Atlas}.

Record t := mk {
  get_queue : bool;
  pre_prepares : list Shareable;
  prepares : list Shareable;
  commits : list Shareable;
}.

Definition new : t := mk false [] [] [].

Definition is_empty {X} (l : list X) : bool := match l with [] => true | _ => false end.

Definition from_messages (pre_prepares prepares commits : list Shareable) : t :=
  mk (negb (is_empty pre_prepares) || negb (is_empty prepares) || negb (is_empty commits))
    pre_prepares prepares commits.

Definition signal (q : t) : t := mk true q.(pre_prepares) q.(prepares) q.(commits).
Definition is_signalled (q : t) : bool := q.(get_queue).

Definition queue_pre_prepare (m : Shareable) (q : t) : t :=
  signal (mk q.(get_queue) (q.(pre_prepares) ++ [m]) q.(prepares) q.(commits)).
Definition queue_prepare (m : Shareable) (q : t) : t :=
  signal (mk q.(get_queue) q.(pre_prepares) (q.(prepares) ++ [m]) q.(commits)).
Definition queue_commit (m : Shareable) (q : t) : t :=
  signal (mk q.(get_queue) q.(pre_prepares) q.(prepares) (q.(commits) ++ [m])).
End message_queue.
End MessageQueue.

Module ConsensusDecision.
Section consensus_decision.
Context {A : Atlas} {WF : WireFormat} {Sy : Type} {SH : SyncHandle Sy}.

Record t := mk {
  node_id : NodeId;
  seq : SeqNo;
  phase : DecisionPhase;
  message_queue : MessageQueue.t;
  working_log : WorkingDecisionLog.t;
  accessory : ConsensusDecisionAccessory;
}.

Definition set_phase x d :=
  mk d.(node_id) d.(seq) x d.(message_queue) d.(working_log) d.(accessory).
Definition set_message_queue x d :=
  mk d.(node_id) d.(seq) d.(phase) x d.(working_log) d.(accessory).
Definition set_working_log x d :=
  mk d.(node_id) d.(seq) d.(phase) d.(message_queue) x d.(accessory).
Definition set_accessory x d :=
  mk d.(node_id) d.(seq) d.(phase) d.(message_queue) d.(working_log) x.

Definition on_queue (f : MessageQueue.t -> MessageQueue.t) (d : t) : t :=
  set_message_queue (f d.(message_queue)) d.

Definition init_with_msg_log (node_id : NodeId) (seq_no : SeqNo) (view : ViewInfo.t)
    (message_queue : MessageQueue.t) : t :=
  mk node_id seq_no Initialize message_queue (WorkingDecisionLog.new node_id seq_no view)
    (Replica ReplicaAccessory.new).

Definition init_decision (node_id : NodeId) (seq_no : SeqNo) (view : ViewInfo.t) : t :=
  init_with_msg_log node_id seq_no view MessageQueue.new.

Definition queue {W} (m : Shareable) : M t W Error unit :=
  message ← lift (consensus m.(message));
  match message.(cm_kind) with
  | PrePrepare _ => modify (on_queue (MessageQueue.queue_pre_prepare m))
  | Prepare _ => modify (on_queue (MessageQueue.queue_prepare m))
  | Commit _ => modify (on_queue (MessageQueue.queue_commit m))
  end.

(** [extract_msg!]: pop the queue of the current phase, or stop looking at it. *)
Definition extract_msg (l : list Shareable) (rest : list Shareable -> MessageQueue.t)
    (empty : MessageQueue.t) (d : t) : DecisionPollStatus * t :=
  match l with
  | stored :: l => (NextMessage stored, set_message_queue (rest l) d)
  | [] => (Recv, set_message_queue empty d)
  end.

Definition poll (d : t) : DecisionPollStatus * t :=
  let q := d.(message_queue) in
  let '(MessageQueue.mk g pp p c) := q in
  let empty := MessageQueue.mk false pp p c in
  match d.(phase) with
  | Initialize => (TryPropose, set_phase (PrePreparing 0) d)
  | PrePreparing _ =>
      if g then extract_msg pp (fun pp => MessageQueue.mk g pp p c) empty d else (Recv, d)
  | Preparing _ =>
      if g then extract_msg p (fun p => MessageQueue.mk g pp p c) empty d else (Recv, d)
  | Committing _ =>
      if g then extract_msg c (fun c => MessageQueue.mk g pp p c) empty d else (Recv, d)
  | PhaseDecided => (PollDecided, d)
  end.

Definition skip_init_phase (d : t) : t := set_phase (PrePreparing 0) d.

Definition update_current_view (view : ViewInfo.t) (d : t) : t :=
  set_working_log (WorkingDecisionLog.update_current_view view d.(working_log)) d.

(** The free function [request_batch_received]: count the requests of the batch
    and report them to the synchronizer. *)
Definition request_batch_received (sy : Sy) (h : Header) (pre_prepare : ConsensusMessage)
    : M WorkingDecisionLog.t Effect Error (list ClientRqInfo) :=
  len ← match pre_prepare.(cm_kind) with PrePrepare req => ret (length req) | _ => panic end;
  modify (fun l => WorkingDecisionLog.set_batch_meta
                     (mkBatchMeta (l.(WorkingDecisionLog.batch_meta).(batch_size) + len)) l);;
  let '(digests, eff) := sy_request_batch_received sy h pre_prepare in
  emit eff;;
  lift digests.

(** *** [process_message], phase by phase

    [rng] draws the nonces of the votes; [node] is [node.id()]. *)
Section handlers.
Context (rng : nat -> N) (node : NodeId) (sy : Sy).

(** The arm of [PrePreparing] after the guards. *)
Definition accept_pre_prepare (s_message : Shareable) (message : ConsensusMessage) (received : nat)
    : M t Effect Error DecisionStatus :=
  let view := sy_view sy in
  digests ← zoom working_log set_working_log
              (request_batch_received sy s_message.(header) message);
  batch_metadata ← zoom working_log set_working_log
    (WorkingDecisionLog.process_pre_prepare s_message (hdr_digest s_message.(header)) digests);
  self ← get;
  if decide (received = length view.(ViewInfo.leader_set)) then
    batch_metadata ← unwrap batch_metadata;
    zoom accessory set_accessory
      (handle_pre_prepare_phase_completed rng node self.(working_log) view);;
    modify (on_queue MessageQueue.signal);;
    modify (set_phase (Preparing 0));;
    ret (Transitioned (Some batch_metadata) s_message)
  else
    zoom accessory set_accessory handle_partial_pre_prepare;;
    modify (set_phase (PrePreparing received));;
    ret (Deciding s_message).

Definition process_pre_preparing (s_message : Shareable) (message : ConsensusMessage)
    (received : nat) : M t Effect Error DecisionStatus :=
  let view := sy_view sy in
  self ← get;
  match message.(cm_kind) with
  | PrePrepare _ =>
      if decide (message.(cm_view) <> ViewInfo.sequence_number view) then ret MessageIgnored
      else if decide (hdr_from s_message.(header) ∉ view.(ViewInfo.leader_set)) then ret MessageIgnored
      else if decide (message.(cm_seq) <> self.(seq)) then ret MessageIgnored
      else accept_pre_prepare s_message message (received + 1)
  | Prepare _ => modify (on_queue (MessageQueue.queue_prepare s_message));; ret MessageQueued
  | Commit _ => modify (on_queue (MessageQueue.queue_commit s_message));; ret MessageQueued
  end.

Definition accept_prepare (s_message : Shareable) (received : nat)
    : M t Effect Error DecisionStatus :=
  let view := sy_view sy in
  zoom working_log set_working_log (WorkingDecisionLog.process_message s_message);;
  self ← get;
  if decide (received = ViewInfo.quorum view) then
    _current_digest ← unwrap (WorkingDecisionLog.current_digest self.(working_log));
    zoom accessory set_accessory (handle_preparing_quorum rng self.(working_log) view);;
    modify (on_queue MessageQueue.signal);;
    modify (set_phase (Committing 0));;
    ret (Transitioned None s_message)
  else
    zoom accessory set_accessory handle_preparing_no_quorum;;
    modify (set_phase (Preparing received));;
    ret (Deciding s_message).

Definition process_preparing (s_message : Shareable) (message : ConsensusMessage)
    (received : nat) : M t Effect Error DecisionStatus :=
  let view := sy_view sy in
  self ← get;
  match message.(cm_kind) with
  | PrePrepare _ => ret MessageIgnored
  | Commit _ => modify (on_queue (MessageQueue.queue_commit s_message));; ret MessageQueued
  | Prepare d =>
      if decide (message.(cm_view) <> ViewInfo.sequence_number view) then ret MessageIgnored
      else if decide (message.(cm_seq) <> self.(seq)) then ret MessageIgnored
      else
        current ← unwrap (WorkingDecisionLog.current_digest self.(working_log));
        if decide (d <> current) then ret MessageIgnored
        else accept_prepare s_message (received + 1)
  end.

Definition accept_commit (s_message : Shareable) (received : nat)
    : M t Effect Error DecisionStatus :=
  let view := sy_view sy in
  zoom working_log set_working_log (WorkingDecisionLog.process_message s_message);;
  if decide (received = ViewInfo.quorum view) then
    modify (set_phase PhaseDecided);;
    zoom accessory set_accessory handle_committing_quorum;;
    ret (Decided s_message)
  else
    modify (set_phase (Committing received));;
    zoom accessory set_accessory handle_committing_no_quorum;;
    ret (Deciding s_message).

Definition process_committing (s_message : Shareable) (message : ConsensusMessage)
    (received : nat) : M t Effect Error DecisionStatus :=
  let view := sy_view sy in
  self ← get;
  match message.(cm_kind) with
  | Commit d =>
      if decide (message.(cm_seq) <> self.(seq)) then ret MessageIgnored
      else if decide (message.(cm_view) <> ViewInfo.sequence_number view) then ret MessageIgnored
      else
        current ← unwrap (WorkingDecisionLog.current_digest self.(working_log));
        if decide (d <> current) then ret MessageIgnored
        else accept_commit s_message (received + 1)
  | _ => ret MessageIgnored
  end.

Definition process_message (s_message : Shareable) : M t Effect Error DecisionStatus :=
  message ← lift (consensus s_message.(message));
  self ← get;
  match self.(phase) with
  | Initialize => queue s_message;; ret MessageQueued
  | PrePreparing received => process_pre_preparing s_message message received
  | Preparing received => process_preparing s_message message received
  | Committing received => process_committing s_message message received
  | PhaseDecided => ret DecidedIgnored
  end.
End handlers.

Definition is_finalizeable (d : t) : bool := bool_decide (d.(phase) = PhaseDecided).

Definition finalize (d : t) : Result CompletedBatch :=
  match d.(phase) with
  | PhaseDecided =>
      b ← WorkingDecisionLog.finish_processing_batch d.(working_log);
      match b with
      | Some b => Ok b
      | None => Err (EDecision (FailedToFinalizeBatch d.(seq)))
      end
  | _ => Err (EDecision (CannotFinalizeUndecidedBatch d.(seq)))
  end.

Definition deciding (f : nat) (d : t) : Result IncompleteProof :=
  WorkingDecisionLog.deciding f d.(working_log).

Definition sequence_number (d : t) : SeqNo := d.(seq).

(** ** The invariant of an instance in view [v] *)

(** A stored vote carries the view and sequence number of the instance and the
    digest of the batch. *)
Definition good_vote (v : ViewInfo.t) (l : WorkingDecisionLog.t)
    (K : Digest -> ConsensusMessageKind) (m : Shareable) : Prop :=
  exists nonce d, WorkingDecisionLog.batch_digest l = Some d /\
    m.(message) = Consensus (mkConsensusMessage (WorkingDecisionLog.seq_no l) v.(ViewInfo.seq) nonce (K d)).

Definition good_proposal (v : ViewInfo.t) (l : WorkingDecisionLog.t) (m : Shareable) : Prop :=
  exists nonce rqs,
    m.(message) = Consensus (mkConsensusMessage (WorkingDecisionLog.seq_no l) v.(ViewInfo.seq) nonce
                               (PrePrepare rqs)).

Definition commits_ahead (v : ViewInfo.t) (l : WorkingDecisionLog.t) (a : ConsensusDecisionAccessory) : Prop :=
  match a with
  | Follower => True
  | Replica rep =>
      ReplicaAccessory.spec_inv (fun _ m => exists d, WorkingDecisionLog.batch_digest l = Some d /\
        ReplicaAccessory.commits_to (WorkingDecisionLog.seq_no l) v.(ViewInfo.seq) d m) rep
  end.

Definition phase_ok (v : ViewInfo.t) (ph : DecisionPhase) (l : WorkingDecisionLog.t) : Prop :=
  let leaders := length l.(WorkingDecisionLog.leader_set) in
  let received := l.(WorkingDecisionLog.current_received_pre_prepares) in
  let prepares := length l.(WorkingDecisionLog.message_log).(MessageLog.prepares) in
  let commits := length l.(WorkingDecisionLog.message_log).(MessageLog.commits) in
  let quorum := ViewInfo.quorum v in
  match ph with
  | Initialize => received = 0 /\ prepares = 0 /\ commits = 0
  | PrePreparing k => received = k /\ k < leaders /\ prepares = 0 /\ commits = 0
  | Preparing k => received = leaders /\ prepares = k /\ k < quorum /\ commits = 0
  | Committing k => received = leaders /\ prepares = quorum /\ commits = k /\ k < quorum
  | PhaseDecided => received = leaders /\ prepares = quorum /\ commits = quorum
  end.

Record inv (v : ViewInfo.t) (d : t) : Prop := {
  d_log : WorkingDecisionLog.inv d.(working_log);
  d_leaders : d.(working_log).(WorkingDecisionLog.leader_set) = v.(ViewInfo.leader_set);
  d_slices : d.(working_log).(WorkingDecisionLog.request_space_slices) =
             v.(ViewInfo.leader_hash_space_division);
  d_seq : d.(working_log).(WorkingDecisionLog.seq_no) = d.(seq);
  d_node : d.(working_log).(WorkingDecisionLog.node_id) = d.(node_id);
  d_proposals : Forall (good_proposal v d.(working_log))
                  (omap id d.(working_log).(WorkingDecisionLog.message_log).(MessageLog.pre_prepare));
  d_prepares : Forall (good_vote v d.(working_log) Prepare)
                 d.(working_log).(WorkingDecisionLog.message_log).(MessageLog.prepares);
  d_commits : Forall (good_vote v d.(working_log) Commit)
                d.(working_log).(WorkingDecisionLog.message_log).(MessageLog.commits);
  d_phase : phase_ok v d.(phase) d.(working_log);
  d_ahead : commits_ahead v d.(working_log) d.(accessory);
}.

(** ** What [process_message] does, case by case *)

Definition with_meta (bm : BatchMeta) (d : t) : t :=
  set_working_log (WorkingDecisionLog.set_batch_meta bm d.(working_log)) d.

(** When the handler drops, queues or refuses a message. *)
Definition ignorable (v : ViewInfo.t) (d : t) (m : Shareable) (c : ConsensusMessage) : Prop :=
  match d.(phase) with
  | Initialize => False
  | PrePreparing _ =>
      (exists rqs, c.(cm_kind) = PrePrepare rqs) /\
      (c.(cm_view) <> v.(ViewInfo.seq) \/ hdr_from m.(header) ∉ v.(ViewInfo.leader_set) \/
       c.(cm_seq) <> d.(seq))
  | Preparing _ =>
      (exists rqs, c.(cm_kind) = PrePrepare rqs) \/
      exists dg, c.(cm_kind) = Prepare dg /\
        (c.(cm_view) <> v.(ViewInfo.seq) \/ c.(cm_seq) <> d.(seq) \/
         d.(working_log).(WorkingDecisionLog.batch_digest) <> Some dg)
  | Committing _ =>
      (forall dg, c.(cm_kind) <> Commit dg) \/
      exists dg, c.(cm_kind) = Commit dg /\
        (c.(cm_view) <> v.(ViewInfo.seq) \/ c.(cm_seq) <> d.(seq) \/
         d.(working_log).(WorkingDecisionLog.batch_digest) <> Some dg)
  | PhaseDecided => True
  end.

Definition queueable (d : t) (f : MessageQueue.t -> MessageQueue.t) (m : Shareable)
    (c : ConsensusMessage) : Prop :=
  match c.(cm_kind) with
  | PrePrepare _ => f = MessageQueue.queue_pre_prepare m /\ d.(phase) = Initialize
  | Prepare _ => f = MessageQueue.queue_prepare m /\
      (d.(phase) = Initialize \/ exists k, d.(phase) = PrePreparing k)
  | Commit _ => f = MessageQueue.queue_commit m /\
      (d.(phase) = Initialize \/ (exists k, d.(phase) = PrePreparing k) \/ exists k, d.(phase) = Preparing k)
  end.

Definition refusable (d : t) (m : Shareable) (c : ConsensusMessage) : Prop :=
  let seen := d.(working_log).(WorkingDecisionLog.duplicate_detection) in
  match d.(phase) with
  | PrePreparing _ => exists rqs, c.(cm_kind) = PrePrepare rqs /\
      (hdr_from m.(header) ∈ seen.(DuplicateReplicaEvaluator.received_pre_prepare_messages) \/
       WorkingDecisionLog.in_slice m (rq_info <$> rqs) d.(working_log) = false)
  | Preparing _ => (exists dg, c.(cm_kind) = Prepare dg) /\
      hdr_from m.(header) ∈ seen.(DuplicateReplicaEvaluator.received_prepare_messages)
  | Committing _ => hdr_from m.(header) ∈ seen.(DuplicateReplicaEvaluator.received_commit_messages)
  | _ => False
  end.

(** The result of handling [m], with content [c], in state [d]. *)
Inductive processed (rng : nat -> N) (node : NodeId) (v : ViewInfo.t) (m : Shareable)
    (c : ConsensusMessage) (d : t) : Run t Effect Error DecisionStatus -> Prop :=
  | pr_ignored st :
      st = MessageIgnored \/ st = DecidedIgnored -> ignorable v d m c ->
      processed rng node v m c d (mkRun (Ok st) d [])
  | pr_queued f :
      queueable d f m c ->
      processed rng node v m c d (mkRun (Ok MessageQueued) (on_queue f d) [])
  | pr_rejected e bm eff :
      e = DuplicateVoteFromNode (hdr_from m.(header)) \/
      e = BatchContainsRequestsNotInLeaderAddrSpace (hdr_from m.(header)) ->
      sent eff = [] -> refusable d m c ->
      processed rng node v m c d (mkRun (Err (EDecidingLog e)) (with_meta bm d) eff)
  | pr_proposal i rqs bm eff k l' st a' eff' ph' q' :
      d.(phase) = PrePreparing k ->
      c.(cm_kind) = PrePrepare rqs -> c.(cm_view) = v.(ViewInfo.seq) -> c.(cm_seq) = d.(seq) ->
      v.(ViewInfo.leader_set) !! i = Some (hdr_from m.(header)) ->
      hdr_from m.(header) ∉ d.(working_log).(WorkingDecisionLog.duplicate_detection)
        .(DuplicateReplicaEvaluator.received_pre_prepare_messages) ->
      sent eff = [] ->
      l' = WorkingDecisionLog.after_pre_prepare i m rqs (rq_info <$> rqs)
             (with_meta bm d).(working_log) ->
      (S k <> length v.(ViewInfo.leader_set) /\ st = Deciding m /\ a' = d.(accessory) /\ eff' = [] /\
         ph' = PrePreparing (S k) /\ q' = d.(message_queue) \/
       S k = length v.(ViewInfo.leader_set) /\ (exists md, st = Transitioned (Some md) m) /\
         handle_pre_prepare_phase_completed rng node l' v d.(accessory) = mkRun (Ok tt) a' eff' /\
         ph' = Preparing 0 /\ q' = MessageQueue.signal d.(message_queue)) ->
      processed rng node v m c d
        (mkRun (Ok st) (mk d.(node_id) d.(seq) ph' q' l' a') (eff ++ eff'))
  | pr_prepare k dg l' st a' eff' ph' q' :
      d.(phase) = Preparing k ->
      c.(cm_kind) = Prepare dg -> c.(cm_view) = v.(ViewInfo.seq) -> c.(cm_seq) = d.(seq) ->
      d.(working_log).(WorkingDecisionLog.batch_digest) = Some dg ->
      hdr_from m.(header) ∉ d.(working_log).(WorkingDecisionLog.duplicate_detection)
        .(DuplicateReplicaEvaluator.received_prepare_messages) ->
      l' = WorkingDecisionLog.store_prepare m d.(working_log) ->
      (S k <> ViewInfo.quorum v /\ st = Deciding m /\ a' = d.(accessory) /\ eff' = [] /\
         ph' = Preparing (S k) /\ q' = d.(message_queue) \/
       S k = ViewInfo.quorum v /\ st = Transitioned None m /\
         handle_preparing_quorum rng l' v d.(accessory) = mkRun (Ok tt) a' eff' /\
         ph' = Committing 0 /\ q' = MessageQueue.signal d.(message_queue)) ->
      processed rng node v m c d (mkRun (Ok st) (mk d.(node_id) d.(seq) ph' q' l' a') eff')
  | pr_commit k dg l' st ph' :
      d.(phase) = Committing k ->
      c.(cm_kind) = Commit dg -> c.(cm_view) = v.(ViewInfo.seq) -> c.(cm_seq) = d.(seq) ->
      d.(working_log).(WorkingDecisionLog.batch_digest) = Some dg ->
      hdr_from m.(header) ∉ d.(working_log).(WorkingDecisionLog.duplicate_detection)
        .(DuplicateReplicaEvaluator.received_commit_messages) ->
      l' = WorkingDecisionLog.store_commit m d.(working_log) ->
      (S k <> ViewInfo.quorum v /\ st = Deciding m /\ ph' = Committing (S k) \/
       S k = ViewInfo.quorum v /\ st = Decided m /\ ph' = PhaseDecided) ->
      processed rng node v m c d
        (mkRun (Ok st) (mk d.(node_id) d.(seq) ph' d.(message_queue) l' d.(accessory)) []).

(** *** Symbolic execution of the arms *)

Lemma zoom_log_Ok {X Y} (m : M WorkingDecisionLog.t Effect Error X) (k : X -> M t Effect Error Y) d x l' ws :
  m d.(working_log) = mkRun (Ok x) l' ws ->
  (zoom working_log set_working_log m ≫= k) d = prepend ws (k x (set_working_log l' d)).
Proof. intros H. apply bind_Ok. unfold zoom. by rewrite H. Qed.

Lemma zoom_log_Err {X Y} (m : M WorkingDecisionLog.t Effect Error X) (k : X -> M t Effect Error Y) d e l' ws :
  m d.(working_log) = mkRun (Err e) l' ws ->
  (zoom working_log set_working_log m ≫= k) d = mkRun (Err e) (set_working_log l' d) ws.
Proof. intros H. apply bind_Err. unfold zoom. by rewrite H. Qed.

Lemma zoom_acc_Ok {Y} (m : M ConsensusDecisionAccessory Effect Error unit) (k : unit -> M t Effect Error Y) d a' ws :
  m d.(accessory) = mkRun (Ok tt) a' ws ->
  (zoom accessory set_accessory m ≫= k) d = prepend ws (k tt (set_accessory a' d)).
Proof. intros H. apply bind_Ok. unfold zoom. by rewrite H. Qed.

Lemma idle_accessory a : on_replica (ret tt) a = mkRun (Ok tt) a [].
Proof. by destruct a. Qed.

Lemma set_working_log_id d : set_working_log d.(working_log) d = d.
Proof. by destruct d. Qed.
Lemma with_meta_id d : with_meta d.(working_log).(WorkingDecisionLog.batch_meta) d = d.
Proof. by destruct d as [? ? ? ? [] ?]. Qed.

Ltac flat := unfold with_meta, set_phase, on_queue, set_message_queue, set_accessory, set_working_log;
  cbn [node_id seq phase message_queue working_log accessory].

(** The vote handlers of the accessory succeed once the digest is known. *)
Lemma completed_ok rng node l v a d :
  WorkingDecisionLog.batch_digest l = Some d ->
  exists a' eff, handle_pre_prepare_phase_completed rng node l v a = mkRun (Ok tt) a' eff.
Proof.
  intros Hd. destruct a as [|rep]; cbn; [eauto|].
  rewrite (ReplicaAccessory.completed_run _ _ _ _ _ _ Hd). cbn. eauto.
Qed.

Lemma quorum_ok rng l v a d :
  WorkingDecisionLog.batch_digest l = Some d ->
  exists a' eff, handle_preparing_quorum rng l v a = mkRun (Ok tt) a' eff.
Proof.
  intros Hd. destruct a as [|rep]; cbn; [eauto|].
  rewrite (ReplicaAccessory.quorum_run _ _ _ _ _ Hd). cbn. eauto.
Qed.

Lemma prepend_mk {S W E X} ws (o : Res E X) (s : S) (ws' : list W) :
  prepend ws (mkRun o s ws') = mkRun o s (ws ++ ws').
Proof. done. Qed.

Lemma accept_prepare_processed rng node sy m c d k dg :
  let v := sy_view sy in
  inv v d -> d.(phase) = Preparing k -> consensus m.(message) = Ok c ->
  c.(cm_kind) = Prepare dg -> c.(cm_view) = v.(ViewInfo.seq) -> c.(cm_seq) = d.(seq) ->
  d.(working_log).(WorkingDecisionLog.batch_digest) = Some dg ->
  processed rng node v m c d (accept_prepare rng sy m (k + 1) d).
Proof.
  intros v Hinv Hph Hc Hk Hv Hs Hd. unfold accept_prepare.
  assert (DecProof.kind_of m = Ok (Prepare dg)) as Hkind.
  { unfold DecProof.kind_of. rewrite Hc. cbn. by rewrite Hk. }
  pose proof (WorkingDecisionLog.process_prepare_run (W := Effect) m dg d.(working_log) Hkind) as Hrun.
  case_decide as Hdup.
  - rewrite (zoom_log_Err _ _ _ _ _ _ Hrun), set_working_log_id, <- (with_meta_id d).
    rewrite (with_meta_id d) at 1. eapply pr_rejected; [by left|done|].
    unfold refusable. rewrite Hph. eauto.
  - rewrite (zoom_log_Ok _ _ _ _ _ _ Hrun), prepend_nil. run.
    set (l' := WorkingDecisionLog.store_prepare m d.(working_log)) in *.
    rewrite Nat.add_1_r. case_decide as Hq.
    + change (WorkingDecisionLog.current_digest _) with (WorkingDecisionLog.batch_digest d.(working_log)).
      rewrite Hd. run.
      destruct (quorum_ok rng l' v d.(accessory) dg Hd) as (a' & eff & Hacc).
      rewrite (zoom_acc_Ok _ _ (set_working_log l' d) a' eff Hacc). run. unfold ret. rewrite prepend_mk, app_nil_r.
      flat. eapply pr_prepare; try done. right. split_and!; done.
    + erewrite zoom_acc_Ok; [|apply idle_accessory]. rewrite prepend_nil. run. unfold ret.
      flat. eapply pr_prepare; try done. left. split_and!; done.
Qed.

Lemma accept_commit_processed rng node sy m c d k dg :
  let v := sy_view sy in
  inv v d -> d.(phase) = Committing k -> consensus m.(message) = Ok c ->
  c.(cm_kind) = Commit dg -> c.(cm_view) = v.(ViewInfo.seq) -> c.(cm_seq) = d.(seq) ->
  d.(working_log).(WorkingDecisionLog.batch_digest) = Some dg ->
  processed rng node v m c d (accept_commit sy m (k + 1) d).
Proof.
  intros v Hinv Hph Hc Hk Hv Hs Hd. unfold accept_commit.
  assert (DecProof.kind_of m = Ok (Commit dg)) as Hkind.
  { unfold DecProof.kind_of. rewrite Hc. cbn. by rewrite Hk. }
  pose proof (WorkingDecisionLog.process_commit_run (W := Effect) m dg d.(working_log) Hkind) as Hrun.
  case_decide as Hdup.
  - rewrite (zoom_log_Err _ _ _ _ _ _ Hrun), set_working_log_id, <- (with_meta_id d).
    rewrite (with_meta_id d) at 1. eapply pr_rejected; [by left|done|].
    unfold refusable. rewrite Hph. eauto.
  - rewrite (zoom_log_Ok _ _ _ _ _ _ Hrun), prepend_nil. run. rewrite Nat.add_1_r.
    case_decide as Hq; run; (erewrite zoom_acc_Ok; [|apply idle_accessory]);
      rewrite prepend_nil; unfold ret; flat; eapply pr_commit; try done; [right|left]; done.
Qed.

Context {SL : SyncHandleLaws Sy}.

(** The batch is counted and reported before it is checked. *)
Lemma batch_received_run sy h c rqs l :
  c.(cm_kind) = PrePrepare rqs ->
  exists bm eff, request_batch_received sy h c l =
    mkRun (Ok (rq_info <$> rqs)) (WorkingDecisionLog.set_batch_meta bm l) eff /\ sent eff = [].
Proof.
  intros Hk. unfold request_batch_received. rewrite Hk. run.
  destruct (sy_batch_infos sy h c rqs Hk) as (eff & -> & Hs). run.
  eexists _, eff. split; [|done]. unfold lift, prepend. cbn. by rewrite app_nil_r.
Qed.

Lemma set_batch_meta_inv bm l : WorkingDecisionLog.inv l -> WorkingDecisionLog.inv (WorkingDecisionLog.set_batch_meta bm l).
Proof. intros [? ? [] []]. by split. Qed.

Lemma accept_pre_prepare_processed rng node sy m c d k rqs :
  let v := sy_view sy in
  inv v d -> d.(phase) = PrePreparing k -> consensus m.(message) = Ok c ->
  c.(cm_kind) = PrePrepare rqs -> c.(cm_view) = v.(ViewInfo.seq) -> c.(cm_seq) = d.(seq) ->
  hdr_from m.(header) ∈ v.(ViewInfo.leader_set) ->
  processed rng node v m c d (accept_pre_prepare rng node sy m c (k + 1) d).
Proof.
  intros v Hinv Hph Hc Hk Hv Hs Hl. unfold accept_pre_prepare. fold v.
  destruct (batch_received_run sy m.(header) c rqs d.(working_log) Hk) as (bm & eff & Hrun & Hsent).
  rewrite (zoom_log_Ok _ _ _ _ _ _ Hrun). cbn beta. fold (with_meta bm d).
  assert (DecProof.kind_of m = Ok (PrePrepare rqs)) as Hkind.
  { unfold DecProof.kind_of. rewrite Hc. cbn. by rewrite Hk. }
  pose proof (set_batch_meta_inv bm _ (d_log _ _ Hinv)) as Hlog.
  apply list_elem_of_lookup in Hl as [i Hi].
  assert (Hi' : WorkingDecisionLog.leader_set (WorkingDecisionLog.set_batch_meta bm d.(working_log)) !! i
     = Some (WorkingDecisionLog.from_of m)) by (cbn; by rewrite (d_leaders _ _ Hinv)).
  pose proof (WorkingDecisionLog.process_pre_prepare_run (W := Effect) m rqs (hdr_digest (header m))
    (rq_info <$> rqs) _ i Hlog Hkind Hi') as Hpp.
  destruct (WorkingDecisionLog.in_slice _ _ _) eqn:Hsl.
  2: { rewrite (zoom_log_Err _ _ (with_meta bm d) _ _ _ Hpp), prepend_mk, app_nil_r.
       change (set_working_log _ (with_meta bm d)) with (with_meta bm d).
       eapply pr_rejected; [by right|done|]. unfold refusable. rewrite Hph. eauto. }
  case_decide as Hdup.
  { rewrite (zoom_log_Err _ _ (with_meta bm d) _ _ _ Hpp), prepend_mk, app_nil_r.
    change (set_working_log _ (with_meta bm d)) with (with_meta bm d).
    eapply pr_rejected; [by left|done|]. unfold refusable. rewrite Hph. eauto. }
  clear Hpp.
  pose proof (WorkingDecisionLog.process_pre_prepare_ok (W := Effect) i m rqs (hdr_digest (header m))
    _ Hlog Hkind Hi' Hdup Hsl) as Hpp. cbn zeta in Hpp.
  pose proof (WorkingDecisionLog.after_pre_prepare_inv i m rqs _ Hlog Hkind Hi' Hdup) as Hinv'.
  set (l' := WorkingDecisionLog.after_pre_prepare i m rqs (rq_info <$> rqs) _) in *.
  rewrite (zoom_log_Ok _ _ (with_meta bm d) _ _ _ Hpp), prepend_nil. run. rewrite Nat.add_1_r.
  assert (WorkingDecisionLog.current_received_pre_prepares l' = S k) as Hrec.
  { pose proof (d_phase _ _ Hinv) as Hpk. rewrite Hph in Hpk. destruct Hpk as (Hpk & _).
    subst l'. destruct (WorkingDecisionLog.after_eq i m rqs (rq_info <$> rqs)
      (WorkingDecisionLog.set_batch_meta bm d.(working_log))) as [o ->]. cbn. lia. }
  assert (WorkingDecisionLog.leader_set l' = v.(ViewInfo.leader_set)) as Hll.
  { rewrite <- (d_leaders _ _ Hinv). subst l'. destruct (WorkingDecisionLog.after_eq i m rqs
      (rq_info <$> rqs) (WorkingDecisionLog.set_batch_meta bm d.(working_log))) as [o ->]. done. }
  rewrite Hrec, Hll. clear Hpp. destruct (decide (S k = length v.(ViewInfo.leader_set))) as [Hq|Hq].
  - destruct (WorkingDecisionLog.finish_ok l' Hinv') as (dg & ord & pps & reqs & Hcalc & Hbd & _); [congruence|].
    rewrite Hcalc. cbn [mbind option_bind]. run.
    destruct (completed_ok rng node l' v d.(accessory) dg Hbd) as (a' & eff' & Hacc).
    rewrite (zoom_acc_Ok _ _ (set_working_log l' (with_meta bm d)) a' eff' Hacc). run. unfold ret. rewrite !prepend_mk, app_nil_r.
    flat. eapply pr_proposal; try done. right. split_and!; eauto.
  - cbn [mbind option_bind]. erewrite zoom_acc_Ok; [|apply idle_accessory].
    rewrite prepend_nil. run. unfold ret. rewrite prepend_mk.
    flat. eapply pr_proposal; try done. left. split_and!; done.
Qed.

(** Every message is handled in one of the listed ways: in particular the
    handler does not panic. *)
Lemma process_message_processed rng node sy m c d :
  inv (sy_view sy) d -> consensus m.(message) = Ok c ->
  processed rng node (sy_view sy) m c d (process_message rng node sy m d).
Proof.
  intros Hinv Hc. unfold process_message. rewrite Hc. run.
  pose proof (d_phase _ _ Hinv) as Hp. pose proof (d_log _ _ Hinv) as Hlog.
  assert (forall k, d.(phase) = Preparing k \/ d.(phase) = Committing k ->
    exists dg, d.(working_log).(WorkingDecisionLog.batch_digest) = Some dg) as Hdg.
  { intros k Hk. destruct (WorkingDecisionLog.finish_ok _ Hlog) as (dg & ? & ? & ? & ? & ? & _); [|by exists dg].
    destruct Hk as [Hk|Hk]; rewrite Hk in Hp; by destruct Hp. }
  pose proof (fun st Hst Hi => pr_ignored rng node (sy_view sy) m c d st Hst Hi) as Hign.
  pose proof (fun f Hf => pr_queued rng node (sy_view sy) m c d f Hf) as Hque.
  unfold ignorable, queueable in *. destruct (phase d) as [|k|k|k|] eqn:Hph.
  - unfold queue. destruct (cm_kind c) eqn:Hk; erewrite bind_Ok_nil.
    all: try (rewrite Hc; run; rewrite Hk; reflexivity).
    all: apply Hque; eauto.
  - unfold process_pre_preparing. run. destruct (cm_kind c) as [rqs| |] eqn:Hk; run.
    2,3: unfold ret; apply Hque; eauto.
    repeat (case_decide; [apply Hign; [by left|]; split; [by eauto|tauto]|]).
    eapply accept_pre_prepare_processed; done.
  - unfold process_preparing. run. destruct (cm_kind c) as [|dg|] eqn:Hk; run.
    1: apply Hign; eauto.
    2: unfold ret; apply Hque; eauto 6.
    repeat (case_decide; [apply Hign; [by left|]; right; exists dg; split; [done|tauto]|]).
    destruct (Hdg k) as [dg' Hd]; [tauto|]. unfold WorkingDecisionLog.current_digest. rewrite Hd. run.
    case_decide as Hne; [apply Hign; [by left|]; right; exists dg; split; [done|]; right; right; congruence|].
    subst dg'. eapply accept_prepare_processed; done.
  - unfold process_committing. run. destruct (cm_kind c) as [|dg|dg] eqn:Hk; run.
    1,2: apply Hign; [by left|by left].
    repeat (case_decide; [apply Hign; [by left|]; right; exists dg; split; [done|tauto]|]).
    destruct (Hdg k) as [dg' Hd]; [tauto|]. unfold WorkingDecisionLog.current_digest. rewrite Hd. run.
    case_decide as Hne; [apply Hign; [by left|]; right; exists dg; split; [done|]; right; right; congruence|].
    subst dg'. eapply accept_commit_processed; done.
  - apply Hign; [by right|done].
Qed.

(** ** Preservation of the invariant *)

Lemma init_inv {L : AtlasLaws} node s v q : ViewInfo.wf v -> inv v (init_with_msg_log node s v q).
Proof.
  intros Hwf. split; try done; try (by constructor).
  - by apply WorkingDecisionLog.new_inv.
  - cbn. by rewrite omap_id_replicate_None.
Qed.

Lemma queue_inv v q d : inv v d -> inv v (set_message_queue q d).
Proof. intros []. by split. Qed.

(** A vote once good stays good: the digest of a batch never changes. *)
Lemma good_vote_mono v l l' K m :
  (forall dg, WorkingDecisionLog.batch_digest l = Some dg -> WorkingDecisionLog.batch_digest l' = Some dg) ->
  WorkingDecisionLog.seq_no l' = WorkingDecisionLog.seq_no l ->
  good_vote v l K m -> good_vote v l' K m.
Proof. intros Hd Hs (nonce & dg & Hdg & Hm). exists nonce, dg. rewrite Hs. eauto. Qed.

Lemma good_vote_of v l K m c dg :
  consensus m.(message) = Ok c -> c.(cm_kind) = K dg -> c.(cm_view) = v.(ViewInfo.seq) ->
  c.(cm_seq) = WorkingDecisionLog.seq_no l -> WorkingDecisionLog.batch_digest l = Some dg ->
  good_vote v l K m.
Proof.
  intros Hc Hk Hv Hs Hd. exists c.(cm_nonce), dg. split; [done|].
  destruct m as [h m]; cbn in *. destruct m; cbn in Hc; simplify_eq.
  rewrite <- Hv, <- Hs, <- Hk. by destruct c.
Qed.

Lemma commits_ahead_mono v l l' a :
  (forall dg, WorkingDecisionLog.batch_digest l = Some dg -> WorkingDecisionLog.batch_digest l' = Some dg) ->
  WorkingDecisionLog.seq_no l' = WorkingDecisionLog.seq_no l ->
  commits_ahead v l a -> commits_ahead v l' a.
Proof.
  intros Hd Hs. destruct a as [|rep]; [done|]. intros [Hm Hj]. split.
  - eapply map_Forall_impl; [exact Hm|]. intros ? ? (dg & ? & ?). exists dg. rewrite Hs. eauto.
  - eapply Forall_impl; [exact Hj|]. intros job Hjob. eapply Forall_impl; [exact Hjob|].
    intros ? (dg & ? & ?). exists dg. rewrite Hs. eauto.
Qed.

Lemma commits_ahead_completed rng node v l a a' eff :
  commits_ahead v l a -> handle_pre_prepare_phase_completed rng node l v a = mkRun (Ok tt) a' eff ->
  commits_ahead v l a'.
Proof.
  destruct a as [|rep]; cbn; [by intros _ [= <- _]|]. intros Ha.
  destruct (WorkingDecisionLog.batch_digest l) as [dg|] eqn:Hd; rewrite <- Hd in Ha.
  - rewrite (ReplicaAccessory.completed_run _ _ _ _ _ _ Hd). intros [= <- _]. cbn.
    apply ReplicaAccessory.completed_inv; [done|]. intros _ _. exists dg. split; [done|]. by exists (rng 0).
  - unfold ReplicaAccessory.handle_pre_prepare_phase_completed, WorkingDecisionLog.current_digest.
    by rewrite Hd.
Qed.

Lemma commits_ahead_quorum rng v l a a' eff :
  commits_ahead v l a -> handle_preparing_quorum rng l v a = mkRun (Ok tt) a' eff ->
  commits_ahead v l a'.
Proof.
  destruct a as [|rep]; cbn; [by intros _ [= <- _]|]. intros Ha.
  destruct (WorkingDecisionLog.batch_digest l) as [dg|] eqn:Hd; rewrite <- Hd in Ha.
  - rewrite (ReplicaAccessory.quorum_run _ _ _ _ _ Hd). intros [= <- _]. cbn.
    by eapply ReplicaAccessory.taken_inv.
  - unfold ReplicaAccessory.handle_preparing_quorum, WorkingDecisionLog.current_digest. by rewrite Hd.
Qed.

Lemma tick_preserves v j d : inv v d -> inv v (set_accessory (accessory_tick j d.(accessory)) d).
Proof.
  intros []. split; try done. cbn. destruct (accessory d); [done|]. cbn.
  by apply ReplicaAccessory.tick_inv.
Qed.

Lemma poll_preserves {L : AtlasLaws} v d : ViewInfo.wf v -> inv v d -> inv v (poll d).2.
Proof.
  intros Hwf Hinv. pose proof (d_phase _ _ Hinv) as Hp. unfold poll.
  destruct (message_queue d) as [g pp p c]. destruct (phase d) eqn:Hph; [| |destruct g..|].
  - destruct Hinv. split; try done. cbn. destruct Hp as (-> & -> & ->).
    rewrite d_leaders0. destruct Hwf as (_ & _ & _ & (x & _ & -> & _) & _). cbn. lia.
  - destruct g; [|done]. destruct pp; cbn; by apply queue_inv.
  - destruct p; cbn; by apply queue_inv.
  - done.
  - destruct c; cbn; by apply queue_inv.
  - done.
  - done.
Qed.

Lemma no_digest_before i x l dg :
  WorkingDecisionLog.inv l -> l.(WorkingDecisionLog.leader_set) !! i = Some x ->
  x ∉ l.(WorkingDecisionLog.duplicate_detection)
    .(DuplicateReplicaEvaluator.received_pre_prepare_messages) ->
  l.(WorkingDecisionLog.batch_digest) <> Some dg.
Proof.
  intros [_ _ Hs _] Hi Hnew Hd.
  destruct (WorkingDecisionLog.slot_empty _ _ _ Hs Hi Hnew) as (_ & _ & Hslot).
  destruct Hs as [_ _ Hg _ Hcnt _ _ _ _ Hdg]. rewrite Hd in Hdg. case_decide as Hf; [|done].
  rewrite Hcnt, <- Hg in Hf. apply omap_id_full, mapM_Some_id in Hf. rewrite Hf in Hslot.
  apply list_lookup_fmap_Some_1 in Hslot as (? & ? & _). done.
Qed.

Lemma kind_of_ok m c k : consensus m.(message) = Ok c -> c.(cm_kind) = k -> DecProof.kind_of m = Ok k.
Proof. intros Hc <-. unfold DecProof.kind_of. by rewrite Hc. Qed.

Lemma quorum_pos {L : AtlasLaws} v : 0 < ViewInfo.quorum v.
Proof. unfold ViewInfo.quorum. rewrite sp_quorum_2f1. lia. Qed.

(** Storing the batch of a leader that had not proposed yet. *)
Lemma proposal_inv {L : AtlasLaws} v m c d bm i rqs k ph' q' a' :
  inv v d -> consensus m.(message) = Ok c -> d.(phase) = PrePreparing k ->
  c.(cm_kind) = PrePrepare rqs -> c.(cm_view) = v.(ViewInfo.seq) -> c.(cm_seq) = d.(seq) ->
  v.(ViewInfo.leader_set) !! i = Some (hdr_from m.(header)) ->
  hdr_from m.(header) ∉ d.(working_log).(WorkingDecisionLog.duplicate_detection)
    .(DuplicateReplicaEvaluator.received_pre_prepare_messages) ->
  let l' := WorkingDecisionLog.after_pre_prepare i m rqs (rq_info <$> rqs) (with_meta bm d).(working_log) in
  (S k <> length v.(ViewInfo.leader_set) /\ ph' = PrePreparing (S k) \/
   S k = length v.(ViewInfo.leader_set) /\ ph' = Preparing 0) ->
  (commits_ahead v l' d.(accessory) -> commits_ahead v l' a') ->
  inv v (mk d.(node_id) d.(seq) ph' q' l' a').
Proof.
  intros Hinv Hc Hph Hk Hv Hs Hi Hnew l' Hph' Ha'.
  pose proof (kind_of_ok _ _ _ Hc Hk) as Hkind.
  pose proof (set_batch_meta_inv bm _ (d_log _ _ Hinv)) as Hlog.
  destruct Hinv as [_ Hll Hsl Hseq Hnode Hpps Hps Hcs Hphase Hah].
  rewrite Hph in Hphase. destruct Hphase as (Hrec & Hklt & Hp0 & Hc0).
  apply nil_length_inv in Hp0, Hc0. rewrite <- Hll in Hi.
  pose proof (WorkingDecisionLog.after_pre_prepare_inv i m rqs _ Hlog Hkind Hi Hnew) as Hinv'.
  pose proof (fun dg => no_digest_before i _ _ dg Hlog Hi Hnew) as Hnone.
  destruct (WorkingDecisionLog.slot_empty _ i _ (WorkingDecisionLog.inv_slots _ Hlog) Hi Hnew) as (_ & _ & Hslot).
  subst l'. cbn [working_log with_meta set_working_log] in *.
  destruct (WorkingDecisionLog.after_eq i m rqs (rq_info <$> rqs)
    (WorkingDecisionLog.set_batch_meta bm d.(working_log))) as [o Ho]. rewrite Ho in *.
  split; cbn; try done; rewrite ?Hp0, ?Hc0; try done.
  - rewrite omap_insert_None by done. apply Forall_cons. split; [|done].
    exists c.(cm_nonce), rqs. cbn. rewrite Hseq, <- Hs, <- Hv, <- Hk.
    destruct m as [h [m| |]]; cbn in *; simplify_eq. by destruct c.
  - rewrite <- Hll in *. destruct Hph' as [[? ->]|[? ->]]; cbn; rewrite Hp0, Hc0; cbn; [lia|].
    split_and!; [lia|done|apply quorum_pos|done].
  - apply Ha'. eapply commits_ahead_mono; [| |exact Hah]; [|done].
    intros dg Hdg. by destruct (Hnone dg).
Qed.

Lemma prepare_inv v m c d dg ph' q' a' :
  inv v d -> consensus m.(message) = Ok c ->
  c.(cm_kind) = Prepare dg -> c.(cm_view) = v.(ViewInfo.seq) -> c.(cm_seq) = d.(seq) ->
  d.(working_log).(WorkingDecisionLog.batch_digest) = Some dg ->
  hdr_from m.(header) ∉ d.(working_log).(WorkingDecisionLog.duplicate_detection)
    .(DuplicateReplicaEvaluator.received_prepare_messages) ->
  let l' := WorkingDecisionLog.store_prepare m d.(working_log) in
  phase_ok v ph' l' -> (commits_ahead v l' d.(accessory) -> commits_ahead v l' a') ->
  inv v (mk d.(node_id) d.(seq) ph' q' l' a').
Proof.
  intros [Hlog Hll Hsl Hseq Hnode Hpps Hps Hcs Hphase Hah] Hc Hk Hv Hs Hd Hnew l' Hph' Ha'.
  split; cbn; try done.
  - apply WorkingDecisionLog.store_prepare_inv; [done| |done]. exists dg. by eapply kind_of_ok.
  - apply Forall_app. split; [done|]. apply Forall_singleton.
    eapply good_vote_of; try done. cbn. congruence.
  - by apply Ha'.
Qed.

Lemma commit_inv v m c d dg ph' q' :
  inv v d -> consensus m.(message) = Ok c ->
  c.(cm_kind) = Commit dg -> c.(cm_view) = v.(ViewInfo.seq) -> c.(cm_seq) = d.(seq) ->
  d.(working_log).(WorkingDecisionLog.batch_digest) = Some dg ->
  hdr_from m.(header) ∉ d.(working_log).(WorkingDecisionLog.duplicate_detection)
    .(DuplicateReplicaEvaluator.received_commit_messages) ->
  let l' := WorkingDecisionLog.store_commit m d.(working_log) in
  phase_ok v ph' l' -> inv v (mk d.(node_id) d.(seq) ph' q' l' d.(accessory)).
Proof.
  intros [Hlog Hll Hsl Hseq Hnode Hpps Hps Hcs Hphase Hah] Hc Hk Hv Hs Hd Hnew l' Hph'.
  split; cbn; try done.
  - apply WorkingDecisionLog.store_commit_inv; [done| |done]. exists dg. by eapply kind_of_ok.
  - apply Forall_app. split; [done|]. apply Forall_singleton.
    eapply good_vote_of; try done. cbn. congruence.
Qed.

Lemma processed_inv {L : AtlasLaws} rng node v m c d r :
  inv v d -> consensus m.(message) = Ok c -> processed rng node v m c d r -> inv v r.(r_st).
Proof.
  intros Hinv Hc Hpr. pose proof (d_phase _ _ Hinv) as Hp. pose proof (quorum_pos v).
  destruct Hpr as
    [| f _|e bm eff _ _|i rqs bm eff k l' st a' eff' ph' q' Hph Hk Hv Hs Hi Hnew _ -> Hcase
    |k dg l' st a' eff' ph' q' Hph Hk Hv Hs Hd Hnew -> Hcase|k dg l' st ph' Hph Hk Hv Hs Hd Hnew -> Hcase];
    cbn [r_st]; [done|by apply queue_inv| |rewrite Hph in Hp..].
  - destruct Hinv as [? ? ? ? ? ? ? ? ? ?]. split; try done. cbn. by apply set_batch_meta_inv.
  - eapply proposal_inv; try done.
    + destruct Hcase as [(? & _ & _ & _ & ? & _)|(? & _ & _ & ? & _)]; tauto.
    + intros Ha. destruct Hcase as [(_ & _ & -> & _)|(_ & _ & Hacc & _)]; [done|].
      by eapply commits_ahead_completed.
  - eapply prepare_inv; try done.
    + destruct Hcase as [(? & _ & _ & _ & -> & _)|(? & _ & _ & -> & _)]; cbn in *;
        rewrite length_app; cbn; lia.
    + intros Ha. destruct Hcase as [(_ & _ & -> & _)|(_ & _ & Hacc & _)]; [done|].
      by eapply commits_ahead_quorum.
  - eapply commit_inv; try done.
    destruct Hcase as [(? & _ & ->)|(? & _ & ->)]; cbn in *; rewrite length_app; cbn; lia.
Qed.

(** ** Executions *)

(** One step of an instance while its view is [v]; the list is what it hands to
    the network and the timeouts. *)
Inductive step (v : ViewInfo.t) (d : t) : list Effect -> t -> Prop :=
  | step_poll : step v d [] (poll d).2
  | step_skip : d.(phase) = Initialize -> step v d [] (skip_init_phase d)
  | step_message rng (sy : Sy) m c :
      sy_view sy = v -> consensus m.(message) = Ok c ->
      let r := process_message rng d.(node_id) sy m d in
      step v d r.(r_eff) r.(r_st)
  | step_queue m c :
      consensus m.(message) = Ok c ->
      step v d [] (queue (W := Effect) m d).(r_st)
  | step_tick j : step v d [] (set_accessory (accessory_tick j d.(accessory)) d).

(** The states reached from [d], with everything emitted on the way. *)
Inductive reach (v : ViewInfo.t) (d : t) : list Effect -> t -> Prop :=
  | reach_init : reach v d [] d
  | reach_step e d' e' d'' : reach v d e d' -> step v d' e' d'' -> reach v d (e ++ e') d''.

Definition digest_of (d : t) : option (list byte) := d.(working_log).(WorkingDecisionLog.batch_digest).
Definition stored_prepares (d : t) : list Shareable :=
  d.(working_log).(WorkingDecisionLog.message_log).(MessageLog.prepares).
Definition stored_commits (d : t) : list Shareable :=
  d.(working_log).(WorkingDecisionLog.message_log).(MessageLog.commits).
Definition prepared (v : ViewInfo.t) (d : t) : Prop := length (stored_prepares d) = ViewInfo.quorum v.

(** What an execution never loses. *)
Record grows (v : ViewInfo.t) (d d' : t) : Prop := {
  g_node : d'.(node_id) = d.(node_id);
  g_seq : d'.(seq) = d.(seq);
  g_digest : forall dg, digest_of d = Some dg -> digest_of d' = Some dg;
  g_prepared : prepared v d -> prepared v d';
}.

Lemma grows_refl v d : grows v d d.
Proof. by split. Qed.
Lemma grows_trans v d1 d2 d3 : grows v d1 d2 -> grows v d2 d3 -> grows v d1 d3.
Proof. intros [] []. split; eauto; congruence. Qed.
#[global] Instance grows_preorder v : PreOrder (grows v).
Proof. split; [intros d; apply grows_refl|intros ???; apply grows_trans]. Qed.

(** A message sent for this instance: the replica's PREPARE for the digest of the
    batch, or its COMMIT once a quorum of PREPAREs is stored. *)
Definition own_vote (v : ViewInfo.t) (d : t) (m : PBFTMessage) : Prop :=
  exists dg, digest_of d = Some dg /\
    (ReplicaAccessory.prepares_for d.(seq) v.(ViewInfo.seq) dg m \/
     ReplicaAccessory.commits_to d.(seq) v.(ViewInfo.seq) dg m /\ prepared v d).

Lemma own_vote_grows v d d' m : grows v d d' -> own_vote v d m -> own_vote v d' m.
Proof.
  intros [_ Hs Hd Hp] (dg & Hdg & Hm). exists dg. rewrite Hs. split; [by apply Hd|]. tauto.
Qed.

Lemma completed_sent rng node l v a a' eff to m dg :
  WorkingDecisionLog.batch_digest l = Some dg ->
  handle_pre_prepare_phase_completed rng node l v a = mkRun (Ok tt) a' eff -> (to, m) ∈ sent eff ->
  ReplicaAccessory.prepares_for (WorkingDecisionLog.seq_no l) v.(ViewInfo.seq) dg m.
Proof.
  intros Hd. destruct a as [|rep]; cbn; [intros [= _ <-]; set_solver|].
  rewrite (ReplicaAccessory.completed_run _ _ _ _ _ _ Hd). intros [= _ <-]. cbn. rewrite app_nil_r.
  intros (t' & Heq & _)%list_elem_of_fmap. simplify_eq. by exists (rng 1).
Qed.

Lemma accessory_quorum_sent rng l v a a' eff to m dg :
  WorkingDecisionLog.batch_digest l = Some dg -> commits_ahead v l a ->
  handle_preparing_quorum rng l v a = mkRun (Ok tt) a' eff -> (to, m) ∈ sent eff ->
  ReplicaAccessory.commits_to (WorkingDecisionLog.seq_no l) v.(ViewInfo.seq) dg m.
Proof.
  intros Hd. destruct a as [|rep]; cbn; [intros _ [= _ <-]; set_solver|].
  intros Ha Hrun Hin. eapply (ReplicaAccessory.quorum_sent rng l v rep dg to m Hd).
  - destruct Ha as [Hm Hj]. split.
    + eapply map_Forall_impl; [exact Hm|]. intros ? ? (dg' & ? & ?). by simplify_eq.
    + eapply Forall_impl; [exact Hj|]. intros job Hjob. eapply Forall_impl; [exact Hjob|].
      intros ? (dg' & ? & ?). by simplify_eq.
  - destruct (ReplicaAccessory.handle_preparing_quorum rng l v rep) as [? ? eff0]. cbn in *.
    by injection Hrun as _ _ ->.
Qed.

Lemma processed_grows rng node v m c d r :
  inv v d -> processed rng node v m c d r -> grows v d r.(r_st).
Proof.
  intros Hinv Hpr. pose proof (d_phase _ _ Hinv) as Hp.
  destruct Hpr as
    [| f _|e bm eff _ _|i rqs bm eff k l' st a' eff' ph' q' Hph Hk Hv Hs Hi Hnew _ -> Hcase
    |k dg l' st a' eff' ph' q' Hph Hk Hv Hs Hd Hnew -> Hcase|k dg l' st ph' Hph Hk Hv Hs Hd Hnew -> Hcase];
    cbn [r_st]; split; try done; unfold digest_of, prepared, stored_prepares; cbn; try done.
  - intros dg Hdg. rewrite <- (d_leaders _ _ Hinv) in Hi.
    by destruct (no_digest_before i _ _ dg (d_log _ _ Hinv) Hi Hnew).
  - destruct (WorkingDecisionLog.after_eq i m rqs (rq_info <$> rqs)
      (WorkingDecisionLog.set_batch_meta bm d.(working_log))) as [o ->]. done.
  - rewrite Hph in Hp. cbn in Hp. rewrite length_app. cbn. lia.
Qed.

Lemma processed_sent {L : AtlasLaws} rng node v m c d r to msg :
  inv v d -> consensus m.(message) = Ok c -> processed rng node v m c d r ->
  (to, msg) ∈ sent r.(r_eff) -> own_vote v r.(r_st) msg.
Proof.
  intros Hinv Hc Hpr. pose proof (processed_inv _ _ _ _ _ _ _ Hinv Hc Hpr) as Hinv'.
  pose proof (d_phase _ _ Hinv) as Hp.
  destruct Hpr as
    [| f _|e bm eff _ Hsent|i rqs bm eff k l' st a' eff' ph' q' Hph Hk Hv Hs Hi Hnew Hsent Hl' Hcase
    |k dg l' st a' eff' ph' q' Hph Hk Hv Hs Hd Hnew Hl' Hcase|k dg l' st ph' Hph Hk Hv Hs Hd Hnew Hl' Hcase];
    cbn [r_st r_eff] in *; rewrite ?Hsent; try (by intros ?%elem_of_nil).
  - rewrite sent_app, Hsent. cbn. intros Hin.
    destruct Hcase as [(_ & _ & _ & -> & _)|(_ & _ & Hacc & -> & _)]; [by apply elem_of_nil in Hin|].
    destruct (WorkingDecisionLog.finish_ok _ (d_log _ _ Hinv')) as (dg & ? & ? & ? & _ & Hdg & _).
    { apply (d_phase _ _ Hinv'). }
    exists dg. split; [done|left]. cbn.
    pose proof (completed_sent _ _ _ _ _ _ _ _ _ _ Hdg Hacc Hin) as Hm.
    pose proof (d_seq _ _ Hinv') as Hsq. cbn in Hm, Hsq. by rewrite Hsq in Hm.
  - intros Hin. rewrite Hph in Hp. destruct Hcase as [(_ & _ & _ & -> & _)|(Hq & _ & Hacc & -> & _)];
      [by apply elem_of_nil in Hin|].
    assert (commits_ahead v l' d.(accessory)) as Hah.
    { eapply commits_ahead_mono; [| |apply (d_ahead _ _ Hinv)]; by rewrite Hl'. }
    assert (WorkingDecisionLog.batch_digest l' = Some dg) as Hdg by (by rewrite Hl').
    exists dg. split; [done|right].
    pose proof (accessory_quorum_sent _ _ _ _ _ _ _ _ _ Hdg Hah Hacc Hin) as Hm.
    pose proof (d_seq _ _ Hinv') as Hsq. cbn in Hm, Hsq. rewrite Hsq in Hm. split; [done|].
    apply (d_phase _ _ Hinv').
Qed.

Lemma queue_run m c d :
  consensus m.(message) = Ok c ->
  exists q, queue (W := Effect) m d = mkRun (Ok tt) (set_message_queue q d) [].
Proof.
  intros Hc. unfold queue. rewrite Hc. run. destruct (cm_kind c); eexists; reflexivity.
Qed.

Lemma poll_grows v d : grows v d (poll d).2.
Proof.
  unfold poll. destruct (message_queue d) as [g pp p c].
  destruct (phase d); [|destruct g..|]; [done|destruct pp|done|destruct p|done|destruct c|done|done]; done.
Qed.

Lemma poll_stored d :
  stored_prepares (poll d).2 = stored_prepares d /\ stored_commits (poll d).2 = stored_commits d.
Proof.
  unfold poll. destruct (message_queue d) as [g pp p c].
  destruct (phase d); [|destruct g..|]; [done|destruct pp|done|destruct p|done|destruct c|done|done]; done.
Qed.

Lemma processed_phase rng node v m c d r :
  processed rng node v m c d r -> r.(r_st).(phase) = Initialize -> d.(phase) = Initialize.
Proof.
  intros Hpr. destruct Hpr as
    [| f _|e bm eff _ _|i rqs bm eff k l' st a' eff' ph' q' Hph Hk Hv Hs Hi Hnew _ -> Hcase
    |k dg l' st a' eff' ph' q' Hph Hk Hv Hs Hd Hnew -> Hcase|k dg l' st ph' Hph Hk Hv Hs Hd Hnew -> Hcase];
    cbn; try done; intros ->; naive_solver.
Qed.

(** The only new vote in the log is the message handled. *)
Lemma processed_stored rng node v m c d r x :
  processed rng node v m c d r ->
  (x ∈ stored_prepares r.(r_st) -> x ∈ stored_prepares d \/ x = m) /\
  (x ∈ stored_commits r.(r_st) -> x ∈ stored_commits d \/ x = m).
Proof.
  intros Hpr.
  destruct Hpr as
    [| f _|e bm eff _ _|i rqs bm eff k l' st a' eff' ph' q' Hph Hk Hv Hs Hi Hnew _ -> Hcase
    |k dg l' st a' eff' ph' q' Hph Hk Hv Hs Hd Hnew -> Hcase|k dg l' st ph' Hph Hk Hv Hs Hd Hnew -> Hcase];
    unfold stored_prepares, stored_commits; cbn; try tauto.
  - destruct (WorkingDecisionLog.after_eq i m rqs (rq_info <$> rqs)
      (WorkingDecisionLog.set_batch_meta bm d.(working_log))) as [o ->]. cbn. tauto.
  - rewrite elem_of_app, list_elem_of_singleton. tauto.
  - rewrite elem_of_app, list_elem_of_singleton. tauto.
Qed.

Context {L : AtlasLaws}.

Lemma step_inv v d eff d' : ViewInfo.wf v -> inv v d -> step v d eff d' -> inv v d'.
Proof.
  intros Hwf Hinv Hst. destruct Hst as [|Hph|rng sy m c <- Hc r|m c Hc|j].
  - by apply poll_preserves.
  - pose proof (poll_preserves v d Hwf Hinv) as Hi. unfold poll in Hi. rewrite Hph in Hi.
    by destruct (message_queue d).
  - exact (processed_inv _ _ _ _ _ _ _ Hinv Hc (process_message_processed rng _ sy m c d Hinv Hc)).
  - destruct (queue_run m c d Hc) as [q ->]. by apply queue_inv.
  - by apply tick_preserves.
Qed.

Lemma step_grows v d eff d' : inv v d -> step v d eff d' -> grows v d d'.
Proof.
  intros Hinv Hst. destruct Hst as [|Hph|rng sy m c <- Hc r|m c Hc|j].
  - apply poll_grows.
  - by split.
  - exact (processed_grows _ _ _ _ _ _ _ Hinv (process_message_processed rng _ sy m c d Hinv Hc)).
  - by destruct (queue_run m c d Hc) as [q ->].
  - by split.
Qed.

Lemma step_sent v d eff d' to msg :
  inv v d -> step v d eff d' -> (to, msg) ∈ sent eff -> own_vote v d' msg.
Proof.
  intros Hinv Hst. destruct Hst as [|Hph|rng sy m c <- Hc r|m c Hc|j].
  3: exact (processed_sent _ _ _ _ _ _ _ _ _ Hinv Hc (process_message_processed rng _ sy m c d Hinv Hc)).
  all: by intros ?%elem_of_nil.
Qed.

Lemma reach_all v d eff d' :
  ViewInfo.wf v -> inv v d -> reach v d eff d' ->
  inv v d' /\ grows v d d' /\ forall to m, (to, m) ∈ sent eff -> own_vote v d' m.
Proof.
  intros Hwf Hinv. induction 1 as [|e d1 e' d2 _ (Hi & Hg & Hs) Hst].
  - split_and!; [done|done|]. by intros to m ?%elem_of_nil.
  - pose proof (step_grows _ _ _ _ Hi Hst) as Hg'. split_and!.
    + by eapply step_inv.
    + by etransitivity.
    + intros to m. rewrite sent_app, elem_of_app. intros [Hin|Hin].
      * eapply own_vote_grows; [done|]. by eapply Hs.
      * by eapply step_sent.
Qed.

(** ** Properties *)

(** The invariant of a consensus instance holds in every state it can reach in a
    view: among others, the phase agrees with the votes stored, every stored vote
    was cast once per replica, in this view and for this instance, and for the digest
    of the batch the leaders proposed. *)
Theorem reachable_inv node s v q eff d :
  ViewInfo.wf v -> reach v (init_with_msg_log node s v q) eff d -> inv v d.
Proof. intros Hwf Hr. eapply reach_all; [done| |done]. by apply init_inv. Qed.

(** C9. A decision carries a certificate.  When an instance is decided, the log holds
    exactly a quorum of PREPAREs and a quorum of COMMITs, each quorum from
    distinct replicas, all for the sequence number and the view of the
    instance and for one digest: the hash of the proposals of all leaders, in leader
    order. *)
Theorem decided_certificate node s v q eff d :
  ViewInfo.wf v -> reach v (init_with_msg_log node s v q) eff d -> d.(phase) = PhaseDecided ->
  exists dg pps,
    digest_of d = Some dg /\
    d.(working_log).(WorkingDecisionLog.message_log).(MessageLog.pre_prepare) = Some <$> pps /\
    WorkingDecisionLog.from_of <$> pps = v.(ViewInfo.leader_set) /\
    WorkingDecisionLog.hash_digests ctx_new (Some <$> (DecProof.digest_of <$> pps)) =
      Some (dg, DecProof.digest_of <$> pps) /\
    length (stored_prepares d) = ViewInfo.quorum v /\
    length (stored_commits d) = ViewInfo.quorum v /\
    NoDup (WorkingDecisionLog.senders (stored_prepares d)) /\
    NoDup (WorkingDecisionLog.senders (stored_commits d)) /\
    Forall (fun m => ReplicaAccessory.prepares_for s v.(ViewInfo.seq) dg m.(message)) (stored_prepares d) /\
    Forall (fun m => ReplicaAccessory.commits_to s v.(ViewInfo.seq) dg m.(message)) (stored_commits d).
Proof.
  intros Hwf Hr Hph. destruct (reach_all _ _ _ _ Hwf (init_inv node s v q Hwf) Hr) as (Hinv & Hg & _).
  pose proof (d_phase _ _ Hinv) as Hp. rewrite Hph in Hp. destruct Hp as (Hfull & Hp & Hcm).
  assert (d.(working_log).(WorkingDecisionLog.seq_no) = s) as Hs.
  { rewrite (d_seq _ _ Hinv). apply (g_seq _ _ _ Hg). }
  destruct (WorkingDecisionLog.finish_ok _ (d_log _ _ Hinv) Hfull)
    as (dg & ord & pps & reqs & Hcalc & Hdg & Hpps & Hreqs & _).
  exists dg, pps. destruct (WorkingDecisionLog.filled_slots _ _ _ _ _ (d_log _ _ Hinv) Hcalc Hpps Hreqs)
    as (Hord & Hfrom & _).
  destruct Hinv as [[_ _ _ [_ Hp1 _ _ Hc1 _]] Hll _ _ _ _ Hps Hcs _ _].
  split_and!; try done; [by rewrite Hfrom| | |].
  - rewrite <- Hord. rewrite <- Hcalc. unfold WorkingDecisionLog.calculate_instance_digest.
    f_equal. symmetry. by eapply WorkingDecisionLog.hash_digests_ordering.
  - eapply Forall_impl; [exact Hps|]. intros m (nonce & dg' & Hd' & Hm). exists nonce. congruence.
  - eapply Forall_impl; [exact Hcs|]. intros m (nonce & dg' & Hd' & Hm). exists nonce. congruence.
Qed.

(** C28. The handler is total on consensus messages: in a reachable state it returns a
    status or one of two errors (a second vote of the same replica, or a
    proposal outside the leader's slice of the hash space), never a panic; on an
    error the phase, the votes and the queue stay as they were and nothing is
    sent. *)
Theorem process_message_total node s (sy : Sy) q eff d rng m c :
  ViewInfo.wf (sy_view sy) ->
  reach (sy_view sy) (init_with_msg_log node s (sy_view sy) q) eff d ->
  consensus m.(message) = Ok c ->
  let r := process_message rng d.(node_id) sy m d in
  (exists st, r.(r_out) = Ok st) \/
  (exists e, r.(r_out) = Err (EDecidingLog e) /\
     (e = DuplicateVoteFromNode (hdr_from m.(header)) \/
      e = BatchContainsRequestsNotInLeaderAddrSpace (hdr_from m.(header))) /\
     sent r.(r_eff) = [] /\ exists bm, r.(r_st) = with_meta bm d).
Proof.
  intros Hwf Hr Hc r. destruct (reach_all _ _ _ _ Hwf (init_inv node s _ q Hwf) Hr) as (Hinv & _ & _).
  pose proof (process_message_processed rng d.(node_id) sy m c d Hinv Hc) as Hpr.
  fold r in Hpr. destruct Hpr; [left; by eexists|left; by eexists| |left; by eexists..].
  right. exists e. split_and!; try done. by exists bm.
Qed.

(** C10. A replica speaks with one voice in a view.  Whatever messages arrive in
    whatever order, all it ever sends for an instance is its PREPARE for the digest
    of the batch it received and its COMMIT for that same digest; a COMMIT is only
    sent once a quorum of PREPAREs for the digest is stored. *)
Theorem sent_votes_consistent node s v q eff d to m :
  ViewInfo.wf v -> reach v (init_with_msg_log node s v q) eff d -> (to, m) ∈ sent eff ->
  exists dg, digest_of d = Some dg /\
    (ReplicaAccessory.prepares_for s v.(ViewInfo.seq) dg m \/
     ReplicaAccessory.commits_to s v.(ViewInfo.seq) dg m /\
       length (stored_prepares d) = ViewInfo.quorum v).
Proof.
  intros Hwf Hr Hin. destruct (reach_all _ _ _ _ Hwf (init_inv node s v q Hwf) Hr) as (Hinv & Hg & Hs).
  destruct (Hs _ _ Hin) as (dg & Hd & Hm). rewrite (g_seq _ _ _ Hg) in Hm. by exists dg.
Qed.

(** [finalize] succeeds exactly on a decided instance, with the batch of the stored
    proposals and the votes that decided it; otherwise it reports that the batch is
    undecided.  It neither panics nor fails to build the batch. *)
Theorem finalize_correct node s v q eff d :
  ViewInfo.wf v -> reach v (init_with_msg_log node s v q) eff d ->
  (d.(phase) = PhaseDecided -> exists b, finalize d = Ok b /\ b.(cb_seq) = s /\
     digest_of d = Some b.(cb_digest) /\
     b.(cb_contained_messages).(fin_prepares) = stored_prepares d /\
     b.(cb_contained_messages).(fin_commits) = stored_commits d /\
     DecProof.wf (mkDecProof (mkProofMetadata b.(cb_seq) b.(cb_digest) b.(cb_pre_prepare_ordering)
                     (length b.(cb_client_requests)))
                   b.(cb_contained_messages).(fin_pre_prepares) b.(cb_contained_messages).(fin_prepares)
                   b.(cb_contained_messages).(fin_commits))) /\
  (d.(phase) <> PhaseDecided -> finalize d = Err (EDecision (CannotFinalizeUndecidedBatch s))).
Proof.
  intros Hwf Hr. destruct (reach_all _ _ _ _ Hwf (init_inv node s v q Hwf) Hr) as (Hinv & Hg & _).
  pose proof (g_seq _ _ _ Hg) as Hs. cbn in Hs. split.
  - intros Hph. pose proof (d_phase _ _ Hinv) as Hp. rewrite Hph in Hp. destruct Hp as (Hfull & _).
    destruct (WorkingDecisionLog.finish_ok _ (d_log _ _ Hinv) Hfull)
      as (dg & ord & pps & reqs & Hcalc & Hdg & Hpps & Hreqs & Hfin).
    destruct (WorkingDecisionLog.filled_slots _ _ _ _ _ (d_log _ _ Hinv) Hcalc Hpps Hreqs)
      as (Hord & Hfrom & Hkinds).
    unfold finalize. rewrite Hph, Hfin. cbn. eexists. split; [reflexivity|]. cbn.
    rewrite (d_seq _ _ Hinv), Hs. split_and!; try done.
    destruct (d_log _ _ Hinv) as [_ _ _ [Hp1 _ _ Hc1 _ _]].
    split; cbn; try done.
    + rewrite Hord. destruct Hwf as (_ & _ & _ & (x & _ & Hone & _) & _).
      rewrite (d_leaders _ _ Hinv), Hone in Hfrom. destruct pps as [|p [|]]; try done. apply NoDup_singleton.
    + apply Forall_forall. intros p Hp. apply list_elem_of_lookup in Hp as [i Hi].
      destruct (Forall2_lookup_l _ _ _ _ _ Hkinds Hi) as (r & _ & Hk). by exists r.
  - intros Hph. unfold finalize. rewrite Hs. by destruct (phase d).
Qed.

(** What an instance reports when its view is abandoned: the view and digest of every PREPARE it
    stored and, as soon as [2f] of them are there ([f > 0]), that pair as the value
    prepared by a quorum. *)
Theorem deciding_correct node s v q eff d :
  ViewInfo.wf v -> reach v (init_with_msg_log node s v q) eff d ->
  (digest_of d = None /\ deciding (ViewInfo.f v) d = Ok (mkIncompleteProof s [] None)) \/
  exists dg, digest_of d = Some dg /\
    let pair := mkViewDecisionPair v.(ViewInfo.seq) dg in
    let k := length (stored_prepares d) in
    deciding (ViewInfo.f v) d =
    Ok (mkIncompleteProof s (replicate k pair)
          (if decide (0 < ViewInfo.f v * 2 <= k) then Some pair else None)).
Proof.
  intros Hwf Hr. destruct (reach_all _ _ _ _ Hwf (init_inv node s v q Hwf) Hr) as (Hinv & Hg & _).
  pose proof (g_seq _ _ _ Hg) as Hs. cbn in Hs. pose proof (d_prepares _ _ Hinv) as Hps.
  unfold deciding, WorkingDecisionLog.deciding. rewrite (d_seq _ _ Hinv), Hs.
  fold (stored_prepares d) in *. destruct (digest_of d) as [dg|] eqn:Hd; [right|left].
  - exists dg. split; [done|]. cbn zeta.
    assert (Forall (WorkingDecisionLog.votes_for v.(ViewInfo.seq) dg) (rev (stored_prepares d))) as Hv.
    { apply Forall_rev. eapply Forall_impl; [exact Hps|]. intros m (nonce & dg' & Hd' & Hm).
      unfold digest_of in Hd. simplify_eq. eexists. rewrite Hm. split; [reflexivity|]. done. }
    rewrite (WorkingDecisionLog.collect_write_set_ok _ _ _ Hv). cbn.
    rewrite (WorkingDecisionLog.find_quorum_ok _ _ _ _ _ _ Hv) by (by left). cbn.
    by rewrite length_rev.
  - split; [done|]. destruct (stored_prepares d) as [|m l]; [done|].
    apply Forall_cons in Hps as [(nonce & dg' & Hd' & _) _]. unfold digest_of in Hd. congruence.
Qed.
End consensus_decision.
End ConsensusDecision.
