(* ===== verification/Agreement.v ===== *)
(** * Agreement within a view

    A system of replicas that run one consensus instance in one view.  The correct
    ones run [ConsensusDecision]; at most [f] members are faulty and may put
    anything on the network in their own name.  What the code takes from the
    communication layer is the rule of [authentic]: a message carries the identity of the member that
    sent it (the code itself does not check that a voter is a member). *)
From S2P Require Import Prelude Atlas Errors View Messages Decisions Deciding Network.
From S2P Require Import SyncAccessory Accessory Decision.

Module System.
Section system.
Context {A : Atlas} {WF : WireFormat} {Sy : Type} {SH : SyncHandle Sy} {SL : SyncHandleLaws Sy}.
Context (v : ViewInfo.t) (s : SeqNo) (byz : gset NodeId).

(** The state of every replica (of the correct ones only these matter) and what
    the correct replicas have sent so far. *)
Record t := mk {
  replica : NodeId -> ConsensusDecision.t;
  net : list (NodeId * PBFTMessage);
}.

Definition start : t := mk (fun x => ConsensusDecision.init_decision x s v) [].

Definition update (x : NodeId) (d : ConsensusDecision.t) (f : NodeId -> ConsensusDecision.t) :=
  fun y => if decide (y = x) then d else f y.

Definition is_proposal (m : PBFTMessage) : Prop :=
  exists c rqs, m = Consensus c /\ c.(cm_kind) = PrePrepare rqs.

(** The message comes from a member; a vote in the name of a correct one has really
    been sent by it.  Proposals are made outside of the instance (by the proposer) and
    are not restricted: agreement does not depend on the leader. *)
Definition authentic (y : t) (m : Shareable) : Prop :=
  hdr_from m.(header) ∈ v.(ViewInfo.quorum_members) /\
  (hdr_from m.(header) ∉ byz -> ~ is_proposal m.(message) ->
     (hdr_from m.(header), m.(message)) ∈ y.(net)).

Inductive step (y : t) : t -> Prop :=
  (** a correct replica polls its instance, or its thread pool makes progress *)
  | sys_poll x : x ∉ byz ->
      step y (mk (update x (ConsensusDecision.poll (y.(replica) x)).2 y.(replica)) y.(net))
  | sys_tick x j : x ∉ byz ->
      let d := y.(replica) x in
      step y (mk (update x (ConsensusDecision.set_accessory
                              (accessory_tick j d.(ConsensusDecision.accessory)) d) y.(replica)) y.(net))
  (** a message arrives out of context; it is handed out by a later poll *)
  | sys_queue x m c : x ∉ byz -> consensus m.(message) = Ok c ->
      step y (mk (update x (ConsensusDecision.queue (W := Effect) m (y.(replica) x)).(r_st) y.(replica)) y.(net))
  (** a correct replica handles an authentic message *)
  | sys_deliver x rng (sy : Sy) m c : x ∉ byz -> sy_view sy = v ->
      authentic y m -> consensus m.(message) = Ok c ->
      let r := ConsensusDecision.process_message rng x sy m (y.(replica) x) in
      step y (mk (update x r.(r_st) y.(replica)) (y.(net) ++ ((x,.) <$> (sent r.(r_eff)).*2))).

Inductive reachable : t -> Prop :=
  | reachable_start : reachable start
  | reachable_step y y' : reachable y -> step y y' -> reachable y'.

(** ** The invariant of the system *)

Record inv (y : t) : Prop := {
  s_node : forall x, x ∉ byz -> (y.(replica) x).(ConsensusDecision.node_id) = x;
  s_seq : forall x, x ∉ byz -> (y.(replica) x).(ConsensusDecision.seq) = s;
  s_inv : forall x, x ∉ byz -> ConsensusDecision.inv v (y.(replica) x);
  s_prepares : forall x m, x ∉ byz -> m ∈ ConsensusDecision.stored_prepares (y.(replica) x) ->
    authentic y m;
  s_net : forall x m, x ∉ byz -> (x, m) ∈ y.(net) -> ConsensusDecision.own_vote v (y.(replica) x) m;
}.

Context {L : AtlasLaws} (Hwf : ViewInfo.wf v).

Lemma start_inv : inv start.
Proof.
  split; cbn; try done.
  - intros x _. by apply ConsensusDecision.init_inv.
  - by intros x m _ ?%elem_of_nil.
  - by intros x m _ ?%elem_of_nil.
Qed.

Lemma authentic_mono y y' m :
  (forall p, p ∈ y.(net) -> p ∈ y'.(net)) -> authentic y m -> authentic y' m.
Proof. intros Hsub [Hm Ha]. split; [done|]. eauto. Qed.

(** Replacing the state of one correct replica. *)
Lemma update_inv y x d' (out : list PBFTMessage) :
  inv y -> x ∉ byz -> ConsensusDecision.inv v d' ->
  ConsensusDecision.grows v (y.(replica) x) d' ->
  (forall m, m ∈ ConsensusDecision.stored_prepares d' ->
     m ∈ ConsensusDecision.stored_prepares (y.(replica) x) \/ authentic y m) ->
  (forall m, m ∈ out -> ConsensusDecision.own_vote v d' m) ->
  inv (mk (update x d' y.(replica)) (y.(net) ++ ((x,.) <$> out))).
Proof.
  intros [Hn Hs Hi Hp Hnet] Hx Hinv' Hg Hst Hout. unfold update.
  assert (forall m, authentic y m -> authentic (mk (update x d' y.(replica)) (y.(net) ++ ((x,.) <$> out))) m)
    as Hmono by (intros m; apply authentic_mono; cbn; set_solver).
  split; cbn.
  - intros z Hz. case_decide as E; [|by apply Hn]. subst. rewrite (ConsensusDecision.g_node _ _ _ Hg). by apply Hn.
  - intros z Hz. case_decide as E; [|by apply Hs]. subst. rewrite (ConsensusDecision.g_seq _ _ _ Hg). by apply Hs.
  - intros z Hz. case_decide as E; [done|by apply Hi].
  - intros z m Hz. case_decide as E; [subst|].
    + intros [Hm|Hm]%Hst; [|by apply Hmono]. apply Hmono. by eapply Hp.
    + intros Hm. apply Hmono. by eapply Hp.
  - intros z m Hz [Hin|Hin]%elem_of_app.
    + case_decide as E; [subst|by apply Hnet]. eapply ConsensusDecision.own_vote_grows; [done|]. by apply Hnet.
    + apply list_elem_of_fmap in Hin as (m' & Heq & Hm'). injection Heq as -> ->.
      rewrite decide_True by done. by apply Hout.
Qed.

Lemma system_step_inv y y' : inv y -> step y y' -> inv y'.
Proof.
  intros Hy Hst. destruct Hst as [x Hx|x j Hx d|x m c Hx Hc|x rng sy m c Hx Hv Ha Hc r].
  - pose proof (update_inv y x (ConsensusDecision.poll (y.(replica) x)).2 [] Hy Hx) as H.
    cbn in H. rewrite app_nil_r in H. apply H.
    + apply ConsensusDecision.poll_preserves; [done|]. by apply (s_inv _ Hy).
    + apply ConsensusDecision.poll_grows.
    + intros m Hm. left. by rewrite (proj1 (ConsensusDecision.poll_stored _)) in Hm.
    + by intros m ?%elem_of_nil.
  - pose proof (update_inv y x (ConsensusDecision.set_accessory
      (accessory_tick j d.(ConsensusDecision.accessory)) d) [] Hy Hx) as H.
    cbn in H. rewrite app_nil_r in H. apply H.
    + apply ConsensusDecision.tick_preserves. by apply (s_inv _ Hy).
    + by split.
    + intros m Hm. by left.
    + by intros m ?%elem_of_nil.
  - pose proof (update_inv y x (ConsensusDecision.queue (W := Effect) m (y.(replica) x)).(r_st) [] Hy Hx) as H.
    cbn [fmap list_fmap] in H. rewrite app_nil_r in H.
    destruct (ConsensusDecision.queue_run m c (y.(replica) x) Hc) as [q Hq]. rewrite Hq in *. apply H.
    + apply ConsensusDecision.queue_inv. by apply (s_inv _ Hy).
    + by split.
    + intros m' Hm. by left.
    + by intros m' ?%elem_of_nil.
  - pose proof (s_inv _ Hy x Hx) as Hinv. rewrite <- Hv in Hinv.
    pose proof (ConsensusDecision.process_message_processed rng x sy m c _ Hinv Hc) as Hpr. fold r in Hpr.
    rewrite Hv in *. apply update_inv; try done.
    + by eapply ConsensusDecision.processed_inv.
    + by eapply ConsensusDecision.processed_grows.
    + intros m' Hm'. destruct (ConsensusDecision.processed_stored _ _ _ _ _ _ _ m' Hpr) as [H _].
      destruct (H Hm') as [?| ->]; [by left|by right].
    + intros msg ([to msg'] & -> & Hin)%list_elem_of_fmap. cbn.
      by eapply ConsensusDecision.processed_sent.
Qed.

Lemma system_inv y : reachable y -> inv y.
Proof. induction 1; [apply start_inv|by eapply system_step_inv]. Qed.

(** ** Agreement *)

Context (Hn : ViewInfo.n v = 3 * ViewInfo.f v + 1) (Hbyz : size byz <= ViewInfo.f v).

(** The replicas behind the stored PREPAREs of a prepared instance. *)
Lemma prepared_quorum y x :
  inv y -> x ∉ byz -> ConsensusDecision.prepared v (y.(replica) x) ->
  let P := list_to_set (WorkingDecisionLog.senders (ConsensusDecision.stored_prepares (y.(replica) x))) : gset NodeId in
  P ⊆ list_to_set v.(ViewInfo.quorum_members) /\ 2 * ViewInfo.f v + 1 <= size P.
Proof.
  intros Hy Hx Hp P. split.
  - intros z Hz. apply elem_of_list_to_set, list_elem_of_fmap in Hz as (m & -> & Hm).
    apply elem_of_list_to_set. by destruct (s_prepares _ Hy x m Hx Hm).
  - subst P. rewrite size_list_to_set_NoDup.
    + unfold WorkingDecisionLog.senders. rewrite length_fmap, Hp. unfold ViewInfo.quorum.
      by rewrite sp_quorum_2f1.
    + apply (ConsensusDecision.d_log _ _ (s_inv _ Hy x Hx)).
Qed.

(** A correct sender of a stored PREPARE has the same digest. *)
Lemma stored_prepare_digest y x z dg :
  inv y -> x ∉ byz -> z ∉ byz -> ConsensusDecision.digest_of (y.(replica) x) = Some dg ->
  z ∈ WorkingDecisionLog.senders (ConsensusDecision.stored_prepares (y.(replica) x)) ->
  ConsensusDecision.digest_of (y.(replica) z) = Some dg.
Proof.
  intros Hy Hx Hz Hd Hin. apply list_elem_of_fmap in Hin as (m & -> & Hm).
  destruct (s_prepares _ Hy x m Hx Hm) as [_ Ha]. specialize (Ha Hz).
  pose proof (ConsensusDecision.d_prepares _ _ (s_inv _ Hy x Hx)) as Hps.
  rewrite Forall_forall in Hps. destruct (Hps m Hm) as (nonce & dg0 & Hd0 & Hmsg).
  assert (~ is_proposal m.(message)) as Hnp.
  { rewrite Hmsg. intros (c & rqs & Hc & Hk). injection Hc as <-. done. }
  destruct (s_net _ Hy _ _ Hz (Ha Hnp)) as (dg' & Hdg' & Hvote). rewrite Hdg'. f_equal.
  unfold ConsensusDecision.digest_of in Hd. rewrite Hd in Hd0. injection Hd0 as <-.
  destruct Hvote as [[n' Hv']|[[n' Hv'] _]]; congruence.
Qed.

Lemma prepared_agree y x x' dg dg' :
  inv y -> x ∉ byz -> x' ∉ byz ->
  ConsensusDecision.prepared v (y.(replica) x) -> ConsensusDecision.prepared v (y.(replica) x') ->
  ConsensusDecision.digest_of (y.(replica) x) = Some dg ->
  ConsensusDecision.digest_of (y.(replica) x') = Some dg' -> dg = dg'.
Proof.
  intros Hy Hx Hx' Hp Hp' Hd Hd'.
  destruct (prepared_quorum y x Hy Hx Hp) as [Hsub Hsz].
  destruct (prepared_quorum y x' Hy Hx' Hp') as [Hsub' Hsz'].
  destruct Hwf as (Hnd & Hlen & _).
  assert (size (list_to_set v.(ViewInfo.quorum_members) : gset NodeId) <= 3 * ViewInfo.f v + 1) as HU
    by (rewrite size_list_to_set_NoDup by done; lia).
  destruct (quorum_share_correct _ _ _ byz _ HU Hbyz Hsub Hsub' Hsz Hsz') as (z & Hz & Hz' & Hzb).
  apply elem_of_list_to_set in Hz, Hz'.
  pose proof (stored_prepare_digest y x z dg Hy Hx Hzb Hd Hz).
  pose proof (stored_prepare_digest y x' z dg' Hy Hx' Hzb Hd' Hz'). congruence.
Qed.

Lemma decided_prepared y x :
  inv y -> x ∉ byz -> (y.(replica) x).(ConsensusDecision.phase) = PhaseDecided ->
  ConsensusDecision.prepared v (y.(replica) x) /\
  exists dg ord, ConsensusDecision.digest_of (y.(replica) x) = Some dg /\
    WorkingDecisionLog.hash_digests ctx_new (Some <$> ord) = Some (dg, ord) /\
    length ord = length v.(ViewInfo.leader_set) /\
    exists b, ConsensusDecision.finalize (y.(replica) x) = Ok b /\ b.(cb_digest) = dg /\
      b.(cb_seq) = s /\ b.(cb_pre_prepare_ordering) = ord.
Proof.
  intros Hy Hx Hph. pose proof (s_inv _ Hy x Hx) as Hinv.
  pose proof (ConsensusDecision.d_phase _ _ Hinv) as Hp. rewrite Hph in Hp. destruct Hp as (Hfull & Hp & _).
  split; [done|].
  destruct (WorkingDecisionLog.finish_ok _ (ConsensusDecision.d_log _ _ Hinv) Hfull)
    as (dg & ord & pps & reqs & Hcalc & Hdg & Hpps & Hreqs & Hfin).
  exists dg, ord. split; [done|]. pose proof (WorkingDecisionLog.hash_digests_ordering _ _ _ _ Hcalc) as Hord.
  split_and!.
  - by rewrite <- Hord.
  - rewrite <- (ConsensusDecision.d_leaders _ _ Hinv).
    rewrite <- (WorkingDecisionLog.si_digests _ (WorkingDecisionLog.inv_slots _ (ConsensusDecision.d_log _ _ Hinv))).
    by rewrite Hord, length_fmap.
  - unfold ConsensusDecision.finalize. rewrite Hph, Hfin. cbn. eexists. split; [reflexivity|]. cbn.
    rewrite (ConsensusDecision.d_seq _ _ Hinv). split_and!; [done|by apply (s_seq _ Hy)|done].
Qed.

(** Two correct replicas that decide the instance finalize the same batch. *)
Lemma decided_same y x x' :
  inv y -> x ∉ byz -> x' ∉ byz ->
  (y.(replica) x).(ConsensusDecision.phase) = PhaseDecided ->
  (y.(replica) x').(ConsensusDecision.phase) = PhaseDecided ->
  exists b b', ConsensusDecision.finalize (y.(replica) x) = Ok b /\
    ConsensusDecision.finalize (y.(replica) x') = Ok b' /\
    b.(cb_seq) = b'.(cb_seq) /\ b.(cb_digest) = b'.(cb_digest) /\
    ((forall d d', ctx_finish (ctx_update ctx_new d) = ctx_finish (ctx_update ctx_new d') -> d = d') ->
     b.(cb_pre_prepare_ordering) = b'.(cb_pre_prepare_ordering)).
Proof.
  intros Hy Hx Hx' Hph Hph'.
  destruct (decided_prepared y x Hy Hx Hph) as (Hp & dg & ord & Hd & Hh & Hl & b & Hb & Hbd & Hbs & Hbo).
  destruct (decided_prepared y x' Hy Hx' Hph') as (Hp' & dg' & ord' & Hd' & Hh' & Hl' & b' & Hb' & Hbd' & Hbs' & Hbo').
  pose proof (prepared_agree y x x' dg dg' Hy Hx Hx' Hp Hp' Hd Hd') as <-.
  exists b, b'. split_and!; try congruence. intros Hinj. rewrite Hbo, Hbo'. clear Hbo Hbo'.
  destruct Hwf as (_ & _ & _ & (l & _ & Hone & _) & _). rewrite Hone in *.
  destruct ord as [|o [|]], ord' as [|o' [|]]; try done. cbn in Hh, Hh'. simplify_eq.
  f_equal. apply Hinj. congruence.
Qed.

(** C4. Agreement.  In a view of [n = 3f + 1] members of which at most [f] are
    faulty, two correct replicas that decide the instance decide the same digest,
    whatever the faulty members send and in whatever order messages arrive, and
    both can finalize it.  If the hash of a batch determines the proposal it was
    computed from, their batches are made of the same proposals in the same order. *)
Theorem agreement y x x' :
  reachable y -> x ∉ byz -> x' ∉ byz ->
  (y.(replica) x).(ConsensusDecision.phase) = PhaseDecided ->
  (y.(replica) x').(ConsensusDecision.phase) = PhaseDecided ->
  exists b b', ConsensusDecision.finalize (y.(replica) x) = Ok b /\
    ConsensusDecision.finalize (y.(replica) x') = Ok b' /\
    b.(cb_seq) = b'.(cb_seq) /\ b.(cb_digest) = b'.(cb_digest) /\
    ((forall d d', ctx_finish (ctx_update ctx_new d) = ctx_finish (ctx_update ctx_new d') -> d = d') ->
     b.(cb_pre_prepare_ordering) = b'.(cb_pre_prepare_ordering)).
Proof. intros Hr. apply decided_same. by apply system_inv. Qed.
End system.
End System.
