(* ===== verification/Metrics.v ===== *)
(** * Metrics ([bft/metric/mod.rs], [febft-state-transfer/src/metrics/mod.rs])

    What is measured, how it is registered, and the time stamps of a consensus instance; [Metered] is the instance of file
    Decision together with its time stamps. *)
From stdpp Require Import strings.
From S2P Require Import Prelude Atlas Errors View Messages Decisions Deciding Network.
From S2P Require Import SyncAccessory Accessory Decision.

(** ** The registry *)

(** The kinds and levels of [atlas_metrics] the code uses. *)
Inductive MetricKind := Duration | Counter | Count.
Inductive MetricLevel := Info.

(** The tuples that are converted to a [MetricRegistry]; level and concurrency may be left out. *)
Record MetricRegistry := mkRegistry {
  mr_id : nat;
  mr_name : string;
  mr_kind : MetricKind;
  mr_level : option MetricLevel;
  mr_concurrency : option nat;
}.

Module Metrics.
Local Open Scope string_scope.

Definition PROPOSER_BATCHES_MADE : string := "BATCHES_MADE".
Definition PROPOSER_BATCHES_MADE_ID : nat := 100.
Definition PROPOSER_REQUESTS_COLLECTED : string := "REQUESTS_COLLECTED".
Definition PROPOSER_REQUESTS_COLLECTED_ID : nat := 101.
Definition PROPOSER_REQUEST_PROCESSING_TIME : string := "REQUEST_PROCESSING".
Definition PROPOSER_REQUEST_PROCESSING_TIME_ID : nat := 102.
Definition PROPOSER_REQUEST_FILTER_TIME : string := "REQUEST_FILTER_TIME".
Definition PROPOSER_REQUEST_FILTER_TIME_ID : nat := 103.
Definition PROPOSER_FWD_REQUESTS : string := "FWD_REQUEST_HANDLING".
Definition PROPOSER_FWD_REQUESTS_ID : nat := 104.
Definition CLIENT_POOL_BATCH_SIZE : string := "CLIENT_POOL_BATCH_SIZE".
Definition CLIENT_POOL_BATCH_SIZE_ID : nat := 105.
Definition PROPOSER_LATENCY : string := "PROPOSER_LATENCY".
Definition PROPOSER_LATENCY_ID : nat := 106.
Definition PROPOSER_PROPOSE_TIME : string := "PROPOSER_PROPOSE_TIME".
Definition PROPOSER_PROPOSE_TIME_ID : nat := 107.
Definition PROPOSER_REQUEST_TIME_ITERATIONS : string := "PROPOSER_REQUEST_TIME_ITERATIONS".
Definition PROPOSER_REQUEST_TIME_ITERATIONS_ID : nat := 108.
Definition PROPOSE_LATENCY : string := "PROPOSE_LATENCY".
Definition PROPOSE_LATENCY_ID : nat := 110.
Definition CONSENSUS_PRE_PREPARE_LATENCY : string := "PRE_PREPARE_LATENCY".
Definition CONSENSUS_PRE_PREPARE_LATENCY_ID : nat := 111.
Definition CONSENSUS_PRE_PREPARE_TO_PREPARE_LATENCY : string := "PRE_PREPARE_TO_PREPARE_LATENCY".
Definition CONSENSUS_PRE_PREPARE_TO_PREPARE_LATENCY_ID : nat := 112.
Definition CONSENSUS_PREPARE_LATENCY : string := "PREPARE_LATENCY".
Definition CONSENSUS_PREPARE_LATENCY_ID : nat := 113.
Definition CONSENSUS_PREPARE_TO_COMMIT_LATENCY : string := "PREPARE_TO_COMMIT_LATENCY".
Definition CONSENSUS_PREPARE_TO_COMMIT_LATENCY_ID : nat := 114.
Definition CONSENSUS_COMMIT_LATENCY : string := "COMMIT_LATENCY".
Definition CONSENSUS_COMMIT_LATENCY_ID : nat := 115.
Definition BATCH_SIZE : string := "BATCH_SIZE".
Definition BATCH_SIZE_ID : nat := 116.
Definition PRE_PREPARE_ANALYSIS : string := "PRE_PREPARE_RQ_ANALYSIS".
Definition PRE_PREPARE_ANALYSIS_ID : nat := 117.
Definition PRE_PREPARE_LOG_ANALYSIS : string := "PRE_PREPARE_LOG_ANALYSIS".
Definition PRE_PREPARE_LOG_ANALYSIS_ID : nat := 118.
Definition OPERATIONS_ORDERED : string := "OPERATIONS_ORDERED".
Definition OPERATIONS_ORDERED_ID : nat := 119.
Definition CONSENSUS_INSTALL_STATE_TIME : string := "CONSENSUS_INSTALL_STATE_TIME".
Definition CONSENSUS_INSTALL_STATE_TIME_ID : nat := 120.
Definition MSG_LOG_INSTALL_TIME : string := "MSG_LOG_INSTALL_TIME".
Definition MSG_LOG_INSTALL_TIME_ID : nat := 121.
Definition SYNC_WATCH_REQUESTS : string := "SYNC_WATCH_REQUESTS".
Definition SYNC_WATCH_REQUESTS_ID : nat := 150.
Definition SYNC_BATCH_RECEIVED : string := "SYNC_BATCH_RECEIVED".
Definition SYNC_BATCH_RECEIVED_ID : nat := 151.
Definition SYNC_STOPPED_REQUESTS : string := "SYNC_STOPPED_REQUESTS".
Definition SYNC_STOPPED_REQUESTS_ID : nat := 152.
Definition SYNC_STOPPED_COUNT : string := "SYNC_REQUESTS_COUNT".
Definition SYNC_STOPPED_COUNT_ID : nat := 153.
Definition SYNC_FORWARDED_REQUESTS : string := "SYNC_FORWARDED_REQUESTS".
Definition SYNC_FORWARDED_REQUESTS_ID : nat := 154.
Definition SYNC_FORWARDED_COUNT : string := "SYNC_FORWARDED_COUNT".
Definition SYNC_FORWARDED_COUNT_ID : nat := 155.

Definition metrics : list MetricRegistry :=
  [mkRegistry PROPOSER_BATCHES_MADE_ID PROPOSER_BATCHES_MADE Counter (Some Info) (Some 1);
   mkRegistry PROPOSER_REQUESTS_COLLECTED_ID PROPOSER_REQUESTS_COLLECTED Counter (Some Info) (Some 1);
   mkRegistry PROPOSER_REQUEST_PROCESSING_TIME_ID PROPOSER_REQUEST_PROCESSING_TIME Duration None None;
   mkRegistry PROPOSER_REQUEST_FILTER_TIME_ID PROPOSER_REQUEST_FILTER_TIME Duration None None;
   mkRegistry PROPOSER_FWD_REQUESTS_ID PROPOSER_FWD_REQUESTS Duration None None;
   mkRegistry PROPOSER_PROPOSE_TIME_ID PROPOSER_PROPOSE_TIME Duration None None;
   mkRegistry PROPOSER_REQUEST_TIME_ITERATIONS_ID PROPOSER_REQUEST_TIME_ITERATIONS Counter None None;
   mkRegistry CLIENT_POOL_BATCH_SIZE_ID CLIENT_POOL_BATCH_SIZE Count None None;
   mkRegistry PROPOSER_LATENCY_ID PROPOSER_LATENCY Duration None None;
   mkRegistry PROPOSE_LATENCY_ID PROPOSE_LATENCY Duration None None;
   mkRegistry CONSENSUS_PRE_PREPARE_LATENCY_ID CONSENSUS_PRE_PREPARE_LATENCY Duration None None;
   mkRegistry CONSENSUS_PRE_PREPARE_TO_PREPARE_LATENCY_ID CONSENSUS_PRE_PREPARE_TO_PREPARE_LATENCY Duration None None;
   mkRegistry CONSENSUS_PREPARE_LATENCY_ID CONSENSUS_PREPARE_LATENCY Duration None None;
   mkRegistry CONSENSUS_PREPARE_TO_COMMIT_LATENCY_ID CONSENSUS_PREPARE_TO_COMMIT_LATENCY Duration None None;
   mkRegistry CONSENSUS_COMMIT_LATENCY_ID CONSENSUS_COMMIT_LATENCY Duration None None;
   mkRegistry BATCH_SIZE_ID BATCH_SIZE Count None None;
   mkRegistry PRE_PREPARE_ANALYSIS_ID PRE_PREPARE_ANALYSIS Duration None None;
   mkRegistry PRE_PREPARE_LOG_ANALYSIS_ID PRE_PREPARE_LOG_ANALYSIS Duration None None;
   mkRegistry OPERATIONS_ORDERED_ID OPERATIONS_ORDERED Counter None None;
   mkRegistry CONSENSUS_INSTALL_STATE_TIME_ID CONSENSUS_INSTALL_STATE_TIME Duration None None;
   mkRegistry MSG_LOG_INSTALL_TIME_ID MSG_LOG_INSTALL_TIME Duration None None;
   mkRegistry SYNC_WATCH_REQUESTS_ID SYNC_WATCH_REQUESTS Duration None None;
   mkRegistry SYNC_BATCH_RECEIVED_ID SYNC_BATCH_RECEIVED Duration None None;
   mkRegistry SYNC_STOPPED_REQUESTS_ID SYNC_STOPPED_REQUESTS Duration None None;
   mkRegistry SYNC_STOPPED_COUNT_ID SYNC_STOPPED_COUNT Counter None None;
   mkRegistry SYNC_FORWARDED_REQUESTS_ID SYNC_FORWARDED_REQUESTS Duration None None;
   mkRegistry SYNC_FORWARDED_COUNT_ID SYNC_FORWARDED_COUNT Counter None None].
End Metrics.

Module StMetrics.
Definition STATE_TRANSFER_STATE_INSTALL_CLONE_TIME : string := "LT_STATE_CLONE_TIME".
Definition STATE_TRANSFER_STATE_INSTALL_CLONE_TIME_ID : nat := 600.
Definition metrics : list MetricRegistry :=
  [mkRegistry STATE_TRANSFER_STATE_INSTALL_CLONE_TIME_ID STATE_TRANSFER_STATE_INSTALL_CLONE_TIME Duration (Some Info) None].
End StMetrics.

(** ** Measurements *)

(** [metric_duration], [metric_store_count]; times are in nanoseconds. *)
Inductive Measurement :=
  | metric_duration (id : nat) (d : N)
  | metric_store_count (id count : nat).

Definition measured_id (m : Measurement) : nat := match m with metric_duration i _ | metric_store_count i _ => i end.
Definition measured_kind (m : Measurement) : MetricKind := match m with metric_duration _ _ => Duration | metric_store_count _ _ => Count end.

Module ConsensusMetrics.
Import Metrics.

Record t := mk {
  consensus_start_time : N;
  first_pre_prepare_time : N;
  pre_prepare_recvd_time : N;
  first_prepare_rcvd_time : N;
  prepare_quorum_time : N;
  first_commit_rcvd_time : N;
  commit_quorum_time : N;
}.

(** [now i] is the [i]-th time the clock is read. *)
Section clock.
Context (now : nat -> N).

Definition new : t := mk (now 0) (now 1) (now 2) (now 3) (now 4) (now 5) (now 6).

(** [Instant::elapsed] is zero for an instant that lies ahead. *)
Definition elapsed (i : nat) (since : N) : N := (now i - since)%N.

Definition consensus_started (m : t) : t :=
  mk (now 0) m.(first_pre_prepare_time) m.(pre_prepare_recvd_time) m.(first_prepare_rcvd_time) m.(prepare_quorum_time)
    m.(first_commit_rcvd_time) m.(commit_quorum_time).
Definition first_pre_prepare_recvd (m : t) : t * list Measurement :=
  (mk m.(consensus_start_time) (now 0) m.(pre_prepare_recvd_time) m.(first_prepare_rcvd_time) m.(prepare_quorum_time)
     m.(first_commit_rcvd_time) m.(commit_quorum_time),
   [metric_duration PROPOSE_LATENCY_ID (elapsed 1 m.(consensus_start_time))]).
Definition all_pre_prepares_recvd (batch_size : nat) (m : t) : t * list Measurement :=
  (mk m.(consensus_start_time) m.(first_pre_prepare_time) (now 0) m.(first_prepare_rcvd_time) m.(prepare_quorum_time)
     m.(first_commit_rcvd_time) m.(commit_quorum_time),
   [metric_duration CONSENSUS_PRE_PREPARE_LATENCY_ID (elapsed 1 m.(first_pre_prepare_time)); metric_store_count BATCH_SIZE_ID batch_size]).
Definition first_prepare_recvd (m : t) : t * list Measurement :=
  (mk m.(consensus_start_time) m.(first_pre_prepare_time) m.(pre_prepare_recvd_time) (now 0) m.(prepare_quorum_time)
     m.(first_commit_rcvd_time) m.(commit_quorum_time),
   [metric_duration CONSENSUS_PRE_PREPARE_TO_PREPARE_LATENCY_ID (elapsed 1 m.(pre_prepare_recvd_time))]).
Definition prepare_quorum_recvd (m : t) : t * list Measurement :=
  (mk m.(consensus_start_time) m.(first_pre_prepare_time) m.(pre_prepare_recvd_time) m.(first_prepare_rcvd_time) (now 0)
     m.(first_commit_rcvd_time) m.(commit_quorum_time),
   [metric_duration CONSENSUS_PREPARE_LATENCY_ID (elapsed 1 m.(first_prepare_rcvd_time))]).
Definition first_commit_recvd (m : t) : t * list Measurement :=
  (mk m.(consensus_start_time) m.(first_pre_prepare_time) m.(pre_prepare_recvd_time) m.(first_prepare_rcvd_time) m.(prepare_quorum_time)
     (now 0) m.(commit_quorum_time),
   [metric_duration CONSENSUS_PREPARE_TO_COMMIT_LATENCY_ID (elapsed 1 m.(prepare_quorum_time))]).
Definition commit_quorum_recvd (m : t) : t * list Measurement :=
  (mk m.(consensus_start_time) m.(first_pre_prepare_time) m.(pre_prepare_recvd_time) m.(first_prepare_rcvd_time) m.(prepare_quorum_time)
     m.(first_commit_rcvd_time) (now 0),
   [metric_duration CONSENSUS_COMMIT_LATENCY_ID (elapsed 1 m.(prepare_quorum_time))]).
End clock.
End ConsensusMetrics.

(** ** An instance and its time stamps *)

Module Metered.
Import Metrics.
Section metered.
Context {A : Atlas} {WF : WireFormat} {Sy : Type} {SH : SyncHandle Sy}.

Record t := mk {
  instance : ConsensusDecision.t;
  consensus_metrics : ConsensusMetrics.t;
}.

Abbreviation phase x := (ConsensusDecision.phase (instance x)).

(** [poll] notes the start of the instance. *)
Definition poll (now : nat -> N) (x : t) : DecisionPollStatus * t :=
  let '(st, d) := ConsensusDecision.poll x.(instance) in
  (st, mk d (match phase x with
             | Initialize => ConsensusMetrics.consensus_started now x.(consensus_metrics)
             | _ => x.(consensus_metrics)
             end)).

(** [received], the number of the message in its phase, if it got past the checks at the head of the handler. *)
Definition received (x : t) (out : Res Error DecisionStatus) : option nat :=
  match out with
  | Ok (Deciding _) | Ok (Transitioned _ _) | Ok (Decided _) | Err _ =>
      match phase x with PrePreparing k | Preparing k | Committing k => Some (k + 1) | _ => None end
  | _ => None
  end.

(** The calls when the first message of a phase is accepted, and when the phase is complete; their clocks are read apart. *)
Definition on_first (now : nat -> N) (ph : DecisionPhase) : ConsensusMetrics.t -> ConsensusMetrics.t * list Measurement :=
  match ph with
  | PrePreparing _ => ConsensusMetrics.first_pre_prepare_recvd now
  | Preparing _ => ConsensusMetrics.first_prepare_recvd now
  | Committing _ => ConsensusMetrics.first_commit_recvd now
  | _ => fun m => (m, [])
  end.
Definition on_complete (now : nat -> N) (batch_size : nat) (ph : DecisionPhase)
    : ConsensusMetrics.t -> ConsensusMetrics.t * list Measurement :=
  match ph with
  | PrePreparing _ => ConsensusMetrics.all_pre_prepares_recvd now batch_size
  | Preparing _ => ConsensusMetrics.prepare_quorum_recvd now
  | Committing _ => ConsensusMetrics.commit_quorum_recvd now
  | _ => fun m => (m, [])
  end.

Definition is_complete (out : Res Error DecisionStatus) : bool :=
  match out with Ok (Transitioned _ _) | Ok (Decided _) => true | _ => false end.

Definition process_message (now later : nat -> N) (rng : nat -> N) (node : NodeId) (sy : Sy) (m : Shareable) (x : t) : t * list Measurement :=
  let r := ConsensusDecision.process_message rng node sy m x.(instance) in
  let '(mt, l) := match received x r.(r_out) with
                  | Some 1 => on_first now (phase x) x.(consensus_metrics)
                  | _ => (x.(consensus_metrics), [])
                  end in
  let '(mt, l') := if is_complete r.(r_out)
                   then on_complete later (WorkingDecisionLog.current_batch_size r.(r_st).(ConsensusDecision.working_log)) (phase x) mt
                   else (mt, []) in
  (mk r.(r_st) mt, l ++ l').
(** ** Every measurement is registered *)

Definition registered (m : Measurement) : Prop :=
  exists r, r ∈ Metrics.metrics /\ r.(mr_id) = measured_id m /\ r.(mr_kind) = measured_kind m.
Definition registeredb (m : Measurement) : bool :=
  existsb (fun r => bool_decide (r.(mr_id) = measured_id m) &&
                    match r.(mr_kind), measured_kind m with Duration, Duration | Counter, Counter | Count, Count => true | _, _ => false end) Metrics.metrics.

Lemma registeredb_sound m : registeredb m = true -> registered m.
Proof.
  unfold registeredb. rewrite existsb_exists. intros (r & Hr & H%andb_true_iff). destruct H as [Hi Hk]. apply bool_decide_eq_true in Hi.
  exists r. split; [by apply list_elem_of_In|]. split; [done|]. by destruct (mr_kind r), (measured_kind m).
Qed.

Lemma phase_calls_registered now size ph mt :
  Forall registered (on_first now ph mt).2 /\ Forall registered (on_complete now size ph mt).2.
Proof.
  destruct ph; cbn [on_first on_complete]; split; unfold ConsensusMetrics.first_pre_prepare_recvd, ConsensusMetrics.all_pre_prepares_recvd,
    ConsensusMetrics.first_prepare_recvd, ConsensusMetrics.prepare_quorum_recvd, ConsensusMetrics.first_commit_recvd, ConsensusMetrics.commit_quorum_recvd;
    cbn [snd]; repeat (apply Forall_cons; split); try apply Forall_nil; try done; by apply registeredb_sound.
Qed.

(** Metrics are well typed.  Whatever an instance reports while it handles a message is registered under the id it is
    reported with, and with the kind it is reported as (a duration or a count); ids and names of all metrics of the two crates are distinct. *)
Theorem measurements_registered now later rng node (sy : Sy) m x :
  Forall registered (process_message now later rng node sy m x).2 /\
  NoDup (mr_id <$> (Metrics.metrics ++ StMetrics.metrics)) /\ NoDup (mr_name <$> (Metrics.metrics ++ StMetrics.metrics)).
Proof.
  split; [|split; [apply (bool_decide_eq_true (NoDup _)); vm_compute; reflexivity..]].
  unfold process_message. set (r := ConsensusDecision.process_message _ _ _ _ _).
  assert (forall mt, Forall registered (match received x r.(r_out) with Some 1 => on_first now (phase x) mt | _ => (mt, []) end).2) as H1.
  { intros mt. destruct (received x _) as [[|[|n]]|]; try done. apply (phase_calls_registered now 0). }
  specialize (H1 x.(consensus_metrics)). destruct (match received x _ with Some 1 => _ | _ => _ end) as [mt l].
  destruct (is_complete r.(r_out)).
  - destruct (phase_calls_registered later (WorkingDecisionLog.current_batch_size r.(r_st).(ConsensusDecision.working_log)) (phase x) mt) as [_ H2].
    destruct (on_complete _ _ _ _) as [mt' l']. by apply Forall_app_2.
  - cbn. by rewrite app_nil_r.
Qed.

(** ** Every phase is measured *)

(** Each call reads the clock twice, once for the time stamp and once for the duration; [delay] bounds the time in between. *)
Section delay.
Context (delay : N).
Definition steady (now : nat -> N) : Prop := (now 0%nat <= now 1%nat <= now 0%nat + delay)%N.

(** What happens to an instance, and all it reports. *)
Inductive run (v : ViewInfo.t) (node : NodeId) (s : SeqNo) : t -> list Measurement -> Prop :=
  | run_start now q : run v node s (mk (ConsensusDecision.init_with_msg_log node s v q) (ConsensusMetrics.new now)) []
  | run_poll now x l : run v node s x l -> run v node s (poll now x).2 l
  | run_skip x l : run v node s x l -> phase x = Initialize ->
      run v node s (mk (ConsensusDecision.skip_init_phase x.(instance)) x.(consensus_metrics)) l
  | run_message now later rng (sy : Sy) m c x l : run v node s x l -> steady now -> steady later -> sy_view sy = v -> consensus m.(message) = Ok c ->
      let r := process_message now later rng x.(instance).(ConsensusDecision.node_id) sy m x in run v node s r.1 (l ++ r.2)
  | run_queue m c x l : run v node s x l -> consensus m.(message) = Ok c ->
      run v node s (mk (ConsensusDecision.queue (W := Effect) m x.(instance)).(r_st) x.(consensus_metrics)) l
  | run_tick j x l : run v node s x l ->
      run v node s (mk (ConsensusDecision.set_accessory (accessory_tick j x.(instance).(ConsensusDecision.accessory)) x.(instance)) x.(consensus_metrics)) l.

(** What a measurement is expected to be: the time between two stamps, but for [delay], or a number. *)
Inductive Expected :=
  | Lasts (id : nat) (from until : N)
  | Counts (id count : nat).
Definition meets (e : Expected) (m : Measurement) : Prop :=
  match e, m with
  | Lasts id from until, metric_duration id' d => id' = id /\ (until - from <= d <= until - from + delay)%N
  | Counts id n, metric_store_count id' n' => id' = id /\ n' = n
  | _, _ => False
  end.

Lemma steady_meets now id from : steady now -> meets (Lasts id from (now 0)) (metric_duration id (ConsensusMetrics.elapsed now 1 from)).
Proof. unfold steady, meets, ConsensusMetrics.elapsed. intros ?. split; [done|lia]. Qed.

(** What has been reported by a phase, apart from the latency of the proposal, with the time stamps and a batch of [size] requests. *)
Definition after_proposals (mt : ConsensusMetrics.t) (size : nat) : list Expected :=
  [Lasts CONSENSUS_PRE_PREPARE_LATENCY_ID mt.(ConsensusMetrics.first_pre_prepare_time) mt.(ConsensusMetrics.pre_prepare_recvd_time);
   Counts BATCH_SIZE_ID size].
Definition first_prepare (mt : ConsensusMetrics.t) : Expected :=
  Lasts CONSENSUS_PRE_PREPARE_TO_PREPARE_LATENCY_ID mt.(ConsensusMetrics.pre_prepare_recvd_time) mt.(ConsensusMetrics.first_prepare_rcvd_time).
Definition after_prepares (mt : ConsensusMetrics.t) (size : nat) : list Expected :=
  after_proposals mt size ++ [first_prepare mt;
    Lasts CONSENSUS_PREPARE_LATENCY_ID mt.(ConsensusMetrics.first_prepare_rcvd_time) mt.(ConsensusMetrics.prepare_quorum_time)].
Definition first_commit (mt : ConsensusMetrics.t) : Expected :=
  Lasts CONSENSUS_PREPARE_TO_COMMIT_LATENCY_ID mt.(ConsensusMetrics.prepare_quorum_time) mt.(ConsensusMetrics.first_commit_rcvd_time).
(** The latency of the COMMIT phase is taken from the quorum of PREPAREs, not from the first COMMIT. *)
Definition after_commits (mt : ConsensusMetrics.t) (size : nat) : list Expected :=
  after_prepares mt size ++ [first_commit mt;
    Lasts CONSENSUS_COMMIT_LATENCY_ID mt.(ConsensusMetrics.prepare_quorum_time) mt.(ConsensusMetrics.commit_quorum_time)].
Definition reported_by (ph : DecisionPhase) (mt : ConsensusMetrics.t) (size : nat) : list Expected :=
  match ph with
  | Initialize | PrePreparing _ => []
  | Preparing k => after_proposals mt size ++ (if decide (k = 0) then [] else [first_prepare mt])
  | Committing k => after_prepares mt size ++ (if decide (k = 0) then [] else [first_commit mt])
  | PhaseDecided => after_commits mt size
  end.
Definition proposal_seen (ph : DecisionPhase) : Prop := match ph with Initialize | PrePreparing 0 => False | _ => True end.

Definition others (l : list Measurement) : list Measurement := filter (fun m => measured_id m <> PROPOSE_LATENCY_ID) l.
Definition proposal_latencies (l : list Measurement) : list Measurement := filter (fun m => measured_id m = PROPOSE_LATENCY_ID) l.

(** The last of the latencies of the proposal is that of the proposal accepted first. *)
Definition proposal_measured (mt : ConsensusMetrics.t) (l : list Measurement) : Prop :=
  exists m, last (proposal_latencies l) = Some m /\
    meets (Lasts PROPOSE_LATENCY_ID mt.(ConsensusMetrics.consensus_start_time) mt.(ConsensusMetrics.first_pre_prepare_time)) m.

Record reports (ph : DecisionPhase) (mt : ConsensusMetrics.t) (size : nat) (l : list Measurement) : Prop := {
  rp_others : Forall2 meets (reported_by ph mt size) (others l);
  rp_proposal : proposal_seen ph -> proposal_measured mt l;
}.

Lemma latencies_apart l : Forall (fun m => measured_id m <> PROPOSE_LATENCY_ID) l -> others l = l /\ proposal_latencies l = [].
Proof.
  unfold others, proposal_latencies. induction 1 as [|m l Hm _ [IH1 IH2]]; [done|].
  by rewrite filter_cons_True, filter_cons_False, IH1, IH2.
Qed.

(** The latency of a proposal, refused or not, while no other was accepted. *)
Lemma reports_first now mt l size ph' :
  steady now -> reports (PrePreparing 0) mt size l -> match ph' with PrePreparing _ => True | _ => False end ->
  let r := ConsensusMetrics.first_pre_prepare_recvd now mt in reports ph' r.1 size (l ++ r.2).
Proof.
  intros Hst [Ho _] Hph'. destruct ph' as [|k| | |]; try done. split.
  - cbn -[others] in *. unfold others in *. by rewrite filter_app, app_nil_r.
  - intros _. exists (metric_duration PROPOSE_LATENCY_ID (ConsensusMetrics.elapsed now 1 mt.(ConsensusMetrics.consensus_start_time))).
    split; [|by apply steady_meets]. unfold proposal_latencies. rewrite filter_app. exact (last_snoc _ _).
Qed.

(** Other measurements of one call. *)
Lemma reports_add ph mt ph' mt' size l e l' :
  reports ph mt size l -> proposal_seen ph -> reported_by ph' mt' size = reported_by ph mt size ++ e ->
  Forall2 meets e l' -> Forall (fun m => measured_id m <> PROPOSE_LATENCY_ID) l' ->
  mt'.(ConsensusMetrics.consensus_start_time) = mt.(ConsensusMetrics.consensus_start_time) ->
  mt'.(ConsensusMetrics.first_pre_prepare_time) = mt.(ConsensusMetrics.first_pre_prepare_time) -> reports ph' mt' size (l ++ l').
Proof.
  intros [Ho Hp] Hs He Hm [Hn1 Hn2]%latencies_apart H1 H2. split.
  - rewrite He. unfold others in *. rewrite filter_app, Hn1. by apply Forall2_app.
  - intros _. destruct (Hp Hs) as (m & Hl & Hv). exists m. rewrite H1, H2. split; [|done].
    unfold proposal_latencies in *. by rewrite filter_app, Hn2, app_nil_r.
Qed.

Context {SL : SyncHandleLaws Sy} {L : AtlasLaws}.

(** The first vote of a phase is not a duplicate. *)
Lemma first_not_refused v d m c :
  ConsensusDecision.inv v d -> ConsensusDecision.refusable d m c ->
  match d.(ConsensusDecision.phase) with Preparing k | Committing k => k <> 0 | _ => True end.
Proof.
  intros Hi Hr. pose proof (ConsensusDecision.d_phase _ _ Hi) as Hp. pose proof (WorkingDecisionLog.inv_votes _ (ConsensusDecision.d_log _ _ Hi)) as Hv.
  unfold ConsensusDecision.refusable in Hr. destruct (ConsensusDecision.phase d) as [|k|k|k|]; try done; cbn in Hp.
  - destruct Hr as [_ Hr]. destruct Hp as (_ & Hp & _). rewrite (WorkingDecisionLog.vi_prepare_set _ Hv) in Hr. intros ->.
    apply nil_length_inv in Hp. by rewrite Hp in Hr.
  - destruct Hp as (_ & _ & Hp & _). rewrite (WorkingDecisionLog.vi_commit_set _ Hv) in Hr. intros ->.
    apply nil_length_inv in Hp. by rewrite Hp in Hr.
Qed.

Abbreviation batch_size x := (WorkingDecisionLog.current_batch_size (ConsensusDecision.working_log (instance x))).
Abbreviation reports_of x l := (reports (phase x) (consensus_metrics x) (batch_size x) l).

(** As long as the proposals are not complete nothing is said of the size of the batch. *)
Lemma reports_proposing k mt size size' l : reports (PrePreparing k) mt size l -> reports (PrePreparing k) mt size' l.
Proof. intros [Ho Hp]. by split. Qed.
Lemma reports_accepted k k' mt size l : k <> 0 -> reports (PrePreparing k) mt size l -> reports (PrePreparing k') mt size l.
Proof. intros Hk [Ho Hp]. split; [exact Ho|]. intros _. apply Hp. by destruct k. Qed.

(** The proposals are complete. *)
Lemma reports_complete now k mt size l :
  steady now -> k <> 0 -> reports (PrePreparing k) mt size l ->
  let r := ConsensusMetrics.all_pre_prepares_recvd now size mt in reports (Preparing 0) r.1 size (l ++ r.2).
Proof.
  intros Hst Hk Hr. eapply reports_add; [exact Hr|by destruct k|reflexivity| |by repeat constructor|done|done].
  cbn. constructor; [by apply steady_meets|]. by constructor.
Qed.

(** The calls of the other two phases. *)
Lemma reports_vote now (first : bool) k mt size l :
  steady now -> first = bool_decide (k = 0) ->
  let prepare := if first then ConsensusMetrics.first_prepare_recvd now mt else (mt, []) in
  let commit := if first then ConsensusMetrics.first_commit_recvd now mt else (mt, []) in
  (reports (Preparing k) mt size l -> reports (Preparing (S k)) prepare.1 size (l ++ prepare.2)) /\
  (reports (Committing k) mt size l -> reports (Committing (S k)) commit.1 size (l ++ commit.2)).
Proof.
  intros Hst ->. cbn zeta. split; intros Hr; destruct (bool_decide_reflect (k = 0)) as [->|Hk]; cbn [fst snd].
  - eapply reports_add; [exact Hr|done|reflexivity| |by repeat constructor|done|done]. constructor; [by apply steady_meets|done].
  - rewrite app_nil_r. destruct Hr as [Ho Hp]. split; [|exact Hp]. cbn in *. by rewrite decide_False in Ho.
  - eapply reports_add; [exact Hr|done|reflexivity| |by repeat constructor|done|done]. constructor; [by apply steady_meets|done].
  - rewrite app_nil_r. destruct Hr as [Ho Hp]. split; [|exact Hp]. cbn in *. by rewrite decide_False in Ho.
Qed.
Lemma reports_quorum now k mt size l :
  steady now -> k <> 0 ->
  let prepares := ConsensusMetrics.prepare_quorum_recvd now mt in
  let commits := ConsensusMetrics.commit_quorum_recvd now mt in
  (reports (Preparing k) mt size l -> reports (Committing 0) prepares.1 size (l ++ prepares.2)) /\
  (reports (Committing k) mt size l -> reports PhaseDecided commits.1 size (l ++ commits.2)).
Proof.
  intros Hst Hk. cbn zeta. split; intros Hr;
    (eapply reports_add; [exact Hr|done|cbn; rewrite (decide_False (P := k = 0)) by done; reflexivity| |by repeat constructor|done|done]; constructor; [by apply steady_meets|done]).
Qed.

Lemma message_reports now later rng (sy : Sy) m c x l :
  steady now -> steady later -> ConsensusDecision.inv (sy_view sy) x.(instance) -> consensus m.(message) = Ok c -> reports_of x l ->
  let r := process_message now later rng x.(instance).(ConsensusDecision.node_id) sy m x in reports_of r.1 (l ++ r.2).
Proof.
  intros Hnow Hlater Hi Hc Hr. unfold process_message.
  pose proof (ConsensusDecision.process_message_processed rng x.(instance).(ConsensusDecision.node_id) sy m c x.(instance) Hi Hc) as Hpr.
  destruct (ConsensusDecision.process_message rng _ sy m x.(instance)) as [out d' eff]. cbn [r_out r_st].
  inversion Hpr as [st Hst _|f _|e bm ? He _ Href|i rqs bm ? k l' st a' eff' ph' q' Hph Hk Hv Hsq Hl Hnew _ Hl' Hcase
    |k dg l' st a' eff' ph' q' Hph Hk Hv Hsq Hd Hnew Hl' Hcase|k dg l' st ph' Hph Hk Hv Hsq Hd Hnew Hl' Hcase]; subst.
  - destruct Hst as [-> | ->]; cbn; by rewrite app_nil_r.
  - cbn. by rewrite app_nil_r.
  - pose proof (first_not_refused _ _ _ _ Hi Href) as Hfirst. unfold ConsensusDecision.refusable in Href. unfold received. cbn [is_complete].
    destruct (ConsensusDecision.phase (instance x)) as [|k|k|k|] eqn:Hph; try done; destruct k as [|k]; try done; rewrite ?Nat.add_1_r;
      cbn; rewrite Hph, ?app_nil_r; try done. exact (reports_first now _ _ _ (PrePreparing 0) Hnow Hr I).
  - unfold received. rewrite Hph in *. set (size := WorkingDecisionLog.current_batch_size (WorkingDecisionLog.after_pre_prepare i m rqs (rq_info <$> rqs)
      (ConsensusDecision.working_log (ConsensusDecision.with_meta bm (instance x))))).
    apply (reports_proposing k _ _ size) in Hr.
    assert (reports (PrePreparing (S k)) (if decide (k = 0) then ConsensusMetrics.first_pre_prepare_recvd now x.(consensus_metrics) else (x.(consensus_metrics), [])).1
      size (l ++ (if decide (k = 0) then ConsensusMetrics.first_pre_prepare_recvd now x.(consensus_metrics) else (x.(consensus_metrics), [])).2)) as H1.
    { destruct (decide (k = 0)) as [->|Hk0]; [by apply (reports_first now)|]. rewrite app_nil_r. by apply (reports_accepted k). }
    destruct Hcase as [(Hne & -> & _ & _ & -> & _)|(Heq & [md ->] & _ & -> & _)]; cbn [is_complete].
    + destruct k as [|k]; rewrite ?Nat.add_1_r; exact H1.
    + pose proof (reports_complete later (S k) _ size _ Hlater ltac:(lia) H1) as H2. cbn zeta in H2. rewrite <- app_assoc in H2.
      destruct k as [|k]; rewrite ?Nat.add_1_r; exact H2.
  - unfold received. rewrite Hph in *.
    destruct (reports_vote now _ k x.(consensus_metrics) (batch_size x) l Hnow eq_refl) as [H1 _]. specialize (H1 Hr).
    destruct Hcase as [(Hne & -> & _ & _ & -> & _)|(Heq & -> & _ & -> & _)]; cbn [is_complete].
    + destruct k as [|k]; rewrite ?Nat.add_1_r; exact H1.
    + pose proof (proj1 (reports_quorum later (S k) _ (batch_size x) _ Hlater ltac:(lia)) H1) as H2. cbn zeta in H2. rewrite <- app_assoc in H2.
      destruct k as [|k]; rewrite ?Nat.add_1_r; exact H2.
  - unfold received. rewrite Hph in *.
    destruct (reports_vote now _ k x.(consensus_metrics) (batch_size x) l Hnow eq_refl) as [_ H1]. specialize (H1 Hr).
    destruct Hcase as [(Hne & -> & ->)|(Heq & -> & ->)]; cbn [is_complete].
    + destruct k as [|k]; rewrite ?Nat.add_1_r; exact H1.
    + pose proof (proj2 (reports_quorum later (S k) _ (batch_size x) _ Hlater ltac:(lia)) H1) as H2. cbn zeta in H2. rewrite <- app_assoc in H2.
      destruct k as [|k]; rewrite ?Nat.add_1_r; exact H2.
Qed.

Lemma poll_phase d :
  (ConsensusDecision.poll d).2.(ConsensusDecision.phase) =
  match d.(ConsensusDecision.phase) with Initialize => PrePreparing 0 | ph => ph end.
Proof.
  unfold ConsensusDecision.poll. destruct d as [n s ph [g pp p cc] lg a]. cbn.
  destruct ph, g; cbn; try done; [destruct pp|destruct p|destruct cc]; done.
Qed.

Lemma poll_log d : (ConsensusDecision.poll d).2.(ConsensusDecision.working_log) = d.(ConsensusDecision.working_log).
Proof.
  unfold ConsensusDecision.poll. destruct d as [n s ph [g pp p cc] lg a]. cbn.
  destruct ph, g; cbn; try done; [destruct pp|destruct p|destruct cc]; done.
Qed.

Lemma run_reports v node s x l :
  ViewInfo.wf v -> run v node s x l -> ConsensusDecision.inv v x.(instance) /\ reports_of x l.
Proof.
  intros Hwf. induction 1 as [now q|now x l _ [Hi Hr]|x l _ [Hi Hr] Hph|now later rng sy m c x l _ [Hi Hr] Hn Hl <- Hc r|m c x l _ [Hi Hr] Hc|j x l _ [Hi Hr]].
  - split; [by apply ConsensusDecision.init_inv|]. split; [constructor|done].
  - pose proof (ConsensusDecision.poll_preserves v x.(instance) Hwf Hi) as Hi'. pose proof (poll_phase x.(instance)) as Hp.
    pose proof (poll_log x.(instance)) as Hg.
    unfold poll. destruct (ConsensusDecision.poll x.(instance)) as [st d]. cbn in *. split; [done|]. rewrite Hp, Hg.
    destruct Hr as [Ho Hs]. destruct (ConsensusDecision.phase (instance x)); by split.
  - split; [exact (ConsensusDecision.step_inv (Sy := Sy) v _ _ _ Hwf Hi (ConsensusDecision.step_skip _ _ Hph))|].
    cbn. destruct Hr as [Ho Hs]. rewrite Hph in *. by split.
  - split; [|by eapply message_reports]. subst r. unfold process_message. cbn zeta.
    pose proof (ConsensusDecision.step_inv _ _ _ _ Hwf Hi (ConsensusDecision.step_message _ _ rng sy m c eq_refl Hc)) as Hi'.
    destruct (match received x _ with Some 1 => _ | _ => _ end) as [mt l1]. destruct (if is_complete _ then _ else _) as [mt' l2]. exact Hi'.
  - split; [exact (ConsensusDecision.step_inv (Sy := Sy) v _ _ _ Hwf Hi (ConsensusDecision.step_queue _ _ m c Hc))|].
    cbn. by destruct (ConsensusDecision.queue_run m c x.(instance) Hc) as [q ->].
  - split; [exact (ConsensusDecision.step_inv (Sy := Sy) v _ _ _ Hwf Hi (ConsensusDecision.step_tick _ _ j))|done].
Qed.

(** A decided instance hands out as many requests as its log has counted. *)
Lemma decided_size v x :
  ConsensusDecision.inv v x.(instance) -> phase x = PhaseDecided ->
  exists b, ConsensusDecision.finalize x.(instance) = Ok b /\ batch_size x = length b.(cb_client_requests).
Proof.
  intros Hi Hph. pose proof (ConsensusDecision.d_log _ _ Hi) as Hl. pose proof (ConsensusDecision.d_phase _ _ Hi) as Hp. rewrite Hph in Hp.
  destruct (WorkingDecisionLog.finish_ok _ Hl) as (dg & ord & pps & reqs & _ & _ & _ & Hreqs & Hfin); [apply Hp|].
  unfold ConsensusDecision.finalize. rewrite Hph, Hfin. eexists. split; [done|]. cbn.
  pose proof (WorkingDecisionLog.inv_slots _ Hl) as Hs. rewrite (WorkingDecisionLog.si_size _ Hs), (WorkingDecisionLog.si_client_rqs _ Hs), length_fmap, Hreqs.
  f_equal. f_equal. clear. induction reqs as [|r reqs IH]; cbn; [done|]. by rewrite IH.
Qed.

(** C39. The measurements of a decision, by value.  The list of all that a decided instance has reported, whatever messages it was given on
    the way, is, apart from the latency of the proposal: the time from the first proposal to the last, the number of requests of
    the batch it finalizes, the time from there to the first PREPARE, from the first PREPARE to the quorum, from there to the first COMMIT, and from the quorum of
    PREPAREs to that of COMMITs; each exactly once, in this order, and each duration the difference of the two time stamps of the
    instance up to the [delay] between the two readings of the clock in one call.  The latency of the proposal is the exception: it is
    reported at least once and may be reported several times (a proposal refused for its requests before the first is accepted is
    measured too); the last report is the time from the start of the instance to the proposal accepted first. *)
Theorem decided_measured v node s x l :
  ViewInfo.wf v -> run v node s x l -> phase x = PhaseDecided ->
  exists b, ConsensusDecision.finalize x.(instance) = Ok b /\
    Forall2 meets (after_commits x.(consensus_metrics) (length b.(cb_client_requests))) (others l) /\
    proposal_measured x.(consensus_metrics) l.
Proof.
  intros Hwf Hrun Hph. destruct (run_reports v node s x l Hwf Hrun) as [Hi [Ho Hs]]. rewrite Hph in Ho, Hs.
  destruct (decided_size v x Hi Hph) as (b & Hb & Hsize). exists b. rewrite <- Hsize. split_and!; [done|exact Ho|by apply Hs].
Qed.
End delay.
End metered.
End Metered.
