(* ===== verification/Progress.v ===== *)
(** * Progress of a consensus instance

    The replica thread polls an instance and handles the queued messages it is
    given back, until it has to wait for the network ([drain]).  This file shows
    that the loop ends, and that no message that counts is lost on the way: a
    quiescent instance that was given the proposals and a quorum of votes, in any
    order, is decided. *)
From S2P Require Import Prelude Atlas Errors View Messages Decisions Deciding Network.
From S2P Require Import SyncAccessory Accessory Decision.

Module Progress.
Section progress.
Context {A : Atlas} {WF : WireFormat} {Sy : Type} {SH : SyncHandle Sy} {SL : SyncHandleLaws Sy}.
Context (v : ViewInfo.t).

Abbreviation decision := ConsensusDecision.t.
Abbreviation queue_of := ConsensusDecision.message_queue.

(** Poll once and handle the message given back. *)
Definition poll_once (rng : nat -> N) (sy : Sy) (d : decision) : decision :=
  match ConsensusDecision.poll d with
  | (NextMessage m, d') =>
      (ConsensusDecision.process_message rng d.(ConsensusDecision.node_id) sy m d').(r_st)
  | (_, d') => d'
  end.

(** Nothing to do but wait: no message to handle and no proposal to make. *)
Definition quiescent (d : decision) : Prop :=
  (ConsensusDecision.poll d).1 = Recv \/ (ConsensusDecision.poll d).1 = PollDecided.

Definition pending (q : MessageQueue.t) : nat :=
  length q.(MessageQueue.pre_prepares) + length q.(MessageQueue.prepares) + length q.(MessageQueue.commits).

Fixpoint drain (fuel : nat) (rng : nat -> N) (sy : Sy) (d : decision) : decision :=
  match fuel with
  | 0 => d
  | S fuel =>
      match ConsensusDecision.poll d with
      | (Recv, d') | (PollDecided, d') => d'
      | _ => drain fuel rng sy (poll_once rng sy d)
      end
  end.

(** ** Histories *)

(** The instance [d] was given the messages [h]. *)
Inductive history (d0 : decision) : list Shareable -> decision -> Prop :=
  | hist_init : history d0 [] d0
  | hist_poll h d rng (sy : Sy) : sy_view sy = v ->
      history d0 h d -> history d0 h (poll_once rng sy d)
  | hist_deliver h d rng (sy : Sy) m c : sy_view sy = v -> consensus m.(message) = Ok c ->
      history d0 h d ->
      history d0 (h ++ [m])
        (ConsensusDecision.process_message rng d.(ConsensusDecision.node_id) sy m d).(r_st)
  | hist_tick h d j : history d0 h d ->
      history d0 h (ConsensusDecision.set_accessory
        (accessory_tick j d.(ConsensusDecision.accessory)) d).

Definition has_kind (P : ConsensusMessageKind -> bool) (m : Shareable) : bool :=
  match DecProof.kind_of m with Ok k => P k | _ => false end.
Definition is_pp := has_kind (fun k => match k with PrePrepare _ => true | _ => false end).
Definition is_p := has_kind (fun k => match k with Prepare _ => true | _ => false end).
Definition is_c := has_kind (fun k => match k with Commit _ => true | _ => false end).

(** A proposal of leader [x] this instance has to accept. *)
Definition valid_proposal (s : SeqNo) (me x : NodeId) (m : Shareable) : Prop :=
  hdr_from m.(header) = x /\ x ∈ v.(ViewInfo.leader_set) /\
  exists nonce rqs,
    m.(message) = Consensus (mkConsensusMessage s v.(ViewInfo.seq) nonce (PrePrepare rqs)) /\
    (x = me \/ exists slice, v.(ViewInfo.leader_hash_space_division) !! x = Some slice /\
       forallb (fun r => is_request_in_hash_space (rq_digest (rq_info r)) slice) rqs = true).

Definition received_pp (d : decision) : gset NodeId :=
  d.(ConsensusDecision.working_log).(WorkingDecisionLog.duplicate_detection)
    .(DuplicateReplicaEvaluator.received_pre_prepare_messages).
Definition received_p (d : decision) : gset NodeId :=
  d.(ConsensusDecision.working_log).(WorkingDecisionLog.duplicate_detection)
    .(DuplicateReplicaEvaluator.received_prepare_messages).
Definition received_c (d : decision) : gset NodeId :=
  d.(ConsensusDecision.working_log).(WorkingDecisionLog.duplicate_detection)
    .(DuplicateReplicaEvaluator.received_commit_messages).

(** The queue of the current phase is empty once the flag is down. *)
Definition flag_ok (d : decision) : Prop :=
  MessageQueue.get_queue (queue_of d) = false ->
  match d.(ConsensusDecision.phase) with
  | Initialize | PrePreparing _ => MessageQueue.pre_prepares (queue_of d) = []
  | Preparing _ => MessageQueue.prepares (queue_of d) = []
  | Committing _ => MessageQueue.commits (queue_of d) = []
  | PhaseDecided => True
  end.

(** A message of the history that still matters is queued or counted, or among
    those of [E], the messages in flight between the queue and the handler. *)
Definition queued (E : Shareable -> Prop) (m : Shareable) (l : list Shareable) : Prop := m ∈ l \/ E m.

Definition kept_in (E : Shareable -> Prop) (d : decision) (m : Shareable) : Prop :=
  let s := d.(ConsensusDecision.seq) in
  let me := d.(ConsensusDecision.node_id) in
  let vs := v.(ViewInfo.seq) in
  match d.(ConsensusDecision.phase) with
  | Initialize =>
      (is_pp m = true -> queued E m (MessageQueue.pre_prepares (queue_of d))) /\
      (is_p m = true -> queued E m (MessageQueue.prepares (queue_of d))) /\
      (is_c m = true -> queued E m (MessageQueue.commits (queue_of d)))
  | PrePreparing _ =>
      (forall x, valid_proposal s me x m -> queued E m (MessageQueue.pre_prepares (queue_of d)) \/ x ∈ received_pp d) /\
      (is_p m = true -> queued E m (MessageQueue.prepares (queue_of d))) /\
      (is_c m = true -> queued E m (MessageQueue.commits (queue_of d)))
  | Preparing _ =>
      (forall dg, ConsensusDecision.digest_of d = Some dg ->
         ReplicaAccessory.prepares_for s vs dg m.(message) ->
         queued E m (MessageQueue.prepares (queue_of d)) \/ hdr_from m.(header) ∈ received_p d) /\
      (is_c m = true -> queued E m (MessageQueue.commits (queue_of d)))
  | Committing _ =>
      forall dg, ConsensusDecision.digest_of d = Some dg ->
         ReplicaAccessory.commits_to s vs dg m.(message) ->
         queued E m (MessageQueue.commits (queue_of d)) \/ hdr_from m.(header) ∈ received_c d
  | PhaseDecided => True
  end.

Definition kept : decision -> Shareable -> Prop := kept_in (fun _ => False).

(** ** Lemmas *)

Lemma kinds m c :
  consensus m.(message) = Ok c ->
  is_pp m = (match c.(cm_kind) with PrePrepare _ => true | _ => false end) /\
  is_p m = (match c.(cm_kind) with Prepare _ => true | _ => false end) /\
  is_c m = (match c.(cm_kind) with Commit _ => true | _ => false end).
Proof. intros Hc. unfold is_pp, is_p, is_c, has_kind, DecProof.kind_of. by rewrite Hc. Qed.

Lemma prepares_for_is_p s vs dg m : ReplicaAccessory.prepares_for s vs dg m.(message) -> is_p m = true.
Proof. intros [nonce Hm]. unfold is_p, has_kind, DecProof.kind_of. by rewrite Hm. Qed.
Lemma commits_to_is_c s vs dg m : ReplicaAccessory.commits_to s vs dg m.(message) -> is_c m = true.
Proof. intros [nonce Hm]. unfold is_c, has_kind, DecProof.kind_of. by rewrite Hm. Qed.

(** What a valid vote or proposal is made of. *)
Lemma prepares_for_content s vs dg m c :
  consensus m.(message) = Ok c -> ReplicaAccessory.prepares_for s vs dg m.(message) ->
  c.(cm_seq) = s /\ c.(cm_view) = vs /\ c.(cm_kind) = Prepare dg.
Proof. intros Hc [nonce Hm]. rewrite Hm in Hc. by injection Hc as <-. Qed.
Lemma commits_to_content s vs dg m c :
  consensus m.(message) = Ok c -> ReplicaAccessory.commits_to s vs dg m.(message) ->
  c.(cm_seq) = s /\ c.(cm_view) = vs /\ c.(cm_kind) = Commit dg.
Proof. intros Hc [nonce Hm]. rewrite Hm in Hc. by injection Hc as <-. Qed.

Lemma valid_in_slice d x m c rqs :
  ConsensusDecision.inv v d -> consensus m.(message) = Ok c -> c.(cm_kind) = PrePrepare rqs ->
  valid_proposal d.(ConsensusDecision.seq) d.(ConsensusDecision.node_id) x m ->
  c.(cm_view) = v.(ViewInfo.seq) /\ c.(cm_seq) = d.(ConsensusDecision.seq) /\
  hdr_from m.(header) = x /\ x ∈ v.(ViewInfo.leader_set) /\
  WorkingDecisionLog.in_slice m (rq_info <$> rqs) d.(ConsensusDecision.working_log) = true.
Proof.
  intros Hinv Hc Hk (Hx & Hl & nonce & rqs' & Hm & Hsl). rewrite Hm in Hc. injection Hc as <-.
  cbn in Hk |- *. injection Hk as ->. split_and!; try done.
  unfold WorkingDecisionLog.in_slice, WorkingDecisionLog.from_of.
  rewrite (ConsensusDecision.d_node _ _ Hinv), (ConsensusDecision.d_slices _ _ Hinv), Hx.
  destruct Hsl as [->|(slice & -> & Hall)]; [by rewrite bool_decide_true|].
  apply orb_true_iff. right. rewrite <- Hall. clear. induction rqs as [|r rqs IH]; [done|]. cbn. by rewrite IH.
Qed.

(** The log a proposal leaves behind. *)
Lemma after_received i m rqs l :
  WorkingDecisionLog.duplicate_detection (WorkingDecisionLog.after_pre_prepare i m rqs (rq_info <$> rqs) l) =
  WorkingDecisionLog.duplicate_detection (WorkingDecisionLog.store_pre_prepare i m rqs (rq_info <$> rqs) l).
Proof. by destruct (WorkingDecisionLog.after_eq i m rqs (rq_info <$> rqs) l) as [o ->]. Qed.

Lemma kept_queue E d q' x :
  (forall y, y ∈ MessageQueue.pre_prepares (queue_of d) -> y ∈ MessageQueue.pre_prepares q') ->
  (forall y, y ∈ MessageQueue.prepares (queue_of d) -> y ∈ MessageQueue.prepares q') ->
  (forall y, y ∈ MessageQueue.commits (queue_of d) -> y ∈ MessageQueue.commits q') ->
  kept_in E d x -> kept_in E (ConsensusDecision.set_message_queue q' d) x.
Proof.
  intros Hpp Hp Hcm.
  assert (forall l l' : list Shareable, (forall y, y ∈ l -> y ∈ l') -> queued E x l -> queued E x l') as Hq.
  { intros l l' Hl [?|?]; [left; by apply Hl|by right]. }
  unfold kept_in. cbn. destruct (ConsensusDecision.phase d); [| | | |done].
  - intros (H1 & H2 & H3). split_and!; by eauto.
  - intros (H1 & H2 & H3). split_and!; [|by eauto..].
    intros y Hy. destruct (H1 y Hy) as [?|?]; [left; by eauto|by right].
  - intros (H1 & H2). split; [|by eauto].
    intros dg Hdg Hm. destruct (H1 dg Hdg Hm) as [?|?]; [left; by eauto|by right].
  - intros H1 dg Hdg Hm. destruct (H1 dg Hdg Hm) as [?|?]; [left; by eauto|by right].
Qed.

(** Handling a message loses nothing of the earlier history ... *)
Lemma processed_kept E rng node m c d r x :
  ConsensusDecision.processed rng node v m c d r -> kept_in E d x -> kept_in E r.(r_st) x.
Proof.
  intros Hpr. destruct Hpr as
    [| f Hf|e bm eff _ _|i rqs bm eff k l' st a' eff' ph' q' Hph Hk Hv Hs Hi Hnew _ -> Hcase
    |k dg l' st a' eff' ph' q' Hph Hk Hv Hs Hd Hnew -> Hcase|k dg l' st ph' Hph Hk Hv Hs Hd Hnew -> Hcase];
    cbn [r_st]; [done| |unfold kept_in..].
  - unfold ConsensusDecision.queueable in Hf.
    destruct (cm_kind c); destruct Hf as [-> _]; apply kept_queue; intros y Hy; cbn;
      try (apply elem_of_app; left); done.
  - done.
  - rewrite Hph. intros (Hpp & Hp & Hcm). destruct Hcase as [(_ & _ & _ & _ & -> & ->)|(_ & _ & _ & -> & ->)]; cbn.
    + split_and!; [|done..]. intros y Hy. destruct (Hpp y Hy) as [?|Hr]; [by left|right].
      unfold received_pp. cbn. rewrite after_received. cbn. unfold received_pp in Hr. set_solver.
    + split; [|done]. intros dg _ Hfor%prepares_for_is_p. left. by apply Hp.
  - rewrite Hph. intros (Hp & Hcm). destruct Hcase as [(_ & _ & _ & _ & -> & ->)|(_ & _ & _ & -> & ->)]; cbn.
    + split; [|done]. intros dg' Hdg' Hfor. destruct (Hp dg' Hdg' Hfor) as [?|Hr]; [by left|right].
      unfold received_p in *. cbn. set_solver.
    + intros dg' _ Hfor%commits_to_is_c. left. by apply Hcm.
  - rewrite Hph. intros Hcm. destruct Hcase as [(_ & _ & ->)|(_ & _ & ->)]; cbn; [|done].
    intros dg' Hdg' Hfor. destruct (Hcm dg' Hdg' Hfor) as [?|Hr]; [by left|right].
    unfold received_c in *. cbn. set_solver.
Qed.

(** ... and keeps the message itself, if it still matters. *)
Lemma processed_kept_self rng node m c d r :
  ConsensusDecision.inv v d -> consensus m.(message) = Ok c ->
  ConsensusDecision.processed rng node v m c d r -> kept r.(r_st) m.
Proof.
  intros Hinv Hc Hpr. destruct (kinds m c Hc) as (Kpp & Kp & Kc).
  pose proof (fun rqs x => valid_in_slice d x m c rqs Hinv Hc) as Hval.
  pose proof (fun s vs dg => prepares_for_content s vs dg m c Hc) as Hpf.
  pose proof (fun s vs dg => commits_to_content s vs dg m c Hc) as Hcf.
  destruct Hpr as
    [st _ Hig| f Hf|e bm eff _ _ Href|i rqs bm eff k l' st a' eff' ph' q' Hph Hk Hv Hs Hi Hnew _ -> Hcase
    |k dg l' st a' eff' ph' q' Hph Hk Hv Hs Hd Hnew -> Hcase|k dg l' st ph' Hph Hk Hv Hs Hd Hnew -> Hcase];
    cbn [r_st]; unfold kept, kept_in; rewrite ?Kpp, ?Kp, ?Kc.
  - unfold ConsensusDecision.ignorable in Hig. destruct (ConsensusDecision.phase d) eqn:Hph; [done|..|done].
    + destruct Hig as [[rqs Hk] Hig]. rewrite Hk. split; [|done].
      intros x Hx. destruct (Hval rqs x Hk Hx) as (? & ? & Hfrom & ? & _). subst x. tauto.
    + destruct Hig as [[rqs Hk]|(dg & Hk & Hig)]; rewrite Hk; (split; [|done]); intros dg' Hdg' (? & ? & Hk')%Hpf.
      * congruence.
      * rewrite Hk in Hk'. injection Hk' as ->. unfold ConsensusDecision.digest_of in *. tauto.
    + intros dg' Hdg' (? & ? & Hk')%Hcf. destruct Hig as [Hne|(dg & Hk & Hig)]; [by destruct (Hne dg')|].
      rewrite Hk in Hk'. injection Hk' as ->. unfold ConsensusDecision.digest_of in *. tauto.
  - unfold ConsensusDecision.queueable in Hf. cbn.
    assert (forall l : list Shareable, queued (fun _ => False) m (l ++ [m])) as Hin
      by (intros l; left; apply elem_of_app; right; by left).
    destruct (cm_kind c) eqn:Hk; destruct Hf as [-> Hph]; cbn.
    + rewrite Hph. split_and!; done.
    + destruct Hph as [->|[k ->]]; split_and!; try done.
      intros x (_ & _ & nonce & rqs & Hm & _). rewrite Hm in Hc. injection Hc as <-. by cbn in Hk.
    + destruct Hph as [->|[[k ->]|[k ->]]]; split_and!; try done.
      * intros x (_ & _ & nonce & rqs & Hm & _). rewrite Hm in Hc. injection Hc as <-. by cbn in Hk.
      * intros dg _ (? & ? & ?)%Hpf. congruence.
  - unfold ConsensusDecision.refusable in Href. cbn. destruct (ConsensusDecision.phase d) eqn:Hph; [done|..|done].
    + destruct Href as (rqs & Hk & Href). rewrite Hk. split; [|done].
      intros x Hx. right. destruct (Hval rqs x Hk Hx) as (_ & _ & <- & _ & Hsl).
      destruct Href as [?|Hf]; [done|congruence].
    + destruct Href as [[dg Hk] Hr]. rewrite Hk. split; [|done]. intros. by right.
    + intros. by right.
  - rewrite Hk. destruct Hcase as [(_ & _ & _ & _ & -> & ->)|(_ & _ & _ & -> & ->)]; cbn; (split; [|done]).
    + intros x (Hx & _). right. unfold received_pp. cbn. rewrite after_received. cbn.
      unfold WorkingDecisionLog.from_of. set_solver.
    + intros dg _ (_ & _ & Hk')%Hpf. congruence.
  - rewrite Hk. destruct Hcase as [(_ & _ & _ & _ & -> & ->)|(_ & _ & _ & -> & ->)]; cbn.
    + split; [|done]. intros. right. unfold received_p. cbn. unfold WorkingDecisionLog.from_of. set_solver.
    + intros dg' _ (_ & _ & Hk')%Hcf. congruence.
  - destruct Hcase as [(_ & _ & ->)|(_ & _ & ->)]; cbn; [|done].
    intros. right. unfold received_c. cbn. unfold WorkingDecisionLog.from_of. set_solver.
Qed.

(** *** The queue *)

(** Each queue holds messages of its own kind. *)
Definition queue_kinds (q : MessageQueue.t) : Prop :=
  Forall (fun m => is_pp m = true) q.(MessageQueue.pre_prepares) /\
  Forall (fun m => is_p m = true) q.(MessageQueue.prepares) /\
  Forall (fun m => is_c m = true) q.(MessageQueue.commits).

Lemma kind_consensus P m : has_kind P m = true -> exists c, consensus m.(message) = Ok c /\ P c.(cm_kind) = true.
Proof.
  unfold has_kind, DecProof.kind_of. destruct (consensus (message m)) as [c| |]; cbn; try done. eauto.
Qed.

(** The message polled, and the state without it. *)
Lemma poll_spec d :
  queue_kinds (queue_of d) ->
  let d' := (ConsensusDecision.poll d).2 in
  queue_kinds (queue_of d') /\ d'.(ConsensusDecision.node_id) = d.(ConsensusDecision.node_id) /\
  match (ConsensusDecision.poll d).1 with
  | NextMessage m =>
      d'.(ConsensusDecision.phase) = d.(ConsensusDecision.phase) /\
      S (pending (queue_of d')) = pending (queue_of d) /\
      match d.(ConsensusDecision.phase) with
      | PrePreparing _ => is_pp m = true
      | Preparing _ => is_p m = true
      | Committing _ => is_c m = true
      | _ => False
      end
  | TryPropose => d.(ConsensusDecision.phase) = Initialize /\
      (exists k, d'.(ConsensusDecision.phase) = PrePreparing k) /\ pending (queue_of d') = pending (queue_of d)
  | Recv => d.(ConsensusDecision.phase) <> Initialize /\ (ConsensusDecision.poll d').1 = Recv
  | PollDecided => d.(ConsensusDecision.phase) = PhaseDecided /\ d' = d
  end.
Proof.
  intros Hq. destruct d as [n s ph [g pp p c] l a].
  destruct Hq as (Hpp & Hp & Hc). destruct ph as [|k|k|k|], g; cbn in *;
    [..|destruct pp| |destruct p| |destruct c| | |]; cbn; unfold queue_kinds, pending; cbn;
    rewrite ?Forall_cons in *; split_and!; try tauto; try done; try lia; eauto.
Qed.

Lemma is_pp_valid s me x m : valid_proposal s me x m -> is_pp m = true.
Proof. intros (_ & _ & nonce & rqs & Hm & _). unfold is_pp, has_kind, DecProof.kind_of. by rewrite Hm. Qed.

Definition in_flight (st : DecisionPollStatus) (x : Shareable) : Prop := st = NextMessage x.

Lemma queued_pop x m (l : list Shareable) :
  queued (fun _ => False) x (m :: l) -> queued (in_flight (NextMessage m)) x l.
Proof. intros [[->|?]%elem_of_cons|[]]; [by right|by left]. Qed.

Lemma queued_weaken (E E' : Shareable -> Prop) x l :
  (E x -> E' x) -> queued E x l -> queued E' x l.
Proof. intros HE [?|?]; [by left|right; by apply HE]. Qed.

Lemma kept_weaken (E E' : Shareable -> Prop) d x : (E x -> E' x) -> kept_in E d x -> kept_in E' d x.
Proof.
  intros HE. pose proof (fun l => queued_weaken E E' x l HE) as Hq. unfold kept_in.
  destruct (ConsensusDecision.phase d); [| | | |done].
  - intros (H1 & H2 & H3). split_and!; by eauto.
  - intros (H1 & H2 & H3). split_and!; [|by eauto..].
    intros y Hy. destruct (H1 y Hy) as [?|?]; [left; by eauto|by right].
  - intros (H1 & H2). split; [|by eauto].
    intros dg Hdg Hm. destruct (H1 dg Hdg Hm) as [?|?]; [left; by eauto|by right].
  - intros H1 dg Hdg Hm. destruct (H1 dg Hdg Hm) as [?|?]; [left; by eauto|by right].
Qed.

(** A message in flight that is kept again was not lost. *)
Lemma kept_landed m d x : kept d m -> kept_in (fun y => m = y) d x -> kept d x.
Proof.
  intros Hm Hx.
  assert (forall l, queued (fun y => m = y) x l -> m = x \/ queued (fun _ => False) x l) as Hq
    by (intros l [?|?]; [right; by left|by left]).
  unfold kept, kept_in in *. destruct (ConsensusDecision.phase d); [| | | |done].
  - destruct Hx as (H1 & H2 & H3). split_and!; intros Hi; [destruct (Hq _ (H1 Hi)) as [<-|?]|
      destruct (Hq _ (H2 Hi)) as [<-|?]|destruct (Hq _ (H3 Hi)) as [<-|?]]; try done; by apply Hm.
  - destruct Hx as (H1 & H2 & H3). split_and!.
    + intros y Hy. destruct (H1 y Hy) as [[<-|?]%Hq|?]; [by apply Hm|by left|by right].
    + intros Hi. destruct (Hq _ (H2 Hi)) as [<-|?]; [by apply Hm|done].
    + intros Hi. destruct (Hq _ (H3 Hi)) as [<-|?]; [by apply Hm|done].
  - destruct Hx as (H1 & H2). split.
    + intros dg Hdg Hf. destruct (H1 dg Hdg Hf) as [[<-|?]%Hq|?]; [by apply (proj1 Hm dg)|by left|by right].
    + intros Hi. destruct (Hq _ (H2 Hi)) as [<-|?]; [by apply Hm|done].
  - intros dg Hdg Hf. destruct (Hx dg Hdg Hf) as [[<-|?]%Hq|?]; [by apply (Hm dg)|by left|by right].
Qed.

Lemma poll_kept d x :
  kept d x -> kept_in (in_flight (ConsensusDecision.poll d).1) (ConsensusDecision.poll d).2 x.
Proof.
  destruct d as [n s ph [g pp p c] l a]. unfold ConsensusDecision.poll, kept. cbn -[kept_in].
  destruct ph as [|k|k|k|], g; cbn -[kept_in]; try (apply kept_weaken; by intros []).
  1,2: intros (Hpp & Hp & Hc); cbn; split_and!;
    [intros y Hy%is_pp_valid; left; eapply queued_weaken; [|by apply Hpp]; done|
     intros Hi; eapply queued_weaken; [|by apply Hp]; done|intros Hi; eapply queued_weaken; [|by apply Hc]; done].
  - destruct pp as [|m pp]; [intros Hx; apply (kept_weaken (fun _ => False)); [done|exact Hx]|].
    intros (Hpp & Hp & Hc). split_and!.
    + intros y Hy. destruct (Hpp y Hy) as [?%queued_pop|?]; [by left|by right].
    + intros Hi. eapply queued_weaken; [|by apply Hp]; done.
    + intros Hi. eapply queued_weaken; [|by apply Hc]; done.
  - destruct p as [|m p]; [intros Hx; apply (kept_weaken (fun _ => False)); [done|exact Hx]|].
    intros (Hp & Hc). split.
    + intros dg Hdg Hm. destruct (Hp dg Hdg Hm) as [?%queued_pop|?]; [by left|by right].
    + intros Hi. eapply queued_weaken; [|by apply Hc]; done.
  - destruct c as [|m c]; [intros Hx; apply (kept_weaken (fun _ => False)); [done|exact Hx]|].
    intros Hc dg Hdg Hm. destruct (Hc dg Hdg Hm) as [?%queued_pop|?]; [by left|by right].
Qed.

Lemma poll_flag d : flag_ok d -> flag_ok (ConsensusDecision.poll d).2.
Proof.
  destruct d as [n s ph [g pp p c] l a]. unfold flag_ok, ConsensusDecision.poll. cbn.
  destruct ph as [|k|k|k|], g; cbn; try done; [destruct pp|destruct p|destruct c]; done.
Qed.

Lemma processed_flag rng node m c d r :
  ConsensusDecision.processed rng node v m c d r -> flag_ok d -> flag_ok r.(r_st).
Proof.
  intros Hpr. unfold flag_ok. destruct Hpr as
    [| f Hf|e bm eff _ _|i rqs bm eff k l' st a' eff' ph' q' Hph Hk Hv Hs Hi Hnew _ -> Hcase
    |k dg l' st a' eff' ph' q' Hph Hk Hv Hs Hd Hnew -> Hcase|k dg l' st ph' Hph Hk Hv Hs Hd Hnew -> Hcase];
    cbn [r_st]; try done; try rewrite Hph.
  - unfold ConsensusDecision.queueable in Hf. destruct (cm_kind c); by destruct Hf as [-> _].
  - by destruct Hcase as [(_ & _ & _ & _ & -> & ->)|(_ & _ & _ & -> & ->)].
  - by destruct Hcase as [(_ & _ & _ & _ & -> & ->)|(_ & _ & _ & -> & ->)].
  - by destruct Hcase as [(_ & _ & ->)|(_ & _ & ->)].
Qed.

(** The queue grows by the message handled, if at all, and only outside its phase. *)
Lemma processed_queue rng node m c d r :
  consensus m.(message) = Ok c -> ConsensusDecision.processed rng node v m c d r ->
  queue_kinds (queue_of d) ->
  queue_kinds (queue_of r.(r_st)) /\
  (match d.(ConsensusDecision.phase) with
   | PrePreparing _ => is_pp m = true
   | Preparing _ => is_p m = true
   | Committing _ => is_c m = true
   | _ => False
   end -> pending (queue_of r.(r_st)) = pending (queue_of d)).
Proof.
  intros Hc Hpr Hq. destruct (kinds m c Hc) as (Kpp & Kp & Kc). destruct Hpr as
    [| f Hf|e bm eff _ _|i rqs bm eff k l' st a' eff' ph' q' Hph Hk Hv Hs Hi Hnew _ -> Hcase
    |k dg l' st a' eff' ph' q' Hph Hk Hv Hs Hd Hnew -> Hcase|k dg l' st ph' Hph Hk Hv Hs Hd Hnew -> Hcase];
    cbn [r_st]; try done.
  - destruct Hq as (Hq1 & Hq2 & Hq3). unfold ConsensusDecision.queueable in Hf. rewrite Kpp, Kp, Kc.
    destruct (cm_kind c); destruct Hf as [-> Hph].
    + rewrite Hph. split; [|done]. split_and!; cbn; try done. by apply Forall_app_2, Forall_singleton.
    + split; [|by destruct Hph as [->|[k ->]]].
      split_and!; cbn; try done. by apply Forall_app_2, Forall_singleton.
    + split; [|by destruct Hph as [->|[[k ->]|[k ->]]]].
      split_and!; cbn; try done. by apply Forall_app_2, Forall_singleton.
  - by destruct Hcase as [(_ & _ & _ & _ & -> & ->)|(_ & _ & _ & -> & ->)].
  - by destruct Hcase as [(_ & _ & _ & _ & -> & ->)|(_ & _ & _ & -> & ->)].
Qed.

(** ** The invariant of a history *)

Context {L : AtlasLaws} (Hwf : ViewInfo.wf v).

Record live (h : list Shareable) (d : decision) : Prop := {
  l_inv : ConsensusDecision.inv v d;
  l_kinds : queue_kinds (queue_of d);
  l_flag : flag_ok d;
  l_kept : forall x, x ∈ h -> kept d x;
}.

Lemma deliver_live h d rng (sy : Sy) m c :
  sy_view sy = v -> consensus m.(message) = Ok c ->
  ConsensusDecision.inv v d -> queue_kinds (queue_of d) -> flag_ok d ->
  (forall x, x ∈ h -> kept_in (fun y => m = y) d x) ->
  live (h ++ [m]) (ConsensusDecision.process_message rng d.(ConsensusDecision.node_id) sy m d).(r_st).
Proof.
  intros Hsy Hc Hinv Hk Hf Hkept. rewrite <- Hsy in Hinv.
  pose proof (ConsensusDecision.process_message_processed rng d.(ConsensusDecision.node_id) sy m c d Hinv Hc) as Hpr.
  rewrite Hsy in Hinv, Hpr. split.
  - exact (ConsensusDecision.processed_inv _ _ _ _ _ _ _ Hinv Hc Hpr).
  - by apply (processed_queue _ _ _ _ _ _ Hc Hpr).
  - exact (processed_flag _ _ _ _ _ _ Hpr Hf).
  - pose proof (processed_kept_self _ _ _ _ _ _ Hinv Hc Hpr) as Hself.
    intros x [Hx|Hx]%elem_of_app.
    + eapply kept_landed; [exact Hself|]. exact (processed_kept _ _ _ _ _ _ _ _ Hpr (Hkept x Hx)).
    + by apply list_elem_of_singleton in Hx as ->.
Qed.

Lemma live_weaken h h' d : (forall x, x ∈ h' -> x ∈ h) -> live h d -> live h' d.
Proof. intros Hs []. split; eauto. Qed.

Lemma polled_consensus d m :
  queue_kinds (queue_of d) -> (ConsensusDecision.poll d).1 = NextMessage m ->
  exists c, consensus m.(message) = Ok c.
Proof.
  intros Hk Hp. pose proof (poll_spec d Hk) as (_ & _ & H). rewrite Hp in H. destruct H as (_ & _ & H).
  destruct (ConsensusDecision.phase d); try done; apply kind_consensus in H as (c & ? & _); eauto.
Qed.

Lemma poll_once_live h d rng (sy : Sy) : sy_view sy = v -> live h d -> live h (poll_once rng sy d).
Proof.
  intros Hsy [Hinv Hk Hf Hkept]. pose proof (poll_spec d Hk) as (Hk' & Hn & _).
  pose proof (ConsensusDecision.poll_preserves v d Hwf Hinv) as Hinv'.
  pose proof (poll_flag d Hf) as Hf'. pose proof (fun x Hx => poll_kept d x (Hkept x Hx)) as Hkept'.
  pose proof (polled_consensus d) as Hcons. unfold poll_once.
  destruct (ConsensusDecision.poll d) as [st d'] eqn:Hp. cbn in *.
  destruct st as [| |m|]; try (split; try done; intros x Hx; eapply kept_weaken; [|by apply Hkept']; done).
  destruct (Hcons m Hk eq_refl) as [c Hc]. rewrite <- Hn.
  eapply live_weaken; [|eapply deliver_live; try done].
  - intros x Hx. apply elem_of_app. left. exact Hx.
  - intros x Hx. eapply kept_weaken; [|by apply Hkept']. by intros [= ->].
Qed.

Lemma tick_live h d j :
  live h d -> live h (ConsensusDecision.set_accessory (accessory_tick j d.(ConsensusDecision.accessory)) d).
Proof. intros []. split; try done. by apply ConsensusDecision.tick_preserves. Qed.

Lemma history_live h0 h d0 d : live h0 d0 -> history d0 h d -> live (h0 ++ h) d.
Proof.
  intros H0. induction 1 as [|h d rng sy Hsy _ IH|h d rng sy m c Hsy Hc _ [Hi Hk Hf Hkept]|h d j _ IH].
  - by rewrite app_nil_r.
  - by apply poll_once_live.
  - rewrite app_assoc. eapply deliver_live; try done. intros x Hx. eapply kept_weaken; [|by apply Hkept]. done.
  - by apply tick_live.
Qed.

Definition queued_messages (q : MessageQueue.t) : list Shareable :=
  q.(MessageQueue.pre_prepares) ++ q.(MessageQueue.prepares) ++ q.(MessageQueue.commits).

Lemma init_live node s pps ps cs :
  let q := MessageQueue.from_messages pps ps cs in
  queue_kinds q -> live (queued_messages q) (ConsensusDecision.init_with_msg_log node s v q).
Proof.
  intros q (H1 & H2 & H3). split; cbn; try done.
  - by apply ConsensusDecision.init_inv.
  - unfold flag_ok. cbn. by destruct pps.
  - cbn in H1, H2, H3. rewrite Forall_forall in H1, H2, H3.
    assert (forall x, is_pp x = true -> is_p x = false /\ is_c x = false) as Kpp.
    { intros x. unfold is_pp, is_p, is_c, has_kind. destruct (DecProof.kind_of x) as [[]| |]; done. }
    assert (forall x, is_p x = true -> is_c x = false) as Kp.
    { intros x. unfold is_p, is_c, has_kind. destruct (DecProof.kind_of x) as [[]| |]; done. }
    intros x. unfold queued_messages. cbn. rewrite !elem_of_app.
    intros [Hx|[Hx|Hx]]; split_and!; intros Hk; left; cbn; try done.
    + destruct (Kpp _ (H1 _ Hx)) as [? ?]. congruence.
    + destruct (Kpp _ (H1 _ Hx)) as [? ?]. congruence.
    + destruct (Kpp _ Hk) as [? ?]. specialize (H2 _ Hx). congruence.
    + specialize (Kp _ (H2 _ Hx)). congruence.
    + destruct (Kpp _ Hk) as [? ?]. specialize (H3 _ Hx). congruence.
    + specialize (Kp _ Hk). specialize (H3 _ Hx). congruence.
Qed.

(** *** Termination *)

Definition to_start (d : decision) : nat :=
  match d.(ConsensusDecision.phase) with Initialize => 1 | _ => 0 end.

(** A poll that does not wait consumes a queued message or leaves Initialize. *)
Lemma poll_once_measure h d rng (sy : Sy) :
  sy_view sy = v -> live h d -> ~ quiescent d ->
  pending (queue_of (poll_once rng sy d)) + to_start (poll_once rng sy d) <
  pending (queue_of d) + to_start d.
Proof.
  intros Hsy [Hinv Hk Hf _] Hq. pose proof (poll_spec d Hk) as (Hk' & Hn & Hst).
  pose proof (ConsensusDecision.poll_preserves v d Hwf Hinv) as Hinv'.
  pose proof (polled_consensus d) as Hcons. unfold quiescent in Hq. unfold poll_once.
  destruct (ConsensusDecision.poll d) as [st d'] eqn:Hp. cbn in *. destruct st as [| |m|]; try tauto.
  - destruct Hst as (Hph & [k Hph'] & Hpe). unfold to_start. rewrite Hph, Hph', Hpe. lia.
  - destruct (Hcons m Hk eq_refl) as [c Hc]. destruct Hst as (Hph & Hpe & Hkind). rewrite <- Hn, <- Hsy in *.
    pose proof (ConsensusDecision.process_message_processed rng d'.(ConsensusDecision.node_id) sy m c d' Hinv' Hc) as Hpr.
    rewrite Hsy in Hpr. rewrite <- Hph in Hkind.
    destruct (processed_queue _ _ _ _ _ _ Hc Hpr Hk') as [_ Hpend]. specialize (Hpend Hkind).
    pose proof (ConsensusDecision.processed_phase _ _ _ _ _ _ _ Hpr) as Hni.
    rewrite Hpend. enough (to_start (r_st (ConsensusDecision.process_message rng
      (ConsensusDecision.node_id d') sy m d')) = 0) by lia.
    unfold to_start. destruct (ConsensusDecision.phase (r_st _)) eqn:E; try done.
    by rewrite (Hni eq_refl) in Hkind.
Qed.

Lemma quiescent_dec d : {quiescent d} + {~ quiescent d}.
Proof.
  unfold quiescent. destruct (ConsensusDecision.poll d).1; [right|left|right|left]; try tauto;
    intros [?|?]; done.
Qed.

Lemma poll_quiescent d : queue_kinds (queue_of d) -> quiescent d -> quiescent (ConsensusDecision.poll d).2.
Proof.
  intros Hk. pose proof (poll_spec d Hk) as (_ & _ & Hst). unfold quiescent.
  destruct (ConsensusDecision.poll d) as [st d'] eqn:Hp. cbn in *. intros [->| ->]; [left; apply Hst|].
  destruct Hst as [_ ->]. right. by rewrite Hp.
Qed.

(** The polling loop of an instance ends: with one iteration per queued message, one
    to leave Initialize and one to notice that nothing is left, it reaches a
    quiescent state. *)
Theorem drain_terminates node s pps ps cs h d fuel rng (sy : Sy) :
  let q := MessageQueue.from_messages pps ps cs in
  queue_kinds q -> sy_view sy = v ->
  history (ConsensusDecision.init_with_msg_log node s v q) h d ->
  pending (queue_of d) + to_start d < fuel ->
  quiescent (drain fuel rng sy d) /\
  history (ConsensusDecision.init_with_msg_log node s v q) h (drain fuel rng sy d).
Proof.
  intros q Hq Hsy. revert d. induction fuel as [|fuel IH]; intros d Hh Hf; [lia|].
  pose proof (history_live _ _ _ _ (init_live node s pps ps cs Hq) Hh) as Hl. cbn [drain].
  destruct (quiescent_dec d) as [Hqd|Hnq].
  - pose proof (poll_quiescent d (l_kinds _ _ Hl) Hqd) as Hq'.
    pose proof (hist_poll _ h d rng sy Hsy Hh) as Hh'. unfold poll_once in Hh'. unfold quiescent in Hqd.
    destruct (ConsensusDecision.poll d) as [st d']. cbn in *. by destruct Hqd as [->| ->].
  - pose proof (poll_once_measure _ d rng sy Hsy Hl Hnq) as Hm.
    destruct (IH (poll_once rng sy d)) as [IH1 IH2]; [by apply hist_poll|lia|].
    unfold quiescent in Hnq. destruct (ConsensusDecision.poll d) as [[] d']; cbn in Hnq; tauto.
Qed.

(** *** Nothing that counts is lost *)

(** An instance that waits has emptied the queue of its phase. *)
Lemma waiting_empty d :
  flag_ok d -> quiescent d ->
  match d.(ConsensusDecision.phase) with
  | Initialize => False
  | PrePreparing _ => MessageQueue.pre_prepares (queue_of d) = []
  | Preparing _ => MessageQueue.prepares (queue_of d) = []
  | Committing _ => MessageQueue.commits (queue_of d) = []
  | PhaseDecided => True
  end.
Proof.
  destruct d as [n s ph [g pp p c] l a]. unfold flag_ok, quiescent, ConsensusDecision.poll. cbn.
  destruct ph as [|k|k|k|], g; cbn; try tauto; try (intros _ [?|?]; done);
    [destruct pp|destruct p|destruct c]; cbn; try tauto; intros _ [?|?]; done.
Qed.

Lemma deliver_grows d rng (sy : Sy) m c :
  sy_view sy = v -> ConsensusDecision.inv v d -> consensus m.(message) = Ok c ->
  ConsensusDecision.grows v d
    (ConsensusDecision.process_message rng d.(ConsensusDecision.node_id) sy m d).(r_st).
Proof.
  intros <- Hinv Hc.
  exact (ConsensusDecision.processed_grows _ _ _ _ _ _ _ Hinv
    (ConsensusDecision.process_message_processed rng _ sy m c d Hinv Hc)).
Qed.

Lemma history_grows h0 h d0 d : live h0 d0 -> history d0 h d -> ConsensusDecision.grows v d0 d.
Proof.
  intros H0. induction 1 as [|h d rng sy Hsy Hh IH|h d rng sy m c Hsy Hc Hh IH|h d j Hh IH]; [done|..].
  - pose proof (history_live _ _ _ _ H0 Hh) as [Hinv Hk _ _].
    pose proof (poll_spec d Hk) as (_ & Hn & _).
    pose proof (ConsensusDecision.poll_preserves v d Hwf Hinv) as Hinv'.
    pose proof (ConsensusDecision.poll_grows v d) as Hg. pose proof (polled_consensus d) as Hcons.
    unfold poll_once. destruct (ConsensusDecision.poll d) as [st d']. cbn in *.
    etransitivity; [exact IH|]. destruct st as [| |m|]; try done.
    destruct (Hcons m Hk eq_refl) as [c Hc]. etransitivity; [exact Hg|]. rewrite <- Hn.
    by eapply deliver_grows.
  - pose proof (history_live _ _ _ _ H0 Hh) as [Hinv _ _ _].
    etransitivity; [exact IH|]. by eapply deliver_grows.
  - etransitivity; [exact IH|]. by split.
Qed.

(** A quorum of distinct voters among the messages of the history. *)
Definition quorum_of (P : PBFTMessage -> Prop) (h : list Shareable) : Prop :=
  exists l, (forall m, m ∈ l -> m ∈ h) /\ NoDup (WorkingDecisionLog.senders l) /\
    ViewInfo.quorum v <= length l /\ Forall (fun m => P m.(message)) l.

Lemma quorum_counted P h (stored : list Shareable) :
  quorum_of P h ->
  (forall m, m ∈ h -> P m.(message) -> hdr_from m.(header) ∈ WorkingDecisionLog.senders stored) ->
  ViewInfo.quorum v <= length stored.
Proof.
  intros (l & Hsub & Hnd & Hlen & HP) Hin. rewrite Forall_forall in HP.
  assert (length (WorkingDecisionLog.senders l) <= length (WorkingDecisionLog.senders stored)) as Hle.
  { apply submseteq_length, NoDup_submseteq; [done|].
    intros x (m & -> & Hm)%list_elem_of_fmap. eauto. }
  unfold WorkingDecisionLog.senders in Hle. rewrite !length_fmap in Hle. lia.
Qed.

(** Once every leader is heard from, all proposals are in. *)
Lemma leaders_counted d :
  ConsensusDecision.inv v d -> (forall x, x ∈ v.(ViewInfo.leader_set) -> x ∈ received_pp d) ->
  length (WorkingDecisionLog.leader_set d.(ConsensusDecision.working_log)) <=
  WorkingDecisionLog.current_received_pre_prepares d.(ConsensusDecision.working_log).
Proof.
  intros Hinv Hall. destruct (ConsensusDecision.d_log _ _ Hinv) as [[Hnd _] _ Hslots _].
  rewrite (WorkingDecisionLog.si_count _ Hslots).
  rewrite <- (length_fmap (fun m => hdr_from m.(header))). fold (WorkingDecisionLog.senders
    (omap id (MessageLog.pre_prepare (WorkingDecisionLog.message_log d.(ConsensusDecision.working_log))))).
  apply submseteq_length, NoDup_submseteq; [done|]. intros x Hx.
  rewrite (ConsensusDecision.d_leaders _ _ Hinv) in Hx. specialize (Hall x Hx). unfold received_pp in Hall.
  rewrite (WorkingDecisionLog.si_received _ Hslots) in Hall. by apply elem_of_list_to_set in Hall.
Qed.

(** *** Phase by phase *)

Definition past_proposals (d : decision) : Prop :=
  match d.(ConsensusDecision.phase) with Initialize | PrePreparing _ => False | _ => True end.
Definition past_prepares (d : decision) : Prop :=
  match d.(ConsensusDecision.phase) with Committing _ | PhaseDecided => True | _ => False end.

Lemma past_digest d : ConsensusDecision.inv v d -> past_proposals d -> exists dg, ConsensusDecision.digest_of d = Some dg.
Proof.
  intros Hinv Hpast. unfold past_proposals in Hpast. pose proof (ConsensusDecision.d_phase _ _ Hinv) as Hph.
  destruct (WorkingDecisionLog.finish_ok _ (ConsensusDecision.d_log _ _ Hinv)) as (dg & ? & ? & ? & _ & Hd & _); [|by exists dg].
  destruct (ConsensusDecision.phase d); try done; apply Hph.
Qed.

(** An instance that waits and was given a proposal of every leader is past the proposals, ... *)
Lemma live_proposed h d :
  live h d -> quiescent d ->
  (forall x, x ∈ v.(ViewInfo.leader_set) -> exists m, m ∈ h /\ valid_proposal d.(ConsensusDecision.seq) d.(ConsensusDecision.node_id) x m) ->
  past_proposals d.
Proof.
  intros [Hinv Hk Hf Hkept] Hqd Hpp. pose proof (ConsensusDecision.d_phase _ _ Hinv) as Hph.
  pose proof (waiting_empty d Hf Hqd) as Hempty. unfold kept, kept_in in Hkept. unfold past_proposals.
  destruct (ConsensusDecision.phase d) as [|k|k|k|] eqn:Hphase; try done.
  destruct Hph as (Hrec & Hlt & _). pose proof (leaders_counted d Hinv) as Hle.
  enough (length (WorkingDecisionLog.leader_set d.(ConsensusDecision.working_log)) <= k) by lia.
  rewrite <- Hrec. apply Hle. intros x Hx. destruct (Hpp x Hx) as (m & Hm & Hval).
  destruct (proj1 (Hkept m Hm) x Hval) as [[Hin|[]]|Hr]; [|done].
  rewrite Hempty in Hin. by apply elem_of_nil in Hin.
Qed.

(** ... with a quorum of PREPAREs past them, ... *)
Lemma live_prepared h d dg :
  live h d -> quiescent d -> past_proposals d -> ConsensusDecision.digest_of d = Some dg ->
  quorum_of (ReplicaAccessory.prepares_for d.(ConsensusDecision.seq) v.(ViewInfo.seq) dg) h -> past_prepares d.
Proof.
  intros [Hinv Hk Hf Hkept] Hqd Hpast Hd Hp. pose proof (ConsensusDecision.d_phase _ _ Hinv) as Hph.
  pose proof (waiting_empty d Hf Hqd) as Hempty. unfold kept, kept_in in Hkept. unfold past_proposals, past_prepares in *.
  destruct (ConsensusDecision.d_log _ _ Hinv) as [_ _ _ Hvi].
  destruct (ConsensusDecision.phase d) as [|k|k|k|] eqn:Hphase; try done. destruct Hph as (_ & Hlen & Hlt & _).
  assert (ViewInfo.quorum v <= length (ConsensusDecision.stored_prepares d)); [|unfold ConsensusDecision.stored_prepares in *; lia].
  eapply quorum_counted; [exact Hp|]. intros m Hm HP. destruct (proj1 (Hkept m Hm) dg Hd HP) as [[Hin|[]]|Hr].
  - rewrite Hempty in Hin. by apply elem_of_nil in Hin.
  - unfold received_p in Hr. rewrite (WorkingDecisionLog.vi_prepare_set _ Hvi) in Hr. by apply elem_of_list_to_set in Hr.
Qed.

(** ... and with a quorum of COMMITs decided. *)
Lemma live_decided h d dg :
  live h d -> quiescent d -> past_prepares d -> ConsensusDecision.digest_of d = Some dg ->
  quorum_of (ReplicaAccessory.commits_to d.(ConsensusDecision.seq) v.(ViewInfo.seq) dg) h ->
  d.(ConsensusDecision.phase) = PhaseDecided.
Proof.
  intros [Hinv Hk Hf Hkept] Hqd Hpast Hd Hc. pose proof (ConsensusDecision.d_phase _ _ Hinv) as Hph.
  pose proof (waiting_empty d Hf Hqd) as Hempty. unfold kept, kept_in in Hkept. unfold past_prepares in *.
  destruct (ConsensusDecision.d_log _ _ Hinv) as [_ _ _ Hvi].
  destruct (ConsensusDecision.phase d) as [|k|k|k|] eqn:Hphase; try done. destruct Hph as (_ & _ & Hlen & Hlt).
  assert (ViewInfo.quorum v <= length (ConsensusDecision.stored_commits d)); [|unfold ConsensusDecision.stored_commits in *; lia].
  eapply quorum_counted; [exact Hc|]. intros m Hm HP. destruct (Hkept m Hm dg Hd HP) as [[Hin|[]]|Hr].
  - rewrite Hempty in Hin. by apply elem_of_nil in Hin.
  - unfold received_c in Hr. rewrite (WorkingDecisionLog.vi_commit_set _ Hvi) in Hr. by apply elem_of_list_to_set in Hr.
Qed.

(** C8. Progress.  An instance that was given, in any order and interleaved with polls in any
    way, a proposal of every leader and a quorum of PREPAREs and of COMMITs for the
    digest of the proposals it received, has decided by the time it has nothing
    left to do. *)
Theorem quorum_decides node s pps ps cs h d :
  let q := MessageQueue.from_messages pps ps cs in
  let all := queued_messages q ++ h in
  queue_kinds q -> history (ConsensusDecision.init_with_msg_log node s v q) h d -> quiescent d ->
  (forall x, x ∈ v.(ViewInfo.leader_set) -> exists m, m ∈ all /\ valid_proposal s node x m) ->
  (forall dg, ConsensusDecision.digest_of d = Some dg ->
     quorum_of (ReplicaAccessory.prepares_for s v.(ViewInfo.seq) dg) all /\
     quorum_of (ReplicaAccessory.commits_to s v.(ViewInfo.seq) dg) all) ->
  d.(ConsensusDecision.phase) = PhaseDecided.
Proof.
  intros q all Hq Hh Hqd Hpp Hvotes. pose proof (init_live node s pps ps cs Hq) as Hinit.
  pose proof (history_live _ _ _ _ Hinit Hh) as Hl. destruct (history_grows _ _ _ _ Hinit Hh) as [Hn Hs _ _]. cbn in Hn, Hs.
  assert (past_proposals d) as Hpast by (eapply live_proposed; [exact Hl|done|by rewrite Hn, Hs]).
  destruct (past_digest d (l_inv _ _ Hl) Hpast) as [dg Hd]. destruct (Hvotes dg Hd) as [Hp Hc]. rewrite <- Hs in Hp, Hc.
  eapply live_decided; [exact Hl|done| |done|exact Hc]. by eapply live_prepared.
Qed.
End progress.
End Progress.
