(* ===== verification/Consensus.v ===== *)
(** * The consensus multiplexer ([bft/consensus/mod.rs])

    [Consensus] runs a window of [watermark] consecutive instances.  Messages for
    instances past the window wait in the [TboQueue], messages of later views in
    the view queue; [Signals] remembers which instances are worth polling; the
    [ProposerConsensusGuard], shared with the proposer, holds the sequence numbers
    free to be proposed. *)
From S2P Require Import Prelude Atlas Errors View Messages Decisions Deciding Log Network.
From S2P Require Import SyncAccessory Accessory Decision.

(** ** [BinaryHeap<Reverse<SeqNo>>]: a multiset that gives back a least element *)

Section heap.
Context {A : Atlas}.

Fixpoint heap_min (h : list SeqNo) : option SeqNo :=
  match h with
  | [] => None
  | s :: h =>
      match heap_min h with
      | None => Some s
      | Some m => Some (if sn_gtb s m then m else s)
      end
  end.

Fixpoint remove_one (s : SeqNo) (h : list SeqNo) : list SeqNo :=
  match h with
  | [] => []
  | x :: h => if decide (x = s) then h else x :: remove_one s h
  end.

Definition heap_push (s : SeqNo) (h : list SeqNo) : list SeqNo := s :: h.
Definition heap_pop (h : list SeqNo) : option (SeqNo * list SeqNo) :=
  m ← heap_min h; Some (m, remove_one m h).
End heap.

(** ** [Signals] *)

Module Signals.
Section signals.
Context {A : Atlas}.

Record t := mk {
  signaled_nos : gset SeqNo;
  signaled_seq_no : list SeqNo;
}.

Definition new : t := mk ∅ [].

Definition pop_signalled (g : t) : option (SeqNo * t) :=
  '(seq_no, h) ← heap_pop g.(signaled_seq_no);
  Some (seq_no, mk (g.(signaled_nos) ∖ {[seq_no]}) h).

Definition push_signalled (seq : SeqNo) (g : t) : t :=
  if decide (seq ∈ g.(signaled_nos)) then g
  else mk ({[seq]} ∪ g.(signaled_nos)) (heap_push seq g.(signaled_seq_no)).

Definition clear (g : t) : t := mk ∅ [].
End signals.
End Signals.

(** ** [TboQueue] *)

Module TboQueue.
Section tbo.
Context {A : Atlas}.

Record t := mk {
  curr_seq : SeqNo;
  watermark : nat;
  get_queue : bool;
  pre_prepares : list (list Shareable);
  prepares : list (list Shareable);
  commits : list (list Shareable);
}.

Definition new (curr_seq : SeqNo) (watermark : nat) : t := mk curr_seq watermark false [] [] [].

Definition sequence_number (q : t) : SeqNo := q.(curr_seq).

Definition base_seq (q : t) : SeqNo := sn_add q.(curr_seq) (N.of_nat q.(watermark)).

Definition signal (q : t) : t :=
  mk q.(curr_seq) q.(watermark) true q.(pre_prepares) q.(prepares) q.(commits).

Definition advance_queue (q : t) : MessageQueue.t * t :=
  let '(pp, pps) := tbo_advance_message_queue_return q.(pre_prepares) in
  let '(p, ps) := tbo_advance_message_queue_return q.(prepares) in
  let '(c, cs) := tbo_advance_message_queue_return q.(commits) in
  (MessageQueue.from_messages (default [] pp) (default [] p) (default [] c),
   mk (sn_next q.(curr_seq)) q.(watermark) q.(get_queue) pps ps cs).

Definition next_instance_queue (q : t) : t :=
  mk (sn_next q.(curr_seq)) q.(watermark) q.(get_queue)
    (tbo_advance_message_queue q.(pre_prepares)) (tbo_advance_message_queue q.(prepares))
    (tbo_advance_message_queue q.(commits)).

Definition queue_pre_prepare (m : Shareable) (q : t) : t :=
  mk q.(curr_seq) q.(watermark) q.(get_queue)
    (tbo_queue_message (base_seq q) q.(pre_prepares) (msg_sequence_number m.(message), m))
    q.(prepares) q.(commits).
Definition queue_prepare (m : Shareable) (q : t) : t :=
  mk q.(curr_seq) q.(watermark) q.(get_queue) q.(pre_prepares)
    (tbo_queue_message (base_seq q) q.(prepares) (msg_sequence_number m.(message), m)) q.(commits).
Definition queue_commit (m : Shareable) (q : t) : t :=
  mk q.(curr_seq) q.(watermark) q.(get_queue) q.(pre_prepares) q.(prepares)
    (tbo_queue_message (base_seq q) q.(commits) (msg_sequence_number m.(message), m)).

Definition queue {W} (m : Shareable) : M t W Error unit :=
  message ← lift (consensus m.(message));
  match message.(cm_kind) with
  | PrePrepare _ => modify (queue_pre_prepare m)
  | Prepare _ => modify (queue_prepare m)
  | Commit _ => modify (queue_commit m)
  end.

Definition clear (q : t) : t := mk q.(curr_seq) q.(watermark) false [] [] [].

Definition set_curr_seq (s : SeqNo) (q : t) : t :=
  mk s q.(watermark) q.(get_queue) q.(pre_prepares) q.(prepares) q.(commits).
End tbo.
End TboQueue.

(** ** [ProposerConsensusGuard]

    One value shared by the replica and the proposer threads; each method is one
    critical section. *)

Module ProposerConsensusGuard.
Section guard.
Context {A : Atlas}.

Record t := mk {
  can_propose : bool;
  seq_no_queue : list SeqNo * ViewInfo.t;
  has_pending_view_change_reqs : bool;
  last_view_change : option (gmap NodeId (gmap SeqNo SeqNo));
}.

Definition new (view : ViewInfo.t) : t := mk false ([], view) false None.

Definition lock_consensus (g : t) : t :=
  mk false g.(seq_no_queue) g.(has_pending_view_change_reqs) g.(last_view_change).
Definition unlock_consensus (g : t) : t :=
  mk true g.(seq_no_queue) g.(has_pending_view_change_reqs) g.(last_view_change).

Definition set_queue (q : list SeqNo * ViewInfo.t) (g : t) : t :=
  mk g.(can_propose) q g.(has_pending_view_change_reqs) g.(last_view_change).

Definition next_seq_no (g : t) : option (SeqNo * ViewInfo.t) * t :=
  match heap_pop g.(seq_no_queue).1 with
  | Some (first, h) => (Some (first, g.(seq_no_queue).2), set_queue (h, g.(seq_no_queue).2) g)
  | None => (None, g)
  end.

Definition make_seq_available (seq : SeqNo) (g : t) : t :=
  set_queue (heap_push seq g.(seq_no_queue).1, g.(seq_no_queue).2) g.

(** [while let Some(seq) = peek() { if seq.0 < installed_seq { pop() } else { break } }];
    every iteration shortens the heap. *)
Fixpoint drop_below (fuel : nat) (installed_seq : SeqNo) (h : list SeqNo) : list SeqNo :=
  match fuel with
  | 0 => h
  | S fuel =>
      match heap_pop h with
      | Some (seq, h') => if sn_ltb seq installed_seq then drop_below fuel installed_seq h' else h
      | None => h
      end
  end.

Definition install_seq_no (installed_seq : SeqNo) (g : t) : t :=
  set_queue (drop_below (length g.(seq_no_queue).1) installed_seq g.(seq_no_queue).1,
             g.(seq_no_queue).2) g.

Definition install_view (view : ViewInfo.t) (g : t) : t := set_queue ([], view) g.

(** One iteration of the loop of [install_sync_message_requests]. *)
Definition note_request (client_map : gmap NodeId (gmap SeqNo SeqNo)) (req : ClientRqInfo)
    : gmap NodeId (gmap SeqNo SeqNo) :=
  let entry := default ∅ (client_map !! req.(rq_sender)) in
  let session_entry := default req.(rq_seq_no) (entry !! req.(rq_session)) in
  let session_entry := if sn_ltb session_entry req.(rq_seq_no) then req.(rq_seq_no) else session_entry in
  <[req.(rq_sender) := <[req.(rq_session) := session_entry]> entry]> client_map.

Definition install_sync_message_requests (rqs : list ClientRqInfo) (g : t) : t :=
  mk g.(can_propose) g.(seq_no_queue) true (Some (foldl note_request ∅ rqs)).

Definition sync_messages_clear (g : t) : t :=
  mk g.(can_propose) g.(seq_no_queue) false None.

Definition clear (g : t) : t := set_queue ([], g.(seq_no_queue).2) g.
End guard.
End ProposerConsensusGuard.

(** ** [Consensus] *)

Section statuses.
Context {A : Atlas} {D : AtlasDecisions}.

Inductive ConsensusStatus :=
  | CVotedTwice (n : NodeId)
  | CMessageIgnored
  | CMessageQueued
  | CDeciding (ds : list FeDecision)
  | CDecided (ds : list FeDecision).

Inductive ConsensusPollStatus :=
  | CPRecv
  | CPNextMessage (m : Shareable)
  | CPDecided (ds : list FeDecision).
End statuses.

Module Consensus.
Section consensus.
Context {A : Atlas} {D : AtlasDecisions} {WF : WireFormat} {Sy : Type} {SH : SyncHandle Sy}.

Record t := mk {
  node_id : NodeId;
  watermark : nat;
  seq_no : SeqNo;
  signalled : Signals.t;
  curr_view : ViewInfo.t;
  decisions : list ConsensusDecision.t;
  tbo_queue : TboQueue.t;
  view_queue : list (list Shareable);
  consensus_guard : ProposerConsensusGuard.t;
  is_recovering : bool;
}.

Definition set_seq_no x c := mk c.(node_id) c.(watermark) x c.(signalled) c.(curr_view)
  c.(decisions) c.(tbo_queue) c.(view_queue) c.(consensus_guard) c.(is_recovering).
Definition set_signalled x c := mk c.(node_id) c.(watermark) c.(seq_no) x c.(curr_view)
  c.(decisions) c.(tbo_queue) c.(view_queue) c.(consensus_guard) c.(is_recovering).
Definition set_curr_view x c := mk c.(node_id) c.(watermark) c.(seq_no) c.(signalled) x
  c.(decisions) c.(tbo_queue) c.(view_queue) c.(consensus_guard) c.(is_recovering).
Definition set_decisions x c := mk c.(node_id) c.(watermark) c.(seq_no) c.(signalled) c.(curr_view)
  x c.(tbo_queue) c.(view_queue) c.(consensus_guard) c.(is_recovering).
Definition set_tbo_queue x c := mk c.(node_id) c.(watermark) c.(seq_no) c.(signalled) c.(curr_view)
  c.(decisions) x c.(view_queue) c.(consensus_guard) c.(is_recovering).
Definition set_view_queue x c := mk c.(node_id) c.(watermark) c.(seq_no) c.(signalled) c.(curr_view)
  c.(decisions) c.(tbo_queue) x c.(consensus_guard) c.(is_recovering).
Definition set_consensus_guard x c := mk c.(node_id) c.(watermark) c.(seq_no) c.(signalled)
  c.(curr_view) c.(decisions) c.(tbo_queue) c.(view_queue) x c.(is_recovering).
Definition set_is_recovering x c := mk c.(node_id) c.(watermark) c.(seq_no) c.(signalled)
  c.(curr_view) c.(decisions) c.(tbo_queue) c.(view_queue) c.(consensus_guard) x.

Definition on_guard (f : ProposerConsensusGuard.t -> ProposerConsensusGuard.t) (c : t) : t :=
  set_consensus_guard (f c.(consensus_guard)) c.
Definition push_signalled (s : SeqNo) (c : t) : t :=
  set_signalled (Signals.push_signalled s c.(signalled)) c.

Definition sequence_number (c : t) : SeqNo := c.(seq_no).

Definition enqueue_decision (decision : ConsensusDecision.t) (c : t) : t :=
  let c := push_signalled (ConsensusDecision.sequence_number decision) c in
  set_decisions (c.(decisions) ++ [decision]) c.

(** [while decisions.len() < watermark { enqueue(init_decision(.., sequence_no, ..)); sequence_no += 1 }],
    [n] iterations of it. *)
Fixpoint fill (n : nat) (view : ViewInfo.t) (sequence_no : SeqNo) (c : t) : t :=
  match n with
  | 0 => c
  | S n =>
      fill n view (sn_add sequence_no ONE)
        (enqueue_decision (ConsensusDecision.init_decision c.(node_id) sequence_no view) c)
  end.

Definition new_replica (node_id : NodeId) (view : ViewInfo.t) (seq_no : SeqNo) (watermark : nat)
    (guard : ProposerConsensusGuard.t) : t :=
  fill watermark view seq_no
    (mk node_id watermark seq_no Signals.new view [] (TboQueue.new seq_no watermark) [] guard false).

(** [while view_queue.len() <= index { push_back(Vec::new()) }; view_queue[index].push(message)]. *)
Definition enqueue_other_view_message (index : nat) (m : Shareable) (c : t) : t :=
  let index := index - 1 in
  let q := c.(view_queue) ++ replicate (S index - length c.(view_queue)) [] in
  set_view_queue (alter (fun l => l ++ [m]) index q) c.

(** Where a message of sequence number [message_seq] and view [view_seq] belongs. *)
Inductive Route := OtherView (i : nat) | OldMessage | OutOfWindow | Instance (i : nat).

Definition route (view_seq message_seq : SeqNo) (c : t) : Route :=
  match sn_index view_seq (ViewInfo.sequence_number c.(curr_view)) with
  | inr (S i) => OtherView (S i)
  | inl _ => OldMessage
  | inr 0 =>
      match sn_index message_seq c.(seq_no) with
      | inl _ => OldMessage
      | inr i => if decide (length c.(decisions) <= i) then OutOfWindow else Instance i
      end
  end.

(** [self.decisions[i]], to be updated in place by [m]. *)
Definition on_decision {X} (i : nat) (m : M ConsensusDecision.t Effect Error X) : M t Effect Error X :=
  fun c =>
    match c.(decisions) !! i with
    | Some d => let r := m d in mkRun r.(r_out) (set_decisions (<[i := r.(r_st)]> c.(decisions)) c) r.(r_eff)
    | None => mkRun Panic c []
    end.

Definition queue (m : Shareable) : M t Effect Error unit :=
  let message_seq := msg_sequence_number m.(message) in
  message ← lift (consensus m.(message));
  self ← get;
  match route message.(cm_view) message_seq self with
  | OtherView i => modify (enqueue_other_view_message i m)
  | OldMessage => ret tt
  | OutOfWindow => zoom tbo_queue set_tbo_queue (TboQueue.queue m)
  | Instance i =>
      on_decision i (ConsensusDecision.queue m);;
      modify (push_signalled message_seq)
  end.

Definition can_finalize (c : t) : bool :=
  match head c.(decisions) with Some d => ConsensusDecision.is_finalizeable d | None => false end.

(** The loop of [poll]: every iteration consumes a signal; [TryPropose] puts it
    back, once per instance.  Running out of fuel is told apart from every status. *)
Fixpoint poll_loop (fuel : nat) : M t Effect Error (option ConsensusPollStatus) :=
  match fuel with
  | 0 => ret None
  | S fuel =>
      self ← get;
      match Signals.pop_signalled self.(signalled) with
      | None => ret (Some (if can_finalize self then CPDecided [] else CPRecv))
      | Some (signal_no, signals) =>
          modify (set_signalled signals);;
          match sn_index signal_no self.(seq_no) with
          | inl _ => poll_loop fuel
          | inr index =>
              poll_result ← on_decision index (fun d => let '(st, d') := ConsensusDecision.poll d in
                                                        mkRun (Ok st) d' []);
              match poll_result with
              | NextMessage message =>
                  modify (push_signalled signal_no);;
                  ret (Some (CPNextMessage message))
              | TryPropose =>
                  modify (push_signalled signal_no);;
                  modify (fun c => if decide (c.(node_id) ∈ c.(curr_view).(ViewInfo.leader_set))
                                   then on_guard (ProposerConsensusGuard.make_seq_available signal_no) c
                                   else c);;
                  poll_loop fuel
              | _ => poll_loop fuel
              end
          end
      end
  end.

(** One iteration per signal and per instance, and the last one. *)
Definition poll_fuel (c : t) : nat :=
  S (length c.(signalled).(Signals.signaled_seq_no) + length c.(decisions)).

Definition poll : M t Effect Error (option ConsensusPollStatus) := fun c => poll_loop (poll_fuel c) c.

Definition process_message (rng : nat -> N) (sy : Sy) (s_message : Shareable)
    : M t Effect Error ConsensusStatus :=
  message ← lift (consensus s_message.(message));
  self ← get;
  match route message.(cm_view) message.(cm_seq) self with
  | OtherView i => modify (enqueue_other_view_message i s_message);; ret CMessageQueued
  | OldMessage => ret CMessageIgnored
  | OutOfWindow => zoom tbo_queue set_tbo_queue (TboQueue.queue s_message);; ret CMessageQueued
  | Instance i =>
      decision ← unwrap (self.(decisions) !! i);
      let decision_seq := ConsensusDecision.sequence_number decision in
      status ← on_decision i (ConsensusDecision.process_message rng self.(node_id) sy s_message);
      match status with
      | VotedTwice node => ret (CVotedTwice node)
      | Deciding message => ret (CDeciding [dec_from_message decision_seq message])
      | MessageQueued => modify (push_signalled decision_seq);; ret CMessageQueued
      | Transitioned metadata message =>
          modify (push_signalled decision_seq);;
          ret (CDeciding [match metadata with
                          | Some metadata => dec_from_metadata_and_messages decision_seq metadata [] [message]
                          | None => dec_from_message decision_seq message
                          end])
      | Decided message => ret (CDecided [dec_from_message decision_seq message])
      | DecidedIgnored => ret (CDecided [])
      | MessageIgnored => ret CMessageIgnored
      end
  end.

Fixpoint finalizeable_count_of (ds : list ConsensusDecision.t) : nat :=
  match ds with
  | [] => 0
  | d :: ds => if ConsensusDecision.is_finalizeable d then S (finalizeable_count_of ds) else 0
  end.
Definition finalizeable_count (c : t) : nat := finalizeable_count_of c.(decisions).

Definition next_instance (view : ViewInfo.t) : M t Effect Error ConsensusDecision.t :=
  self ← get;
  match self.(decisions) with
  | [] => panic
  | decision :: rest =>
      modify (set_decisions rest);;
      modify (set_seq_no (sn_next self.(seq_no)));;
      let '(queue, tbo) := TboQueue.advance_queue self.(tbo_queue) in
      modify (set_tbo_queue tbo);;
      (if negb (MessageQueue.is_signalled queue) && self.(is_recovering)
       then modify (set_is_recovering false);; emit [CancelAllTimeouts]
       else ret tt);;
      let new_seq_no := match last rest with
                        | Some d => sn_next (ConsensusDecision.sequence_number d)
                        | None => sn_next self.(seq_no)
                        end in
      modify (enqueue_decision
                (ConsensusDecision.init_with_msg_log self.(node_id) new_seq_no view queue));;
      ret decision
  end.

Definition finalize (view : ViewInfo.t) : M t Effect Error (option CompletedBatch) :=
  self ← get;
  match head self.(decisions) with
  | None => panic
  | Some decision =>
      if ConsensusDecision.is_finalizeable decision then
        decision ← next_instance view;
        batch ← lift (ConsensusDecision.finalize decision);
        ret (Some batch)
      else ret None
  end.

Definition clear_all_queues (c : t) : t :=
  on_guard ProposerConsensusGuard.clear
    (set_signalled (Signals.clear c.(signalled))
       (set_tbo_queue (TboQueue.clear c.(tbo_queue)) (set_decisions [] c))).

(** The loops of [install_sequence_number] that take the next instances out of
    the tbo queue: [n] bounds the iterations left, [go] is the extra condition. *)
Fixpoint fill_from_tbo (n : nat) (go : t -> bool) (view : ViewInfo.t) (sequence_no : SeqNo) (c : t)
    : SeqNo * t :=
  match n with
  | 0 => (sequence_no, c)
  | S n =>
      if go c && bool_decide (length c.(decisions) < c.(watermark)) then
        let '(messages, tbo) := TboQueue.advance_queue c.(tbo_queue) in
        let decision := ConsensusDecision.init_with_msg_log c.(node_id) sequence_no view messages in
        fill_from_tbo n go view (sn_add sequence_no ONE) (enqueue_decision decision (set_tbo_queue tbo c))
      else (sequence_no, c)
  end.

(** The arms of [install_sequence_number]: the number is behind the current one, ... *)
Definition install_behind (novel_seq_no : SeqNo) (view : ViewInfo.t) : M t Effect Error unit :=
  modify clear_all_queues;;
  modify (fun c => fill (c.(watermark) - length c.(decisions)) view novel_seq_no c);;
  modify (fun c => set_tbo_queue (TboQueue.set_curr_seq novel_seq_no c.(tbo_queue)) c);;
  modify (set_seq_no novel_seq_no).

(** ... past the window ([limit - watermark] underflows below the watermark), ... *)
Definition install_past_window (limit : nat) (novel_seq_no : SeqNo) (view : ViewInfo.t)
    : M t Effect Error unit :=
  self ← get;
  modify (fun c => on_guard ProposerConsensusGuard.clear
                     (set_signalled (Signals.clear c.(signalled)) (set_decisions [] c)));;
  overflow ← (if decide (limit < self.(watermark)) then panic else ret (limit - self.(watermark)));
  (if decide (length self.(tbo_queue).(TboQueue.pre_prepares) <= overflow) then
     modify (fun c => set_tbo_queue
                        (TboQueue.set_curr_seq novel_seq_no (TboQueue.clear c.(tbo_queue))) c)
   else
     modify (fun c => set_tbo_queue
                        (Nat.iter overflow TboQueue.next_instance_queue c.(tbo_queue)) c));;
  self ← get;
  let '(sequence_no, c) :=
    fill_from_tbo self.(watermark)
      (fun c => sn_ltb (TboQueue.sequence_number c.(tbo_queue)) novel_seq_no)
      view novel_seq_no self in
  put (fill (c.(watermark) - length c.(decisions)) view sequence_no c);;
  modify (set_seq_no novel_seq_no).

(** ... or inside the window. *)
Definition install_in_window (limit : nat) (novel_seq_no : SeqNo) (view : ViewInfo.t)
    : M t Effect Error unit :=
  self ← get;
  modify (set_decisions (drop limit self.(decisions)));;
  back ← unwrap (last (drop limit self.(decisions)));
  modify (fun c => (fill_from_tbo c.(watermark) (fun _ => true) view
                      (sn_next (ConsensusDecision.sequence_number back)) c).2);;
  modify (set_seq_no novel_seq_no).

(** The end of the method, with its assertions. *)
Definition install_checks (novel_seq_no : SeqNo) : M t Effect Error unit :=
  modify (on_guard (ProposerConsensusGuard.install_seq_no novel_seq_no));;
  modify (fun c => set_tbo_queue (TboQueue.signal c.(tbo_queue)) c);;
  self ← get;
  (if decide (TboQueue.sequence_number self.(tbo_queue) = self.(seq_no)) then ret tt else panic);;
  front ← unwrap (head self.(decisions));
  if decide (ConsensusDecision.sequence_number front = self.(seq_no)) then ret tt else panic.

Definition install_sequence_number (novel_seq_no : SeqNo) (view : ViewInfo.t) : M t Effect Error unit :=
  self ← get;
  match sn_index novel_seq_no self.(seq_no) with
  | inl _ => install_behind novel_seq_no view
  | inr 0 => ret tt
  | inr limit =>
      if decide (length self.(decisions) <= limit) then install_past_window limit novel_seq_no view
      else install_in_window limit novel_seq_no view
  end;;
  install_checks novel_seq_no.

Definition forge_propose (nonce : N) (requests : list (StoredMessage RQ)) (view : ViewInfo.t) (c : t)
    : PBFTMessage :=
  Consensus (ConsensusMessage_new nonce (sequence_number c) (ViewInfo.sequence_number view)
               (PrePrepare requests)).

(** [for message in messages { self.queue(message) }]. *)
Fixpoint queue_all (ms : list Shareable) : M t Effect Error unit :=
  match ms with
  | [] => ret tt
  | m :: ms => queue m;; queue_all ms
  end.

Definition install_view (view : ViewInfo.t) : M t Effect Error unit :=
  self ← get;
  match sn_index (ViewInfo.sequence_number view) (ViewInfo.sequence_number self.(curr_view)) with
  | inl _ => ret tt
  | inr 0 => ret tt
  | inr view_index =>
      modify (set_curr_view view);;
      modify (on_guard (ProposerConsensusGuard.install_view view));;
      modify clear_all_queues;;
      modify (fun c => fill (c.(watermark) - length c.(decisions)) view (sequence_number c) c);;
      let rest := drop (view_index - 1) self.(view_queue) in
      modify (set_view_queue (tail rest));;
      match head rest with
      | Some messages => queue_all messages
      | None => ret tt
      end
  end.

Definition finalize_view_change (rng : nat -> N) (h : Header) (message : ConsensusMessage)
    (new_view : ViewInfo.t) (sy : Sy) : M t Effect Error ConsensusStatus :=
  install_view new_view;;
  match message.(cm_kind) with
  | PrePrepare reqs =>
      modify (on_guard (ProposerConsensusGuard.install_sync_message_requests (rq_info <$> reqs)))
  | _ => ret tt
  end;;
  on_decision 0 (modify ConsensusDecision.skip_init_phase);;
  result ← process_message rng sy (mkStored h (Consensus message));
  modify (on_guard ProposerConsensusGuard.unlock_consensus);;
  ret result.

Definition collect_incomplete_proof (f : nat) (c : t) : Result IncompleteProof :=
  match head c.(decisions) with
  | Some decision => ConsensusDecision.deciding f decision
  | None => Panic
  end.

(** [catch_up_to_quorum] also mutates the log it is given. *)
Definition catch_up_to_quorum (view : ViewInfo.t) (proof : DecProof)
    : M (t * Log.t) Effect Error FeDecision :=
  to_execute ← zoom snd (fun l s => (s.1, l)) (Log.install_proof proof);
  zoom fst (fun c s => (c, s.2)) (next_instance view);;
  ret to_execute.

Definition is_catching_up (c : t) : bool := c.(is_recovering).
End consensus.
End Consensus.
