(* ===== verification/ConsensusFacts.v ===== *)
(** * Correctness of the consensus multiplexer

    The window of instances is always full and consecutive, no assertion of
    [install_sequence_number] fails, polling ends, and an instance that has
    something to do is always signalled. *)
From S2P Require Import Prelude Atlas Errors View Messages Decisions Deciding Log Network.
From S2P Require Import SyncAccessory Accessory Decision Progress Consensus.

(** ** The heap and the signals *)

Section heap.
Context {A : Atlas}.

Lemma heap_min_in h m : heap_min h = Some m -> m ∈ h.
Proof.
  revert m. induction h as [|s h IH]; intros m; cbn; [done|].
  destruct (heap_min h) as [m'|]; intros [= <-]; [|left].
  destruct (sn_gtb s m'); [right; by apply IH|left].
Qed.

Lemma remove_one_perm s h : s ∈ h -> h ≡ₚ s :: remove_one s h.
Proof.
  induction h as [|x h IH]; [by intros ?%elem_of_nil|]. cbn. case_decide as E; [by subst|].
  intros [->|Hin]%elem_of_cons; [done|]. rewrite (IH Hin) at 1. apply perm_swap.
Qed.

Lemma heap_pop_spec h :
  match heap_pop h with
  | Some (m, h') => h ≡ₚ m :: h'
  | None => h = []
  end.
Proof.
  unfold heap_pop. destruct (heap_min h) as [m|] eqn:E; cbn.
  - by apply remove_one_perm, heap_min_in.
  - destruct h as [|s h]; [done|]. cbn in E. by destruct (heap_min h).
Qed.

(** The heap and the set say the same, without repetitions. *)
Definition signals_ok (g : Signals.t) : Prop :=
  NoDup g.(Signals.signaled_seq_no) /\ g.(Signals.signaled_nos) = list_to_set g.(Signals.signaled_seq_no).

Definition signalled_at (s : SeqNo) (g : Signals.t) : Prop := s ∈ g.(Signals.signaled_seq_no).

Lemma signals_new : signals_ok Signals.new.
Proof. split; [apply NoDup_nil_2|done]. Qed.

Lemma push_ok s g :
  signals_ok g -> signals_ok (Signals.push_signalled s g) /\
    forall x, signalled_at x (Signals.push_signalled s g) <-> x = s \/ signalled_at x g.
Proof.
  intros [Hnd Hset]. unfold Signals.push_signalled, signalled_at. case_decide as Hin.
  - split; [done|]. intros x. split; [by right|]. intros [->|?]; [|done].
    rewrite Hset in Hin. by apply elem_of_list_to_set in Hin.
  - split; [split; cbn|].
    + apply NoDup_cons. split; [|done]. intros Hs. apply Hin. rewrite Hset. by apply elem_of_list_to_set.
    + by rewrite Hset.
    + intros x. apply elem_of_cons.
Qed.

Lemma push_length s g :
  length (Signals.push_signalled s g).(Signals.signaled_seq_no) <= S (length g.(Signals.signaled_seq_no)).
Proof. unfold Signals.push_signalled. case_decide; cbn; lia. Qed.

Lemma pop_ok g :
  signals_ok g ->
  match Signals.pop_signalled g with
  | None => g.(Signals.signaled_seq_no) = []
  | Some (s, g') => signals_ok g' /\ signalled_at s g /\
      S (length g'.(Signals.signaled_seq_no)) = length g.(Signals.signaled_seq_no) /\
      forall x, signalled_at x g' <-> x <> s /\ signalled_at x g
  end.
Proof.
  intros [Hnd Hset]. unfold Signals.pop_signalled, signalled_at. pose proof (heap_pop_spec g.(Signals.signaled_seq_no)) as Hp.
  destruct (heap_pop _) as [[s h]|]; cbn; [|done].
  rewrite Hp in Hnd. apply NoDup_cons in Hnd as [Hs Hnd]. split_and!.
  - split; [done|]. cbn. rewrite Hset, Hp. cbn. apply set_eq. intros x.
    rewrite elem_of_difference, elem_of_union, elem_of_singleton, elem_of_list_to_set. naive_solver.
  - rewrite Hp. left.
  - by rewrite Hp.
  - intros x. rewrite Hp, elem_of_cons. naive_solver.
Qed.
End heap.

(** ** The queue of messages ahead of the window *)

Section tbo.
Context {A : Atlas} {L : AtlasLaws}.

Definition bucket_kinds (q : TboQueue.t) : Prop :=
  forall i, Progress.queue_kinds (MessageQueue.mk false (bucket i q.(TboQueue.pre_prepares))
    (bucket i q.(TboQueue.prepares)) (bucket i q.(TboQueue.commits))).

Lemma bucket_head {X} (q : list (list X)) : default [] (head q) = bucket 0 q.
Proof. by destruct q. Qed.
Lemma bucket_tail {X} i (q : list (list X)) : bucket i (tail q) = bucket (S i) q.
Proof. by destruct q. Qed.

Lemma advance_queue_spec q :
  TboQueue.advance_queue q =
  (MessageQueue.from_messages (bucket 0 q.(TboQueue.pre_prepares)) (bucket 0 q.(TboQueue.prepares))
     (bucket 0 q.(TboQueue.commits)),
   TboQueue.mk (sn_next q.(TboQueue.curr_seq)) q.(TboQueue.watermark) q.(TboQueue.get_queue)
     (tail q.(TboQueue.pre_prepares)) (tail q.(TboQueue.prepares)) (tail q.(TboQueue.commits))).
Proof. unfold TboQueue.advance_queue. by rewrite !tbo_advance_return_head, !bucket_head. Qed.

Lemma next_instance_queue_spec q :
  TboQueue.next_instance_queue q = (TboQueue.advance_queue q).2.
Proof. rewrite advance_queue_spec. unfold TboQueue.next_instance_queue. by rewrite !tbo_advance_tail. Qed.

Lemma advance_kinds q :
  bucket_kinds q -> Progress.queue_kinds (TboQueue.advance_queue q).1 /\ bucket_kinds (TboQueue.advance_queue q).2.
Proof.
  rewrite advance_queue_spec. intros Hq. split; [exact (Hq 0)|].
  intros i. cbn. rewrite !bucket_tail. apply Hq.
Qed.

Lemma clear_kinds q : bucket_kinds (TboQueue.clear q).
Proof. intros i. by repeat split. Qed.

Lemma base_seq_plus q : q.(TboQueue.watermark) <= sn_window -> TboQueue.base_seq q = sn_plus q.(TboQueue.watermark) q.(TboQueue.curr_seq).
Proof. apply sn_add_plus. Qed.

(** A message is stored in the bucket of its instance, or dropped when it is behind
    the window. *)
Lemma bucket_queued X base (q : list (list X)) s x j :
  bucket j (tbo_queue_message base q (s, x)) =
  bucket j q ++ (match sn_index s base with inr i => if decide (i = j) then [x] else [] | inl _ => [] end).
Proof.
  destruct (sn_index s base) as [e|i] eqn:E.
  - rewrite (tbo_queue_behind _ _ _ _ _ _ E). by rewrite app_nil_r.
  - by rewrite (tbo_queue_ahead _ _ _ _ _ _ E).
Qed.

Lemma tbo_queue_run m c q :
  consensus m.(message) = Ok c ->
  exists q', TboQueue.queue (W := Effect) m q = mkRun (Ok tt) q' [] /\
    q'.(TboQueue.curr_seq) = q.(TboQueue.curr_seq) /\ q'.(TboQueue.watermark) = q.(TboQueue.watermark) /\
    (bucket_kinds q -> bucket_kinds q').
Proof.
  intros Hc. destruct (Progress.kinds m c Hc) as (Kpp & Kp & Kc).
  assert (forall (P : Shareable -> bool) l (i : InvalidSeqNo + nat) j, P m = true -> Forall (fun m => P m = true) (bucket j l) ->
    Forall (fun m => P m = true) (bucket j l ++ match i with
      | inr i => if decide (i = j) then [m] else [] | inl _ => [] end)) as Happ.
  { intros P l i j HP Hl. apply Forall_app. split; [done|]. destruct i as [|i]; [done|].
    case_decide; [by apply Forall_singleton|done]. }
  unfold TboQueue.queue. rewrite Hc. run.
  destruct (cm_kind c); eexists; (split; [reflexivity|]); (split_and!; [done|done|]); intros Hq j;
    destruct (Hq j) as (H1 & H2 & H3); split_and!; cbn in *; try done; rewrite bucket_queued; by apply Happ.
Qed.
End tbo.

Module ConsensusFacts.
Section facts.
Context {A : Atlas} {D : AtlasDecisions} {WF : WireFormat} {Sy : Type} {SH : SyncHandle Sy}.
Context {SL : SyncHandleLaws Sy} {L : AtlasLaws}.
Implicit Types (c : Consensus.t) (d : ConsensusDecision.t).

(** ** Arithmetic of sequence numbers *)

Lemma sn_plus_S n s : sn_plus (S n) s = sn_plus n (sn_next s).
Proof. unfold sn_plus. induction n as [|n IH]; [done|]. cbn in *. by rewrite IH. Qed.

Lemma sn_add_one s : sn_add s ONE = sn_next s.
Proof. apply (sn_add_plus 1 s). pose proof sn_window_pos. lia. Qed.

(** ** The invariant *)

(** The instance has to be polled: it has to announce itself or may hold messages. *)
Definition awake (d : ConsensusDecision.t) : Prop :=
  d.(ConsensusDecision.phase) = Initialize \/
  (MessageQueue.get_queue d.(ConsensusDecision.message_queue) = true /\
   d.(ConsensusDecision.phase) <> PhaseDecided).

(** A well-formed instance of the window. *)
Record instance_ok (view : ViewInfo.t) (node : NodeId) (d : ConsensusDecision.t) : Prop := {
  io_node : d.(ConsensusDecision.node_id) = node;
  io_inv : ConsensusDecision.inv view d;
  io_kinds : Progress.queue_kinds d.(ConsensusDecision.message_queue);
  io_flag : Progress.flag_ok d;
}.

(** Consecutive instances from [b] on; a signal names one of them or an instance
    at most [lag] behind them; who is awake is signalled. *)
Record window (view : ViewInfo.t) (b : SeqNo) (lag : nat) (c : Consensus.t) : Prop := {
  w_seq : forall i d, c.(Consensus.decisions) !! i = Some d -> d.(ConsensusDecision.seq) = sn_plus i b;
  w_ok : forall d, d ∈ c.(Consensus.decisions) -> instance_ok view c.(Consensus.node_id) d;
  w_signals : signals_ok c.(Consensus.signalled);
  w_range : forall s, signalled_at s c.(Consensus.signalled) ->
    (exists i, i < length c.(Consensus.decisions) /\ s = sn_plus i b) \/
    (exists n, 0 < n <= lag /\ b = sn_plus n s);
  w_awake : forall d, d ∈ c.(Consensus.decisions) -> awake d ->
    signalled_at d.(ConsensusDecision.seq) c.(Consensus.signalled);
}.

(** The view queue holds consensus messages only. *)
Definition views_ok (c : Consensus.t) : Prop :=
  Forall (Forall (fun m => exists cm, consensus m.(message) = Ok cm)) c.(Consensus.view_queue).

Record inv (lag : nat) (c : Consensus.t) : Prop := {
  i_window : window c.(Consensus.curr_view) c.(Consensus.seq_no) lag c;
  i_len : length c.(Consensus.decisions) = c.(Consensus.watermark);
  i_bounds : 0 < c.(Consensus.watermark) <= sn_window;
  i_tbo : c.(Consensus.tbo_queue).(TboQueue.curr_seq) = c.(Consensus.seq_no) /\
          c.(Consensus.tbo_queue).(TboQueue.watermark) = c.(Consensus.watermark);
  i_kinds : bucket_kinds c.(Consensus.tbo_queue);
  i_view : ViewInfo.wf c.(Consensus.curr_view);
  i_views : views_ok c;
}.

(** The fields the window does not depend on. *)
Record frame (c c' : Consensus.t) : Prop := {
  f_node : c'.(Consensus.node_id) = c.(Consensus.node_id);
  f_watermark : c'.(Consensus.watermark) = c.(Consensus.watermark);
  f_seq : c'.(Consensus.seq_no) = c.(Consensus.seq_no);
  f_view : c'.(Consensus.curr_view) = c.(Consensus.curr_view);
  f_views : c'.(Consensus.view_queue) = c.(Consensus.view_queue);
  f_guard : c'.(Consensus.consensus_guard) = c.(Consensus.consensus_guard);
}.

Lemma frame_trans c1 c2 c3 : frame c1 c2 -> frame c2 c3 -> frame c1 c3.
Proof. intros [] []. split; congruence. Qed.

(** *** Adding instances *)

Lemma init_ok view node s q :
  ViewInfo.wf view -> Progress.queue_kinds q ->
  (MessageQueue.get_queue q = false -> MessageQueue.pre_prepares q = []) ->
  instance_ok view node (ConsensusDecision.init_with_msg_log node s view q).
Proof. intros Hwf Hk Hf. split; try done. by apply ConsensusDecision.init_inv. Qed.

Lemma enqueue_window view b lag c d :
  window view b lag c -> d.(ConsensusDecision.seq) = sn_plus (length c.(Consensus.decisions)) b ->
  instance_ok view c.(Consensus.node_id) d ->
  window view b lag (Consensus.enqueue_decision d c).
Proof.
  intros [Hs Ho Hsig Hr Ha] Hd Hok.
  destruct (push_ok d.(ConsensusDecision.seq) _ Hsig) as [Hsig' Hin]. split; cbn.
  - intros i d' Hi. apply lookup_app_Some in Hi as [Hi|[Hi Hd']]; [by apply Hs|].
    apply list_lookup_singleton_Some in Hd' as [H0 <-]. rewrite Hd. f_equal. lia.
  - intros d' [?|?%list_elem_of_singleton]%elem_of_app; [by apply Ho|by subst].
  - done.
  - intros s. rewrite Hin, length_app. cbn. intros [->|Hs']; [left; eexists; split; [|exact Hd]; lia|].
    destruct (Hr s Hs') as [(i & Hi & ->)|?]; [left; exists i; split; [lia|done]|by right].
  - intros d' [?|?%list_elem_of_singleton]%elem_of_app Haw; apply Hin; [right; by apply Ha|left; by subst].
Qed.

Lemma fill_spec n view b lag c s :
  window view b lag c -> ViewInfo.wf view -> s = sn_plus (length c.(Consensus.decisions)) b ->
  let c' := Consensus.fill n view s c in
  window view b lag c' /\ length c'.(Consensus.decisions) = length c.(Consensus.decisions) + n /\
  frame c c' /\ c'.(Consensus.tbo_queue) = c.(Consensus.tbo_queue).
Proof.
  intros Hw Hwf. revert c s Hw. induction n as [|n IH]; intros c s Hw Hs; cbn.
  - split_and!; [done|lia|by split|done].
  - set (c1 := Consensus.enqueue_decision _ c).
    assert (window view b lag c1) as Hw1.
    { apply enqueue_window; [done|done|]. by apply init_ok. }
    destruct (IH c1 (sn_add s ONE) Hw1) as (H1 & H2 & H3 & H4).
    { subst c1. cbn. rewrite sn_add_one, Hs, length_app, Nat.add_1_r. done. }
    split_and!; [done| | |done].
    + rewrite H2. subst c1. cbn. rewrite length_app. cbn. lia.
    + eapply frame_trans; [|exact H3]. by split.
Qed.

(** A tbo queue handed out its first buckets. *)
Lemma fill_from_tbo_spec k n go view b lag c s :
  window view b lag c -> ViewInfo.wf view -> s = sn_plus (length c.(Consensus.decisions)) b ->
  k <= n -> length c.(Consensus.decisions) + k = c.(Consensus.watermark) ->
  bucket_kinds c.(Consensus.tbo_queue) ->
  (forall j c', j < k ->
     c'.(Consensus.tbo_queue).(TboQueue.curr_seq) = sn_plus j c.(Consensus.tbo_queue).(TboQueue.curr_seq) ->
     go c' = true) ->
  let r := Consensus.fill_from_tbo n go view s c in
  window view b lag r.2 /\ length r.2.(Consensus.decisions) = c.(Consensus.watermark) /\ frame c r.2 /\
  r.1 = sn_plus (length r.2.(Consensus.decisions)) b /\
  r.2.(Consensus.tbo_queue).(TboQueue.curr_seq) = sn_plus k c.(Consensus.tbo_queue).(TboQueue.curr_seq) /\
  r.2.(Consensus.tbo_queue).(TboQueue.watermark) = c.(Consensus.tbo_queue).(TboQueue.watermark) /\
  bucket_kinds r.2.(Consensus.tbo_queue).
Proof.
  intros Hw Hwf. revert n c s Hw. induction k as [|k IH]; intros n c s Hw Hs Hn Hlen Hbk Hgo.
  - assert (Consensus.fill_from_tbo n go view s c = (s, c)) as ->.
    { destruct n as [|n]; [done|]. cbn. rewrite bool_decide_false by lia. by rewrite andb_false_r. }
    cbn. split_and!; [done|lia|by split|by rewrite Hs|done..].
  - destruct n as [|n]; [lia|]. cbn. rewrite (Hgo 0 c) by (done || lia).
    rewrite bool_decide_true by lia. cbn. rewrite advance_queue_spec.
    destruct (advance_kinds _ Hbk) as [Hq Hbk']. rewrite advance_queue_spec in Hq, Hbk'. cbn in Hq, Hbk'.
    set (dn := ConsensusDecision.init_with_msg_log _ _ _ _).
    set (c1 := Consensus.enqueue_decision dn _).
    assert (window view b lag c1) as Hw1.
    { apply enqueue_window; [by destruct Hw; split|done|]. apply init_ok; [done|done|].
      cbn. by destruct (bucket 0 _). }
    edestruct (IH n c1 (sn_add s ONE) Hw1) as (H1 & H2 & H3 & H4 & H5 & H6 & H7).
    + subst c1. cbn. rewrite sn_add_one, Hs, length_app, Nat.add_1_r. done.
    + lia.
    + subst c1. cbn. rewrite length_app. cbn. lia.
    + exact Hbk'.
    + intros j c' Hj Hc'. apply (Hgo (S j)); [lia|]. rewrite sn_plus_S. exact Hc'.
    + split_and!; [done|rewrite H2; done| |done| |exact H6|done].
      * eapply frame_trans; [|exact H3]. by split.
      * rewrite H5. cbn. by rewrite sn_plus_S.
Qed.

(** *** Moving the window *)

Lemma shift_window view b lag c k :
  window view b lag c -> k <= length c.(Consensus.decisions) ->
  window view (sn_plus k b) (lag + k) (Consensus.set_decisions (drop k c.(Consensus.decisions)) c).
Proof.
  intros [Hs Ho Hsig Hr Ha] Hk. split; cbn.
  - intros i d Hi. rewrite lookup_drop in Hi. rewrite (Hs _ _ Hi), <- sn_plus_add. f_equal. lia.
  - intros d Hd. apply Ho. by eapply (subseteq_drop k).
  - done.
  - intros s Hsg. rewrite length_drop. destruct (Hr s Hsg) as [(i & Hi & ->)|(n & Hn & ->)].
    + destruct (decide (k <= i)) as [Hki|Hki]; [left|right].
      * exists (i - k). split; [lia|]. rewrite <- sn_plus_add. f_equal. lia.
      * exists (k - i). split; [lia|]. rewrite <- sn_plus_add. f_equal. lia.
    + right. exists (k + n). split; [lia|]. by rewrite sn_plus_add.
  - intros d Hd Haw. apply Ha; [|done]. by eapply (subseteq_drop k).
Qed.

Lemma last_seq view b lag c d :
  window view b lag c -> last c.(Consensus.decisions) = Some d ->
  sn_next d.(ConsensusDecision.seq) = sn_plus (length c.(Consensus.decisions)) b.
Proof.
  intros Hw Hl. rewrite last_lookup in Hl. rewrite (w_seq _ _ _ _ Hw _ _ Hl).
  destruct (Consensus.decisions c); [done|]. done.
Qed.

Lemma next_instance_spec lag c :
  inv lag c ->
  exists d rest c' eff, c.(Consensus.decisions) = d :: rest /\
    Consensus.next_instance c.(Consensus.curr_view) c = mkRun (Ok d) c' eff /\ sent eff = [] /\
    inv (S lag) c' /\ c'.(Consensus.seq_no) = sn_next c.(Consensus.seq_no) /\
    c'.(Consensus.watermark) = c.(Consensus.watermark) /\ c'.(Consensus.curr_view) = c.(Consensus.curr_view).
Proof.
  intros [Hw Hlen Hb [Htc Htw] Hk Hv Hvq]. destruct (Consensus.decisions c) as [|d rest] eqn:Hd; [cbn in Hlen; lia|].
  pose proof (shift_window _ _ _ _ 1 Hw ltac:(rewrite Hd; cbn; lia)) as Hw1.
  rewrite Hd in Hw1. cbn [drop] in Hw1. rewrite Nat.add_1_r in Hw1.
  unfold Consensus.next_instance. run. rewrite Hd. run. rewrite advance_queue_spec.
  destruct (advance_kinds _ Hk) as [Hq Hk']. rewrite advance_queue_spec in Hq, Hk'. cbn in Hq, Hk'.
  set (q := MessageQueue.from_messages _ _ _) in *. run.
  set (nd := ConsensusDecision.init_with_msg_log _ _ _ q).
  assert (instance_ok c.(Consensus.curr_view) c.(Consensus.node_id) nd) as Hok.
  { apply init_ok; [done|done|]. cbn. by destruct (bucket 0 _). }
  assert (nd.(ConsensusDecision.seq) = sn_plus (length rest) (sn_next c.(Consensus.seq_no))) as Hseq.
  { subst nd. cbn. destruct (last rest) as [x|] eqn:Hx.
    - exact (last_seq _ _ _ _ x Hw1 Hx).
    - apply last_None in Hx as ->. done. }
  assert (forall c0, c0.(Consensus.node_id) = c.(Consensus.node_id) -> c0.(Consensus.decisions) = rest ->
    c0.(Consensus.signalled) = c.(Consensus.signalled) -> c0.(Consensus.watermark) = c.(Consensus.watermark) ->
    c0.(Consensus.seq_no) = sn_next c.(Consensus.seq_no) -> c0.(Consensus.curr_view) = c.(Consensus.curr_view) ->
    c0.(Consensus.tbo_queue) = TboQueue.mk (sn_next (TboQueue.curr_seq (Consensus.tbo_queue c)))
      (TboQueue.watermark (Consensus.tbo_queue c)) (TboQueue.get_queue (Consensus.tbo_queue c))
      (tail (TboQueue.pre_prepares (Consensus.tbo_queue c))) (tail (TboQueue.prepares (Consensus.tbo_queue c)))
      (tail (TboQueue.commits (Consensus.tbo_queue c))) ->
    c0.(Consensus.view_queue) = c.(Consensus.view_queue) ->
    inv (S lag) (Consensus.enqueue_decision nd c0)) as Hinv'.
  { intros c0 Hn Hds Hsg Hwm Hsq Hvw Htb Hvq0.
    assert (window c.(Consensus.curr_view) (sn_next c.(Consensus.seq_no)) (S lag) c0) as Hw0.
    { destruct Hw1 as [W1 W2 W3 W4 W5]. split; rewrite ?Hds, ?Hsg, ?Hn; done. }
    split; cbn; rewrite ?Hvw, ?Hsq, ?Hwm, ?Htb; try done.
    - apply enqueue_window; [done|by rewrite Hds|by rewrite Hn].
    - rewrite Hds, length_app. cbn in Hlen |- *. lia.
    - cbn. by rewrite Htc.
    - unfold views_ok. cbn. by rewrite Hvq0. }
  exists d, rest. destruct (negb (MessageQueue.is_signalled q) && Consensus.is_recovering c);
    run; do 2 eexists; (split; [done|]); (split; [reflexivity|]); (split; [done|]);
    (split; [by apply Hinv'|]); done.
Qed.

(** *** Working on one instance *)

Lemma push_window view b lag c i :
  window view b lag c -> i < length c.(Consensus.decisions) ->
  window view b lag (Consensus.push_signalled (sn_plus i b) c).
Proof.
  intros [Hs Ho Hsig Hr Ha] Hi. destruct (push_ok (sn_plus i b) _ Hsig) as [Hsig' Hin].
  split; cbn; try done.
  - intros s [->|?]%Hin; [left; by exists i|by apply Hr].
  - intros d Hd Haw. apply Hin. right. by apply Ha.
Qed.

Lemma update_window view b lag c i d d' :
  window view b lag c -> c.(Consensus.decisions) !! i = Some d ->
  d'.(ConsensusDecision.seq) = d.(ConsensusDecision.seq) -> instance_ok view c.(Consensus.node_id) d' ->
  (awake d' -> signalled_at d.(ConsensusDecision.seq) c.(Consensus.signalled)) ->
  window view b lag (Consensus.set_decisions (<[i := d']> c.(Consensus.decisions)) c).
Proof.
  intros [Hs Ho Hsig Hr Ha] Hi Hseq Hok Haw.
  assert (forall x, x ∈ <[i:=d']> (Consensus.decisions c) -> x = d' \/ x ∈ Consensus.decisions c) as Hin.
  { intros x [j Hj]%list_elem_of_lookup. destruct (decide (i = j)) as [<-|Hne].
    - rewrite list_lookup_insert_eq in Hj by (by eapply lookup_lt_Some). left. congruence.
    - rewrite list_lookup_insert_ne in Hj by done. right. by eapply list_elem_of_lookup_2. }
  split; cbn; try done.
  - intros j x Hj. destruct (decide (i = j)) as [<-|Hne].
    + rewrite list_lookup_insert_eq in Hj by (by eapply lookup_lt_Some). simplify_eq.
      rewrite Hseq. by apply Hs.
    + rewrite list_lookup_insert_ne in Hj by done. by apply Hs.
  - intros x [->|?]%Hin; [done|by apply Ho].
  - rewrite length_insert. done.
  - intros x [->|?]%Hin Hx; [rewrite Hseq; by apply Haw|by apply Ha].
Qed.

(** Handling a message wakes an instance up only when the multiplexer is told so. *)
Lemma processed_awake rng node v m (c : ConsensusMessage) d r :
  ConsensusDecision.processed rng node v m c d r -> awake r.(r_st) ->
  awake d \/ r.(r_out) = Ok MessageQueued \/ exists md x, r.(r_out) = Ok (Transitioned md x).
Proof.
  intros Hpr. unfold awake. destruct Hpr as
    [| f Hf|e bm eff _ _|i rqs bm eff k l' st a' eff' ph' q' Hph Hk Hv Hs Hi Hnew _ -> Hcase
    |k dg l' st a' eff' ph' q' Hph Hk Hv Hs Hd Hnew -> Hcase|k dg l' st ph' Hph Hk Hv Hs Hd Hnew -> Hcase];
    cbn; try tauto.
  - destruct Hcase as [(_ & _ & _ & _ & -> & ->)|(_ & [md ->] & _)]; [|by eauto].
    rewrite Hph. intros [?|[? _]]; [done|]. left. right. done.
  - destruct Hcase as [(_ & _ & _ & _ & -> & ->)|(_ & -> & _)]; [|by eauto].
    rewrite Hph. intros [?|[? _]]; [done|]. left. right. done.
  - rewrite Hph. destruct Hcase as [(_ & _ & ->)|(_ & _ & ->)]; intros [?|[? ?]]; try done. left. right. done.
Qed.

Lemma processed_instance_ok rng node v m (c : ConsensusMessage) d r :
  instance_ok v node d -> consensus m.(message) = Ok c ->
  ConsensusDecision.processed rng node v m c d r ->
  instance_ok v node r.(r_st) /\ r.(r_st).(ConsensusDecision.seq) = d.(ConsensusDecision.seq).
Proof.
  intros [Hn Hi Hk Hf] Hc Hpr. pose proof (ConsensusDecision.processed_grows _ _ _ _ _ _ _ Hi Hpr) as [G1 G2 _ _].
  split; [|done]. split.
  - congruence.
  - exact (ConsensusDecision.processed_inv _ _ _ _ _ _ _ Hi Hc Hpr).
  - exact (proj1 (Progress.processed_queue _ _ _ _ _ _ _ Hc Hpr Hk)).
  - exact (Progress.processed_flag _ _ _ _ _ _ _ Hpr Hf).
Qed.

Lemma route_spec lag c vs ms :
  inv lag c ->
  match Consensus.route vs ms c with
  | Consensus.Instance i => vs = c.(Consensus.curr_view).(ViewInfo.seq) /\ ms = sn_plus i c.(Consensus.seq_no) /\
      exists d, c.(Consensus.decisions) !! i = Some d /\ d.(ConsensusDecision.seq) = ms
  | Consensus.OutOfWindow => vs = c.(Consensus.curr_view).(ViewInfo.seq) /\
      exists i, c.(Consensus.watermark) <= i /\ ms = sn_plus i c.(Consensus.seq_no)
  | Consensus.OtherView i => 0 < i /\ vs = sn_plus i c.(Consensus.curr_view).(ViewInfo.seq)
  | Consensus.OldMessage => True
  end.
Proof.
  intros Hinv. unfold Consensus.route.
  destruct (sn_index vs _) as [e|[|i]] eqn:Hv; [done| |apply sn_index_sound in Hv; split; [lia|done]].
  apply sn_index_sound in Hv. destruct (sn_index ms _) as [e|i] eqn:Hm; [done|].
  apply sn_index_sound in Hm. case_decide as Hl.
  - split; [done|]. exists i. rewrite <- (i_len _ _ Hinv). done.
  - split_and!; [done|done|]. destruct (lookup_lt_is_Some_2 c.(Consensus.decisions) i) as [d Hd]; [lia|].
    exists d. split; [done|]. by rewrite (w_seq _ _ _ _ (i_window _ _ Hinv) _ _ Hd).
Qed.

Lemma set_view_queue_inv lag c q :
  inv lag c -> views_ok (Consensus.set_view_queue q c) -> inv lag (Consensus.set_view_queue q c).
Proof. intros [[] ? ? ? ? ? ?] Hq. by split. Qed.

Lemma enqueue_other_view_inv lag c i m (cm : ConsensusMessage) :
  inv lag c -> consensus m.(message) = Ok cm -> inv lag (Consensus.enqueue_other_view_message i m c).
Proof.
  intros Hinv Hc. apply set_view_queue_inv; [done|]. unfold views_ok. cbn. apply Forall_alter.
  - apply Forall_app. split; [apply (i_views _ _ Hinv)|]. apply Forall_replicate. constructor.
  - intros x _ Hx. apply Forall_app. split; [done|]. apply Forall_singleton. eauto.
Qed.

Lemma set_tbo_inv lag c q :
  inv lag c -> q.(TboQueue.curr_seq) = c.(Consensus.tbo_queue).(TboQueue.curr_seq) ->
  q.(TboQueue.watermark) = c.(Consensus.tbo_queue).(TboQueue.watermark) -> bucket_kinds q ->
  inv lag (Consensus.set_tbo_queue q c).
Proof. intros [[] ? ? [] ? ? ?] Hc Hw Hk. split; try done. cbn. by rewrite Hc, Hw. Qed.

(** The state after instance [i] was updated, and signalled if it was woken up. *)
Lemma instance_inv lag c i d d' c' :
  inv lag c -> c.(Consensus.decisions) !! i = Some d ->
  instance_ok c.(Consensus.curr_view) c.(Consensus.node_id) d' ->
  d'.(ConsensusDecision.seq) = d.(ConsensusDecision.seq) ->
  (c' = Consensus.set_decisions (<[i := d']> c.(Consensus.decisions)) c /\ (awake d' -> awake d) \/
   c' = Consensus.push_signalled d.(ConsensusDecision.seq)
          (Consensus.set_decisions (<[i := d']> c.(Consensus.decisions)) c)) ->
  inv lag c'.
Proof.
  intros [Hw Hl Hb Ht Hk Hv Hvq] Hi Hok Hs Hc'. pose proof (lookup_lt_Some _ _ _ Hi) as Hlt.
  destruct Hc' as [[-> Haw]| ->]; split; cbn; rewrite ?length_insert; try done.
  - eapply update_window; try done. intros Ha%Haw. eapply (w_awake _ _ _ _ Hw); [|done].
    by eapply list_elem_of_lookup_2.
  - rewrite (w_seq _ _ _ _ Hw _ _ Hi). pose proof (push_window _ _ _ _ i Hw Hlt) as Hw'.
    refine (update_window _ _ _ _ i d d' Hw' Hi Hs Hok _). intros _. cbn.
    apply (push_ok _ _ (w_signals _ _ _ _ Hw)). left. by apply (w_seq _ _ _ _ Hw).
Qed.

(** What an operation on messages keeps. *)
Record fixed (c c' : Consensus.t) : Prop := {
  fx_node : c'.(Consensus.node_id) = c.(Consensus.node_id);
  fx_seq : c'.(Consensus.seq_no) = c.(Consensus.seq_no);
  fx_watermark : c'.(Consensus.watermark) = c.(Consensus.watermark);
  fx_view : c'.(Consensus.curr_view) = c.(Consensus.curr_view);
}.

Lemma fixed_refl c : fixed c c.
Proof. by split. Qed.
Lemma fixed_trans c1 c2 c3 : fixed c1 c2 -> fixed c2 c3 -> fixed c1 c3.
Proof. intros [] []. split; congruence. Qed.

Lemma zoom_tbo {X} m (cm : ConsensusMessage) (k : unit -> M Consensus.t Effect Error X) c lag :
  inv lag c -> consensus m.(message) = Ok cm ->
  exists c', (zoom Consensus.tbo_queue Consensus.set_tbo_queue (TboQueue.queue m) ≫= k) c = k tt c' /\
    inv lag c' /\ fixed c c'.
Proof.
  intros Hinv Hc. destruct (tbo_queue_run m cm c.(Consensus.tbo_queue) Hc) as (q' & Hq & H1 & H2 & H3).
  exists (Consensus.set_tbo_queue q' c). split; [|split].
  - by apply run_zoom_Ok.
  - apply set_tbo_inv; try done. apply H3, (i_kinds _ _ Hinv).
  - by split.
Qed.

Lemma on_decision_bind {X Y} i (m : M ConsensusDecision.t Effect Error X) (k : X -> M Consensus.t Effect Error Y) c d :
  c.(Consensus.decisions) !! i = Some d ->
  (Consensus.on_decision i m ≫= k) c =
  let r := m d in
  let c' := Consensus.set_decisions (<[i := r.(r_st)]> c.(Consensus.decisions)) c in
  match r.(r_out) with
  | Ok x => prepend r.(r_eff) (k x c')
  | Err e => mkRun (Err e) c' r.(r_eff)
  | Panic => mkRun Panic c' r.(r_eff)
  end.
Proof.
  intros Hi. unfold mbind, M_bind, bind, Consensus.on_decision. rewrite Hi. cbn.
  by destruct (r_out (m d)).
Qed.

Lemma process_message_inv lag c rng (sy : Sy) m cm :
  inv lag c -> sy_view sy = c.(Consensus.curr_view) -> consensus m.(message) = Ok cm ->
  let r := Consensus.process_message rng sy m c in
  inv lag r.(r_st) /\ fixed c r.(r_st) /\ r.(r_out) <> Panic.
Proof.
  intros Hinv Hsy Hc. cbn zeta. unfold Consensus.process_message. rewrite Hc. run.
  pose proof (route_spec lag c cm.(cm_view) cm.(cm_seq) Hinv) as Hr.
  destruct (Consensus.route _ _ c) as [i| | |i].
  - run. split_and!; [by eapply enqueue_other_view_inv|by split|done].
  - split_and!; [done|apply fixed_refl|done].
  - destruct (zoom_tbo m cm (fun _ => ret CMessageQueued) c lag Hinv Hc) as (c' & Hz & Hi' & Hf).
    rewrite Hz. done.
  - destruct Hr as (_ & _ & d & Hd & _). rewrite Hd. run.
    rewrite (on_decision_bind _ _ _ _ _ Hd). cbn zeta.
    pose proof (w_ok _ _ _ _ (i_window _ _ Hinv) d) as Hok.
    specialize (Hok (list_elem_of_lookup_2 _ _ _ Hd)). rewrite <- Hsy in Hok.
    pose proof (ConsensusDecision.process_message_processed rng c.(Consensus.node_id) sy m cm d (io_inv _ _ _ Hok) Hc) as Hpr.
    pose proof (processed_awake _ _ _ _ _ _ _ Hpr) as Haw.
    destruct (processed_instance_ok _ _ _ _ _ _ _ Hok Hc Hpr) as [Hok' Hseq]. rewrite Hsy in Hok'.
    destruct (ConsensusDecision.process_message rng c.(Consensus.node_id) sy m d) as [out d' eff]. cbn in *.
    pose proof (fun c' H => instance_inv lag c i d d' c' Hinv Hd Hok' Hseq H) as Hstep.
    destruct out as [st|e|]; [|split_and!; [apply Hstep; left; naive_solver|by split|done]|by inversion Hpr].
    destruct st; cbn; (split_and!; [|by split|done]); apply Hstep; first [by right|left; naive_solver].
Qed.

Lemma decision_queue_run m cm d :
  consensus m.(message) = Ok cm ->
  exists d', ConsensusDecision.queue (W := Effect) m d = mkRun (Ok tt) d' [] /\
    d'.(ConsensusDecision.seq) = d.(ConsensusDecision.seq) /\
    forall v node, instance_ok v node d -> instance_ok v node d'.
Proof.
  intros Hc. destruct (Progress.kinds m cm Hc) as (Kpp & Kp & Kc).
  unfold ConsensusDecision.queue. rewrite Hc. run.
  destruct (cm_kind cm); eexists; (split; [reflexivity|]); (split; [done|]); intros v node [Hn Hi (H1 & H2 & H3) Hf];
    (split; [done|by apply ConsensusDecision.queue_inv| |done]);
    split_and!; cbn; try done; by apply Forall_app_2, Forall_singleton.
Qed.

Lemma window_queue_inv lag c m cm :
  inv lag c -> consensus m.(message) = Ok cm ->
  exists c', Consensus.queue m c = mkRun (Ok tt) c' [] /\ inv lag c' /\ fixed c c'.
Proof.
  intros Hinv Hc. unfold Consensus.queue. rewrite Hc. run.
  assert (msg_sequence_number m.(message) = cm.(cm_seq)) as Hms.
  { destruct (message m); cbn in Hc; try done. by injection Hc as ->. }
  rewrite Hms. pose proof (route_spec lag c cm.(cm_view) cm.(cm_seq) Hinv) as Hr.
  destruct (Consensus.route _ _ c) as [i| | |i].
  - eexists. split; [reflexivity|]. split; [by eapply enqueue_other_view_inv|by split].
  - eexists. split; [reflexivity|]. split; [done|apply fixed_refl].
  - destruct (tbo_queue_run m cm c.(Consensus.tbo_queue) Hc) as (q' & Hq & H1 & H2 & H3).
    unfold zoom. rewrite Hq. eexists. split; [reflexivity|]. cbn. split; [|by split].
    apply set_tbo_inv; try done. apply H3, (i_kinds _ _ Hinv).
  - destruct Hr as (_ & _ & d & Hd & Hsd). rewrite (on_decision_bind _ _ _ _ _ Hd). cbn zeta.
    destruct (decision_queue_run m cm d Hc) as (d' & -> & Hseq & Hok'). cbn.
    eexists. split; [reflexivity|]. split; [|by split].
    pose proof (w_ok _ _ _ _ (i_window _ _ Hinv) d (list_elem_of_lookup_2 _ _ _ Hd)) as Hok.
    eapply (instance_inv lag c i d d'); try done; [by apply Hok'|]. right. by rewrite Hsd.
Qed.

(** ** Polling *)

Lemma sn_plus_inj i j b : i <= sn_window -> j <= sn_window -> sn_plus i b = sn_plus j b -> i = j.
Proof.
  intros Hi Hj He. pose proof (sn_index_plus i b Hi) as H1. rewrite He, sn_index_plus in H1 by done.
  by injection H1.
Qed.

(** Instance [i] was polled: its signal is consumed, or put back. *)
Lemma polled_window view b lag c i d d' g :
  window view b lag c -> length c.(Consensus.decisions) <= sn_window ->
  c.(Consensus.decisions) !! i = Some d ->
  d'.(ConsensusDecision.seq) = d.(ConsensusDecision.seq) -> instance_ok view c.(Consensus.node_id) d' ->
  signals_ok g ->
  (forall x, signalled_at x g -> signalled_at x c.(Consensus.signalled)) ->
  (forall x, x <> sn_plus i b -> signalled_at x c.(Consensus.signalled) -> signalled_at x g) ->
  (awake d' -> signalled_at (sn_plus i b) g) ->
  window view b lag (Consensus.set_decisions (<[i := d']> c.(Consensus.decisions)) (Consensus.set_signalled g c)).
Proof.
  intros [Hs Ho Hsig Hr Ha] Hlen Hi Hseq Hok Hg Hsub Hkeep Haw.
  pose proof (lookup_lt_Some _ _ _ Hi) as Hlt. split; cbn; try done.
  - intros j x Hj. destruct (decide (i = j)) as [<-|Hne].
    + rewrite list_lookup_insert_eq in Hj by done. simplify_eq. rewrite Hseq. by apply Hs.
    + rewrite list_lookup_insert_ne in Hj by done. by apply Hs.
  - intros x [j Hj]%list_elem_of_lookup. destruct (decide (i = j)) as [<-|Hne].
    + rewrite list_lookup_insert_eq in Hj by done. by simplify_eq.
    + rewrite list_lookup_insert_ne in Hj by done. apply Ho. by eapply list_elem_of_lookup_2.
  - intros x Hx. rewrite length_insert. apply Hr. by apply Hsub.
  - intros x [j Hj]%list_elem_of_lookup Hx. destruct (decide (i = j)) as [<-|Hne].
    + rewrite list_lookup_insert_eq in Hj by done. simplify_eq. rewrite Hseq, (Hs _ _ Hi). by apply Haw.
    + rewrite list_lookup_insert_ne in Hj by done. apply Hkeep.
      * rewrite (Hs _ _ Hj). intros He. apply Hne. pose proof (lookup_lt_Some _ _ _ Hj).
        symmetry. apply (sn_plus_inj j i b); [lia|lia|done].
      * apply Ha; [|done]. by eapply list_elem_of_lookup_2.
Qed.

Definition initializing (ds : list ConsensusDecision.t) : nat :=
  length (filter (fun d => d.(ConsensusDecision.phase) = Initialize) ds).

Arguments initializing : simpl never.

Definition poll_measure (c : Consensus.t) : nat :=
  length c.(Consensus.signalled).(Signals.signaled_seq_no) + initializing c.(Consensus.decisions).

Lemma initializing_insert ds i d d' :
  ds !! i = Some d ->
  initializing (<[i := d']> ds) + (if decide (d.(ConsensusDecision.phase) = Initialize) then 1 else 0) =
  initializing ds + (if decide (d'.(ConsensusDecision.phase) = Initialize) then 1 else 0).
Proof.
  intros Hi. unfold initializing. rewrite <- (take_drop_middle ds i d Hi) at 2.
  rewrite insert_take_drop by (by eapply lookup_lt_Some). rewrite !filter_app, !length_app.
  rewrite !filter_cons. repeat case_decide; cbn; lia.
Qed.

(** The outcome of polling an instance of the window. *)
Lemma poll_instance view node d :
  ViewInfo.wf view -> instance_ok view node d ->
  let r := ConsensusDecision.poll d in
  instance_ok view node r.2 /\ r.2.(ConsensusDecision.seq) = d.(ConsensusDecision.seq) /\
  match r.1 with
  | NextMessage m => (exists cm, consensus m.(message) = Ok cm) /\
      r.2.(ConsensusDecision.phase) = d.(ConsensusDecision.phase)
  | TryPropose => d.(ConsensusDecision.phase) = Initialize /\ r.2.(ConsensusDecision.phase) <> Initialize
  | Recv | PollDecided => ~ awake r.2 /\ d.(ConsensusDecision.phase) <> Initialize
  end.
Proof.
  intros Hwf [Hn Hi Hk Hf] r. pose proof (Progress.poll_spec d Hk) as (Hk' & Hn' & Hst).
  pose proof (ConsensusDecision.poll_grows view d) as [_ Hs _ _].
  split; [split|split; [done|]].
  - subst r. congruence.
  - by apply ConsensusDecision.poll_preserves.
  - done.
  - by apply Progress.poll_flag.
  - pose proof (Progress.polled_consensus d) as Hcons. subst r.
    destruct (ConsensusDecision.poll d) as [[| |m|] d'] eqn:Hp; cbn in *.
    + destruct Hst as (-> & [k ->] & _). done.
    + destruct Hst as [Hni Hrecv]. split; [|done].
      intros [Haw|[Hg Hnd]].
      * unfold ConsensusDecision.poll in Hrecv. rewrite Haw in Hrecv. by destruct (ConsensusDecision.message_queue d').
      * revert Hp. unfold ConsensusDecision.poll. destruct d as [? ? ph [g pp p cc] ? ?]. cbn.
        destruct ph, g; cbn; try done; try (by intros [= <-]);
          [destruct pp|destruct p|destruct cc]; cbn; try done; intros [= <-]; done.
    + destruct Hst as (Hph & _). split; [by apply Hcons|done].
    + destruct Hst as [Hph ->]. rewrite Hph. split; [|done]. by intros [?|[_ ?]]; congruence.
Qed.

(** The window after its least signal was taken, when that signal is behind. *)
Lemma stale_window view b lag c s e g :
  window view b lag c -> length c.(Consensus.decisions) <= sn_window ->
  sn_index s b = inl e -> signals_ok g ->
  (forall x, signalled_at x g <-> x <> s /\ signalled_at x c.(Consensus.signalled)) ->
  window view b lag (Consensus.set_signalled g c).
Proof.
  intros [Hs Ho Hsig Hr Ha] Hlen He Hg Hin. split; cbn; try done.
  - intros x Hx. apply Hr. by apply Hin.
  - intros d Hd Haw. apply Hin. split; [|by apply Ha]. intros <-.
    apply list_elem_of_lookup in Hd as [j Hj]. rewrite (Hs _ _ Hj), sn_index_plus in He; [done|].
    pose proof (lookup_lt_Some _ _ _ Hj). lia.
Qed.

Definition poll_done (c : Consensus.t) (st : ConsensusPollStatus) : Prop :=
  match st with
  | CPNextMessage m => exists cm, consensus m.(message) = Ok cm
  | _ => c.(Consensus.signalled).(Signals.signaled_seq_no) = [] /\
         forall d, d ∈ c.(Consensus.decisions) -> ~ awake d
  end.

Lemma guard_inv lag c f : inv lag c -> inv lag (Consensus.on_guard f c).
Proof. intros [[] ? ? ? ? ? ?]. by split. Qed.

Lemma rebuild_inv lag c c1 :
  inv lag c -> window c.(Consensus.curr_view) c.(Consensus.seq_no) lag c1 -> frame c c1 ->
  c1.(Consensus.tbo_queue) = c.(Consensus.tbo_queue) ->
  length c1.(Consensus.decisions) = length c.(Consensus.decisions) -> inv lag c1.
Proof.
  intros [] Hw1 [F1 F2 F3 F4 F5 F6] Ft Fl. split; unfold views_ok; rewrite ?F5, ?F4, ?F3, ?F2, ?Ft, ?Fl; done.
Qed.

Lemma poll_loop_spec fuel lag c :
  inv lag c -> lag <= sn_window -> poll_measure c < fuel ->
  exists st c', Consensus.poll_loop fuel c = mkRun (Ok (Some st)) c' [] /\
    inv lag c' /\ fixed c c' /\ poll_done c' st.
Proof.
  revert c. induction fuel as [|fuel IH]; intros c Hinv Hlag Hm; [lia|].
  cbn [Consensus.poll_loop]. run. pose proof (i_window _ _ Hinv) as Hw.
  assert (length c.(Consensus.decisions) <= sn_window) as Hlen
    by (rewrite (i_len _ _ Hinv); apply (i_bounds _ _ Hinv)).
  pose proof (pop_ok _ (w_signals _ _ _ _ Hw)) as Hpop.
  destruct (Signals.pop_signalled c.(Consensus.signalled)) as [[sg g]|].
  2: { eexists _, c. split; [reflexivity|]. split_and!; [done|apply fixed_refl|].
       assert (forall d, d ∈ c.(Consensus.decisions) -> ~ awake d) as Hna.
       { intros d Hd Haw. pose proof (w_awake _ _ _ _ Hw d Hd Haw) as Hs. unfold signalled_at in Hs.
         rewrite Hpop in Hs. by apply elem_of_nil in Hs. }
       by destruct (Consensus.can_finalize c). }
  destruct Hpop as (Hg & Hsg & Hsz & Hgin). run.
  pose proof (rebuild_inv lag c) as Hrebuild. specialize (fun c1 => Hrebuild c1 Hinv).
  destruct (w_range _ _ _ _ Hw sg Hsg) as [(i & Hi & ->)|(n & Hn & Hb)].
  2: { destruct (sn_index_behind n sg) as [e He]; [lia|]. rewrite <- Hb in He. rewrite He.
       destruct (IH (Consensus.set_signalled g c)) as (st & c' & Hrun & Hi' & Hf & Hd).
       - apply Hrebuild; try done. by eapply stale_window.
       - done.
       - unfold poll_measure in *. cbn. lia.
       - exists st, c'. split_and!; [done|done| |done]. eapply fixed_trans; [|done]. by split. }
  rewrite sn_index_plus by lia.
  destruct (lookup_lt_is_Some_2 c.(Consensus.decisions) i Hi) as [d Hd].
  rewrite (on_decision_bind i _ _ (Consensus.set_signalled g c) d Hd).
  pose proof (w_ok _ _ _ _ Hw d (list_elem_of_lookup_2 _ _ _ Hd)) as Hok.
  destruct (poll_instance _ _ d (i_view _ _ Hinv) Hok) as (Hok' & Hseq & Hst).
  pose proof (initializing_insert _ i d (ConsensusDecision.poll d).2 Hd) as Hcnt.
  destruct (ConsensusDecision.poll d) as [st d'] eqn:Hp. cbn [fst snd] in *. cbn zeta. cbn [r_out r_st r_eff].
  rewrite prepend_nil. set (c1 := Consensus.set_decisions (<[i := d']> _) _).
  destruct (push_ok (sn_plus i c.(Consensus.seq_no)) g Hg) as [Hg' Hgin'].
  assert (inv lag (Consensus.push_signalled (sn_plus i c.(Consensus.seq_no)) c1)) as Hpushed.
  { apply Hrebuild; [|by split|done|by cbn; rewrite length_insert].
    refine (polled_window _ _ _ c i d d' _ Hw Hlen Hd Hseq Hok' Hg' _ _ _).
    - intros x [->|?%Hgin]%Hgin'; [done|tauto].
    - intros x Hne Hx. apply Hgin'. right. by apply Hgin.
    - intros _. apply Hgin'. by left. }
  assert (~ awake d' -> d.(ConsensusDecision.phase) <> Initialize ->
    exists st c', Consensus.poll_loop fuel c1 = mkRun (Ok (Some st)) c' [] /\
      inv lag c' /\ fixed c c' /\ poll_done c' st) as Hidle.
  { intros Hna Hni. rewrite (decide_False (P := ConsensusDecision.phase d = Initialize)) in Hcnt by done.
    rewrite decide_False in Hcnt by (intros E; apply Hna; by left).
    destruct (IH c1) as (st' & c' & Hrun & Hi' & Hf & Hdn); [| done| |].
    - apply Hrebuild; [|by split|done|by cbn; rewrite length_insert].
      refine (polled_window _ _ _ c i d d' _ Hw Hlen Hd Hseq Hok' Hg _ _ _); [| |done].
      + intros x Hx%Hgin. tauto.
      + intros x Hne Hx. by apply Hgin.
    - unfold poll_measure in *. cbn. lia.
    - exists st', c'. split_and!; [done|done| |done]. eapply fixed_trans; [|done]. by split. }
  destruct st as [| |m|]; [|by destruct Hst; apply Hidle| |by destruct Hst; apply Hidle].
  - destruct Hst as [Hph Hph']. run. rewrite decide_True in Hcnt by done. rewrite decide_False in Hcnt by done.
    match goal with |- context [Consensus.poll_loop fuel ?x] => set (c2 := x) end.
    assert (inv lag c2 /\ fixed c c2 /\ poll_measure c2 = poll_measure (Consensus.push_signalled (sn_plus i c.(Consensus.seq_no)) c1))
      as (Hi2 & Hf2 & Hm2).
    { subst c2. case_decide; [split_and!; [by apply guard_inv|by split|done]|split_and!; [done|by split|done]]. }
    destruct (IH c2 Hi2 Hlag) as (st & c' & Hrun & Hi' & Hf & Hdn).
    + rewrite Hm2. unfold poll_measure in *. cbn. pose proof (push_length (sn_plus i c.(Consensus.seq_no)) g). lia.
    + exists st, c'. split_and!; [done|done|by eapply fixed_trans|done].
  - destruct Hst as [Hc _]. run. eexists _, _. split; [reflexivity|]. split_and!; [done|by split|done].
Qed.

(** ** Installing a sequence number or a view *)

Lemma inv_lag_mono lag lag' c : lag <= lag' -> inv lag c -> inv lag' c.
Proof.
  intros Hle [[H1 H2 H3 H4 H5] ? ? ? ? ? ?]. split; try done. split; try done.
  intros s Hs. destruct (H4 s Hs) as [?|(n & ? & ?)]; [by left|right]. exists n. split; [lia|done].
Qed.

(** Without instances or signals the window starts anywhere. *)
Lemma empty_window view b c :
  c.(Consensus.decisions) = [] -> c.(Consensus.signalled) = Signals.new ->
  window view b 0 c.
Proof.
  intros Hd Hs. split; rewrite ?Hd, ?Hs.
  - intros i d Hi. by rewrite lookup_nil in Hi.
  - by intros d ?%elem_of_nil.
  - apply signals_new.
  - by intros s ?%elem_of_nil.
  - by intros d ?%elem_of_nil.
Qed.

(** An empty window filled up to the watermark. *)
Lemma refill view s c tbo c1 :
  ViewInfo.wf view -> 0 < c.(Consensus.watermark) <= sn_window ->
  c.(Consensus.decisions) = [] -> c.(Consensus.signalled) = Signals.new ->
  c.(Consensus.curr_view) = view -> tbo.(TboQueue.curr_seq) = s ->
  tbo.(TboQueue.watermark) = c.(Consensus.watermark) -> bucket_kinds tbo -> views_ok c ->
  c1 = Consensus.set_seq_no s (Consensus.set_tbo_queue tbo (Consensus.fill c.(Consensus.watermark) view s c)) ->
  inv 0 c1 /\ c1.(Consensus.seq_no) = s /\ c1.(Consensus.watermark) = c.(Consensus.watermark) /\
  c1.(Consensus.curr_view) = view /\ c1.(Consensus.view_queue) = c.(Consensus.view_queue) /\
  c1.(Consensus.node_id) = c.(Consensus.node_id).
Proof.
  intros Hwf Hb Hd Hs Hv Ht1 Ht2 Hk Hvq ->.
  pose proof (empty_window view s c Hd Hs) as Hw0.
  destruct (fill_spec c.(Consensus.watermark) view s 0 c s Hw0 Hwf) as (Hw & Hlen & [F1 F2 F3 F4 F5 F6] & Ftbo).
  { by rewrite Hd. }
  rewrite Hd in Hlen. cbn in Hlen. split; [|cbn; by rewrite F2, F4, F5, F1].
  split; unfold views_ok; cbn; rewrite ?F2, ?F4, ?F5, ?Hlen, ?Hv; try done. by destruct Hw; split.
Qed.

Lemma iter_tbo k q :
  (Nat.iter k TboQueue.next_instance_queue q).(TboQueue.curr_seq) = sn_plus k q.(TboQueue.curr_seq) /\
  (Nat.iter k TboQueue.next_instance_queue q).(TboQueue.watermark) = q.(TboQueue.watermark) /\
  (bucket_kinds q -> bucket_kinds (Nat.iter k TboQueue.next_instance_queue q)).
Proof.
  induction k as [|k (IH1 & IH2 & IH3)]; [done|]. cbn [Nat.iter nat_rect].
  change (nat_rect _ _ _ k) with (Nat.iter k TboQueue.next_instance_queue q) in *.
  rewrite next_instance_queue_spec. split_and!.
  - rewrite advance_queue_spec. cbn. by rewrite IH1.
  - by rewrite advance_queue_spec.
  - intros Hq. by apply advance_kinds, IH3.
Qed.

Lemma install_checks_ok novel lag c :
  inv lag c -> c.(Consensus.seq_no) = novel ->
  exists c', Consensus.install_checks novel c = mkRun (Ok tt) c' [] /\ inv lag c' /\ fixed c c'.
Proof.
  intros Hinv <-. unfold Consensus.install_checks. run. cbn. rewrite decide_True by apply (i_tbo _ _ Hinv). run.
  pose proof (i_len _ _ Hinv) as Hl. pose proof (i_bounds _ _ Hinv).
  pose proof (w_seq _ _ _ _ (i_window _ _ Hinv) 0) as H0.
  destruct (Consensus.decisions c) as [|d ds] eqn:Hd; [cbn in Hl; lia|]. cbn. run.
  unfold ConsensusDecision.sequence_number. rewrite (H0 d eq_refl), decide_True by done.
  eexists. split; [reflexivity|]. split; [|by split].
  apply set_tbo_inv; try done; [by apply guard_inv|]. apply (i_kinds _ _ Hinv).
Qed.

(** Each arm leads to a full window that starts at the number installed. *)
Definition installs (m : M Consensus.t Effect Error unit) (novel : SeqNo) (lag : nat) (c : Consensus.t) : Prop :=
  exists c', m c = mkRun (Ok tt) c' [] /\ inv lag c' /\ c'.(Consensus.seq_no) = novel /\
    c'.(Consensus.watermark) = c.(Consensus.watermark) /\ c'.(Consensus.curr_view) = c.(Consensus.curr_view).

Lemma install_behind_ok lag c novel :
  inv lag c -> installs (Consensus.install_behind novel c.(Consensus.curr_view)) novel 0 c.
Proof.
  intros Hinv. unfold installs, Consensus.install_behind. run. eexists. split; [reflexivity|].
  edestruct (refill c.(Consensus.curr_view) novel (Consensus.clear_all_queues c)
    (TboQueue.set_curr_seq novel (TboQueue.clear c.(Consensus.tbo_queue))))
    as (H1 & H2 & H3 & H4 & _); try done.
  - apply (i_view _ _ Hinv).
  - apply (i_bounds _ _ Hinv).
  - apply (i_tbo _ _ Hinv).
  - apply (i_views _ _ Hinv).
  - destruct (fill_spec c.(Consensus.watermark) c.(Consensus.curr_view) novel 0 (Consensus.clear_all_queues c) novel)
      as (_ & _ & _ & Ht); [by apply empty_window|apply (i_view _ _ Hinv)|done|].
    change (length (Consensus.decisions (Consensus.clear_all_queues c))) with 0.
    change (Consensus.watermark (Consensus.clear_all_queues c)) with c.(Consensus.watermark) in *.
    rewrite Nat.sub_0_r, Ht. split_and!; [exact H1|exact H2|exact H3|exact H4].
Qed.

Lemma install_in_window_ok lag c limit :
  inv lag c -> limit < length c.(Consensus.decisions) ->
  installs (Consensus.install_in_window limit (sn_plus limit c.(Consensus.seq_no)) c.(Consensus.curr_view))
    (sn_plus limit c.(Consensus.seq_no)) (lag + limit) c.
Proof.
  intros [Hw Hlen Hb [Htc Htw] Hk Hv Hvq] Hlim. unfold installs, Consensus.install_in_window. run.
  pose proof (shift_window _ _ _ _ limit Hw ltac:(lia)) as Hw1.
  set (c1 := Consensus.set_decisions _ c) in *.
  assert (length c1.(Consensus.decisions) = c.(Consensus.watermark) - limit) as Hl1
    by (cbn; rewrite length_drop; lia).
  destruct (last c1.(Consensus.decisions)) as [x|] eqn:Hx.
  2: { apply last_None in Hx. rewrite Hx in Hl1. cbn in Hl1. lia. }
  change (drop limit (Consensus.decisions c)) with (Consensus.decisions c1). rewrite Hx. run.
  destruct (fill_from_tbo_spec limit c.(Consensus.watermark) (fun _ => true) c.(Consensus.curr_view)
    (sn_plus limit c.(Consensus.seq_no)) (lag + limit) c1 (sn_next (ConsensusDecision.sequence_number x)))
    as (H1 & H2 & [F1 F2 F3 F4 F5 F6] & H4 & H5 & H6 & H7); try done.
  - exact (last_seq _ _ _ _ _ Hw1 Hx).
  - lia.
  - rewrite Hl1. cbn. lia.
  - eexists. split; [reflexivity|]. cbn. split; [|by rewrite F2, F4].
    split; unfold views_ok; cbn; rewrite ?F2, ?F4, ?F5, ?H2, ?H5, ?H6; try done; [by destruct H1; split|].
    cbn. by rewrite Htc.
Qed.

Lemma install_past_window_ok lag c limit :
  inv lag c -> length c.(Consensus.decisions) <= limit ->
  installs (Consensus.install_past_window limit (sn_plus limit c.(Consensus.seq_no)) c.(Consensus.curr_view))
    (sn_plus limit c.(Consensus.seq_no)) 0 c.
Proof.
  intros [Hw Hlen Hb [Htc Htw] Hk Hv Hvq] Hlim. unfold installs, Consensus.install_past_window. run.
  set (c1 := Consensus.on_guard _ _). set (novel := sn_plus limit c.(Consensus.seq_no)).
  rewrite (decide_False (P := limit < _)) by lia. run.
  set (overflow := limit - c.(Consensus.watermark)).
  assert (window c.(Consensus.curr_view) novel 0 c1) as Hw1 by (by apply empty_window).
  case_decide as Hov; run.
  - (* the tbo queue is dropped *)
    match goal with |- context [Consensus.fill_from_tbo ?n ?go ?v ?s ?x] => set (c2 := x) end.
    assert (forall n go, go c2 = false ->
      Consensus.fill_from_tbo n go c.(Consensus.curr_view) novel c2 = (novel, c2)) as Hnone.
    { intros [|n] go Hgo; [done|]. cbn. by rewrite Hgo. }
    rewrite Hnone.
    2: { cbn. unfold sn_ltb. replace (sn_cmp novel novel) with Eq; [done|]. symmetry. by apply sn_cmp_eq. }
    run. eexists. split; [reflexivity|].
    edestruct (refill c.(Consensus.curr_view) novel c2 c2.(Consensus.tbo_queue)) as (H1 & H2 & H3 & H4 & _); try done.
    destruct (fill_spec c.(Consensus.watermark) c.(Consensus.curr_view) novel 0 c2 novel)
      as (_ & _ & _ & Ht); [by apply empty_window|done|done|].
    change (length (Consensus.decisions c2)) with 0. change (Consensus.watermark c2) with c.(Consensus.watermark) in *.
    rewrite Nat.sub_0_r. split_and!; [|done|exact H3|exact H4].
    rewrite <- Ht in H1. by destruct (Consensus.fill _ _ _ c2).
  - (* the tbo queue moves on *)
    destruct (iter_tbo overflow c.(Consensus.tbo_queue)) as (T1 & T2 & T3).
    match goal with |- context [Consensus.fill_from_tbo ?n ?go ?v ?s ?x] => set (c2 := x); set (gof := go) end.
    destruct (fill_from_tbo_spec c.(Consensus.watermark) c.(Consensus.watermark) gof c.(Consensus.curr_view)
      novel 0 c2 novel) as (H1 & H2 & [F1 F2 F3 F4 F5 F6] & H4 & H5 & H6 & H7); try done.
    + by destruct Hw1; split.
    + cbn. by apply T3.
    + intros j c' Hj Hc'. subst gof. cbn. unfold TboQueue.sequence_number, sn_ltb. rewrite Hc'. cbn. rewrite T1, Htc.
      rewrite <- sn_plus_add.
      assert (novel = sn_plus (c.(Consensus.watermark) - j) (sn_plus (j + overflow) c.(Consensus.seq_no))) as ->.
      { rewrite <- sn_plus_add. subst novel. f_equal. lia. }
      rewrite sn_cmp_plus by lia. done.
    + change (Consensus.watermark c2) with c.(Consensus.watermark) in *.
      destruct (Consensus.fill_from_tbo _ gof _ novel c2) as [sq c3] eqn:E. cbn [fst snd] in *.
      run. eexists. split; [reflexivity|]. rewrite F2. cbn [Consensus.watermark].
      replace (_ - length c3.(Consensus.decisions)) with 0 by (cbn in *; lia). cbn [Consensus.fill].
      cbn in F2, F4. split; [|cbn; by rewrite F2, F4].
      split; unfold views_ok; cbn; rewrite ?F2, ?F4, ?F5, ?H2, ?H5, ?H6; try done; [by destruct H1; split|].
      cbn. rewrite T1, Htc, T2, <- sn_plus_add. split; [|done]. subst novel. f_equal. lia.
Qed.

Lemma install_run lag c novel :
  inv lag c ->
  exists c', Consensus.install_sequence_number novel c.(Consensus.curr_view) c = mkRun (Ok tt) c' [] /\
    inv (lag + c.(Consensus.watermark)) c' /\ c'.(Consensus.seq_no) = novel /\
    c'.(Consensus.watermark) = c.(Consensus.watermark).
Proof.
  intros Hinv. unfold Consensus.install_sequence_number. run.
  assert (forall m lag', installs m novel lag' c -> lag' <= lag + c.(Consensus.watermark) ->
    exists c', (m ≫= fun _ => Consensus.install_checks novel) c = mkRun (Ok tt) c' [] /\
    inv (lag + c.(Consensus.watermark)) c' /\ c'.(Consensus.seq_no) = novel /\
    c'.(Consensus.watermark) = c.(Consensus.watermark)) as Hfin.
  { intros m lag' (c1 & Hm & Hi1 & Hs1 & Hw1 & Hv1) Hle. rewrite (bind_Ok_nil _ _ _ _ _ Hm).
    destruct (install_checks_ok novel lag' c1 Hi1 Hs1) as (c' & Hc & Hi' & [F1 F2 F3 F4]).
    exists c'. split_and!; [done|by eapply inv_lag_mono|congruence|congruence]. }
  pose proof (i_len _ _ Hinv) as Hlen. destruct (sn_index novel _) as [e|[|n]] eqn:Hidx.
  - apply (Hfin _ 0); [|lia]. by apply (install_behind_ok lag).
  - apply sn_index_sound in Hidx. apply (Hfin _ lag); [|lia]. exists c. by split_and!.
  - apply sn_index_sound in Hidx as ->. case_decide as Hl.
    + apply (Hfin _ 0); [|lia]. by apply (install_past_window_ok lag).
    + apply (Hfin _ (lag + S n)); [|lia]. apply install_in_window_ok; [done|lia].
Qed.

Lemma install_step lag c novel :
  inv lag c ->
  inv (lag + c.(Consensus.watermark)) (Consensus.install_sequence_number novel c.(Consensus.curr_view) c).(r_st).
Proof. intros Hinv. by destruct (install_run lag c novel Hinv) as (c' & -> & ? & _). Qed.

(** C15. [install_sequence_number] always succeeds: wherever the new number lies, its
    assertions hold and the subtraction does not underflow; afterwards the window
    is full, consecutive and starts at the new number, the tbo queue follows it,
    and every instance that needs a poll is signalled. *)
Theorem install_sequence_number_ok lag c novel :
  inv lag c ->
  exists c', Consensus.install_sequence_number novel c.(Consensus.curr_view) c = mkRun (Ok tt) c' [] /\
    inv (lag + c.(Consensus.watermark)) c' /\ c'.(Consensus.seq_no) = novel /\
    c'.(Consensus.watermark) = c.(Consensus.watermark).
Proof. apply install_run. Qed.

Lemma new_replica_inv node view s w guard :
  ViewInfo.wf view -> 0 < w <= sn_window ->
  inv 0 (Consensus.new_replica node view s w guard) /\
  (Consensus.new_replica node view s w guard).(Consensus.seq_no) = s /\
  (Consensus.new_replica node view s w guard).(Consensus.curr_view) = view.
Proof.
  intros Hwf Hb. unfold Consensus.new_replica. set (c0 := Consensus.mk _ _ _ _ _ _ _ _ _ _).
  destruct (fill_spec w view s 0 c0 s) as (Hw & Hlen & [F1 F2 F3 F4 F5 F6] & Ft); [by apply empty_window|done|done|].
  cbn in Hlen. split; [|by rewrite F3, F4].
  split; unfold views_ok; rewrite ?F2, ?F3, ?F4, ?F5, ?Ft, ?Hlen; cbn; try done.
Qed.

Lemma queue_all_inv lag ms c :
  inv lag c -> Forall (fun m => exists cm, consensus m.(message) = Ok cm) ms ->
  exists c', Consensus.queue_all ms c = mkRun (Ok tt) c' [] /\ inv lag c' /\ fixed c c'.
Proof.
  intros Hinv Hms. revert c Hinv. induction Hms as [|m ms [cm Hm] _ IH]; intros c Hinv; cbn.
  - exists c. split_and!; [done|done|apply fixed_refl].
  - destruct (window_queue_inv lag c m cm Hinv Hm) as (c1 & Hq & Hi & Hf). rewrite (bind_Ok_nil _ _ _ _ _ Hq).
    destruct (IH c1 Hi) as (c' & -> & Hi' & Hf'). exists c'. split_and!; [done|done|by eapply fixed_trans].
Qed.

(** *** Entering a view *)

(** What is left of the invariant when instances of several views are in the window: all that
    [install_view] builds on. *)
Record rebuildable (c : Consensus.t) : Prop := {
  rb_bounds : 0 < c.(Consensus.watermark) <= sn_window;
  rb_tbo : c.(Consensus.tbo_queue).(TboQueue.curr_seq) = c.(Consensus.seq_no) /\
           c.(Consensus.tbo_queue).(TboQueue.watermark) = c.(Consensus.watermark);
  rb_views : views_ok c;
}.

Lemma inv_rebuildable lag c : inv lag c -> rebuildable c.
Proof. by intros []. Qed.

(** The state [install_view] builds before it replays the queued messages. *)
Lemma install_view_mid c view rest :
  rebuildable c -> ViewInfo.wf view ->
  Forall (Forall (fun m => exists cm, consensus m.(message) = Ok cm)) rest ->
  inv 0 (Consensus.set_view_queue (tail rest)
    (Consensus.fill c.(Consensus.watermark) view c.(Consensus.seq_no)
       (Consensus.clear_all_queues (Consensus.on_guard (ProposerConsensusGuard.install_view view)
          (Consensus.set_curr_view view c))))).
Proof.
  intros [Hb Htbo Hvq] Hwf Hrest. set (c1 := Consensus.clear_all_queues _).
  edestruct (refill view c.(Consensus.seq_no) c1 (TboQueue.clear c.(Consensus.tbo_queue)))
    as (H1 & _); try done; [apply Htbo..|].
  destruct (fill_spec c.(Consensus.watermark) view c.(Consensus.seq_no) 0 c1 c.(Consensus.seq_no))
    as (_ & _ & [_ _ F3 _ _ _] & Ht); [by apply empty_window|done|done|].
  change (Consensus.watermark c1) with c.(Consensus.watermark) in *.
  set (c2 := Consensus.fill _ view _ c1) in *.
  assert (Consensus.set_seq_no c.(Consensus.seq_no)
    (Consensus.set_tbo_queue (TboQueue.clear c.(Consensus.tbo_queue)) c2) = c2) as E.
  { change (TboQueue.clear c.(Consensus.tbo_queue)) with (Consensus.tbo_queue c1). rewrite <- Ht.
    change c.(Consensus.seq_no) with (Consensus.seq_no c1). rewrite <- F3. by destruct c2. }
  rewrite E in *. apply set_view_queue_inv; [exact H1|]. by apply Forall_tail.
Qed.

(** No instance has started. *)
Definition fresh (c : Consensus.t) : Prop :=
  forall d, d ∈ c.(Consensus.decisions) -> d.(ConsensusDecision.phase) = Initialize.

Lemma fill_fresh n view s c : fresh c -> fresh (Consensus.fill n view s c).
Proof.
  revert s c. induction n as [|n IH]; intros s c Hc; cbn; [done|]. apply IH.
  intros d. cbn. rewrite elem_of_app, list_elem_of_singleton. intros [?| ->]; [by apply Hc|done].
Qed.

Lemma queue_fresh m (cm : ConsensusMessage) c :
  consensus m.(message) = Ok cm -> fresh c -> fresh (Consensus.queue m c).(r_st).
Proof.
  intros Hc Hf. unfold Consensus.queue. rewrite Hc. run.
  destruct (Consensus.route _ _ c) as [i| | |i]; [done|done|done|].
  destruct (Consensus.decisions c !! i) as [d|] eqn:Hd.
  - rewrite (on_decision_bind _ _ _ _ _ Hd). cbn zeta.
    destruct (ConsensusDecision.queue_run m cm d Hc) as [q ->]. cbn.
    intros x [j Hj]%list_elem_of_lookup. cbn in Hj. destruct (decide (i = j)) as [<-|Hne].
    + rewrite list_lookup_insert_eq in Hj by (by eapply lookup_lt_Some). simplify_eq. cbn.
      apply Hf. by eapply list_elem_of_lookup_2.
    + rewrite list_lookup_insert_ne in Hj by done. apply Hf. by eapply list_elem_of_lookup_2.
  - unfold mbind, M_bind, bind, Consensus.on_decision. rewrite Hd. done.
Qed.

Lemma queue_all_fresh lag ms c c' :
  inv lag c -> Forall (fun m => exists cm, consensus m.(message) = Ok cm) ms -> fresh c ->
  Consensus.queue_all ms c = mkRun (Ok tt) c' [] -> fresh c'.
Proof.
  intros Hinv Hms. revert c Hinv. induction Hms as [|m ms [cm Hm] _ IH]; intros c Hinv Hf; cbn.
  - by intros [= <-].
  - destruct (window_queue_inv lag c m cm Hinv Hm) as (c1 & Hq & Hi & _). rewrite (bind_Ok_nil _ _ _ _ _ Hq).
    apply IH; [done|]. pose proof (queue_fresh m cm c Hm Hf) as H. by rewrite Hq in H.
Qed.

(** Installing a later view restarts every instance of the window in that view. *)
Lemma install_view_entered c view n :
  rebuildable c -> ViewInfo.wf view ->
  sn_index view.(ViewInfo.seq) c.(Consensus.curr_view).(ViewInfo.seq) = inr (S n) ->
  exists c', Consensus.install_view view c = mkRun (Ok tt) c' [] /\ inv 0 c' /\ fresh c' /\
    c'.(Consensus.seq_no) = c.(Consensus.seq_no) /\ c'.(Consensus.watermark) = c.(Consensus.watermark) /\
    c'.(Consensus.node_id) = c.(Consensus.node_id) /\ c'.(Consensus.curr_view) = view.
Proof.
  intros Hrb Hwf Hidx. unfold Consensus.install_view. run. unfold ViewInfo.sequence_number. rewrite Hidx. run.
  match goal with |- context [Consensus.fill _ view _ ?x] => set (c1 := x) end.
  change (Consensus.watermark c1) with c.(Consensus.watermark). change (length (Consensus.decisions c1)) with 0.
  change (Consensus.sequence_number c1) with c.(Consensus.seq_no). rewrite Nat.sub_0_r.
  destruct (fill_spec c.(Consensus.watermark) view c.(Consensus.seq_no) 0 c1 c.(Consensus.seq_no))
    as (_ & _ & [F1 F2 F3 F4 _ _] & _); [by apply empty_window|done|done|].
  set (rest := drop _ _).
  assert (Forall (Forall (fun m => exists cm, consensus m.(message) = Ok cm)) rest) as Hrest
    by (apply Forall_drop, Hrb).
  pose proof (install_view_mid c view rest Hrb Hwf Hrest) as Hi2. fold c1 in Hi2.
  set (c2 := Consensus.fill _ view _ c1) in *.
  assert (fresh c2) as Hf2 by (apply fill_fresh; by intros d ?%elem_of_nil).
  destruct rest as [|ms rest]; cbn.
  - eexists. split; [reflexivity|]. by split_and!.
  - apply Forall_cons in Hrest as [Hms _].
    cbn [tail] in Hi2. destruct (queue_all_inv 0 ms _ Hi2 Hms) as (c' & Hq & Hi' & [G1 G2 G3 G4]).
    pose proof (queue_all_fresh 0 ms _ c' Hi2 Hms Hf2 Hq) as Hf'.
    exists c'. rewrite Hq. split; [done|]. split; [done|]. cbn in *. split_and!; [done|congruence..].
Qed.

Lemma install_view_ok lag c view :
  inv lag c -> ViewInfo.wf view ->
  exists c', Consensus.install_view view c = mkRun (Ok tt) c' [] /\ inv lag c' /\
    c'.(Consensus.seq_no) = c.(Consensus.seq_no) /\ c'.(Consensus.watermark) = c.(Consensus.watermark) /\
    c'.(Consensus.node_id) = c.(Consensus.node_id) /\
    c'.(Consensus.curr_view) =
      match sn_index view.(ViewInfo.seq) c.(Consensus.curr_view).(ViewInfo.seq) with
      | inr (S _) => view
      | _ => c.(Consensus.curr_view)
      end.
Proof.
  intros Hinv Hwf. destruct (sn_index _ _) as [e|[|n]] eqn:Hidx.
  3: { destruct (install_view_entered c view n (inv_rebuildable _ _ Hinv) Hwf Hidx) as (c' & ? & Hi & _ & ?).
       exists c'. split_and!; [done|eapply inv_lag_mono; [|exact Hi]; lia|tauto..]. }
  all: exists c; unfold Consensus.install_view; run; unfold ViewInfo.sequence_number; rewrite Hidx; by split_and!.
Qed.

(** ** Total order *)

Lemma awake_quiescent d : ~ awake d -> Progress.quiescent d.
Proof.
  unfold awake, Progress.quiescent, ConsensusDecision.poll. destruct d as [n s ph [g pp p cc] l a]. cbn.
  destruct ph, g; cbn; try tauto; intros H; destruct H; right; done.
Qed.

(** [Recv] is only reported when the first instance cannot be finalized. *)
Lemma poll_recv_final fuel c c' :
  Consensus.poll_loop fuel c = mkRun (Ok (Some CPRecv)) c' [] -> Consensus.can_finalize c' = false.
Proof.
  revert c. induction fuel as [|fuel IH]; intros c; cbn [Consensus.poll_loop]; [done|]. run.
  destruct (Signals.pop_signalled _) as [[sg g]|].
  2: { destruct (Consensus.can_finalize c) eqn:E; [done|]. by intros [= <-]. }
  run. destruct (sn_index _ _) as [e|i]; [apply IH|].
  destruct (Consensus.decisions c !! i) as [d|] eqn:Hd.
  - rewrite (on_decision_bind i _ _ (Consensus.set_signalled g c) d Hd). cbn zeta.
    destruct (ConsensusDecision.poll d) as [st d']. cbn [r_out r_st r_eff]. rewrite prepend_nil.
    destruct st; run; [apply IH..|done|apply IH].
  - unfold mbind, M_bind, bind, Consensus.on_decision. cbn. rewrite Hd. done.
Qed.

Lemma finalize_run lag c :
  inv lag c ->
  let r := Consensus.finalize c.(Consensus.curr_view) c in
  (exists c' b eff, r = mkRun (Ok (Some b)) c' eff /\ Consensus.can_finalize c = true /\
     b.(cb_seq) = c.(Consensus.seq_no) /\ c'.(Consensus.seq_no) = sn_next c.(Consensus.seq_no) /\
     inv (S lag) c' /\ sent eff = []) \/
  (r = mkRun (Ok None) c [] /\ Consensus.can_finalize c = false).
Proof.
  intros Hinv. cbn zeta. unfold Consensus.finalize, Consensus.can_finalize. run.
  destruct (next_instance_spec lag c Hinv) as (d & rest & c' & eff & Hd & Hnext & Hsent & Hi' & Hs & _ & _).
  rewrite Hd. cbn. destruct (ConsensusDecision.is_finalizeable d) eqn:Hf; [left|by right].
  rewrite (bind_Ok _ _ _ _ _ _ Hnext).
  pose proof (i_window _ _ Hinv) as Hw.
  pose proof (w_ok _ _ _ _ Hw d ltac:(rewrite Hd; left)) as [_ Hdi _ _].
  pose proof (w_seq _ _ _ _ Hw 0 d ltac:(by rewrite Hd)) as Hseq.
  assert (d.(ConsensusDecision.phase) = PhaseDecided) as Hph by by apply bool_decide_eq_true in Hf.
  pose proof (ConsensusDecision.d_phase _ _ Hdi) as Hp. rewrite Hph in Hp. destruct Hp as (Hfull & _).
  destruct (WorkingDecisionLog.finish_ok _ (ConsensusDecision.d_log _ _ Hdi) Hfull)
    as (dg & ord & pps & reqs & _ & _ & _ & _ & Hfin).
  unfold ConsensusDecision.finalize. rewrite Hph, Hfin. cbn. run. unfold ret, prepend. cbn.
  eexists c', _, _. split; [reflexivity|]. rewrite app_nil_r. split_and!; try done. cbn.
  rewrite (ConsensusDecision.d_seq _ _ Hdi), Hseq. done.
Qed.

Lemma finalize_step lag c :
  inv lag c -> inv (S lag) (Consensus.finalize c.(Consensus.curr_view) c).(r_st) /\
    (Consensus.finalize c.(Consensus.curr_view) c).(r_out) <> Panic.
Proof.
  intros Hinv. destruct (finalize_run lag c Hinv) as [(c' & b & eff & -> & _ & _ & _ & ? & _)|[-> _]]; [done|].
  split; [|done]. eapply inv_lag_mono; [|exact Hinv]. lia.
Qed.

(** Batches are finalized one after the other, without gaps or repetitions:
    [finalize] hands out the batch of the oldest instance if that one is decided,
    moves the window on by one, and otherwise changes nothing. It never panics and never
    fails. *)
Theorem finalize_in_order lag c :
  inv lag c ->
  let r := Consensus.finalize c.(Consensus.curr_view) c in
  (exists c' b eff, r = mkRun (Ok (Some b)) c' eff /\ Consensus.can_finalize c = true /\
     b.(cb_seq) = c.(Consensus.seq_no) /\ c'.(Consensus.seq_no) = sn_next c.(Consensus.seq_no) /\
     inv (S lag) c' /\ sent eff = []) \/
  (r = mkRun (Ok None) c [] /\ Consensus.can_finalize c = false).
Proof. apply finalize_run. Qed.

Lemma poll_run lag c :
  inv lag c -> lag <= sn_window ->
  exists st c', Consensus.poll c = mkRun (Ok (Some st)) c' [] /\ inv lag c' /\ fixed c c' /\ poll_done c' st.
Proof.
  intros Hinv Hlag. apply poll_loop_spec; [done|done|].
  unfold poll_measure, Consensus.poll_fuel, initializing.
  pose proof (length_filter (fun d => d.(ConsensusDecision.phase) = Initialize) c.(Consensus.decisions)). lia.
Qed.

(** C14. Polling terminates within its fuel, without panicking on a signal whose instance is gone,
    and misses nobody: when it reports that there is nothing to do, no
    instance of the window has a message to handle or a proposal to announce. *)
Theorem poll_correct lag c :
  inv lag c -> lag <= sn_window ->
  exists st c', Consensus.poll c = mkRun (Ok (Some st)) c' [] /\ inv lag c' /\
    c'.(Consensus.seq_no) = c.(Consensus.seq_no) /\
    (match st with
     | CPNextMessage m => exists cm, consensus m.(message) = Ok cm
     | _ => forall d, d ∈ c'.(Consensus.decisions) -> Progress.quiescent d
     end) /\
    (st = CPRecv -> Consensus.can_finalize c' = false).
Proof.
  intros Hinv Hlag. destruct (poll_run lag c Hinv Hlag) as (st & c' & Hrun & Hi & [F1 F2 F3 F4] & Hd).
  exists st, c'. split_and!; try done.
  - destruct st; try done; intros d Hdd; apply awake_quiescent; by apply Hd.
  - intros ->. exact (poll_recv_final _ _ _ Hrun).
Qed.

(** ** View changes *)

(** Leaving Initialize without a proposal keeps an instance well-formed. *)
Lemma skip_ok view node d :
  ViewInfo.wf view -> instance_ok view node d -> d.(ConsensusDecision.phase) = Initialize ->
  instance_ok view node (ConsensusDecision.skip_init_phase d).
Proof.
  intros Hwf Hok Hph. destruct (poll_instance _ _ d Hwf Hok) as (Hok' & _ & _).
  unfold ConsensusDecision.poll in Hok'. rewrite Hph in Hok'. by destruct (ConsensusDecision.message_queue d).
Qed.

Lemma finalize_view_change_run c rng h message new_view (sy : Sy) n :
  rebuildable c -> ViewInfo.wf new_view -> sy_view sy = new_view ->
  sn_index new_view.(ViewInfo.seq) c.(Consensus.curr_view).(ViewInfo.seq) = inr (S n) ->
  let r := Consensus.finalize_view_change rng h message new_view sy c in
  r.(r_out) <> Panic /\ inv 0 r.(r_st) /\ r.(r_st).(Consensus.curr_view) = new_view /\
  r.(r_st).(Consensus.seq_no) = c.(Consensus.seq_no) /\
  (forall st, r.(r_out) = Ok st ->
     r.(r_st).(Consensus.consensus_guard).(ProposerConsensusGuard.can_propose) = true).
Proof.
  intros Hrb Hwf Hsy Hidx. cbn zeta. unfold Consensus.finalize_view_change.
  destruct (install_view_entered c new_view n Hrb Hwf Hidx) as (c1 & Hiv & Hi1 & Hfr & Hs1 & Hw1 & Hn1 & Hv1).
  rewrite (bind_Ok_nil _ _ _ _ _ Hiv).
  match goal with |- context [(?m ≫= ?k) c1] => match m with match _ with _ => _ end => set (K := k) end end.
  assert (exists c2, (match cm_kind message with
     | PrePrepare reqs => modify (Consensus.on_guard
         (ProposerConsensusGuard.install_sync_message_requests (rq_info <$> reqs)))
     | _ => ret tt end ≫= K) c1 = K tt c2 /\ inv 0 c2 /\ fresh c2 /\ fixed c1 c2) as (c2 & -> & Hi2 & Hf2 & [G1 G2 G3 G4]).
  { destruct (cm_kind message); run; eexists; (split; [reflexivity|]); split_and!; try done;
      by apply guard_inv. }
  subst K. cbn beta. pose proof (i_len _ _ Hi2) as Hl. pose proof (i_bounds _ _ Hi2).
  destruct (lookup_lt_is_Some_2 c2.(Consensus.decisions) 0) as [d Hd]; [lia|].
  rewrite (on_decision_bind _ _ _ _ _ Hd). cbn zeta. cbn [r_out r_st r_eff modify]. rewrite prepend_nil.
  set (c3 := Consensus.set_decisions _ c2).
  assert (inv 0 c3) as Hi3.
  { pose proof (list_elem_of_lookup_2 _ _ _ Hd) as Hin. specialize (Hf2 d Hin).
    eapply (instance_inv 0 c2 0 d (ConsensusDecision.skip_init_phase d)); try done.
    - apply skip_ok; [apply (i_view _ _ Hi2)|by apply (w_ok _ _ _ _ (i_window _ _ Hi2))|done].
    - left. split; [done|]. intros _. by left. }
  destruct (process_message_inv 0 c3 rng sy (mkStored h (Consensus message)) message Hi3) as (Hi4 & [K1 K2 K3 K4] & Hnp);
    [cbn; congruence|done|].
  unfold mbind, M_bind, bind. destruct (Consensus.process_message rng sy _ c3) as [out c4 eff]. cbn in *.
  destruct out as [st|e|]; cbn; [|split_and!; try done; congruence|done].
  split_and!; try done; [by apply guard_inv|congruence..].
Qed.

(** Entering the view agreed on by the synchronizer: every instance of the window restarts
    in the new view at the same sequence number, the proposal carried by the view
    change is handed to the first instance without letting the proposer near it,
    and the handler neither panics nor leaves the window inconsistent. *)
Theorem finalize_view_change_ok lag c rng h message new_view (sy : Sy) n :
  inv lag c -> ViewInfo.wf new_view -> sy_view sy = new_view ->
  sn_index new_view.(ViewInfo.seq) c.(Consensus.curr_view).(ViewInfo.seq) = inr (S n) ->
  let r := Consensus.finalize_view_change rng h message new_view sy c in
  r.(r_out) <> Panic /\ inv 0 r.(r_st) /\ r.(r_st).(Consensus.curr_view) = new_view /\
  r.(r_st).(Consensus.seq_no) = c.(Consensus.seq_no) /\
  (forall st, r.(r_out) = Ok st ->
     r.(r_st).(Consensus.consensus_guard).(ProposerConsensusGuard.can_propose) = true).
Proof. intros Hinv. apply finalize_view_change_run, (inv_rebuildable _ _ Hinv). Qed.

(** Catching up on the way into another view: the new instance is of that view. *)
Lemma next_instance_other view c d c' eff :
  rebuildable c -> Consensus.next_instance view c = mkRun (Ok d) c' eff ->
  rebuildable c' /\ c'.(Consensus.seq_no) = sn_next c.(Consensus.seq_no) /\
  c'.(Consensus.curr_view) = c.(Consensus.curr_view).
Proof.
  intros [Hb [Ht1 Ht2] Hv]. unfold Consensus.next_instance. run. destruct (Consensus.decisions c) as [|d0 rest]; [done|].
  run. rewrite advance_queue_spec. set (q := MessageQueue.from_messages _ _ _).
  destruct (negb (MessageQueue.is_signalled q) && Consensus.is_recovering c); run; intros [= <- <- <-];
    (split; [|done]); split; cbn; try done; by rewrite Ht1, Ht2.
Qed.

Lemma catch_up_other view c l proof dec c' l' eff :
  rebuildable c -> Consensus.catch_up_to_quorum view proof (c, l) = mkRun (Ok dec) (c', l') eff ->
  rebuildable c' /\ c'.(Consensus.seq_no) = sn_next c.(Consensus.seq_no) /\
  c'.(Consensus.curr_view) = c.(Consensus.curr_view) /\
  forall s, Log.last_execution l = Some s ->
    DecProof.sequence_number proof = sn_next s /\ Log.last_proof l' = Some proof.
Proof.
  intros Hrb. unfold Consensus.catch_up_to_quorum. intros H.
  apply bind_inv in H as (d & s1 & ? & ? & H0 & H & ->).
  apply zoom_inv in H0 as (l1 & H0 & ->). apply bind_inv in H as (d' & s2 & ? & ? & H1 & H & ->).
  apply zoom_inv in H1 as (c1 & H1 & ->). inv_run H. cbn in *.
  destruct (next_instance_other _ _ _ _ _ Hrb H1) as (? & ? & ?). split_and!; [done..|].
  intros s Hs. pose proof (Log.install_proof_run (W := Effect) proof l) as Hrun. cbn zeta in Hrun.
  rewrite Hs, H0 in Hrun. unfold Log.installed in Hrun.
  destruct (sn_index _ s) as [e|[|[|n]]] eqn:Hidx; cbn in Hrun; try done.
  apply sn_index_sound in Hidx. split; [done|].
  destruct (decision_from_proof proof); [|done..]. injection Hrun as -> -> ->. done.
Qed.

(** Catching up from the proof of the last decision of the quorum: on success
    the log records it and the window moves on by one; a proof that is not the
    successor of the last decision is refused and nothing changes. *)
Theorem catch_up_ok lag c l proof s :
  inv lag c -> Log.last_execution l = Some s ->
  let r := Consensus.catch_up_to_quorum c.(Consensus.curr_view) proof (c, l) in
  (forall dec, r.(r_out) = Ok dec ->
     DecProof.sequence_number proof = sn_next s /\ Log.last_proof r.(r_st).2 = Some proof /\
     r.(r_st).1.(Consensus.seq_no) = sn_next c.(Consensus.seq_no) /\ inv (S lag) r.(r_st).1) /\
  (forall e, r.(r_out) = Err e -> r.(r_st) = (c, l)).
Proof.
  intros Hinv Hl. cbn zeta. unfold Consensus.catch_up_to_quorum.
  pose proof (Log.install_proof_run (W := Effect) proof l) as Hrun. cbn zeta in Hrun. rewrite Hl in Hrun.
  unfold zoom, mbind, M_bind, bind. cbn. rewrite Hrun.
  pose proof (Log.decision_from_proof_no_err proof) as Hne. unfold Log.installed.
  destruct (sn_index _ s) as [e|[|[|n]]] eqn:Hidx; cbn; try (split; [done|]; by intros e' [= <-]).
  apply sn_index_sound in Hidx.
  destruct (decision_from_proof proof) as [pcd|e|]; cbn; [|by destruct (Hne e)|done].
  destruct (next_instance_spec lag c Hinv) as (d & rest & c' & eff & _ & -> & _ & Hi' & Hs & _). cbn.
  split; [|done]. intros dec _. done.
Qed.

(** ** Messages ahead of the window *)

Definition by_kind (k : ConsensusMessageKind) (q : MessageQueue.t) : list Shareable :=
  match k with
  | PrePrepare _ => q.(MessageQueue.pre_prepares)
  | Prepare _ => q.(MessageQueue.prepares)
  | Commit _ => q.(MessageQueue.commits)
  end.

Definition buckets_of (k : ConsensusMessageKind) (q : TboQueue.t) : list (list Shareable) :=
  match k with
  | PrePrepare _ => q.(TboQueue.pre_prepares)
  | Prepare _ => q.(TboQueue.prepares)
  | Commit _ => q.(TboQueue.commits)
  end.

Lemma iter_buckets j i k q :
  bucket i (buckets_of k (Nat.iter j TboQueue.next_instance_queue q)) = bucket (j + i) (buckets_of k q).
Proof.
  revert i. induction j as [|j IH]; intros i; [done|]. cbn [Nat.iter nat_rect].
  change (nat_rect _ _ _ j) with (Nat.iter j TboQueue.next_instance_queue q).
  rewrite next_instance_queue_spec, advance_queue_spec.
  transitivity (bucket (S i) (buckets_of k (Nat.iter j TboQueue.next_instance_queue q))).
  - destruct k; cbn; by rewrite bucket_tail.
  - rewrite IH. f_equal. lia.
Qed.

(** A message for an instance ahead of the window is not lost: queued [j] instances past the
    window, it is in the queue the instance starts with once the window
    has moved that far, whichever way the window moved. *)
Theorem tbo_delivers (q : TboQueue.t) (m : Shareable) (cm : ConsensusMessage) j :
  q.(TboQueue.watermark) <= sn_window -> j <= sn_window ->
  m.(message) = Consensus cm ->
  cm.(cm_seq) = sn_plus (j + q.(TboQueue.watermark)) q.(TboQueue.curr_seq) ->
  exists q', TboQueue.queue (W := Effect) m q = mkRun (Ok tt) q' [] /\
    let r := TboQueue.advance_queue (Nat.iter j TboQueue.next_instance_queue q') in
    m ∈ by_kind cm.(cm_kind) r.1 /\ MessageQueue.is_signalled r.1 = true /\
    r.2.(TboQueue.curr_seq) = sn_plus (S j) q.(TboQueue.curr_seq).
Proof.
  intros Hw Hj Hm Hs. unfold TboQueue.queue. rewrite Hm. cbn. run.
  assert (sn_index cm.(cm_seq) (TboQueue.base_seq q) = inr j) as Hidx.
  { rewrite base_seq_plus, Hs, sn_plus_add by done. by apply sn_index_plus. }
  assert (forall q', bucket j (buckets_of cm.(cm_kind) q') = bucket j (buckets_of cm.(cm_kind) q) ++ [m] ->
    q'.(TboQueue.curr_seq) = q.(TboQueue.curr_seq) ->
    let r := TboQueue.advance_queue (Nat.iter j TboQueue.next_instance_queue q') in
    m ∈ by_kind cm.(cm_kind) r.1 /\ MessageQueue.is_signalled r.1 = true /\
    r.2.(TboQueue.curr_seq) = sn_plus (S j) q.(TboQueue.curr_seq)) as Hq.
  { intros q' Hb Hc. cbn zeta. rewrite advance_queue_spec.
    assert (m ∈ bucket 0 (buckets_of cm.(cm_kind) (Nat.iter j TboQueue.next_instance_queue q'))) as Hin.
    { rewrite iter_buckets, Nat.add_0_r, Hb. apply elem_of_app. right. by left. }
    destruct (iter_tbo j q') as (T1 & _). cbn. rewrite T1, Hc. split; [by destruct (cm_kind cm)|split; [|done]].
    destruct (cm_kind cm); cbn in Hin; destruct (bucket 0 _); cbn; rewrite ?orb_true_r; try done;
      try (by apply elem_of_nil in Hin). }
  destruct (cm_kind cm) eqn:Hk; eexists; (split; [reflexivity|]); apply Hq; cbn; try done;
    rewrite bucket_queued, Hm; cbn; rewrite Hidx, decide_True by done; done.
Qed.

(** ** Executions *)

(** The operations of the replica thread on its window, in the view it is in.
    [lag] bounds how far the window moved since signals were last drained. *)
Inductive op (lag : nat) (c : Consensus.t) : nat -> Consensus.t -> Prop :=
  | op_poll st c' : lag <= sn_window -> Consensus.poll c = mkRun (Ok (Some st)) c' [] ->
      op lag c (match st with CPNextMessage _ => lag | _ => 0 end) c'
  | op_message rng (sy : Sy) m cm :
      sy_view sy = c.(Consensus.curr_view) -> consensus m.(message) = Ok cm ->
      op lag c lag (Consensus.process_message rng sy m c).(r_st)
  | op_queue m cm : consensus m.(message) = Ok cm -> op lag c lag (Consensus.queue m c).(r_st)
  | op_finalize : op lag c (S lag) (Consensus.finalize c.(Consensus.curr_view) c).(r_st)
  | op_catch_up : op lag c (S lag) (Consensus.next_instance c.(Consensus.curr_view) c).(r_st)
  | op_install_seq novel :
      op lag c (lag + c.(Consensus.watermark))
        (Consensus.install_sequence_number novel c.(Consensus.curr_view) c).(r_st)
  | op_install_view view : ViewInfo.wf view -> op lag c lag (Consensus.install_view view c).(r_st)
  | op_tick i j d : c.(Consensus.decisions) !! i = Some d ->
      op lag c lag (Consensus.set_decisions (<[i := ConsensusDecision.set_accessory
        (accessory_tick j d.(ConsensusDecision.accessory)) d]> c.(Consensus.decisions)) c).

Inductive reachable (c0 : Consensus.t) : nat -> Consensus.t -> Prop :=
  | reachable_init : reachable c0 0 c0
  | reachable_op lag c lag' c' : reachable c0 lag c -> op lag c lag' c' -> reachable c0 lag' c'.

Lemma drained_inv lag c : inv lag c -> c.(Consensus.signalled).(Signals.signaled_seq_no) = [] -> inv 0 c.
Proof.
  intros [[H1 H2 H3 H4 H5] ? ? ? ? ? ?] Hs. split; try done. split; try done.
  intros x Hx. unfold signalled_at in Hx. rewrite Hs in Hx. by apply elem_of_nil in Hx.
Qed.

Lemma op_inv lag c lag' c' : inv lag c -> op lag c lag' c' -> inv lag' c'.
Proof.
  intros Hinv Hop. destruct Hop as [st c' Hlag Hrun|rng sy m cm Hsy Hc|m cm Hc| | |novel|view Hwf|i j d Hd].
  - destruct (poll_run lag c Hinv Hlag) as (st' & c1 & Hrun' & Hi & _ & Hdn). rewrite Hrun in Hrun'. injection Hrun' as -> ->.
    destruct st'; try done; (eapply drained_inv; [done|apply Hdn]).
  - by apply (process_message_inv lag c rng sy m cm).
  - by destruct (window_queue_inv lag c m cm Hinv Hc) as (c1 & -> & ? & _).
  - destruct (finalize_step lag c Hinv) as [H _]. exact H.
  - by destruct (next_instance_spec lag c Hinv) as (d & rest & c1 & eff & _ & -> & _ & ? & _).
  - exact (install_step lag c novel Hinv).
  - by destruct (install_view_ok lag c view Hinv Hwf) as (c1 & -> & ? & _).
  - pose proof (w_ok _ _ _ _ (i_window _ _ Hinv) d (list_elem_of_lookup_2 _ _ _ Hd)) as [Hn Hdi Hk Hf].
    apply (instance_inv lag c i d (ConsensusDecision.set_accessory
      (accessory_tick j d.(ConsensusDecision.accessory)) d)); [done|done| |done|by left].
    split; try done. by apply ConsensusDecision.tick_preserves.
Qed.

Lemma window_reachable_inv node view s w guard lag c :
  ViewInfo.wf view -> 0 < w <= sn_window -> reachable (Consensus.new_replica node view s w guard) lag c -> inv lag c.
Proof. intros Hwf Hw. induction 1 as [|lag c lag' c' _ IH Hop]; [by apply new_replica_inv|by eapply op_inv]. Qed.

(** C12. The window in every reachable state: [watermark] consecutive instances
    starting at the current sequence number, with the tbo queue in step; no wake-up is
    lost: an instance that has messages to look at or a proposal to announce is
    signalled, exactly once. *)
Theorem window_invariant node view s w guard lag c :
  ViewInfo.wf view -> 0 < w <= sn_window ->
  reachable (Consensus.new_replica node view s w guard) lag c ->
  length c.(Consensus.decisions) = c.(Consensus.watermark) /\
  (forall i d, c.(Consensus.decisions) !! i = Some d ->
     d.(ConsensusDecision.seq) = sn_plus i c.(Consensus.seq_no) /\
     ConsensusDecision.inv c.(Consensus.curr_view) d /\
     (awake d -> d.(ConsensusDecision.seq) ∈ c.(Consensus.signalled).(Signals.signaled_seq_no))) /\
  NoDup c.(Consensus.signalled).(Signals.signaled_seq_no) /\
  c.(Consensus.tbo_queue).(TboQueue.curr_seq) = c.(Consensus.seq_no).
Proof.
  intros Hwf Hw Hr. destruct (window_reachable_inv _ _ _ _ _ _ _ Hwf Hw Hr) as [Hwin Hlen _ [Ht _] _ _ _].
  split_and!; [done| |apply (w_signals _ _ _ _ Hwin)|done].
  intros i d Hd. pose proof (list_elem_of_lookup_2 _ _ _ Hd) as Hin. split_and!.
  - exact (w_seq _ _ _ _ Hwin _ _ Hd).
  - exact (io_inv _ _ _ (w_ok _ _ _ _ Hwin d Hin)).
  - exact (w_awake _ _ _ _ Hwin d Hin).
Qed.

(** PRE-PREPAREs, PREPAREs, COMMITs. *)
Definition typed (pp p cc : list Shareable) : Prop :=
  Forall (fun m => exists k rqs, consensus m.(message) = Ok k /\ k.(cm_kind) = PrePrepare rqs) pp /\
  Forall (fun m => exists k dg, consensus m.(message) = Ok k /\ k.(cm_kind) = Prepare dg) p /\
  Forall (fun m => exists k dg, consensus m.(message) = Ok k /\ k.(cm_kind) = Commit dg) cc.

(** C13. The queues are typed.  In every state of a window the queues of its instances and the buckets past the window hold PRE-PREPAREs, PREPAREs
    and COMMITs in the queue of that name and nothing else, and the queue of other views holds consensus messages: taking a message from a queue never meets one
    that its phase cannot handle. *)
Theorem queues_typed node view s w guard lag c :
  ViewInfo.wf view -> 0 < w <= sn_window ->
  reachable (Consensus.new_replica node view s w guard) lag c ->
  (forall d, d ∈ c.(Consensus.decisions) -> let q := d.(ConsensusDecision.message_queue) in
     typed q.(MessageQueue.pre_prepares) q.(MessageQueue.prepares) q.(MessageQueue.commits)) /\
  (forall i, let q := c.(Consensus.tbo_queue) in
     typed (bucket i q.(TboQueue.pre_prepares)) (bucket i q.(TboQueue.prepares)) (bucket i q.(TboQueue.commits))) /\
  Forall (Forall (fun m => exists k, consensus m.(message) = Ok k)) c.(Consensus.view_queue).
Proof.
  intros Hwf Hw Hr. destruct (window_reachable_inv _ _ _ _ _ _ _ Hwf Hw Hr) as [Hwin _ _ _ Hk _ Hv].
  assert (forall q, Progress.queue_kinds q -> typed q.(MessageQueue.pre_prepares) q.(MessageQueue.prepares) q.(MessageQueue.commits)) as Ht.
  { intros q (H1 & H2 & H3). split_and!; (eapply Forall_impl; [eassumption|]); intros m (k & Hc & HP)%Progress.kind_consensus;
      destruct (cm_kind k) as [rqs|d|d] eqn:E; try done; eauto. }
  split_and!; [|intros i; exact (Ht _ (Hk i))|exact Hv]. intros d Hd. exact (Ht _ (io_kinds _ _ _ (w_ok _ _ _ _ Hwin d Hd))).
Qed.
End facts.
End ConsensusFacts.
