(* ===== verification/Offers.v ===== *)
(** * Which numbers the proposer is given

    The guard hands sequence numbers from the window of instances to the proposer.  Within one view
    no number is handed out twice while no installed number sets the window back, so a correct leader does not send two PRE-PREPAREs for one instance. *)
From S2P Require Import Prelude Atlas Errors View Messages Decisions Deciding Log Network.
From S2P Require Import SyncAccessory Accessory Decision Progress Consensus ConsensusFacts.

Module Offers.
Section offers.
Context {A : Atlas} {D : AtlasDecisions} {WF : WireFormat} {Sy : Type} {SH : SyncHandle Sy}.
Context {SL : SyncHandleLaws Sy} {L : AtlasLaws}.
Import ConsensusFacts.

Abbreviation decisions := Consensus.decisions.
Abbreviation seq_no := Consensus.seq_no.
Abbreviation phase := ConsensusDecision.phase.
Abbreviation guard_queue c := (ProposerConsensusGuard.seq_no_queue c.(Consensus.consensus_guard)).

(** Sequence numbers have not wrapped around. *)
Definition bounded (c : Consensus.t) : Prop := (c.(seq_no) + N.of_nat (length c.(decisions)) <= sn_max)%N.
#[global] Instance bounded_dec c : Decision (bounded c) := N.le_dec _ _.

(** No signal is too old to be told from one of the window. *)
Definition recent (c : Consensus.t) (s : SeqNo) : bool :=
  match sn_index c.(seq_no) s with
  | inr n => bool_decide (n <= sn_window)
  | inl _ => match sn_index s c.(seq_no) with inr i => bool_decide (i < length c.(decisions)) | inl _ => false end
  end.
Definition signals_recent (c : Consensus.t) : Prop := forallb (recent c) c.(Consensus.signalled).(Signals.signaled_seq_no) = true.
#[global] Instance signals_recent_dec c : Decision (signals_recent c) := decide (_ = true).

Lemma recent_inv lag c : inv lag c -> signals_recent c -> inv sn_window c.
Proof.
  intros [[H1 H2 H3 H4 H5] Hl Hb Ht Hk Hv Hvs] Hr. split; try done. split; try done. intros s Hs.
  unfold signals_recent in Hr. rewrite forallb_forall in Hr. specialize (Hr s (proj1 (list_elem_of_In _ _) Hs)). unfold recent in Hr.
  destruct (sn_index (seq_no c) s) as [e|n] eqn:E.
  - destruct (sn_index s (seq_no c)) as [|i] eqn:E'; [done|]. apply bool_decide_eq_true in Hr. apply sn_index_sound in E'. left. eauto.
  - apply bool_decide_eq_true in Hr. apply sn_index_sound in E. destruct n as [|n]; [|right; exists (S n); split; [lia|done]].
    left. exists 0. split; [rewrite Hl; lia|]. unfold sn_plus in *. cbn in *. done.
Qed.

Lemma sn_plus_num i : forall s, (s + N.of_nat i <= sn_max)%N -> sn_plus i s = (s + N.of_nat i)%N.
Proof.
  induction i as [|i IH]; intros s Hs; [unfold sn_plus; cbn; lia|].
  rewrite sn_plus_S, sn_next_succ by lia. rewrite IH; lia.
Qed.

Lemma inv_recent lag c : inv lag c -> lag <= sn_window -> signals_recent c.
Proof.
  intros [[H1 H2 H3 H4 H5] Hl Hb Ht Hk Hv Hvs] Hlag. unfold signals_recent. rewrite forallb_forall. intros s Hs%list_elem_of_In. unfold recent.
  destruct (H4 s Hs) as [(i & Hi & ->)|(n & Hn & ->)].
  - destruct i as [|i].
    + change (sn_plus 0 (seq_no c)) with (seq_no c).
      pose proof (sn_index_plus 0 (seq_no c) ltac:(lia)) as E. change (sn_plus 0 (seq_no c)) with (seq_no c) in E. rewrite E.
      apply bool_decide_eq_true. lia.
    + destruct (sn_index_behind (S i) (seq_no c)) as [e ->]; [lia|]. rewrite sn_index_plus by lia. by apply bool_decide_eq_true.
  - rewrite sn_index_plus by lia. apply bool_decide_eq_true. lia.
Qed.

(** ** The numbers offered so far, waiting in the guard or taken *)
Record offered_ok (v : ViewInfo.t) (c : Consensus.t) (taken : list SeqNo) : Prop := {
  oo_nodup : NoDup ((guard_queue c).1 ++ taken);
  oo_below : forall s, s ∈ (guard_queue c).1 ++ taken -> (s < c.(seq_no) + N.of_nat (length c.(decisions)))%N;
  oo_started : forall s i d, s ∈ (guard_queue c).1 ++ taken -> c.(decisions) !! i = Some d ->
    s = sn_plus i c.(seq_no) -> d.(phase) <> Initialize;
  oo_view : (guard_queue c).2 = v;
}.

(** A step that offers nothing and takes no instance back to its first phase. *)
Record quiet (c c' : Consensus.t) : Prop := {
  q_seq : c'.(seq_no) = c.(seq_no);
  q_len : length c'.(decisions) = length c.(decisions);
  q_guard : guard_queue c' = guard_queue c;
  q_phase : forall i d', c'.(decisions) !! i = Some d' -> d'.(phase) = Initialize ->
    exists d, c.(decisions) !! i = Some d /\ d.(phase) = Initialize;
}.

Lemma quiet_refl c : quiet c c.
Proof. split; eauto. Qed.

Lemma quiet_offered v c c' taken : quiet c c' -> offered_ok v c taken -> offered_ok v c' taken.
Proof.
  intros [Hs Hl Hg Hp] [H1 H2 H3 H4]. split; rewrite ?Hs, ?Hl, ?Hg; [done..| |done].
  intros s i d' Hin Hd' -> Hi. destruct (Hp i d' Hd' Hi) as (d & Hd & Hi'). by apply (H3 _ i d Hin Hd).
Qed.

Lemma quiet_bounded c c' : quiet c c' -> bounded c -> bounded c'.
Proof. intros [Hs Hl _ _]. unfold bounded. by rewrite Hs, Hl. Qed.

(** An instance was replaced by one that is not behind it. *)
Lemma quiet_insert c i d d' :
  c.(decisions) !! i = Some d -> (d'.(phase) = Initialize -> d.(phase) = Initialize) ->
  quiet c (Consensus.set_decisions (<[i := d']> c.(decisions)) c).
Proof.
  intros Hd Hp. split; cbn; [done|apply length_insert|done|]. intros j x Hj Hx. destruct (decide (i = j)) as [<-|Hne].
  - rewrite list_lookup_insert_eq in Hj by (by eapply lookup_lt_Some). injection Hj as ->. eauto.
  - rewrite list_lookup_insert_ne in Hj by done. eauto.
Qed.

Lemma quiet_push c c' s : quiet c c' -> quiet c (Consensus.push_signalled s c').
Proof. intros []. by split. Qed.

Lemma message_quiet lag c rng (sy : Sy) m cm :
  inv lag c -> sy_view sy = c.(Consensus.curr_view) -> consensus m.(message) = Ok cm ->
  quiet c (Consensus.process_message rng sy m c).(r_st).
Proof.
  intros Hinv Hsy Hc. unfold Consensus.process_message. rewrite Hc. run.
  pose proof (route_spec lag c cm.(cm_view) cm.(cm_seq) Hinv) as Hr.
  destruct (Consensus.route _ _ c) as [i| | |i].
  - run. split; eauto.
  - apply quiet_refl.
  - destruct (tbo_queue_run m cm c.(Consensus.tbo_queue) Hc) as (q' & Hq & _).
    rewrite (run_zoom_Ok _ _ _ _ _ _ _ Hq). split; eauto.
  - destruct Hr as (_ & _ & d & Hd & _). rewrite Hd. run. rewrite (on_decision_bind _ _ _ _ _ Hd). cbn zeta.
    pose proof (w_ok _ _ _ _ (i_window _ _ Hinv) d (list_elem_of_lookup_2 _ _ _ Hd)) as Hok. rewrite <- Hsy in Hok.
    pose proof (ConsensusDecision.processed_phase _ _ _ _ _ _ _
      (ConsensusDecision.process_message_processed rng c.(Consensus.node_id) sy m cm d (io_inv _ _ _ Hok) Hc)) as Hph.
    destruct (ConsensusDecision.process_message rng c.(Consensus.node_id) sy m d) as [out d' eff]. cbn in *.
    pose proof (quiet_insert c i d d' Hd Hph) as Hq.
    destruct out as [[]|e|]; cbn; try done; by apply quiet_push.
Qed.

Lemma queue_quiet lag c m cm : inv lag c -> consensus m.(message) = Ok cm -> quiet c (Consensus.queue m c).(r_st).
Proof.
  intros Hinv Hc. unfold Consensus.queue. rewrite Hc. run.
  assert (msg_sequence_number m.(message) = cm.(cm_seq)) as Hms.
  { destruct (message m); cbn in Hc; try done. by injection Hc as ->. }
  rewrite Hms. pose proof (route_spec lag c cm.(cm_view) cm.(cm_seq) Hinv) as Hr.
  destruct (Consensus.route _ _ c) as [i| | |i].
  - split; eauto.
  - apply quiet_refl.
  - destruct (tbo_queue_run m cm c.(Consensus.tbo_queue) Hc) as (q' & Hq & _). unfold zoom. rewrite Hq. split; eauto.
  - destruct Hr as (_ & _ & d & Hd & _). rewrite (on_decision_bind _ _ _ _ _ Hd). cbn zeta.
    assert (exists d', ConsensusDecision.queue (W := Effect) m d = mkRun (Ok tt) d' [] /\ d'.(phase) = d.(phase)) as (d' & -> & Hp).
    { unfold ConsensusDecision.queue. rewrite Hc. run. destruct (cm_kind cm); by eexists. }
    cbn. apply quiet_push, (quiet_insert c i d); [done|congruence].
Qed.

(** ** Polling offers the numbers of instances that leave their first phase *)

Lemma poll_started d :
  (ConsensusDecision.poll d).2.(phase) <> Initialize /\
  ((ConsensusDecision.poll d).1 = TryPropose -> d.(phase) = Initialize).
Proof.
  unfold ConsensusDecision.poll. destruct d as [n s ph [g pp p cc] l a]. cbn.
  destruct ph, g; cbn; try done; [destruct pp|destruct p|destruct cc]; done.
Qed.

(** Offer the number of an instance that is just leaving its first phase. *)
Lemma offer_offered v c i d d' taken :
  bounded c -> offered_ok v c taken -> c.(decisions) !! i = Some d -> d.(phase) = Initialize -> d'.(phase) <> Initialize ->
  offered_ok v (Consensus.on_guard (ProposerConsensusGuard.make_seq_available (sn_plus i c.(seq_no)))
                (Consensus.set_decisions (<[i := d']> c.(decisions)) c)) taken.
Proof.
  intros Hb [H1 H2 H3 H4] Hd Hi Hi'. pose proof (lookup_lt_Some _ _ _ Hd) as Hlt. split; cbn; rewrite ?length_insert; [..|done].
  - apply NoDup_cons. split; [|done]. intros Hin. by apply (H3 _ i d Hin Hd).
  - intros s [->|Hs]%elem_of_cons; [|by apply H2]. unfold bounded in Hb. rewrite sn_plus_num; lia.
  - intros s j x Hs Hj E. destruct (decide (i = j)) as [<-|Hne].
    + rewrite list_lookup_insert_eq in Hj by done. by injection Hj as <-.
    + rewrite list_lookup_insert_ne in Hj by done. apply elem_of_cons in Hs as [->|Hs]; [|by eapply H3].
      pose proof (lookup_lt_Some _ _ _ Hj). unfold bounded in Hb. rewrite !sn_plus_num in E; lia.
Qed.

Lemma poll_offered v fuel : forall c taken,
  bounded c -> offered_ok v c taken ->
  bounded (Consensus.poll_loop fuel c).(r_st) /\ offered_ok v (Consensus.poll_loop fuel c).(r_st) taken.
Proof.
  induction fuel as [|fuel IH]; intros c taken Hb Ho; cbn [Consensus.poll_loop]; [done|]. run.
  destruct (Signals.pop_signalled _) as [[sg g]|]; [|by destruct (Consensus.can_finalize c)].
  run. assert (quiet c (Consensus.set_signalled g c)) as Hq by (split; eauto).
  assert (bounded (Consensus.set_signalled g c)) as Hbg by (by eapply quiet_bounded).
  assert (offered_ok v (Consensus.set_signalled g c) taken) as Hog by (by eapply quiet_offered).
  destruct (sn_index _ _) as [e|i] eqn:Hx; [by apply IH|]. apply sn_index_sound in Hx as ->.
  destruct (decisions c !! i) as [d|] eqn:Hd.
  2: { unfold mbind, M_bind, bind, Consensus.on_decision. cbn. by rewrite Hd. }
  rewrite (on_decision_bind i _ _ (Consensus.set_signalled g c) d Hd). cbn zeta.
  pose proof (poll_started d) as [Hp Ht]. destruct (ConsensusDecision.poll d) as [st d']. cbn [fst snd r_out r_st r_eff] in *.
  rewrite prepend_nil. pose proof (quiet_insert (Consensus.set_signalled g c) i d d' Hd ltac:(done)) as Hq1.
  pose proof (quiet_bounded _ _ Hq1 Hbg) as Hb1. pose proof (quiet_offered _ _ _ _ Hq1 Hog) as Ho1.
  destruct st; run; [|by apply IH| |by apply IH].
  - destruct (decide _); apply IH.
    + exact Hb1.
    + pose proof (offer_offered v (Consensus.set_signalled g c) i d d' taken Hbg Hog Hd (Ht eq_refl) Hp) as [G1 G2 G3 G4].
      by split.
    + exact Hb1.
    + eapply quiet_offered; [|exact Ho1]. split; eauto.
  - split; [exact Hb1|eapply quiet_offered; [|exact Ho1]; split; eauto].
Qed.

(** ** The window moves on *)

Lemma next_instance_shape view c d rest :
  c.(decisions) = d :: rest ->
  let c' := (Consensus.next_instance view c).(r_st) in
  exists nd, c'.(decisions) = rest ++ [nd] /\ nd.(phase) = Initialize /\
    c'.(seq_no) = sn_next c.(seq_no) /\ guard_queue c' = guard_queue c.
Proof.
  intros Hd. unfold Consensus.next_instance. run. rewrite Hd. run.
  destruct (TboQueue.advance_queue _) as [q tbo]. run. destruct (negb _ && _); run; eexists; by split_and!.
Qed.

Lemma next_offered v view c taken :
  bounded c -> offered_ok v c taken -> offered_ok v (Consensus.next_instance view c).(r_st) taken.
Proof.
  destruct (decisions c) as [|d rest] eqn:Hd.
  { intros _. unfold Consensus.next_instance. run. by rewrite Hd. }
  destruct (next_instance_shape view c d rest Hd) as (nd & Hd' & Hnd & Hs & Hg).
  unfold bounded. intros Hb [H1 H2 H3 H4]. rewrite Hd in Hb, H2. cbn in Hb, H2. rewrite sn_next_succ in Hs by lia.
  split; rewrite ?Hg; [done|..|done]; rewrite ?Hs, ?Hd', ?length_app; cbn.
  - intros s Hin. specialize (H2 s Hin). lia.
  - intros s i x Hin Hx E. apply lookup_app_Some in Hx as [Hx|[Hi Hx]].
    + apply (H3 s (S i) x Hin); [by rewrite Hd|]. rewrite sn_plus_S, sn_next_succ by lia. done.
    + specialize (H2 s Hin). apply list_lookup_singleton_Some in Hx as [Hi0 _].
      assert (i = length rest) as -> by lia. rewrite sn_plus_num in E by lia. lia.
Qed.

Lemma finalize_state view c :
  (Consensus.finalize view c).(r_st) = c \/ (Consensus.finalize view c).(r_st) = (Consensus.next_instance view c).(r_st).
Proof.
  unfold Consensus.finalize. run. destruct (head _) as [d|]; [|by left].
  destruct (ConsensusDecision.is_finalizeable d); [|by left]. right.
  unfold mbind, M_bind, bind. destruct (Consensus.next_instance view c) as [[x|e|] c1 w]; cbn; [|done..].
  by destruct (ConsensusDecision.finalize x).
Qed.

(** ** A sequence number is installed *)

Lemma drop_below_rest fuel n : forall h, exists gone, h ≡ₚ gone ++ ProposerConsensusGuard.drop_below fuel n h.
Proof.
  induction fuel as [|fuel IH]; intros h; cbn; [by exists []|].
  pose proof (heap_pop_spec h) as Hp. destruct (heap_pop h) as [[s h']|]; [|by exists []].
  destruct (sn_ltb s n); [|by exists []]. destruct (IH h') as [gone Hg]. exists (s :: gone). cbn. by rewrite <- Hg.
Qed.

Lemma fill_guard n view : forall s c, (Consensus.fill n view s c).(Consensus.consensus_guard) = c.(Consensus.consensus_guard).
Proof. induction n as [|n IH]; intros s c; cbn; [done|]. by rewrite IH. Qed.

Lemma fill_from_tbo_appends n go view : forall s c,
  let c' := (Consensus.fill_from_tbo n go view s c).2 in
  c'.(Consensus.consensus_guard) = c.(Consensus.consensus_guard) /\ exists new, c'.(decisions) = c.(decisions) ++ new.
Proof.
  induction n as [|n IH]; intros s c; cbn [Consensus.fill_from_tbo]; [cbn; split; [done|by exists []; rewrite app_nil_r]|].
  destruct (go c && _); [|cbn; split; [done|by exists []; rewrite app_nil_r]].
  destruct (TboQueue.advance_queue _) as [q tbo]. set (c1 := Consensus.enqueue_decision _ _).
  destruct (IH (sn_add s ONE) c1) as [Hg [new Hn]]. split; [exact Hg|]. eexists. rewrite Hn. subst c1. cbn. by rewrite <- app_assoc.
Qed.

(** The guard keeps some of the numbers it had, and the instances that stay in the window are as they were. *)
Record kept (c c' : Consensus.t) : Prop := {
  k_guard : exists gone, (guard_queue c).1 ≡ₚ gone ++ (guard_queue c').1;
  k_view : (guard_queue c').2 = (guard_queue c).2;
  k_instances : forall n, n < length c.(decisions) -> c'.(seq_no) = sn_plus n c.(seq_no) ->
    exists new, c'.(decisions) = drop n c.(decisions) ++ new;
}.

Lemma cleared_kept c c' :
  guard_queue c' = ([], (guard_queue c).2) -> (forall n, n < length c.(decisions) -> c'.(seq_no) <> sn_plus n c.(seq_no)) -> kept c c'.
Proof.
  intros Hg Hn. split; [exists (guard_queue c).1; by rewrite Hg, app_nil_r|by rewrite Hg|].
  intros n Hlt E. by destruct (Hn n Hlt).
Qed.

Lemma checks_kept c c1 novel : kept c c1 -> kept c (Consensus.install_checks novel c1).(r_st).
Proof.
  intros [[gone Hg] Hv Hi].
  set (c2 := Consensus.set_tbo_queue (TboQueue.signal c1.(Consensus.tbo_queue))
               (Consensus.on_guard (ProposerConsensusGuard.install_seq_no novel) c1)).
  assert ((Consensus.install_checks novel c1).(r_st) = c2) as ->.
  { unfold Consensus.install_checks. run. cbn. destruct (decide _); run; [|done].
    unfold mbind, M_bind, bind. destruct (head _); cbn; [|done]. by destruct (decide _). }
  split; [|exact Hv|exact Hi]. cbn.
  destruct (drop_below_rest (length (guard_queue c1).1) novel (guard_queue c1).1) as [more Hm].
  exists (gone ++ more). by rewrite <- app_assoc, <- Hm.
Qed.

Lemma install_kept lag c novel :
  inv lag c -> kept c (Consensus.install_sequence_number novel c.(Consensus.curr_view) c).(r_st).
Proof.
  intros Hinv. pose proof (i_len _ _ Hinv) as Hlen. pose proof (i_bounds _ _ Hinv) as Hw.
  assert (forall m lag', installs m novel lag' c -> (forall c1, m c = mkRun (Ok tt) c1 [] -> c1.(seq_no) = novel -> kept c c1) ->
    kept c ((m ≫= fun _ => Consensus.install_checks novel) c).(r_st)) as Hfin.
  { intros m lag' (c1 & Hm & _ & Hs & _) Hk. rewrite (bind_Ok_nil _ _ _ _ _ Hm). apply checks_kept. by apply Hk. }
  unfold Consensus.install_sequence_number. run. destruct (sn_index novel _) as [e|[|k]] eqn:Hidx.
  - apply (Hfin _ 0); [by apply (install_behind_ok lag)|]. intros c1 Hm Hs. apply cleared_kept.
    + unfold Consensus.install_behind in Hm. revert Hm. run. intros [= <-]. cbn. by rewrite fill_guard.
    + rewrite Hs. intros n Hn ->. rewrite sn_index_plus in Hidx by lia. done.
  - apply sn_index_sound in Hidx. change (sn_plus 0 ?s) with s in Hidx. apply (Hfin _ lag); [by exists c|].
    intros c1 [= <-] Hs. split; [by exists []|done|]. intros n Hn E.
    assert (n = 0) as ->; [|by exists []; rewrite app_nil_r].
    pose proof (sn_index_plus n (seq_no c) ltac:(lia)) as E1. rewrite <- E in E1.
    pose proof (sn_index_plus 0 (seq_no c) ltac:(lia)) as E2. change (sn_plus 0 ?s) with s in E2. congruence.
  - apply sn_index_sound in Hidx as Hn. case_decide as Hl.
    + apply (Hfin _ 0); [rewrite Hn; by apply (install_past_window_ok lag)|]. intros c1 Hm Hs. apply cleared_kept.
      * revert Hm. unfold Consensus.install_past_window. run. rewrite (decide_False (P := S k < _)) by lia. run.
        case_decide; run; match goal with |- context [Consensus.fill_from_tbo ?n ?go ?v ?s ?x] =>
          pose proof (proj1 (fill_from_tbo_appends n go v s x)) as Hg; destruct (Consensus.fill_from_tbo n go v s x) as [sq c3] end;
        run; intros [= <-]; cbn; rewrite fill_guard; cbn in Hg; by rewrite Hg.
      * rewrite Hs. intros n Hlt ->. rewrite sn_index_plus in Hidx by lia. injection Hidx as ->. lia.
    + apply (Hfin _ (lag + S k)); [rewrite Hn; apply install_in_window_ok; [done|lia]|]. intros c1 Hm Hs. revert Hm.
      unfold Consensus.install_in_window. run. destruct (last _) as [x|]; run; [|done].
      match goal with |- context [Consensus.fill_from_tbo ?n ?go ?v ?s ?x] =>
        destruct (fill_from_tbo_appends n go v s x) as [Hg [new Hd]]; destruct (Consensus.fill_from_tbo n go v s x) as [sq c3] end.
      run. intros [= <-]. cbn in Hg, Hd, Hs. split; cbn; rewrite ?Hg; [by exists []|done|].
      intros n Hlt E. exists new. rewrite Hd. f_equal. f_equal.
      pose proof (sn_index_plus n (seq_no c) ltac:(lia)) as E1. rewrite <- E, Hidx in E1. congruence.
Qed.

(** The window moves to a number that is not below its first one. *)
Lemma install_offered v lag c novel taken :
  let c' := (Consensus.install_sequence_number novel c.(Consensus.curr_view) c).(r_st) in
  inv lag c -> bounded c -> bounded c' -> (c.(seq_no) <= novel)%N -> offered_ok v c taken -> offered_ok v c' taken.
Proof.
  intros c' Hinv Hb Hb' Hle [H1 H2 H3 H4]. destruct (install_kept lag c novel Hinv) as [[gone Hg] Hv Hi]. fold c' in Hg, Hv, Hi.
  destruct (install_run lag c novel Hinv) as (c1 & Hr & Hinv' & Hs & Hw).
  assert (c' = c1) as E by (subst c'; by rewrite Hr). rewrite <- E in Hs, Hw, Hinv'. clear c1 Hr E.
  assert (length c'.(decisions) = length c.(decisions)) as Hlen by (by rewrite (i_len _ _ Hinv'), (i_len _ _ Hinv)).
  assert (forall s, s ∈ (guard_queue c').1 ++ taken -> s ∈ (guard_queue c).1 ++ taken) as Hin.
  { intros s. rewrite Hg, !elem_of_app. tauto. }
  unfold bounded in Hb, Hb'. rewrite Hs, Hlen in Hb'. split; rewrite ?Hs, ?Hlen.
  - rewrite Hg, <- app_assoc in H1. by apply NoDup_app in H1 as (_ & _ & ?).
  - intros s Hin'. specialize (H2 s (Hin s Hin')). lia.
  - intros s i d Hin' Hd ->. pose proof (lookup_lt_Some _ _ _ Hd) as Hlt. rewrite Hlen in Hlt.
    pose proof (H2 _ (Hin _ Hin')) as Hbelow. rewrite sn_plus_num in Hbelow by lia.
    set (n := N.to_nat (novel - c.(seq_no))). assert (c'.(seq_no) = sn_plus n c.(seq_no)) as En.
    { rewrite sn_plus_num; subst n; lia. }
    destruct (Hi n) as [new Hnew]; [subst n; lia|exact En|]. rewrite Hnew in Hd.
    rewrite lookup_app_l in Hd by (rewrite length_drop; subst n; lia). rewrite lookup_drop in Hd.
    apply (H3 _ (n + i) d (Hin _ Hin') Hd). rewrite !sn_plus_num; subst n; lia.
  - by rewrite Hv.
Qed.

(** ** Executions within a view *)

(** What the replica thread does in one view.  State transfer may install any sequence number that does not set the
    window back; [numbers_offered_again] of ProposerWitnesses.v shows what happens when it does. *)
Inductive view_op (lag : nat) (c : Consensus.t) : nat -> Consensus.t -> Prop :=
  | vo_poll st c' : lag <= sn_window -> Consensus.poll c = mkRun (Ok (Some st)) c' [] ->
      view_op lag c (match st with CPNextMessage _ => lag | _ => 0 end) c'
  | vo_message rng (sy : Sy) m cm : sy_view sy = c.(Consensus.curr_view) -> consensus m.(message) = Ok cm ->
      view_op lag c lag (Consensus.process_message rng sy m c).(r_st)
  | vo_queue m cm : consensus m.(message) = Ok cm -> view_op lag c lag (Consensus.queue m c).(r_st)
  | vo_finalize : view_op lag c (S lag) (Consensus.finalize c.(Consensus.curr_view) c).(r_st)
  | vo_catch_up : view_op lag c (S lag) (Consensus.next_instance c.(Consensus.curr_view) c).(r_st)
  | vo_install novel : (c.(seq_no) <= novel)%N ->
      view_op lag c (lag + c.(Consensus.watermark)) (Consensus.install_sequence_number novel c.(Consensus.curr_view) c).(r_st).

(** The two threads: the replica thread works on its window, opens and closes the guard, the proposer takes numbers. *)
Inductive shared (c0 : Consensus.t) : nat -> Consensus.t -> list (SeqNo * ViewInfo.t) -> Prop :=
  | sh_start lag : inv lag c0 -> shared c0 lag c0 []
  | sh_replica lag c taken lag' c' : shared c0 lag c taken -> view_op lag c lag' c' -> bounded c' -> shared c0 lag' c' taken
  | sh_lock lag c taken : shared c0 lag c taken ->
      shared c0 lag (Consensus.on_guard ProposerConsensusGuard.lock_consensus c) taken
  | sh_unlock lag c taken : shared c0 lag c taken ->
      shared c0 lag (Consensus.on_guard ProposerConsensusGuard.unlock_consensus c) taken
  | sh_take lag c taken n g : shared c0 lag c taken ->
      ProposerConsensusGuard.next_seq_no c.(Consensus.consensus_guard) = (Some n, g) ->
      shared c0 lag (Consensus.set_consensus_guard g c) (taken ++ [n]).

Lemma view_op_inv lag c lag' c' : inv lag c -> view_op lag c lag' c' -> inv lag' c'.
Proof.
  intros Hinv Hop. apply (op_inv lag c); [done|].
  destruct Hop; [by apply op_poll|by eapply op_message|by eapply op_queue|apply op_finalize|apply op_catch_up|apply op_install_seq].
Qed.

Lemma view_op_offered v lag c lag' c' taken :
  inv lag c -> bounded c -> bounded c' -> view_op lag c lag' c' -> offered_ok v c taken -> offered_ok v c' taken.
Proof.
  intros Hinv Hb Hb' Hop Ho. destruct Hop as [st c' Hlag Hrun|rng sy m cm Hsy Hc|m cm Hc| | |novel Hle].
  - pose proof (poll_offered v (Consensus.poll_fuel c) c taken Hb Ho) as [_ Ho']. unfold Consensus.poll in Hrun.
    by rewrite Hrun in Ho'.
  - eapply quiet_offered; [|exact Ho]. by eapply message_quiet.
  - eapply quiet_offered; [|exact Ho]. by eapply queue_quiet.
  - destruct (finalize_state c.(Consensus.curr_view) c) as [-> | ->]; [done|by apply next_offered].
  - by apply next_offered.
  - by apply (install_offered v lag).
Qed.

(** The numbers of the instances that are past their first phase: somebody has proposed, or may have. *)
Definition started (c : Consensus.t) : list SeqNo :=
  ConsensusDecision.seq <$> filter (fun d => d.(phase) <> Initialize) c.(decisions).

Lemma started_offered v c lag : inv lag c -> bounded c -> guard_queue c = ([], v) -> offered_ok v c (started c).
Proof.
  intros Hinv Hb Hg. pose proof (i_window _ _ Hinv) as Hw.
  assert (forall i d, c.(decisions) !! i = Some d -> d.(ConsensusDecision.seq) = (c.(seq_no) + N.of_nat i)%N) as Hseq.
  { intros i d Hd. rewrite (w_seq _ _ _ _ Hw i d Hd). apply sn_plus_num. apply lookup_lt_Some in Hd. unfold bounded in Hb. lia. }
  split; rewrite ?Hg; cbn [fst snd app]; [| | |done].
  - eapply sublist_NoDup; [|apply fmap_sublist, sublist_filter]. apply NoDup_alt. intros i j x Hi Hj.
    apply list_lookup_fmap_Some in Hi as (di & -> & Hdi). apply list_lookup_fmap_Some in Hj as (dj & E & Hdj).
    rewrite (Hseq _ _ Hdi), (Hseq _ _ Hdj) in E. lia.
  - intros s (d & -> & Hd)%list_elem_of_fmap. apply list_elem_of_filter in Hd as [_ [i Hi]%list_elem_of_lookup].
    rewrite (Hseq i d Hi). apply lookup_lt_Some in Hi. lia.
  - intros s i d (d0 & -> & Hd0)%list_elem_of_fmap Hd E. apply list_elem_of_filter in Hd0 as [Hp [j Hj]%list_elem_of_lookup].
    rewrite <- (w_seq _ _ _ _ Hw i d Hd), (Hseq _ _ Hj), (Hseq _ _ Hd) in E. assert (i = j) as -> by lia. by simplify_eq.
Qed.

(** C11. Within a view, and as long as no installed sequence number sets the window back, no sequence number is given to the proposer
    twice, nor is one whose instance is already past its first phase, such as the one decided by the proposal of a SYNC message: the
    leader proposes at most one batch for each instance, in the view the guard was set to.  The replica thread may poll, take in and
    queue messages, finalize, catch up and install sequence numbers, in any interleaving with the proposer; it polls before the window
    has moved further than sequence numbers can be told apart, and the numbers do not wrap around. *)
Theorem numbers_offered_once v c0 lag c taken :
  bounded c0 -> guard_queue c0 = ([], v) -> shared c0 lag c taken ->
  NoDup (taken.*1 ++ started c0) /\ Forall (fun n => n.2 = v) taken.
Proof.
  intros Hb0 Hg0 Hsh. enough (inv lag c /\ bounded c /\ offered_ok v c (taken.*1 ++ started c0) /\ Forall (fun n => n.2 = v) taken)
    as (_ & _ & [Hnd _ _ _] & Hv).
  { split; [|done]. rewrite NoDup_app in Hnd. tauto. }
  induction Hsh as [lag Hinv|lag c taken lag' c' _ (Hinv & Hb & Ho & Hv) Hop Hb'|lag c taken _ (Hinv & Hb & [] & Hv)
                   |lag c taken _ (Hinv & Hb & [] & Hv)|lag c taken n g _ (Hinv & Hb & [H1 H2 H3 H4] & Hv) Hn].
  - split_and!; [done..| |constructor]. by eapply started_offered.
  - split_and!; [by eapply view_op_inv|done|by eapply view_op_offered|done].
  - split_and!; [by apply guard_inv|done|by split|done].
  - split_and!; [by apply guard_inv|done|by split|done].
  - unfold ProposerConsensusGuard.next_seq_no in Hn. pose proof (heap_pop_spec (guard_queue c).1) as Hp.
    destruct (heap_pop _) as [[first h]|]; [|done]. injection Hn as <- <-.
    assert ((guard_queue c).1 ++ taken.*1 ++ started c0 ≡ₚ h ++ (taken ++ [(first, (guard_queue c).2)]).*1 ++ started c0) as Hperm.
    { rewrite Hp, fmap_app. cbn. solve_Permutation. }
    split_and!; [by apply (guard_inv lag c (fun _ => _))|done| |].
    + split; cbn -[fmap]; rewrite <- ?Hperm; [done|..|done].
      * intros s Hs. apply H2. by rewrite Hperm.
      * intros s i d Hs. apply H3. by rewrite Hperm.
    + apply Forall_app. split; [done|]. by apply Forall_singleton.
Qed.
End offers.
End Offers.
