(* ===== verification/Waiting.v ===== *)
(** * The messages that wait in a window

    A message that arrives too early waits in the queue of its instance or, past the window, in the [TboQueue].  Nothing
    comes to wait but messages that were handed to the window, and [poll] gives back nothing else. *)
From S2P Require Import Prelude Atlas Errors View Messages Decisions Deciding Log Network.
From S2P Require Import SyncAccessory Accessory Decision Agreement Progress Consensus ConsensusFacts.

Module Waiting.
Section waiting.
Context {A : Atlas} {D : AtlasDecisions} {WF : WireFormat} {Sy : Type} {SH : SyncHandle Sy}.
Context {SL : SyncHandleLaws Sy} {L : AtlasLaws}.

Definition in_queue (q : MessageQueue.t) (m : Shareable) : Prop :=
  m ∈ q.(MessageQueue.pre_prepares) \/ m ∈ q.(MessageQueue.prepares) \/ m ∈ q.(MessageQueue.commits).
Definition in_bucket (q : TboQueue.t) (m : Shareable) : Prop :=
  exists j, m ∈ bucket j q.(TboQueue.pre_prepares) \/ m ∈ bucket j q.(TboQueue.prepares) \/ m ∈ bucket j q.(TboQueue.commits).
Definition waits (c : Consensus.t) (m : Shareable) : Prop :=
  (exists i d, c.(Consensus.decisions) !! i = Some d /\ in_queue d.(ConsensusDecision.message_queue) m) \/ in_bucket c.(Consensus.tbo_queue) m.

(** ** One instance *)

Lemma decision_queue_waits m cm d m' :
  consensus m.(message) = Ok cm ->
  in_queue (ConsensusDecision.queue (W := Effect) m d).(r_st).(ConsensusDecision.message_queue) m' ->
  m' = m \/ in_queue d.(ConsensusDecision.message_queue) m'.
Proof.
  intros Hc. unfold ConsensusDecision.queue, in_queue. rewrite Hc. run. destruct (cm_kind cm); cbn; rewrite elem_of_app, list_elem_of_singleton; tauto.
Qed.

Lemma processed_waits rng node v m cm d r m' :
  ConsensusDecision.processed rng node v m cm d r -> in_queue r.(r_st).(ConsensusDecision.message_queue) m' ->
  m' = m \/ in_queue d.(ConsensusDecision.message_queue) m'.
Proof.
  intros Hpr. destruct Hpr as
    [| f Hq|e bm eff _ _|i rqs bm eff k l' st a' eff' ph' q' _ _ _ _ _ _ _ _ Hcase
    |k dg l' st a' eff' ph' q' _ _ _ _ _ _ _ Hcase|]; cbn [r_st]; unfold in_queue; cbn; try tauto.
  - unfold ConsensusDecision.queueable in Hq. destruct (cm_kind cm); destruct Hq as [-> _]; cbn; rewrite elem_of_app, list_elem_of_singleton; tauto.
  - destruct Hcase as [(_ & _ & _ & _ & _ & ->)|(_ & _ & _ & _ & ->)]; cbn; tauto.
  - destruct Hcase as [(_ & _ & _ & _ & _ & ->)|(_ & _ & _ & _ & ->)]; cbn; tauto.
Qed.

Lemma decision_poll_waits d m' :
  (in_queue (ConsensusDecision.poll d).2.(ConsensusDecision.message_queue) m' -> in_queue d.(ConsensusDecision.message_queue) m') /\
  ((ConsensusDecision.poll d).1 = NextMessage m' -> in_queue d.(ConsensusDecision.message_queue) m').
Proof.
  unfold ConsensusDecision.poll, in_queue. destruct d as [n s ph [g pp p cc] l a]. cbn.
  destruct ph, g; cbn; try (split; [tauto|done]); [destruct pp|destruct p|destruct cc]; cbn; rewrite ?elem_of_cons; (split; [tauto|]); intros [= ->]; auto.
Qed.

(** ** The window *)

Lemma insert_waits c i d d' m' :
  c.(Consensus.decisions) !! i = Some d ->
  waits (Consensus.set_decisions (<[i := d']> c.(Consensus.decisions)) c) m' ->
  in_queue d'.(ConsensusDecision.message_queue) m' \/ waits c m'.
Proof.
  intros Hd [(j & x & Hx & Hq)|Hb]; [|right; by right]. cbn in Hx. destruct (decide (i = j)) as [<-|Hne].
  - rewrite list_lookup_insert_eq in Hx by (by eapply lookup_lt_Some). injection Hx as <-. by left.
  - rewrite list_lookup_insert_ne in Hx by done. right. left. eauto.
Qed.

Lemma tbo_queue_waits m cm q m' :
  consensus m.(message) = Ok cm -> in_bucket (TboQueue.queue (W := Effect) m q).(r_st) m' -> m' = m \/ in_bucket q m'.
Proof.
  intros Hc. unfold TboQueue.queue. rewrite Hc. run.
  assert (forall (i : InvalidSeqNo + nat) j (l : list Shareable),
    m' ∈ l ++ match i with inr i => if decide (i = j) then [m] else [] | inl _ => [] end -> m' = m \/ m' ∈ l) as Happ.
  { intros i j l [?|Hin]%elem_of_app; [by right|]. destruct i as [|i]; [by apply elem_of_nil in Hin|]. case_decide; set_solver. }
  intros [j Hj]. unfold in_bucket.
  destruct (cm_kind cm); cbn in Hj; rewrite bucket_queued in Hj; destruct Hj as [Hj|[Hj|Hj]]; try apply Happ in Hj; naive_solver.
Qed.

Lemma message_waits lag c rng (sy : Sy) m cm m' :
  ConsensusFacts.inv lag c -> sy_view sy = c.(Consensus.curr_view) -> consensus m.(message) = Ok cm ->
  waits (Consensus.process_message rng sy m c).(r_st) m' -> m' = m \/ waits c m'.
Proof.
  intros Hinv Hsy Hc. unfold Consensus.process_message. rewrite Hc. run.
  pose proof (ConsensusFacts.route_spec lag c cm.(cm_view) cm.(cm_seq) Hinv) as Hr.
  destruct (Consensus.route _ _ c) as [i| | |i].
  - run. by right.
  - by right.
  - pose proof (tbo_queue_waits m cm c.(Consensus.tbo_queue) m' Hc) as Ht.
    destruct (tbo_queue_run m cm c.(Consensus.tbo_queue) Hc) as (q' & Hq & _). rewrite Hq in Ht.
    rewrite (run_zoom_Ok _ _ _ _ _ _ _ Hq). intros [?|Hb]; [by right; left|]. destruct (Ht Hb); [by left|by right; right].
  - destruct Hr as (_ & _ & d & Hd & _). rewrite Hd. run. rewrite (ConsensusFacts.on_decision_bind _ _ _ _ _ Hd). cbn zeta.
    pose proof (ConsensusFacts.w_ok _ _ _ _ (ConsensusFacts.i_window _ _ Hinv) d (list_elem_of_lookup_2 _ _ _ Hd)) as Hok. rewrite <- Hsy in Hok.
    pose proof (processed_waits _ _ _ _ _ _ _ m'
      (ConsensusDecision.process_message_processed rng c.(Consensus.node_id) sy m cm d (ConsensusFacts.io_inv _ _ _ Hok) Hc)) as Hw.
    destruct (ConsensusDecision.process_message rng c.(Consensus.node_id) sy m d) as [out d' eff]. cbn in Hw.
    intros H. assert (waits (Consensus.set_decisions (<[i := d']> c.(Consensus.decisions)) c) m') as H'.
    { destruct out as [[]|e|]; exact H. }
    destruct (insert_waits c i d d' m' Hd H') as [Hin|]; [|by right]. destruct (Hw Hin); [by left|]. right. left. eauto.
Qed.

Lemma queue_waits lag c m cm m' :
  ConsensusFacts.inv lag c -> consensus m.(message) = Ok cm -> waits (Consensus.queue m c).(r_st) m' -> m' = m \/ waits c m'.
Proof.
  intros Hinv Hc. unfold Consensus.queue. rewrite Hc. run.
  pose proof (ConsensusFacts.route_spec lag c cm.(cm_view) (msg_sequence_number m.(message)) Hinv) as Hr.
  destruct (Consensus.route _ _ c) as [i| | |i]; [by right|by right| |].
  - pose proof (tbo_queue_waits m cm c.(Consensus.tbo_queue) m' Hc) as Ht.
    destruct (tbo_queue_run m cm c.(Consensus.tbo_queue) Hc) as (q' & Hq & _). rewrite Hq in Ht. unfold zoom. rewrite Hq.
    intros [?|Hb]; [by right; left|]. destruct (Ht Hb); [by left|by right; right].
  - destruct Hr as (_ & _ & d & Hd & _). rewrite (ConsensusFacts.on_decision_bind _ _ _ _ _ Hd). cbn zeta.
    pose proof (decision_queue_waits m cm d m' Hc) as Hw.
    destruct (ConsensusDecision.queue_run m cm d Hc) as [q Hq]. rewrite Hq in *. cbn in Hw. intros H.
    destruct (insert_waits c i d _ m' Hd H) as [Hin|]; [|by right]. destruct (Hw Hin); [by left|]. right. left. eauto.
Qed.

Lemma poll_waits fuel : forall c m',
  let r := Consensus.poll_loop fuel c in
  (waits r.(r_st) m' -> waits c m') /\ (r.(r_out) = Ok (Some (CPNextMessage m')) -> waits c m').
Proof.
  induction fuel as [|fuel IH]; intros c m'; cbn [Consensus.poll_loop]; cbn zeta; [done|]. run.
  destruct (Signals.pop_signalled _) as [[sg g]|]; [|destruct (Consensus.can_finalize c); done].
  run. destruct (sn_index _ _) as [e|j]; [apply (IH (Consensus.set_signalled g c))|].
  destruct (Consensus.decisions c !! j) as [d|] eqn:Hd.
  2: { unfold mbind, M_bind, bind, Consensus.on_decision. cbn. rewrite Hd. done. }
  rewrite (ConsensusFacts.on_decision_bind j _ _ (Consensus.set_signalled g c) d Hd). cbn zeta.
  destruct (decision_poll_waits d m') as [Hp1 Hp2]. destruct (ConsensusDecision.poll d) as [st d'] eqn:Hpoll. cbn [fst snd r_out r_st r_eff] in *.
  rewrite prepend_nil.
  assert (waits (Consensus.set_decisions (<[j := d']> c.(Consensus.decisions)) c) m' -> waits c m') as Hins.
  { intros [Hin|]%(insert_waits _ _ _ _ _ Hd); [|done]. left. eauto. }
  assert (forall c1, (waits c1 m' -> waits (Consensus.set_decisions (<[j := d']> c.(Consensus.decisions)) c) m') ->
    (waits (Consensus.poll_loop fuel c1).(r_st) m' -> waits c m') /\
    ((Consensus.poll_loop fuel c1).(r_out) = Ok (Some (CPNextMessage m')) -> waits c m')) as Hgo.
  { intros c1 H1. destruct (IH c1 m') as [G1 G2]. tauto. }
  destruct st; run; [apply Hgo; by destruct (decide _)|by apply Hgo| |by apply Hgo].
  split; [exact Hins|]. intros [= ->]. left. exists j, d. split; [done|by apply Hp2].
Qed.

Lemma finalize_waits v c b c' eff m' :
  Consensus.finalize v c = mkRun (Ok (Some b)) c' eff -> waits c' m' -> waits c m'.
Proof.
  unfold Consensus.finalize. run. destruct (Consensus.decisions c) as [|d rest] eqn:Hd; [done|]. cbn [head].
  destruct (ConsensusDecision.is_finalizeable d); [|done].
  intros H. apply bind_inv in H as (d0 & c1 & w1 & w2 & Hn & H & ->). inv_run H. unfold Consensus.next_instance in Hn.
  rewrite run_get, Hd, !run_modify, advance_queue_spec, run_modify in Hn.
  assert (Consensus.decisions c1 = rest ++ [ConsensusDecision.init_with_msg_log c.(Consensus.node_id)
      (match last rest with Some d => sn_next (ConsensusDecision.sequence_number d) | None => sn_next c.(Consensus.seq_no) end) v
      (MessageQueue.from_messages (bucket 0 (TboQueue.pre_prepares (Consensus.tbo_queue c))) (bucket 0 (TboQueue.prepares (Consensus.tbo_queue c)))
        (bucket 0 (TboQueue.commits (Consensus.tbo_queue c))))] /\
    Consensus.tbo_queue c1 = (TboQueue.advance_queue (Consensus.tbo_queue c)).2) as [Hds Ht].
  { rewrite advance_queue_spec. revert Hn. destruct (negb _ && _); run; intros [= _ <- _]; done. }
  intros [(i & x & Hx & Hq)|[j Hj]].
  - rewrite Hds in Hx. apply lookup_app_Some in Hx as [Hx|[_ Hx]].
    + left. exists (S i), x. by rewrite Hd.
    + apply list_lookup_singleton_Some in Hx as [_ <-]. right. by exists 0.
  - right. exists (S j). rewrite Ht, advance_queue_spec in Hj. cbn in Hj. by rewrite !bucket_tail in Hj.
Qed.
End waiting.
End Waiting.
