(* ===== verification/Liveness.v ===== *)
(** * Progress of a whole view

    The replicas of a view run one instance each, and what they say to each other is recorded with its receiver.  If the members are the
    nodes 0 to n-1 and the leader's one proposal reaches the correct ones, they decide it within three message delays, whatever else the
    network brings but a second proposal in the leader's name: forged and repeated messages included, in any order.  No clock is involved: a message delay has passed when everything that was said before
    has arrived and been handled. *)
From S2P Require Import Prelude Atlas Errors View Messages Decisions Deciding Log Network.
From S2P Require Import SyncAccessory Accessory Decision Progress Consensus ConsensusFacts Waiting.

Module Liveness.
Section liveness.
Context {A : Atlas} {D : AtlasDecisions} {WF : WireFormat} {Sy : Type} {SH : SyncHandle Sy} {SL : SyncHandleLaws Sy}.
Context (v : ViewInfo.t) (s : SeqNo) (byz : gset NodeId).

Abbreviation decision := ConsensusDecision.t.
Abbreviation digest_of := ConsensusDecision.digest_of.
Abbreviation phase := ConsensusDecision.phase.
Abbreviation prepares_for := ReplicaAccessory.prepares_for.
Abbreviation commits_to := ReplicaAccessory.commits_to.

(** ** The system *)

(** A replica: the messages it was given, those it has said (with their receivers), and its instance. *)
Record node := mkNode {
  given : list Shareable;
  said : list (NodeId * PBFTMessage);
  instance : decision;
}.

(** What is said while the message handed out by [poll] is handled. *)
Definition poll_said (rng : nat -> N) (sy : Sy) (d : decision) : list (NodeId * PBFTMessage) :=
  match ConsensusDecision.poll d with
  | (NextMessage m, d') => sent (ConsensusDecision.process_message rng d.(ConsensusDecision.node_id) sy m d').(r_eff)
  | _ => []
  end.

(** The replica thread polls and handles what it is given back, a message arrives, or the thread pool makes progress. *)
Definition polled (rng : nat -> N) (sy : Sy) (n : node) : node :=
  mkNode n.(given) (n.(said) ++ poll_said rng sy n.(instance)) (Progress.poll_once rng sy n.(instance)).
Definition delivered (rng : nat -> N) (sy : Sy) (m : Shareable) (n : node) : node :=
  let d := n.(instance) in
  let r := ConsensusDecision.process_message rng d.(ConsensusDecision.node_id) sy m d in
  mkNode (n.(given) ++ [m]) (n.(said) ++ sent r.(r_eff)) r.(r_st).
Definition ticked (j : nat) (n : node) : node :=
  let d := n.(instance) in
  mkNode n.(given) n.(said) (ConsensusDecision.set_accessory (accessory_tick j d.(ConsensusDecision.accessory)) d).

Inductive local (n : node) : node -> Prop :=
  | do_poll rng (sy : Sy) : sy_view sy = v -> local n (polled rng sy n)
  | do_deliver rng (sy : Sy) m c : sy_view sy = v -> consensus m.(message) = Ok c -> local n (delivered rng sy m n)
  | do_tick j : local n (ticked j n).

(** The replicas share nothing but messages, and the network may deliver anything at any time: an execution of the system is one of each correct replica. *)
Definition evolves (y y' : NodeId -> node) : Prop := forall x, x ∉ byz -> rtc local (y x) (y' x).

(** Messages may have arrived before the instance was opened. *)
Definition start (q : NodeId -> list Shareable * list Shareable * list Shareable) : NodeId -> node := fun x =>
  let queue := MessageQueue.from_messages (q x).1.1 (q x).1.2 (q x).2 in
  mkNode (Progress.queued_messages queue) [] (ConsensusDecision.init_with_msg_log x s v queue).
Definition early_ok (q : NodeId -> list Shareable * list Shareable * list Shareable) : Prop :=
  forall x, Progress.queue_kinds (MessageQueue.from_messages (q x).1.1 (q x).1.2 (q x).2).

(** ** What is asked of the leader and of the network *)

(** [m] is a proposal of [x] for this instance. *)
Definition proposal_of (x : NodeId) (m : Shareable) : Prop :=
  hdr_from m.(header) = x /\ exists nonce rqs, m.(message) = Messages.Consensus (mkConsensusMessage s v.(ViewInfo.seq) nonce (PrePrepare rqs)).

(** The correct replicas have a proposal of the leader they have to accept, ... *)
Definition offered (y : NodeId -> node) : Prop :=
  forall x l, x ∉ byz -> x ∈ v.(ViewInfo.quorum_members) -> l ∈ v.(ViewInfo.leader_set) ->
  exists m, m ∈ (y x).(given) /\ Progress.valid_proposal v s x l m.
(** ... and no proposals of the leader but those in [P]. *)
Definition only (P : Shareable -> Prop) (y : NodeId -> node) : Prop :=
  forall x l m, x ∉ byz -> x ∈ v.(ViewInfo.quorum_members) -> l ∈ v.(ViewInfo.leader_set) ->
  m ∈ (y x).(given) -> proposal_of l m -> P m.
Definition unequivocal (dp : Digest) : (NodeId -> node) -> Prop := only (fun m => hdr_digest m.(header) = dp).

(** Everything correct members have said to each other in [y] has arrived in [y']. *)
Definition arrived (y y' : NodeId -> node) : Prop :=
  forall x z msg, x ∉ byz -> x ∈ v.(ViewInfo.quorum_members) -> z ∉ byz -> z ∈ v.(ViewInfo.quorum_members) ->
  (x, msg) ∈ (y z).(said) -> exists m, m ∈ (y' x).(given) /\ hdr_from m.(header) = z /\ m.(message) = msg.

(** Nothing is left to be handled. *)
Definition settled (y : NodeId -> node) : Prop :=
  forall x, x ∉ byz -> x ∈ v.(ViewInfo.quorum_members) -> Progress.quiescent (y x).(instance).

(** ** What a replica has said *)

Definition to_all (P : PBFTMessage -> Prop) (out : list (NodeId * PBFTMessage)) : Prop :=
  forall x, x ∈ v.(ViewInfo.quorum_members) -> exists msg, P msg /\ (x, msg) ∈ out.

Definition voted (d : decision) (out : list (NodeId * PBFTMessage)) : Prop :=
  match d.(phase) with
  | Initialize | PrePreparing _ => True
  | Preparing _ => forall dg, digest_of d = Some dg -> to_all (prepares_for s v.(ViewInfo.seq) dg) out
  | Committing _ | PhaseDecided => forall dg, digest_of d = Some dg ->
      to_all (prepares_for s v.(ViewInfo.seq) dg) out /\ to_all (commits_to s v.(ViewInfo.seq) dg) out
  end.

Definition proposals (d : decision) : list Shareable := omap id d.(ConsensusDecision.working_log).(WorkingDecisionLog.message_log).(MessageLog.pre_prepare).

Definition members_ahead (d : decision) : Prop :=
  exists rep, d.(ConsensusDecision.accessory) = Replica rep /\
    ReplicaAccessory.spec_inv (fun peer _ => peer ∈ v.(ViewInfo.quorum_members)) rep.

Record tame (x : NodeId) (g : list Shareable) (out : list (NodeId * PBFTMessage)) (d : decision) : Prop := {
  t_id : d.(ConsensusDecision.node_id) = x;
  t_seq : d.(ConsensusDecision.seq) = s;
  t_queue : forall m, Waiting.in_queue d.(ConsensusDecision.message_queue) m -> m ∈ g;
  t_proposals : forall m, m ∈ proposals d -> m ∈ g;
  t_ahead : members_ahead d;
  t_voted : voted d out;
  t_said : forall p, p ∈ out -> ConsensusDecision.own_vote v d p.2;
}.

Definition good (x : NodeId) (n : node) : Prop :=
  Progress.live v n.(given) n.(instance) /\ tame x n.(given) n.(said) n.(instance).

Context {L : AtlasLaws} (Hwf : ViewInfo.wf v) (Hmembers : v.(ViewInfo.quorum_members) = node_targets (ViewInfo.n v)).

Lemma to_all_app P out out' : to_all P out -> to_all P (out ++ out').
Proof. intros H x Hx. destruct (H x Hx) as (msg & ? & ?). exists msg. rewrite elem_of_app. auto. Qed.
Lemma to_all_r P out out' : to_all P out' -> to_all P (out ++ out').
Proof. intros H x Hx. destruct (H x Hx) as (msg & ? & ?). exists msg. rewrite elem_of_app. auto. Qed.

(** ** One step of a replica *)

Lemma completed_says rng me l rep a' eff dg :
  WorkingDecisionLog.batch_digest l = Some dg -> WorkingDecisionLog.seq_no l = s ->
  ReplicaAccessory.spec_inv (fun peer _ => peer ∈ v.(ViewInfo.quorum_members)) rep ->
  handle_pre_prepare_phase_completed rng me l v (Replica rep) = mkRun (Ok tt) a' eff ->
  to_all (prepares_for s v.(ViewInfo.seq) dg) (sent eff) /\
  exists rep', a' = Replica rep' /\ ReplicaAccessory.spec_inv (fun peer _ => peer ∈ v.(ViewInfo.quorum_members)) rep'.
Proof.
  intros Hd Hs Hrep. cbn. rewrite (ReplicaAccessory.completed_run _ _ _ _ _ _ Hd). intros [= <- <-]. split.
  - intros x Hx. cbn. rewrite app_nil_r. unfold ReplicaAccessory.vote. rewrite Hs. eexists. split; [by exists (rng 1)|].
    apply list_elem_of_fmap. by exists x.
  - eexists. split; [done|]. apply ReplicaAccessory.completed_inv; [done|]. by rewrite Hmembers.
Qed.

Lemma quorum_says rng l rep a' eff dg :
  WorkingDecisionLog.batch_digest l = Some dg -> WorkingDecisionLog.seq_no l = s ->
  ConsensusDecision.commits_ahead v l (Replica rep) ->
  ReplicaAccessory.spec_inv (fun peer _ => peer ∈ v.(ViewInfo.quorum_members)) rep ->
  handle_preparing_quorum rng l v (Replica rep) = mkRun (Ok tt) a' eff ->
  to_all (commits_to s v.(ViewInfo.seq) dg) (sent eff) /\
  exists rep', a' = Replica rep' /\ ReplicaAccessory.spec_inv (fun peer _ => peer ∈ v.(ViewInfo.quorum_members)) rep'.
Proof.
  intros Hd Hs [Hah _] Hrep. cbn. rewrite (ReplicaAccessory.quorum_run _ _ _ _ _ Hd). intros [= <- <-]. split.
  - intros x Hx. cbn. rewrite app_nil_r. destruct (ReplicaAccessory.valid_spec_commits _ _ _) eqn:Hv; cbn.
    + destruct Hrep as [Hkeys _]. destruct (ReplicaAccessory.speculative_commits rep !! x) as [m|] eqn:Hm.
      * destruct (Hah _ _ Hm) as (dg' & Hd' & Hc). rewrite Hd in Hd'. injection Hd' as <-. rewrite Hs in Hc.
        exists (message m). split; [done|]. apply list_elem_of_fmap. exists (x, m). split; [done|]. by apply elem_of_map_to_list.
      * apply ReplicaAccessory.valid_spec_size in Hv. exfalso.
        assert (dom (ReplicaAccessory.speculative_commits rep) ⊆ list_to_set v.(ViewInfo.quorum_members) ∖ {[x]}) as Hsub.
        { intros z [m Hz]%elem_of_dom. rewrite elem_of_difference, elem_of_list_to_set, elem_of_singleton.
          split; [exact (Hkeys _ _ Hz)|]. intros ->. congruence. }
        apply subseteq_size in Hsub. rewrite size_dom, Hv, size_difference, size_singleton in Hsub by set_solver.
        destruct Hwf as (Hnd & Hlen & _). rewrite size_list_to_set_NoDup, Hlen in Hsub by done.
        rewrite <- Hlen in Hsub. destruct (ViewInfo.quorum_members v); [by apply elem_of_nil in Hx|cbn in Hsub; lia].
    + unfold ReplicaAccessory.vote. rewrite Hs. eexists. split; [by exists (rng 0)|]. apply list_elem_of_fmap. by exists x.
  - eexists. split; [done|]. by apply ReplicaAccessory.taken_inv.
Qed.

(** What is said while a message is handled. *)
Lemma processed_voted rng me m c d r out :
  ConsensusDecision.inv v d -> d.(ConsensusDecision.seq) = s -> consensus m.(message) = Ok c ->
  ConsensusDecision.processed rng me v m c d r -> members_ahead d -> voted d out ->
  members_ahead r.(r_st) /\ voted r.(r_st) (out ++ sent r.(r_eff)).
Proof.
  intros Hinv Hs Hc Hpr (rep & Hrep & Hsp). pose proof (ConsensusDecision.processed_inv _ _ _ _ _ _ _ Hinv Hc Hpr) as Hinv'.
  unfold voted. destruct Hpr as
    [| f _|e bm eff _ Hsent|i rqs bm eff k l' st a' eff' ph' q' Hph Hk Hv Hsq Hi Hnew Hsent Hl' Hcase
    |k dg l' st a' eff' ph' q' Hph Hk Hv Hsq Hd Hnew Hl' Hcase|k dg l' st ph' Hph Hk Hv Hsq Hd Hnew Hl' Hcase];
    cbn [r_st r_eff] in *.
  - rewrite app_nil_r. split; [by exists rep|done].
  - rewrite app_nil_r. split; [by exists rep|done].
  - rewrite Hsent, app_nil_r. split; [by exists rep|done].
  - rewrite sent_app, Hsent. intros _. destruct Hcase as [(_ & _ & -> & -> & -> & _)|(_ & _ & Hacc & -> & _)]; [split; [by exists rep|done]|].
    destruct (WorkingDecisionLog.finish_ok _ (ConsensusDecision.d_log _ _ Hinv')) as (dg & ? & ? & ? & _ & Hdg & _).
    { apply (ConsensusDecision.d_phase _ _ Hinv'). }
    cbn in Hdg. pose proof (ConsensusDecision.d_seq _ _ Hinv') as Hsl. cbn in Hsl. rewrite Hs in Hsl. rewrite Hrep in Hacc.
    destruct (completed_says _ _ _ _ _ _ _ Hdg Hsl Hsp Hacc) as [Hall Hrep']. split; [done|].
    intros dg' Hdg'. unfold digest_of in Hdg'. cbn in Hdg'. rewrite Hdg in Hdg'. injection Hdg' as <-.
    by apply to_all_r.
  - rewrite Hph. intros Hvoted. destruct Hcase as [(_ & _ & -> & -> & -> & _)|(_ & _ & Hacc & -> & _)].
    { rewrite app_nil_r. split; [by exists rep|]. by rewrite Hl'. }
    assert (WorkingDecisionLog.batch_digest l' = Some dg) as Hdg by (by rewrite Hl').
    pose proof (ConsensusDecision.d_seq _ _ Hinv') as Hsl. cbn in Hsl. rewrite Hs in Hsl. rewrite Hrep in Hacc.
    assert (ConsensusDecision.commits_ahead v l' (Replica rep)) as Hah.
    { rewrite <- Hrep. eapply ConsensusDecision.commits_ahead_mono; [| |apply (ConsensusDecision.d_ahead _ _ Hinv)]; by rewrite Hl'. }
    destruct (quorum_says _ _ _ _ _ _ Hdg Hsl Hah Hsp Hacc) as [Hall Hrep']. split; [done|].
    intros dg' Hdg'. unfold digest_of in Hdg'. cbn in Hdg'. rewrite Hdg in Hdg'. injection Hdg' as <-. split.
    + apply to_all_app. by apply Hvoted.
    + by apply to_all_r.
  - rewrite Hph, app_nil_r. intros Hvoted. split; [by exists rep|]. rewrite Hl'. by destruct Hcase as [(_ & _ & ->)|(_ & _ & ->)].
Qed.

Lemma processed_proposals rng me m c d r x :
  ConsensusDecision.processed rng me v m c d r -> x ∈ proposals r.(r_st) -> x = m \/ x ∈ proposals d.
Proof.
  intros Hpr. unfold proposals. destruct Hpr as
    [| f _|e bm eff _ _|i rqs bm eff k l' st a' eff' ph' q' Hph Hk Hv Hs Hi Hnew _ -> Hcase
    |k dg l' st a' eff' ph' q' Hph Hk Hv Hs Hd Hnew -> Hcase|k dg l' st ph' Hph Hk Hv Hs Hd Hnew -> Hcase]; cbn; try tauto.
  destruct (WorkingDecisionLog.after_eq i m rqs (rq_info <$> rqs) (WorkingDecisionLog.set_batch_meta bm d.(ConsensusDecision.working_log))) as [o ->].
  cbn. rewrite !list_elem_of_omap. intros (o' & Ho & Hid). apply list_elem_of_lookup in Ho as [j Hj]. unfold id in Hid. subst o'.
  apply list_lookup_insert_Some in Hj as [(_ & [= ->] & _)|[_ Hj]]; [by left|right]. exists (Some x). split; [by eapply list_elem_of_lookup_2|done].
Qed.

Lemma handled_tame rng (sy : Sy) m c x g out d :
  sy_view sy = v -> ConsensusDecision.inv v d -> consensus m.(message) = Ok c -> tame x g out d ->
  let r := ConsensusDecision.process_message rng d.(ConsensusDecision.node_id) sy m d in
  tame x (g ++ [m]) (out ++ sent r.(r_eff)) r.(r_st).
Proof.
  intros Hsy Hinv Hc [Hi Hs Hq Hp Ha Hv Ho] r. rewrite <- Hsy in Hinv.
  pose proof (ConsensusDecision.process_message_processed rng d.(ConsensusDecision.node_id) sy m c d Hinv Hc) as Hpr.
  rewrite Hsy in Hinv, Hpr. fold r in Hpr. pose proof (ConsensusDecision.processed_grows _ _ _ _ _ _ _ Hinv Hpr) as Hgr.
  pose proof (ConsensusDecision.g_node _ _ _ Hgr) as Hn'. pose proof (ConsensusDecision.g_seq _ _ _ Hgr) as Hs'.
  destruct (processed_voted _ _ _ _ _ _ _ Hinv Hs Hc Hpr Ha Hv) as [Ha' Hv']. split; try done; try congruence.
  - intros m' [->|Hm]%(Waiting.processed_waits _ _ _ _ _ _ _ m' Hpr); set_solver.
  - intros m' [->|Hm]%(processed_proposals _ _ _ _ _ _ m' Hpr); set_solver.
  - intros [to msg] [Hp'|Hp']%elem_of_app; [eapply ConsensusDecision.own_vote_grows; [exact Hgr|by apply Ho]|].
    by apply (ConsensusDecision.processed_sent _ _ _ _ _ _ _ to msg Hinv Hc Hpr).
Qed.

Lemma poll_tame x g out d : tame x g out d -> tame x g out (ConsensusDecision.poll d).2.
Proof.
  intros [Hi Hs Hq Hp Ha Hv Ho]. pose proof (fun m => proj1 (Waiting.decision_poll_waits d m)) as Hq'.
  assert (forall m, m ∈ proposals (ConsensusDecision.poll d).2 -> m ∈ proposals d) as Hp'.
  { destruct d as [n sq ph [gq pp p c] l a]. destruct ph, gq; cbn; try done; [destruct pp|destruct p|destruct c]; done. }
  split; [..|by eauto|by eauto| | |intros p' ?; eapply ConsensusDecision.own_vote_grows; [apply ConsensusDecision.poll_grows|by apply Ho]]; destruct d as [n sq ph [gq pp p c] l a]; clear - Hi Hs Ha Hv;
    (destruct ph, gq; cbn in *; try done; [destruct pp|destruct p|destruct c]; done).
Qed.

Lemma tame_given x g g' out d : (forall m, m ∈ g -> m ∈ g') -> tame x g out d -> tame x g' out d.
Proof. intros Hg []. split; eauto. Qed.

Lemma polled_good rng (sy : Sy) x n : sy_view sy = v -> good x n -> good x (polled rng sy n).
Proof.
  intros Hsy [Hl Ht]. split; [by apply Progress.poll_once_live|]. cbn [polled given said instance].
  pose proof (poll_tame _ _ _ _ Ht) as Ht'. destruct Hl as [Hinv Hk Hf _].
  pose proof (ConsensusDecision.poll_preserves v n.(instance) Hwf Hinv) as Hinv'. pose proof (Progress.polled_consensus n.(instance)) as Hcons.
  pose proof (fun m => proj2 (Waiting.decision_poll_waits n.(instance) m)) as Hw. pose proof (t_id _ _ _ _ Ht) as Hid.
  unfold poll_said, Progress.poll_once. destruct (ConsensusDecision.poll (instance n)) as [st d'] eqn:Hp. cbn in *.
  destruct st as [| |m|]; rewrite ?app_nil_r; try done. destruct (Hcons m Hk eq_refl) as [c Hc].
  assert (ConsensusDecision.node_id (instance n) = d'.(ConsensusDecision.node_id)) as -> by (by rewrite (t_id _ _ _ _ Ht')).
  eapply tame_given; [|by apply (handled_tame rng sy m c x n.(given) n.(said) d')].
  intros m' [?|Hm]%elem_of_app; [done|]. apply list_elem_of_singleton in Hm as ->. apply (t_queue _ _ _ _ Ht), Hw. done.
Qed.

Lemma delivered_good rng (sy : Sy) m c x n :
  sy_view sy = v -> consensus m.(message) = Ok c -> good x n -> good x (delivered rng sy m n).
Proof.
  intros Hsy Hc [Hl Ht]. split; [|apply (handled_tame rng sy m c); try done; apply Hl]. cbn [delivered given said instance].
  destruct Hl as [Hinv Hk Hf Hkept]. eapply Progress.deliver_live; try done.
  intros y Hy. eapply Progress.kept_weaken; [|by apply Hkept]. done.
Qed.

Lemma ticked_good j x n : good x n -> good x (ticked j n).
Proof.
  intros [Hl [Hi Hs Hq Hp (rep & Hrep & Hsp) Hv Ho]]. split; [by apply Progress.tick_live|]. cbn [ticked given said instance]. split; try done.
  cbn. rewrite Hrep. exists (ReplicaAccessory.tick j rep). split; [done|]. by apply ReplicaAccessory.tick_inv.
Qed.

Lemma local_good x n n' : good x n -> local n n' -> good x n'.
Proof. intros Hg [rng sy Hsy|rng sy m c Hsy Hc|j]; [by apply polled_good|by eapply delivered_good|by apply ticked_good]. Qed.

Lemma local_given n n' : local n n' -> forall m, m ∈ n.(given) -> m ∈ n'.(given).
Proof. intros [rng sy Hsy|rng sy m c Hsy Hc|j] m' Hm; [done| |done]. cbn. set_solver. Qed.

Lemma start_good q x : early_ok q -> good x (start q x).
Proof.
  intros Hq. split; [exact (Progress.init_live v Hwf x s _ _ _ (Hq x))|]. split; cbn; try done.
  - intros m [?|[?|?]]; unfold Progress.queued_messages; cbn; set_solver.
  - intros m. unfold proposals. cbn. intros (o & Ho & Hid)%list_elem_of_omap. apply elem_of_replicate in Ho as [-> _]. done.
  - exists ReplicaAccessory.new. split; [done|apply ReplicaAccessory.new_spec_inv].
  - by intros p ?%elem_of_nil.
Qed.

Lemma locals_good x n n' : rtc local n n' -> good x n -> good x n'.
Proof. induction 1; eauto using local_good. Qed.
Lemma locals_given n n' m : rtc local n n' -> m ∈ n.(given) -> m ∈ n'.(given).
Proof. induction 1; eauto using local_given. Qed.

Definition all_good (y : NodeId -> node) : Prop := forall x, x ∉ byz -> good x (y x).
Lemma evolves_good y y' : evolves y y' -> all_good y -> all_good y'.
Proof. intros He Hg x Hx. eapply locals_good; [by apply He|by apply Hg]. Qed.
Lemma started_good q y : early_ok q -> evolves (start q) y -> all_good y.
Proof. intros Hq He. eapply evolves_good; [exact He|]. intros x _. by apply start_good. Qed.

(** ** From one phase to the next *)

(** The digest of a batch that was proposed once. *)
Definition batch_of (dp : Digest) : Digest := ctx_finish (ctx_update ctx_new dp).

(** The one proposal an instance past its first phase has taken. *)
Lemma only_proposal x n :
  good x n -> Progress.past_proposals n.(instance) ->
  exists l m rqs b, l ∈ v.(ViewInfo.leader_set) /\ m ∈ n.(given) /\ proposal_of l m /\ DecProof.kind_of m = Ok (PrePrepare rqs) /\
    digest_of n.(instance) = Some (batch_of (hdr_digest m.(header))) /\
    WorkingDecisionLog.finish_processing_batch n.(instance).(ConsensusDecision.working_log) = Ok (Some b) /\
    b.(cb_seq) = s /\ b.(cb_client_requests) = rqs.
Proof.
  intros [[Hinv _ _ _] Ht] Hpast. destruct Hwf as (_ & _ & _ & (l & _ & Hl & _) & _).
  destruct (WorkingDecisionLog.finish_ok _ (ConsensusDecision.d_log _ _ Hinv)) as (dg & ord & pps & reqs & Hcalc & Hdg & Hpps & Hreqs & Hfin).
  { pose proof (ConsensusDecision.d_phase _ _ Hinv) as Hph. unfold Progress.past_proposals in Hpast.
    destruct (phase (instance n)); try done; apply Hph. }
  pose proof (WorkingDecisionLog.inv_slots _ (ConsensusDecision.d_log _ _ Hinv)) as Hsl.
  pose proof (ConsensusDecision.d_leaders _ _ Hinv) as Hld. rewrite Hl in Hld.
  pose proof (WorkingDecisionLog.si_log _ Hsl) as Hlen. rewrite Hpps, Hld, length_fmap in Hlen. destruct pps as [|m [|]]; try done.
  pose proof (WorkingDecisionLog.si_contained _ Hsl) as Hrl. rewrite Hreqs, Hld, length_fmap in Hrl. destruct reqs as [|rqs [|]]; try done.
  pose proof (WorkingDecisionLog.hash_digests_ordering _ _ _ _ Hcalc) as Hord. pose proof (WorkingDecisionLog.si_digests _ Hsl) as Hdl.
  rewrite Hord, Hld, length_fmap in Hdl. destruct ord as [|d0 [|]]; try done.
  destruct (WorkingDecisionLog.si_slots _ Hsl 0 l (Some d0) (Some rqs) (Some m)) as (Hfrom & [= ->] & rqs' & Hk & [= ->]); try (by rewrite ?Hld, ?Hord, ?Hreqs, ?Hpps).
  pose proof (ConsensusDecision.d_proposals _ _ Hinv) as Hgood. rewrite Hpps in Hgood. apply Forall_inv in Hgood as (nonce & rqs0 & Hmsg).
  rewrite (ConsensusDecision.d_seq _ _ Hinv), (t_seq _ _ _ _ Ht) in *. exists l, m, rqs'. eexists. split_and!; [rewrite Hl; by left| |split; [done|by eauto]|done| |exact Hfin|done|].
  - apply (t_proposals _ _ _ _ Ht). unfold proposals. rewrite Hpps. by left.
  - unfold WorkingDecisionLog.calculate_instance_digest in Hcalc. rewrite Hord in Hcalc. cbn in Hcalc. injection Hcalc as <-. exact Hdg.
  - cbn. by rewrite app_nil_r.
Qed.

Lemma proposed_digest dp x n :
  good x n -> Progress.past_proposals n.(instance) ->
  (forall l m, l ∈ v.(ViewInfo.leader_set) -> m ∈ n.(given) -> proposal_of l m -> hdr_digest m.(header) = dp) ->
  digest_of n.(instance) = Some (batch_of dp).
Proof.
  intros Hg Hpast Hone. destruct (only_proposal x n Hg Hpast) as (l & m & rqs & b & Hl & Hm & Hp & _ & Hd & _). by rewrite Hd, (Hone l m).
Qed.

Definition correct_members : list NodeId := filter (fun x => x ∉ byz) v.(ViewInfo.quorum_members).

Lemma correct_enough : size byz <= ViewInfo.f v -> NoDup correct_members /\ ViewInfo.quorum v <= length correct_members.
Proof.
  intros Hb. destruct Hwf as (Hnd & Hlen & Hn & _). split; [by apply NoDup_filter|].
  assert (size (list_to_set v.(ViewInfo.quorum_members) ∖ byz : gset NodeId) <= length correct_members) as Hle.
  { rewrite <- (size_list_to_set_NoDup correct_members) by (by apply NoDup_filter). apply subseteq_size. intros x Hx.
    apply elem_of_list_to_set, list_elem_of_filter. set_solver. }
  pose proof (size_difference_alt (list_to_set v.(ViewInfo.quorum_members) : gset NodeId) byz) as Hd.
  pose proof (subseteq_size (list_to_set v.(ViewInfo.quorum_members) ∩ byz) byz ltac:(set_solver)) as Hi.
  rewrite size_list_to_set_NoDup in Hd by done. unfold ViewInfo.quorum, ViewInfo.n, ViewInfo.f in *. rewrite sp_quorum_2f1. lia.
Qed.

Lemma choose_votes (P : PBFTMessage -> Prop) (h : list Shareable) zs :
  (forall z, z ∈ zs -> exists m : Shareable, m ∈ h /\ hdr_from m.(header) = z /\ P m.(message)) ->
  exists l, (forall m, m ∈ l -> m ∈ h) /\ WorkingDecisionLog.senders l = zs /\ Forall (fun m => P m.(message)) l.
Proof.
  induction zs as [|z zs IH]; intros H; [by exists []; split_and!; [intros m ?%elem_of_nil|..]|].
  destruct IH as (l & H1 & H2 & H3); [intros; apply H; by right|]. destruct (H z) as (m & Hm & Hz & HP); [by left|].
  exists (m :: l). split_and!; [|cbn; by f_equal|by constructor]. intros m' [->|?]%elem_of_cons; auto.
Qed.

(** What all correct members say to everybody is, once it has arrived, a quorum. *)
Lemma votes_arrived P y y' x :
  size byz <= ViewInfo.f v -> arrived y y' -> x ∉ byz -> x ∈ v.(ViewInfo.quorum_members) ->
  (forall z, z ∉ byz -> z ∈ v.(ViewInfo.quorum_members) -> to_all P (y z).(said)) ->
  Progress.quorum_of v P (y' x).(given).
Proof.
  intros Hb Harr Hx Hxm Hall. destruct (correct_enough Hb) as [Hnd Hlen].
  destruct (choose_votes P (given (y' x)) correct_members) as (l & H1 & H2 & H3).
  { intros z [Hz Hzm]%list_elem_of_filter. destruct (Hall z Hz Hzm x Hxm) as (msg & HP & Hin).
    destruct (Harr x z msg Hx Hxm Hz Hzm Hin) as (m & ? & ? & <-). by exists m. }
  exists l. split_and!; [done|by rewrite H2| |done]. rewrite <- H2 in Hlen. unfold WorkingDecisionLog.senders in Hlen. by rewrite length_fmap in Hlen.
Qed.

Lemma voted_prepare dg x n : good x n -> Progress.past_proposals n.(instance) -> digest_of n.(instance) = Some dg ->
  to_all (prepares_for s v.(ViewInfo.seq) dg) n.(said).
Proof.
  intros [_ Ht] Hpast Hdg. pose proof (t_voted _ _ _ _ Ht) as Hv. unfold voted, Progress.past_proposals in *.
  destruct (phase (instance n)); try done; by apply Hv.
Qed.
Lemma voted_commit dg x n : good x n -> Progress.past_prepares n.(instance) -> digest_of n.(instance) = Some dg ->
  to_all (commits_to s v.(ViewInfo.seq) dg) n.(said).
Proof.
  intros [_ Ht] Hpast Hdg. pose proof (t_voted _ _ _ _ Ht) as Hv. unfold voted, Progress.past_prepares in *.
  destruct (phase (instance n)); try done; by apply Hv.
Qed.

(** A settled state in which the proposal has arrived: everybody is past the proposals and has said so. *)
Definition at_prepare (dp : Digest) (y : NodeId -> node) : Prop :=
  forall x, x ∉ byz -> x ∈ v.(ViewInfo.quorum_members) ->
  good x (y x) /\ Progress.quiescent (y x).(instance) /\ Progress.past_proposals (y x).(instance) /\ digest_of (y x).(instance) = Some (batch_of dp).

Lemma proposed_settled dp y :
  all_good y -> settled y -> offered y -> unequivocal dp y -> at_prepare dp y.
Proof.
  intros Hg Hset Hoff Hone x Hx Hxm. destruct (Hg x Hx) as [Hl Ht].
  assert (Progress.past_proposals (y x).(instance)) as Hpast.
  { eapply (Progress.live_proposed v); [exact Hl|by apply Hset|]. rewrite (t_id _ _ _ _ Ht), (t_seq _ _ _ _ Ht). intros l Hld. by apply Hoff. }
  split_and!; [by apply Hg|by apply Hset|done|]. apply (proposed_digest dp x); [by apply Hg|done|]. intros l m. by apply Hone.
Qed.

Lemma prepared_settled dp y y' :
  size byz <= ViewInfo.f v -> at_prepare dp y -> at_prepare dp y' -> arrived y y' ->
  forall x, x ∉ byz -> x ∈ v.(ViewInfo.quorum_members) -> Progress.past_prepares (y' x).(instance).
Proof.
  intros Hb Hy Hy' Harr x Hx Hxm. destruct (Hy' x Hx Hxm) as ([Hl Ht] & Hq & Hpast & Hdg).
  eapply (Progress.live_prepared v); [exact Hl|done..|]. rewrite (t_seq _ _ _ _ Ht). apply (votes_arrived _ y y'); try done.
  intros z Hz Hzm. destruct (Hy z Hz Hzm) as (Hgz & _ & Hpz & Hdz). by eapply voted_prepare.
Qed.

Lemma decided_settled dp y1 y2 y3 :
  size byz <= ViewInfo.f v -> at_prepare dp y1 -> at_prepare dp y2 -> at_prepare dp y3 -> arrived y1 y2 -> arrived y2 y3 ->
  (forall z p, z ∉ byz -> p ∈ (y1 z).(said) -> p ∈ (y2 z).(said)) ->
  forall x, x ∉ byz -> x ∈ v.(ViewInfo.quorum_members) ->
  phase (y3 x).(instance) = PhaseDecided /\ digest_of (y3 x).(instance) = Some (batch_of dp).
Proof.
  intros Hb H1 H2 H3 H12 H23 Hsaid x Hx Hxm. destruct (H3 x Hx Hxm) as ([Hl Ht] & Hq & Hpast & Hdg). split; [|done].
  assert (arrived y1 y3) as H13 by (intros a z msg Ha Ham Hz Hzm Hin%Hsaid; [by eapply H23|done]).
  eapply (Progress.live_decided v); [exact Hl|done| |exact Hdg|]; [by eapply (prepared_settled dp y1 y3)|].
  rewrite (t_seq _ _ _ _ Ht). apply (votes_arrived _ y2 y3); try done. intros z Hz Hzm.
  destruct (H2 z Hz Hzm) as (Hgz & _ & _ & Hdz). eapply voted_commit; [exact Hgz| |done]. by eapply (prepared_settled dp y1 y2).
Qed.

Lemma local_said n n' p : local n n' -> p ∈ n.(said) -> p ∈ n'.(said).
Proof. intros [rng sy Hsy|rng sy m c Hsy Hc|j] Hp; cbn; set_solver. Qed.

Lemma locals_said n n' p : rtc local n n' -> p ∈ n.(said) -> p ∈ n'.(said).
Proof. induction 1; eauto using local_said. Qed.

(** C6. Progress of a view whose members are the nodes 0 to n-1.  At most [f] members are faulty, and every proposal in the leader's name
    that arrives at a correct member has one and the same digest.  Take three moments of an execution in which no correct replica has
    anything left to handle, such that a valid proposal of the leader has arrived at every correct member by the first, and what
    correct members said by the first has arrived at the second, and so on: at the third every correct member has decided the batch
    of the proposal.  What else arrived makes no difference: votes and proposals of anybody, forged or repeated, in whatever
    order, as long as they are not a second proposal in the leader's name; nor does the work of the thread pool. *)
Theorem three_delays_decide q dp y1 y2 y3 :
  size byz <= ViewInfo.f v -> early_ok q ->
  evolves (start q) y1 -> evolves y1 y2 -> evolves y2 y3 -> settled y1 -> settled y2 -> settled y3 ->
  offered y1 -> unequivocal dp y3 -> arrived y1 y2 -> arrived y2 y3 ->
  forall x, x ∉ byz -> x ∈ v.(ViewInfo.quorum_members) ->
  phase (y3 x).(instance) = PhaseDecided /\ digest_of (y3 x).(instance) = Some (batch_of dp).
Proof.
  intros Hb Hq R1 R2 R3 S1 S2 S3 Hoff Hone H12 H23.
  pose proof (started_good _ _ Hq R1) as G1. pose proof (evolves_good _ _ R2 G1) as G2. pose proof (evolves_good _ _ R3 G2) as G3.
  assert (forall y y', evolves y y' -> offered y -> offered y') as Hoffs.
  { intros y y' R Ho x l Hx Hxm Hl. destruct (Ho x l Hx Hxm Hl) as (m & Hm & ?). exists m. split; [|done]. eapply locals_given; [by apply R|done]. }
  assert (forall y y', evolves y y' -> unequivocal dp y' -> unequivocal dp y) as Hones.
  { intros y y' R Ho x l m Hx Hxm Hl Hm. apply (Ho x l m); try done. eapply locals_given; [by apply R|done]. }
  apply (decided_settled dp y1 y2 y3); try done; [apply proposed_settled; eauto..|]. intros z p Hz. apply locals_said. by apply R2.
Qed.

(** ** Synchronous rounds *)

Context {WL : WireFormatLaws} (rng : nat -> N) (sy : Sy) (pool : node -> list nat) (Hsy : sy_view sy = v).

(** What the correct members have said to [x], as it arrives there. *)
Definition inbox (y : NodeId -> node) (x : NodeId) : list Shareable :=
  correct_members ≫= fun z => (fun p => mkStored (wire_header z x p.2) p.2) <$> filter (fun p => p.1 = x) (y z).(said).

(** The thread pool works on the speculative COMMITs after every step of the replica thread: on which of them, and how much, is
    given by [pool] and may depend on all that has happened. *)
Definition worked (n : node) : node := foldl (fun n j => ticked j n) n (pool n).

Definition take_in (ms : list Shareable) (n : node) : node := foldl (fun n m => worked (delivered rng sy m n)) n ms.
Definition handle_one (n : node) : node := worked (polled rng sy n).
Definition settle (n : node) : node :=
  Nat.iter (Progress.pending (n.(instance).(ConsensusDecision.message_queue)) + Progress.to_start n.(instance)) handle_one n.

(** Every correct member is given [extra x] and everything that was said to it, and handles it. *)
Definition round (extra : NodeId -> list Shareable) (y : NodeId -> node) : NodeId -> node := fun x =>
  if decide (x ∈ byz) then y x else settle (take_in (extra x ++ inbox y x) (y x)).

Definition consensus_messages (l : list Shareable) : Prop := forall m, m ∈ l -> exists c, consensus m.(message) = Ok c.

Lemma own_vote_consensus d msg : ConsensusDecision.own_vote v d msg ->
  (exists c, consensus msg = Ok c) /\ (forall x m, m.(message) = msg -> ~ proposal_of x m).
Proof.
  intros (dg & _ & H). assert (exists nonce k, msg = Messages.Consensus (mkConsensusMessage d.(ConsensusDecision.seq) v.(ViewInfo.seq) nonce k) /\
    forall rqs, k <> PrePrepare rqs) as (nonce & k & -> & Hk) by (destruct H as [[nonce ->]|[[nonce ->] _]]; eauto).
  split; [by eexists|]. intros x m Hm (_ & nonce' & rqs & Hm'). rewrite Hm in Hm'. simplify_eq. by eapply Hk.
Qed.

Lemma inbox_votes y x m :
  all_good y -> m ∈ inbox y x -> (exists c, consensus m.(message) = Ok c) /\ forall l, ~ proposal_of l m.
Proof.
  intros Hg (z & Hm & [Hz _]%list_elem_of_filter)%list_elem_of_bind. apply list_elem_of_fmap in Hm as (p & -> & Hp). apply list_elem_of_filter in Hp as [_ Hp].
  destruct (own_vote_consensus _ _ (t_said _ _ _ _ (proj2 (Hg z Hz)) p Hp)) as [Hc Hn]. split; [done|]. intros l. by apply Hn.
Qed.

Lemma worked_spec x n : good x n ->
  good x (worked n) /\ rtc local n (worked n) /\ (worked n).(given) = n.(given) /\
  exists a, (worked n).(instance) = ConsensusDecision.set_accessory a n.(instance).
Proof.
  unfold worked. generalize (pool n). intros js. revert n. induction js as [|j js IH]; intros n Hg; cbn [foldl].
  { split_and!; [done..|]. exists n.(instance).(ConsensusDecision.accessory). by destruct (instance n). }
  destruct (IH (ticked j n)) as (H1 & H2 & H3 & a & H4); [by apply ticked_good|]. split_and!; [done|eapply rtc_l; [apply do_tick|done]|done|].
  exists a. rewrite H4. done.
Qed.

(** What the thread pool does is of no concern to the next poll. *)
Lemma accessory_quiescent a d : Progress.quiescent (ConsensusDecision.set_accessory a d) <-> Progress.quiescent d.
Proof.
  unfold Progress.quiescent, ConsensusDecision.poll. destruct d as [n sq ph [gq pp p c] l acc]. cbn.
  destruct ph, gq; cbn; try done; [destruct pp|destruct p|destruct c]; done.
Qed.

Lemma handle_one_spec x n : good x n ->
  good x (handle_one n) /\ rtc local n (handle_one n) /\ (handle_one n).(given) = n.(given) /\
  exists a, (handle_one n).(instance) = ConsensusDecision.set_accessory a (Progress.poll_once rng sy n.(instance)).
Proof.
  intros Hg. destruct (worked_spec x (polled rng sy n)) as (H1 & H2 & H3 & H4); [by apply polled_good|].
  split_and!; [exact H1|eapply rtc_l; [by apply (do_poll n rng sy)|exact H2]|exact H3|exact H4].
Qed.

Lemma take_in_spec x ms n :
  consensus_messages ms -> good x n ->
  good x (take_in ms n) /\ rtc local n (take_in ms n) /\ (take_in ms n).(given) = n.(given) ++ ms.
Proof.
  revert n. induction ms as [|m ms IH]; intros n Hms Hg; [cbn; split_and!; [done..|by rewrite app_nil_r]|].
  change (take_in (m :: ms) n) with (take_in ms (worked (delivered rng sy m n))).
  destruct (Hms m) as [c Hc]; [by left|].
  destruct (worked_spec x (delivered rng sy m n)) as (W1 & W2 & W3 & _); [by eapply delivered_good|].
  destruct (IH (worked (delivered rng sy m n))) as (H1 & H2 & H3); [intros m' Hm'; apply Hms; by right|done|].
  split_and!; [done|eapply rtc_l; [by eapply (do_deliver n rng sy m)|by etransitivity]|]. rewrite H3, W3. cbn. by rewrite <- app_assoc.
Qed.

Lemma quiescent_poll_once h d : Progress.live v h d -> Progress.quiescent d -> Progress.quiescent (Progress.poll_once rng sy d).
Proof.
  intros Hl Hq. pose proof (Progress.poll_quiescent d (Progress.l_kinds _ _ _ Hl) Hq) as Hq'. unfold Progress.poll_once.
  unfold Progress.quiescent in Hq. destruct (ConsensusDecision.poll d) as [st d']. cbn in *. by destruct Hq as [->| ->].
Qed.

Lemma handle_one_quiescent x n : good x n -> Progress.quiescent n.(instance) -> Progress.quiescent (handle_one n).(instance).
Proof.
  intros Hg Hq. destruct (handle_one_spec x n Hg) as (_ & _ & _ & a & ->). apply accessory_quiescent.
  by eapply quiescent_poll_once; [apply Hg|].
Qed.

Lemma polls_settle x k n :
  good x n -> good x (Nat.iter k handle_one n) /\ rtc local n (Nat.iter k handle_one n) /\
  (Nat.iter k handle_one n).(given) = n.(given) /\
  (Progress.pending (n.(instance).(ConsensusDecision.message_queue)) + Progress.to_start n.(instance) <= k ->
   Progress.quiescent (Nat.iter k handle_one n).(instance)).
Proof.
  revert n. induction k as [|k IH]; intros n Hg.
  - split_and!; [done..|]. cbn. intros Hk. destruct (Progress.quiescent_dec n.(instance)) as [|Hnq]; [done|exfalso].
    pose proof (Progress.poll_once_measure v Hwf n.(given) n.(instance) rng sy Hsy (proj1 Hg) Hnq). lia.
  - rewrite Nat.iter_succ_r. destruct (handle_one_spec x n Hg) as (G1 & R1 & E1 & a & Ha).
    destruct (IH (handle_one n) G1) as (H1 & H2 & H3 & H4). split_and!; [done|by etransitivity|by rewrite H3|].
    intros Hk. destruct (Progress.quiescent_dec n.(instance)) as [Hq|Hnq].
    + apply (handle_one_quiescent x n Hg) in Hq. clear - Hq G1 Hsy Hwf Hmembers L SL. revert Hq G1. generalize (handle_one n). clear n.
      induction k as [|k IH]; intros n Hq Hg; [done|]. rewrite Nat.iter_succ_r.
      apply IH; [by eapply handle_one_quiescent|by apply handle_one_spec].
    + apply H4. rewrite Ha. pose proof (Progress.poll_once_measure v Hwf n.(given) n.(instance) rng sy Hsy (proj1 Hg) Hnq) as Hm.
      change (Progress.to_start (ConsensusDecision.set_accessory a ?d)) with (Progress.to_start d). cbn in *. lia.
Qed.

Lemma settle_spec x n :
  good x n -> good x (settle n) /\ rtc local n (settle n) /\ (settle n).(given) = n.(given) /\ Progress.quiescent (settle n).(instance).
Proof.
  intros Hg. unfold settle. set (k := _ + _). destruct (polls_settle x k n Hg) as (H1 & H2 & H3 & H4). split_and!; try done. by apply H4.
Qed.

Lemma round_spec extra y x :
  all_good y -> consensus_messages (extra x) -> x ∉ byz ->
  good x (round extra y x) /\ rtc local (y x) (round extra y x) /\ Progress.quiescent (round extra y x).(instance) /\
  (round extra y x).(given) = (y x).(given) ++ extra x ++ inbox y x.
Proof.
  intros Hg He Hx. unfold round. rewrite decide_False by done.
  destruct (take_in_spec x (extra x ++ inbox y x) (y x)) as (G1 & R1 & E1); [|by apply Hg|].
  { intros m [Hm|Hm]%elem_of_app; [by apply He|]. by apply (inbox_votes y x m Hg). }
  destruct (settle_spec x _ G1) as (G2 & R2 & E2 & Hq). split_and!; [exact G2|by etransitivity|done|by rewrite E2, E1].
Qed.

Lemma round_good extra y : all_good y -> (forall x, consensus_messages (extra x)) -> all_good (round extra y).
Proof.
  intros Hg He z Hz. by apply round_spec.
Qed.

Lemma round_arrived extra y : all_good y -> (forall x, consensus_messages (extra x)) -> arrived y (round extra y).
Proof.
  intros Hg He x z msg Hx Hxm Hz Hzm Hin. destruct (round_spec extra y x Hg (He x) Hx) as (_ & _ & _ & ->).
  exists (mkStored (wire_header z x msg) msg). split_and!; [|apply wire_header_from|done]. rewrite !elem_of_app. right. right.
  apply list_elem_of_bind. exists z. split; [|by apply list_elem_of_filter]. apply list_elem_of_fmap. exists (x, msg). by rewrite list_elem_of_filter.
Qed.

Lemma round_evolves extra y : all_good y -> (forall x, consensus_messages (extra x)) -> evolves y (round extra y).
Proof. intros Hg He x Hx. by apply round_spec. Qed.

Lemma round_only P extra y :
  all_good y -> (forall x, consensus_messages (extra x)) -> only P y ->
  (forall x l m, x ∉ byz -> x ∈ v.(ViewInfo.quorum_members) -> l ∈ v.(ViewInfo.leader_set) -> m ∈ extra x -> proposal_of l m -> P m) ->
  only P (round extra y).
Proof.
  intros Hg He Hu Hx x l m Hnx Hxm Hl. destruct (round_spec extra y x Hg (He x) Hnx) as (_ & _ & _ & ->). rewrite !elem_of_app.
  intros [Hm|[Hm|Hm]]; [by apply (Hu x l m)|by apply (Hx x l m)|]. intros Hp. by destruct (proj2 (inbox_votes y x m Hg Hm) l).
Qed.

Definition nothing : NodeId -> list Shareable := fun _ => [].
Lemma nothing_consensus x : consensus_messages (nothing x).
Proof. by intros m ?%elem_of_nil. Qed.

(** The first round brings the proposals, two more the votes. *)
Definition three_rounds (proposal : NodeId -> list Shareable) (y : NodeId -> node) : NodeId -> node :=
  round nothing (round nothing (round proposal y)).

Lemma three_rounds_ok proposal y :
  all_good y -> (forall x, consensus_messages (proposal x)) -> all_good (three_rounds proposal y) /\ evolves y (three_rounds proposal y).
Proof.
  intros G0 Hc. pose proof (round_good proposal y G0 Hc) as G1. pose proof (round_good nothing _ G1 nothing_consensus) as G2.
  split; [by apply round_good, nothing_consensus|]. intros x Hx.
  etransitivity; [by apply (round_evolves proposal)|]. etransitivity; by apply (round_evolves nothing), Hx; [..|apply nothing_consensus].
Qed.

Lemma three_rounds_only P proposal y :
  all_good y -> (forall x, consensus_messages (proposal x)) -> only P y ->
  (forall x l m, x ∉ byz -> x ∈ v.(ViewInfo.quorum_members) -> l ∈ v.(ViewInfo.leader_set) -> m ∈ proposal x -> proposal_of l m -> P m) ->
  only P (round proposal y) /\ only P (round nothing (round proposal y)) /\ only P (three_rounds proposal y).
Proof.
  intros G0 Hc H0 Hp. pose proof (round_good proposal y G0 Hc) as G1. pose proof (round_good nothing _ G1 nothing_consensus) as G2.
  pose proof (round_only P proposal y G0 Hc H0 Hp) as O1. pose proof nothing_consensus as Hn.
  assert (forall z, all_good z -> only P z -> only P (round nothing z)) as Hr
    by (intros z Gz Oz; apply round_only; [done..|]; by intros x l m _ _ _ ?%elem_of_nil).
  split_and!; unfold three_rounds; auto.
Qed.

Lemma rounds_decided dp proposal y :
  size byz <= ViewInfo.f v -> all_good y -> unequivocal dp y -> (forall x, consensus_messages (proposal x)) ->
  (forall x l, x ∉ byz -> x ∈ v.(ViewInfo.quorum_members) -> l ∈ v.(ViewInfo.leader_set) ->
     (exists m, m ∈ proposal x /\ Progress.valid_proposal v s x l m) /\
     (forall m, m ∈ proposal x -> proposal_of l m -> hdr_digest m.(header) = dp)) ->
  forall x, x ∉ byz -> x ∈ v.(ViewInfo.quorum_members) ->
  phase (three_rounds proposal y x).(instance) = PhaseDecided /\ digest_of (three_rounds proposal y x).(instance) = Some (batch_of dp).
Proof.
  intros Hb G0 Hu Hc Hprop. pose proof nothing_consensus as Hn. unfold three_rounds.
  destruct (three_rounds_only _ proposal y G0 Hc Hu) as (U1 & U2 & U3); [intros x l m Hx Hxm Hl; by apply (Hprop x l)|]. unfold three_rounds in U3.
  set (y1 := round proposal y) in *. set (y2 := round nothing y1) in *. set (y3 := round nothing y2) in *.
  assert (all_good y1) as G1 by (by apply round_good). assert (all_good y2) as G2 by (by apply round_good). assert (all_good y3) as G3 by (by apply round_good).
  assert (forall e z, all_good z -> (forall w, consensus_messages (e w)) -> settled (round e z)) as Hset
    by (intros e z Hg He w Hw _; by apply round_spec).
  assert (offered y1) as O1.
  { intros x l Hx Hxm Hl. destruct (Hprop x l Hx Hxm Hl) as [(m & Hm & Hv) _]. exists m. split; [|done].
    destruct (round_spec proposal y x G0 (Hc x) Hx) as (_ & _ & _ & E). subst y1. rewrite E, !elem_of_app. auto. }
  assert (forall z, all_good z -> offered z -> offered (round nothing z)) as Hoff.
  { intros z Gz Oz x l Hx Hxm Hl. destruct (Oz x l Hx Hxm Hl) as (m & Hm & Hv). exists m. split; [|done].
    destruct (round_spec nothing z x Gz (Hn x) Hx) as (_ & _ & _ & ->). rewrite !elem_of_app. auto. }
  apply (decided_settled dp y1 y2 y3); try done; [apply proposed_settled; unfold y2, y3; eauto..|by apply round_arrived|by apply round_arrived|].
  intros z p Hz. apply locals_said. by apply round_evolves.
Qed.

(** C7. Three rounds suffice, in a view whose members are the nodes 0 to n-1.  Take any state an execution has reached, with [f] faulty
    members at most that may have sent anything so far but a second proposal in the leader's name.  If a valid proposal of the leader is
    handed to every correct member in the first round, and no proposal of another digest in the leader's name, then three rounds, in each of which the
    correct members handle what was said to them before, bring every correct member to a decision, on the batch of the proposal.
    A round is a finite sequence of polls and deliveries, and after each of them the thread pool works on the speculative COMMITs as
    much as it likes. *)
Theorem three_rounds_decide q dp proposal y :
  size byz <= ViewInfo.f v -> early_ok q -> evolves (start q) y -> unequivocal dp y -> (forall x, consensus_messages (proposal x)) ->
  (forall x l, x ∉ byz -> x ∈ v.(ViewInfo.quorum_members) -> l ∈ v.(ViewInfo.leader_set) ->
     (exists m, m ∈ proposal x /\ Progress.valid_proposal v s x l m) /\
     (forall m, m ∈ proposal x -> proposal_of l m -> hdr_digest m.(header) = dp)) ->
  evolves y (three_rounds proposal y) /\
  forall x, x ∉ byz -> x ∈ v.(ViewInfo.quorum_members) ->
  phase (three_rounds proposal y x).(instance) = PhaseDecided /\ digest_of (three_rounds proposal y x).(instance) = Some (batch_of dp).
Proof.
  intros Hb Hq R Hu Hc Hprop. pose proof (started_good _ _ Hq R) as G0. split; [by apply three_rounds_ok|]. by apply rounds_decided.
Qed.

(** ** What is decided *)

Lemma finalized_requests x n rqs :
  good x n -> phase n.(instance) = PhaseDecided ->
  (forall l m, l ∈ v.(ViewInfo.leader_set) -> m ∈ n.(given) -> proposal_of l m -> DecProof.kind_of m = Ok (PrePrepare rqs)) ->
  exists b, ConsensusDecision.finalize n.(instance) = Ok b /\ b.(cb_seq) = s /\ b.(cb_client_requests) = rqs.
Proof.
  intros Hg Hph Hone. destruct (only_proposal x n Hg) as (l & m & rqs' & b & Hl & Hm & Hp & Hk & _ & Hfin & Hs & Hr).
  { unfold Progress.past_proposals. by rewrite Hph. }
  exists b. unfold ConsensusDecision.finalize. rewrite Hph, Hfin. split_and!; [done|done|]. rewrite (Hone l m Hl Hm Hp) in Hk. congruence.
Qed.

(** ** Whose votes count *)

Definition vote_of (me : NodeId) (K : Digest -> ConsensusMessageKind) (dg : Digest) (z : NodeId) : Shareable :=
  let msg := Messages.Consensus (mkConsensusMessage s v.(ViewInfo.seq) 0 (K dg)) in mkStored (wire_header z me msg) msg.

Lemma votes_quorum me K dg zs h (P : PBFTMessage -> Prop) :
  NoDup zs -> ViewInfo.quorum v <= length zs -> (forall z, P (vote_of me K dg z).(message)) -> (forall m, m ∈ vote_of me K dg <$> zs -> m ∈ h) ->
  Progress.quorum_of v P h.
Proof.
  intros Hnd Hlen HP Hin. exists (vote_of me K dg <$> zs). split_and!; [done| |by rewrite length_fmap|by apply Forall_fmap, Forall_true].
  assert (WorkingDecisionLog.senders (vote_of me K dg <$> zs) = zs) as ->; [|done].
  unfold WorkingDecisionLog.senders. rewrite <- list_fmap_compose. rewrite <- (list_fmap_id zs) at 2. apply list_fmap_ext. intros i z _. apply wire_header_from.
Qed.

(** Nobody asks whether a voter is a member.  An instance that was given the leader's proposal, a quorum of PREPAREs and a quorum of
    COMMITs decides, although not one of the votes comes from a member of the view. *)
Theorem strangers_decide me l m0 zs :
  l ∈ v.(ViewInfo.leader_set) -> Progress.valid_proposal v s me l m0 ->
  NoDup zs -> ViewInfo.quorum v <= length zs -> (forall z, z ∈ zs -> z ∉ v.(ViewInfo.quorum_members)) ->
  let dg := batch_of (hdr_digest m0.(header)) in
  let ms := m0 :: (vote_of me Prepare dg <$> zs) ++ (vote_of me Commit dg <$> zs) in
  phase (settle (take_in ms (start (fun _ => ([], [], [])) me))).(instance) = PhaseDecided.
Proof.
  intros Hl Hval Hnd Hlen _ dg ms. assert (consensus_messages ms) as Hc.
  { intros m [->|[Hm|Hm]%elem_of_app]%elem_of_cons; [|apply list_elem_of_fmap in Hm as (z & -> & _); by eexists..].
    destruct Hval as (_ & _ & nonce & rqs & -> & _). by eexists. }
  assert (early_ok (fun _ => ([], [], []))) as Hq by (intros z; by repeat split).
  destruct (take_in_spec me ms _ Hc (start_good _ me Hq)) as (G1 & _ & E1). destruct (settle_spec me _ G1) as (G & _ & E & Hqd).
  rewrite E1 in E. set (n := settle _) in *. cbn in E. pose proof G as [Hlv Ht].
  assert (Progress.past_proposals n.(instance)) as Hpast.
  { eapply (Progress.live_proposed v); [exact Hlv|done|]. rewrite (t_id _ _ _ _ Ht), (t_seq _ _ _ _ Ht). intros l' Hl'.
    destruct Hwf as (_ & _ & _ & (l0 & _ & Hl0 & _) & _). assert (l' = l) as -> by (rewrite Hl0 in *; set_solver).
    exists m0. rewrite E. split; [by left|done]. }
  assert (digest_of n.(instance) = Some dg) as Hdg.
  { apply (proposed_digest _ me); [done|done|]. intros l' m _ Hm (_ & nonce & rqs & Hp). rewrite E in Hm.
    apply elem_of_cons in Hm as [->|[Hm|Hm]%elem_of_app]; [done|apply list_elem_of_fmap in Hm as (z & -> & _); done..]. }
  eapply (Progress.live_decided v); [exact Hlv|done| |exact Hdg|].
  - eapply (Progress.live_prepared v); [exact Hlv|done|done|exact Hdg|]. rewrite E, (t_seq _ _ _ _ Ht).
    apply (votes_quorum me Prepare dg zs); [done..|intros z; by eexists|]. intros m ?. right. apply elem_of_app. by left.
  - rewrite E, (t_seq _ _ _ _ Ht). apply (votes_quorum me Commit dg zs); [done..|intros z; by eexists|]. intros m ?. right. apply elem_of_app. by right.
Qed.
End liveness.
End Liveness.
