(* ===== verification/Replicas.v ===== *)
(** * Total order within a view

    A system of replicas that each run a whole window of instances ([Consensus]) in one view.  For every sequence number it refines the
    system of file Agreement, in which the replicas run that one instance: the window takes each instance
    through steps of that system and through no others.  Total order follows: what two correct replicas finalize, one after
    the other, is the same as far as both have got. *)
From S2P Require Import Prelude Atlas Errors View Messages Decisions Deciding Log Network.
From S2P Require Import SyncAccessory Accessory Decision Agreement Progress Consensus ConsensusFacts Offers.

Module Replicas.
Section replicas.
Context {A : Atlas} {D : AtlasDecisions} {WF : WireFormat} {Sy : Type} {SH : SyncHandle Sy}.
Context (v : ViewInfo.t) (s0 : SeqNo) (w : nat) (byz : gset NodeId).

Abbreviation decisions := Consensus.decisions.
Abbreviation decision := ConsensusDecision.t.
Abbreviation init_decision := ConsensusDecision.init_decision.

(** ** The system *)

(** A replica: its window, the instances that have left it and the batches they were finalized to. *)
Record member := mkMember {
  window : Consensus.t;
  gone : list decision;
  delivered : list CompletedBatch;
}.

Record t := mk {
  members : NodeId -> member;
  net : list (NodeId * PBFTMessage);
}.

Definition new_member (x : NodeId) : member :=
  mkMember (Consensus.new_replica x v s0 w (ProposerConsensusGuard.new v)) [] [].
Definition start : t := mk new_member [].

Definition upd (x : NodeId) (m : member) (f : NodeId -> member) : NodeId -> member :=
  fun y => if decide (y = x) then m else f y.

(** As in file Agreement: a vote in the name of a correct member has been sent by it. *)
Definition authentic (net : list (NodeId * PBFTMessage)) (m : Shareable) : Prop :=
  hdr_from m.(header) ∈ v.(ViewInfo.quorum_members) /\
  (hdr_from m.(header) ∉ byz -> ~ System.is_proposal m.(message) -> (hdr_from m.(header), m.(message)) ∈ net).

(** What the replica thread does with its window, and the messages it sends. *)
Inductive act (net : list (NodeId * PBFTMessage)) (m : member) : list PBFTMessage -> member -> Prop :=
  | act_poll st c' : Offers.signals_recent m.(window) -> Consensus.poll m.(window) = mkRun (Ok (Some st)) c' [] ->
      act net m [] (mkMember c' m.(gone) m.(delivered))
  | act_message rng (sy : Sy) msg cm : sy_view sy = v -> authentic net msg -> consensus msg.(message) = Ok cm ->
      let r := Consensus.process_message rng sy msg m.(window) in
      act net m (sent r.(r_eff)).*2 (mkMember r.(r_st) m.(gone) m.(delivered))
  | act_queue msg cm : consensus msg.(message) = Ok cm ->
      act net m [] (mkMember (Consensus.queue msg m.(window)).(r_st) m.(gone) m.(delivered))
  | act_finalize d b c' eff : head m.(window).(decisions) = Some d ->
      Consensus.finalize v m.(window) = mkRun (Ok (Some b)) c' eff ->
      act net m (sent eff).*2 (mkMember c' (m.(gone) ++ [d]) (m.(delivered) ++ [b]))
  | act_tick i j d : m.(window).(decisions) !! i = Some d ->
      act net m [] (mkMember (Consensus.set_decisions (<[i := ConsensusDecision.set_accessory
        (accessory_tick j d.(ConsensusDecision.accessory)) d]> m.(window).(decisions)) m.(window)) m.(gone) m.(delivered))
  (** the guard changes: the replica opens or closes it, the proposer takes a number *)
  | act_guard f : act net m [] (mkMember (Consensus.on_guard f m.(window)) m.(gone) m.(delivered)).

(** One correct replica acts; sequence numbers do not wrap around. *)
Inductive step (y : t) : t -> Prop :=
  | step_act x out m' : x ∉ byz -> act y.(net) (y.(members) x) out m' -> Offers.bounded m'.(window) ->
      step y (mk (upd x m' y.(members)) (y.(net) ++ ((x,.) <$> out))).

Inductive reachable : t -> Prop :=
  | reachable_start : reachable start
  | reachable_step y y' : reachable y -> step y y' -> reachable y'.

(** ** The instance with a given number *)

Definition all (m : member) : list decision := m.(gone) ++ m.(window).(decisions).

(** The [k]-th instance of a replica; one that is not open yet is as it will be opened, without messages. *)
Definition instance (k : nat) (x : NodeId) (m : member) : decision :=
  default (init_decision x (s0 + N.of_nat k)%N v) (all m !! k).

(** The messages for a sequence number. *)
Definition net_at (s : SeqNo) (l : list (NodeId * PBFTMessage)) : list (NodeId * PBFTMessage) :=
  filter (fun p => msg_sequence_number p.2 = s) l.

(** Steps of one instance that send nothing. *)
Inductive quiet_step : decision -> decision -> Prop :=
  | qs_poll d : quiet_step d (ConsensusDecision.poll d).2
  | qs_tick j d : quiet_step d (ConsensusDecision.set_accessory (accessory_tick j d.(ConsensusDecision.accessory)) d)
  | qs_queue m c d : consensus m.(message) = Ok c -> quiet_step d (ConsensusDecision.queue (W := Effect) m d).(r_st).

Context {SL : SyncHandleLaws Sy} {L : AtlasLaws} (Hwf : ViewInfo.wf v).

(** *** Opening an instance with the messages that have arrived for it *)

Lemma queue_messages (ms : list Shareable) (P : Shareable -> bool) (f : Shareable -> MessageQueue.t -> MessageQueue.t) d :
  (forall m d, P m = true -> quiet_step d (ConsensusDecision.on_queue (f m) d)) ->
  Forall (fun m => P m = true) ms ->
  rtc quiet_step d (ConsensusDecision.on_queue (fun q => foldl (fun q m => f m q) q ms) d).
Proof.
  intros Hf Hms. revert d. induction Hms as [|m ms Hm _ IH]; intros d; cbn; [by destruct d|].
  eapply rtc_l; [by apply Hf|]. exact (IH _).
Qed.

Lemma queue_kind_step P f :
  (forall m, Progress.has_kind P m = true -> forall d, (ConsensusDecision.queue (W := Effect) m d).(r_st) = ConsensusDecision.on_queue (f m) d) ->
  forall m d, Progress.has_kind P m = true -> quiet_step d (ConsensusDecision.on_queue (f m) d).
Proof.
  intros H m d Hm. rewrite <- (H m Hm d). destruct (Progress.kind_consensus P m Hm) as (c & Hc & _). by eapply qs_queue.
Qed.

Lemma fold_queue_pre_prepare ms : forall q,
  foldl (fun q m => MessageQueue.queue_pre_prepare m q) q ms =
  MessageQueue.mk (q.(MessageQueue.get_queue) || negb (MessageQueue.is_empty ms)) (q.(MessageQueue.pre_prepares) ++ ms)
    q.(MessageQueue.prepares) q.(MessageQueue.commits).
Proof.
  induction ms as [|m ms IH]; intros [g a b c]; cbn; [by rewrite orb_false_r, app_nil_r|]. rewrite IH. cbn.
  by rewrite <- app_assoc, orb_true_r.
Qed.
Lemma fold_queue_prepare ms : forall q,
  foldl (fun q m => MessageQueue.queue_prepare m q) q ms =
  MessageQueue.mk (q.(MessageQueue.get_queue) || negb (MessageQueue.is_empty ms)) q.(MessageQueue.pre_prepares)
    (q.(MessageQueue.prepares) ++ ms) q.(MessageQueue.commits).
Proof.
  induction ms as [|m ms IH]; intros [g a b c]; cbn; [by rewrite orb_false_r, app_nil_r|]. rewrite IH. cbn.
  by rewrite <- app_assoc, orb_true_r.
Qed.
Lemma fold_queue_commit ms : forall q,
  foldl (fun q m => MessageQueue.queue_commit m q) q ms =
  MessageQueue.mk (q.(MessageQueue.get_queue) || negb (MessageQueue.is_empty ms)) q.(MessageQueue.pre_prepares)
    q.(MessageQueue.prepares) (q.(MessageQueue.commits) ++ ms).
Proof.
  induction ms as [|m ms IH]; intros [g a b c]; cbn; [by rewrite orb_false_r, app_nil_r|]. rewrite IH. cbn.
  by rewrite <- app_assoc, orb_true_r.
Qed.

Lemma queue_by_kind m c d :
  consensus m.(message) = Ok c ->
  (ConsensusDecision.queue (W := Effect) m d).(r_st) =
  ConsensusDecision.on_queue (match c.(cm_kind) with
    | PrePrepare _ => MessageQueue.queue_pre_prepare m
    | Prepare _ => MessageQueue.queue_prepare m
    | Commit _ => MessageQueue.queue_commit m end) d.
Proof. intros Hc. unfold ConsensusDecision.queue. rewrite Hc. run. by destruct (cm_kind c). Qed.

(** Opening an instance with waiting messages is opening it empty and queueing them. *)
Lemma open_steps x s pp p c :
  Progress.queue_kinds (MessageQueue.from_messages pp p c) ->
  rtc quiet_step (init_decision x s v) (ConsensusDecision.init_with_msg_log x s v (MessageQueue.from_messages pp p c)).
Proof.
  intros (Hpp & Hp & Hc). cbn in Hpp, Hp, Hc.
  assert (forall (P : ConsensusMessageKind -> bool) f,
    (forall m c d, consensus m.(message) = Ok c -> P c.(cm_kind) = true ->
       (ConsensusDecision.queue (W := Effect) m d).(r_st) = ConsensusDecision.on_queue (f m) d) ->
    forall m d, Progress.has_kind P m = true -> quiet_step d (ConsensusDecision.on_queue (f m) d)) as Hk.
  { intros P f Hf. apply queue_kind_step. intros m Hm d. destruct (Progress.kind_consensus P m Hm) as (cm & Hcm & HP). eauto. }
  etrans; [apply (queue_messages pp Progress.is_pp MessageQueue.queue_pre_prepare); [|done]|].
  { apply Hk. intros m cm d Hcm HP. rewrite (queue_by_kind m cm d Hcm). by destruct (cm_kind cm). }
  etrans; [apply (queue_messages p Progress.is_p MessageQueue.queue_prepare); [|done]|].
  { apply Hk. intros m cm d Hcm HP. rewrite (queue_by_kind m cm d Hcm). by destruct (cm_kind cm). }
  etrans; [apply (queue_messages c Progress.is_c MessageQueue.queue_commit); [|done]|].
  { apply Hk. intros m cm d Hcm HP. rewrite (queue_by_kind m cm d Hcm). by destruct (cm_kind cm). }
  unfold ConsensusDecision.on_queue. cbn. rewrite fold_queue_pre_prepare, fold_queue_prepare, fold_queue_commit. cbn.
  reflexivity.
Qed.

(** *** What the steps of a window do to its instances *)

Lemma poll_instances fuel : forall c,
  let c' := (Consensus.poll_loop fuel c).(r_st) in
  length c'.(decisions) = length c.(decisions) /\
  forall i d, c.(decisions) !! i = Some d -> exists d', c'.(decisions) !! i = Some d' /\ rtc quiet_step d d'.
Proof.
  induction fuel as [|fuel IH]; intros c; cbn [Consensus.poll_loop]; cbn zeta; [split; [done|eauto using rtc_refl]|]. run.
  destruct (Signals.pop_signalled _) as [[sg g]|].
  2: { destruct (Consensus.can_finalize c); (split; [done|eauto using rtc_refl]). }
  run. destruct (sn_index _ _) as [e|j]; [apply (IH (Consensus.set_signalled g c))|].
  destruct (decisions c !! j) as [d|] eqn:Hd.
  2: { unfold mbind, M_bind, bind, Consensus.on_decision. cbn. rewrite Hd. split; [done|eauto using rtc_refl]. }
  rewrite (ConsensusFacts.on_decision_bind j _ _ (Consensus.set_signalled g c) d Hd). cbn zeta.
  pose proof (qs_poll d) as Hq. destruct (ConsensusDecision.poll d) as [st d']. cbn [fst snd r_out r_st r_eff] in *.
  rewrite prepend_nil.
  assert (forall c1 r, c1.(decisions) = <[j := d']> c.(decisions) ->
    (length r.(decisions) = length c1.(decisions) /\
     forall i d, c1.(decisions) !! i = Some d -> exists d', r.(decisions) !! i = Some d' /\ rtc quiet_step d d') ->
    length r.(decisions) = length c.(decisions) /\
    forall i d, c.(decisions) !! i = Some d -> exists d', r.(decisions) !! i = Some d' /\ rtc quiet_step d d') as Hstep.
  { intros c1 r E [Hl H]. rewrite E, length_insert in Hl. split; [done|]. intros i x Hi. rewrite E in H.
    destruct (decide (j = i)) as [<-|Hne].
    - destruct (H j d') as (x' & Hx' & Hr); [apply list_lookup_insert_eq; by eapply lookup_lt_Some|].
      exists x'. split; [done|]. simplify_eq. by eapply rtc_l.
    - apply H. by rewrite list_lookup_insert_ne. }
  destruct st; run; first [eapply Hstep; [|apply IH]; by destruct (decide _)
                          |eapply Hstep; [|apply IH]; done
                          |eapply (Hstep (Consensus.push_signalled sg (Consensus.set_decisions (<[j:=d']> (decisions c)) (Consensus.set_signalled g c))));
                             [done|split; [done|eauto using rtc_refl]]].
Qed.

Lemma message_instances n c rng (sy : Sy) m cm :
  ConsensusFacts.inv n c -> sy_view sy = c.(Consensus.curr_view) -> consensus m.(message) = Ok cm ->
  let r := Consensus.process_message rng sy m c in
  (r.(r_st).(decisions) = c.(decisions) /\ sent r.(r_eff) = []) \/
  exists i d, c.(decisions) !! i = Some d /\ cm.(cm_seq) = sn_plus i c.(Consensus.seq_no) /\
    let r0 := ConsensusDecision.process_message rng c.(Consensus.node_id) sy m d in
    r.(r_st).(decisions) = <[i := r0.(r_st)]> c.(decisions) /\ sent r.(r_eff) = sent r0.(r_eff).
Proof.
  intros Hinv Hsy Hc. cbn zeta. unfold Consensus.process_message. rewrite Hc. run.
  pose proof (ConsensusFacts.route_spec n c cm.(cm_view) cm.(cm_seq) Hinv) as Hr.
  destruct (Consensus.route _ _ c) as [i| | |i].
  - left. by run.
  - by left.
  - left. destruct (tbo_queue_run m cm c.(Consensus.tbo_queue) Hc) as (q' & Hq & _).
    by rewrite (run_zoom_Ok _ _ _ _ _ _ _ Hq).
  - right. destruct Hr as (_ & Hs & d & Hd & _). exists i, d. split; [done|]. split; [done|]. rewrite Hd. run.
    rewrite (ConsensusFacts.on_decision_bind _ _ _ _ _ Hd). cbn zeta.
    destruct (ConsensusDecision.process_message rng c.(Consensus.node_id) sy m d) as [out d' eff].
    destruct out as [[]|e|]; cbn; by rewrite ?app_nil_r.
Qed.

Lemma queue_instances n c m cm :
  ConsensusFacts.inv n c -> consensus m.(message) = Ok cm ->
  (Consensus.queue m c).(r_st).(decisions) = c.(decisions) \/
  exists i d, c.(decisions) !! i = Some d /\
    (Consensus.queue m c).(r_st).(decisions) = <[i := (ConsensusDecision.queue (W := Effect) m d).(r_st)]> c.(decisions).
Proof.
  intros Hinv Hc. unfold Consensus.queue. rewrite Hc. run.
  assert (msg_sequence_number m.(message) = cm.(cm_seq)) as Hms.
  { destruct (message m); cbn in Hc; try done. by injection Hc as ->. }
  rewrite Hms. pose proof (ConsensusFacts.route_spec n c cm.(cm_view) cm.(cm_seq) Hinv) as Hr.
  destruct (Consensus.route _ _ c) as [i| | |i]; [by left..| |].
  - left. destruct (tbo_queue_run m cm c.(Consensus.tbo_queue) Hc) as (q' & Hq & _). unfold zoom. by rewrite Hq.
  - right. destruct Hr as (_ & _ & d & Hd & _). exists i, d. split; [done|].
    rewrite (ConsensusFacts.on_decision_bind _ _ _ _ _ Hd). cbn zeta.
    destruct (ConsensusDecision.queue_run m cm d Hc) as [q ->]. done.
Qed.

Lemma finalize_instances n c d b c' eff :
  ConsensusFacts.inv n c -> head c.(decisions) = Some d -> Consensus.finalize c.(Consensus.curr_view) c = mkRun (Ok (Some b)) c' eff ->
  exists rest pp p cc,
    c.(decisions) = d :: rest /\ d.(ConsensusDecision.phase) = PhaseDecided /\ ConsensusDecision.finalize d = Ok b /\
    Progress.queue_kinds (MessageQueue.from_messages pp p cc) /\
    c'.(decisions) = rest ++ [ConsensusDecision.init_with_msg_log c.(Consensus.node_id)
                                (sn_plus (length rest) (sn_next c.(Consensus.seq_no))) c.(Consensus.curr_view)
                                (MessageQueue.from_messages pp p cc)] /\
    c'.(Consensus.seq_no) = sn_next c.(Consensus.seq_no) /\ c'.(Consensus.node_id) = c.(Consensus.node_id) /\
    c'.(Consensus.curr_view) = c.(Consensus.curr_view) /\ sent eff = [].
Proof.
  intros Hinv Hh. pose proof (ConsensusFacts.i_kinds _ _ Hinv) as Hk. destruct (advance_kinds _ Hk) as [Hq _].
  rewrite advance_queue_spec in Hq. cbn in Hq.
  destruct (decisions c) as [|x rest] eqn:Hd; [done|]. injection Hh as ->.
  pose proof (ConsensusFacts.i_window _ _ Hinv) as Hw.
  pose proof (ConsensusFacts.shift_window _ _ _ _ 1 Hw ltac:(rewrite Hd; cbn; lia)) as Hw1.
  rewrite Hd in Hw1. cbn [drop] in Hw1.
  unfold Consensus.finalize. run. rewrite Hd. cbn [head]. destruct (ConsensusDecision.is_finalizeable d) eqn:Hf; [|done].
  unfold ConsensusDecision.is_finalizeable in Hf. apply bool_decide_eq_true in Hf.
  assert (match last rest with Some x => sn_next (ConsensusDecision.sequence_number x) | None => sn_next c.(Consensus.seq_no) end =
          sn_plus (length rest) (sn_next c.(Consensus.seq_no))) as Hseq.
  { destruct (last rest) as [x|] eqn:Hx; [exact (ConsensusFacts.last_seq _ _ _ _ x Hw1 Hx)|]. by apply last_None in Hx as ->. }
  intros H. apply bind_inv in H as (d0 & c1 & w1 & w2 & Hn & H & ->). inv_run H. rename Hr into Hfin. unfold Consensus.next_instance in Hn.
  rewrite run_get, Hd, !run_modify, advance_queue_spec, run_modify, Hseq in Hn.
  exists rest, (bucket 0 (TboQueue.pre_prepares (Consensus.tbo_queue c))), (bucket 0 (TboQueue.prepares (Consensus.tbo_queue c))),
    (bucket 0 (TboQueue.commits (Consensus.tbo_queue c))).
  revert Hn. destruct (negb _ && _); run; intros [= <- <- <-]; cbn; by split_and!.
Qed.

(** ** The invariant of a replica *)

Record member_ok (x : NodeId) (m : member) : Prop := {
  mo_inv : exists lag, ConsensusFacts.inv lag m.(window);
  mo_node : m.(window).(Consensus.node_id) = x;
  mo_view : m.(window).(Consensus.curr_view) = v;
  mo_seq : m.(window).(Consensus.seq_no) = (s0 + N.of_nat (length m.(gone)))%N;
  mo_bounded : Offers.bounded m.(window);
  mo_done : Forall2 (fun d b => d.(ConsensusDecision.phase) = PhaseDecided /\ ConsensusDecision.finalize d = Ok b) m.(gone) m.(delivered);
}.

(** Nothing happened to the instances, or the one at a position was replaced. *)
Lemma instance_same k x m m' :
  m'.(gone) = m.(gone) -> m'.(window).(decisions) = m.(window).(decisions) -> rtc quiet_step (instance k x m) (instance k x m').
Proof. intros Hg Hd. unfold instance, all. by rewrite Hg, Hd. Qed.

Lemma instance_insert x m m' i d d' :
  m'.(gone) = m.(gone) -> m.(window).(decisions) !! i = Some d -> m'.(window).(decisions) = <[i := d']> m.(window).(decisions) ->
  let k := length m.(gone) + i in
  instance k x m = d /\ instance k x m' = d' /\ forall j, j <> k -> instance j x m' = instance j x m.
Proof.
  intros Hg Hd Hd' k. unfold instance, all. rewrite Hg, Hd'. pose proof (lookup_lt_Some _ _ _ Hd) as Hlt. split_and!.
  - rewrite lookup_app_r by lia. replace (k - length (gone m)) with i by lia. by rewrite Hd.
  - rewrite lookup_app_r by lia. replace (k - length (gone m)) with i by lia. by rewrite list_lookup_insert_eq.
  - intros j Hj. f_equal. destruct (decide (j < length (gone m))) as [Hl|Hl]; [by rewrite !lookup_app_l|].
    rewrite !lookup_app_r by lia. apply list_lookup_insert_ne. lia.
Qed.

(** One instance of the window made a quiet step. *)
Lemma instance_quiet x m m' i d d' :
  m'.(gone) = m.(gone) -> m.(window).(decisions) !! i = Some d -> m'.(window).(decisions) = <[i := d']> m.(window).(decisions) ->
  quiet_step d d' -> forall k, rtc quiet_step (instance k x m) (instance k x m').
Proof.
  intros Hg Hd Hd' Hq k. destruct (instance_insert x m m' i d d' Hg Hd Hd') as (H1 & H2 & H3).
  destruct (decide (k = length (gone m) + i)) as [->|Hne]; [rewrite H1, H2; by apply rtc_once|by rewrite H3].
Qed.

(** What an act of a replica does to its instances: quiet steps of some, or one of them handles a message. *)
Definition handled (net : list (NodeId * PBFTMessage)) (x : NodeId) (m : member) (out : list PBFTMessage) (m' : member) : Prop :=
  exists k rng (sy : Sy) msg cm, sy_view sy = v /\ authentic net msg /\ consensus msg.(message) = Ok cm /\ cm.(cm_seq) = (s0 + N.of_nat k)%N /\
    let r := ConsensusDecision.process_message rng x sy msg (instance k x m) in
    instance k x m' = r.(r_st) /\ out = (sent r.(r_eff)).*2 /\ forall j, j <> k -> instance j x m' = instance j x m.

Lemma finalized_instances x m c' b d eff :
  member_ok x m -> head m.(window).(decisions) = Some d -> Consensus.finalize v m.(window) = mkRun (Ok (Some b)) c' eff ->
  Offers.bounded c' ->
  let m' := mkMember c' (m.(gone) ++ [d]) (m.(delivered) ++ [b]) in
  member_ok x m' /\ sent eff = [] /\ forall k, rtc quiet_step (instance k x m) (instance k x m').
Proof.
  intros [[lag Hi] Hn Hv Hs Hb Hd] Hh Hf Hb' m'. rewrite <- Hv in Hf.
  destruct (finalize_instances _ _ _ _ _ _ Hi Hh Hf) as (rest & pp & p & cc & Hds & Hph & Hfin & Hk & Hds' & Hs' & Hn' & Hv' & He).
  pose proof Hb as Hbound. unfold Offers.bounded in Hbound. rewrite Hds in Hbound. cbn in Hbound.
  rewrite sn_next_succ in Hs' by lia. split_and!; [|done|].
  - split; cbn; [|congruence|congruence| |done|].
    + exists (S lag). destruct (ConsensusFacts.finalize_step _ _ Hi) as [H _]. by rewrite Hf in H.
    + rewrite Hs', Hs, length_app. cbn. lia.
    + apply Forall2_app; [done|]. constructor; [done|constructor].
  - intros k. unfold instance, all. cbn. rewrite Hds', Hds, <- app_assoc. cbn [app].
    destruct (decide (k < length (gone m ++ d :: rest))) as [Hlt|Hge].
    + replace (gone m ++ d :: rest ++ _) with ((gone m ++ d :: rest) ++ [ConsensusDecision.init_with_msg_log (Consensus.node_id (window m))
        (sn_plus (length rest) (sn_next (Consensus.seq_no (window m)))) (Consensus.curr_view (window m)) (MessageQueue.from_messages pp p cc)])
        by (by rewrite <- app_assoc).
      by rewrite (lookup_app_l (gone m ++ d :: rest)).
    + rewrite (lookup_ge_None_2 (gone m ++ d :: rest)) by lia. cbn [default].
      replace (gone m ++ d :: rest ++ _) with ((gone m ++ d :: rest) ++ [ConsensusDecision.init_with_msg_log (Consensus.node_id (window m))
        (sn_plus (length rest) (sn_next (Consensus.seq_no (window m)))) (Consensus.curr_view (window m)) (MessageQueue.from_messages pp p cc)])
        by (by rewrite <- app_assoc).
      rewrite lookup_app_r by lia. destruct (k - _) as [|j] eqn:Hj; cbn; [|done].
      assert (sn_plus (length rest) (sn_next (Consensus.seq_no (window m))) = (s0 + N.of_nat k)%N) as ->.
      { rewrite sn_next_succ, Offers.sn_plus_num, Hs by lia. rewrite length_app in Hge, Hj. cbn in Hge, Hj. lia. }
      rewrite Hn, Hv. by apply open_steps.
Qed.
(** The parts of the invariant that depend on the window's frame only. *)
Lemma member_fixed x m c' n :
  member_ok x m -> ConsensusFacts.fixed m.(window) c' -> ConsensusFacts.inv n c' -> Offers.bounded c' ->
  member_ok x (mkMember c' m.(gone) m.(delivered)).
Proof. intros [_ Hn Hv Hs _ Hd] [F1 F2 _ F4] Hi Hb. split; cbn; [by exists n|congruence..|done|done]. Qed.

Lemma polled x m st c' :
  member_ok x m -> Offers.signals_recent m.(window) -> Consensus.poll m.(window) = mkRun (Ok (Some st)) c' [] -> Offers.bounded c' ->
  let m' := mkMember c' m.(gone) m.(delivered) in
  member_ok x m' /\ forall k, rtc quiet_step (instance k x m) (instance k x m').
Proof.
  intros Hm Hl Hp Hb m'. destruct (mo_inv _ _ Hm) as [lag Hi]. apply Offers.recent_inv in Hi; [|done].
  destruct (ConsensusFacts.poll_run _ _ Hi (le_n _)) as (st1 & c1 & Hrun & Hi' & Hfx & _). rewrite Hp in Hrun. injection Hrun as <- <-.
  split; [by eapply member_fixed|]. intros k. destruct (poll_instances (Consensus.poll_fuel m.(window)) m.(window)) as [Hlen Hall].
  unfold Consensus.poll in Hp. rewrite Hp in Hlen, Hall. cbn in Hlen, Hall. unfold instance, all. cbn.
  destruct (decide (k < length (gone m))) as [Hlt|Hge]; [by rewrite !lookup_app_l by done|].
  rewrite !lookup_app_r by lia. destruct (decisions (window m) !! _) as [d|] eqn:Hd.
  - destruct (Hall _ _ Hd) as (d' & -> & Hr). done.
  - apply lookup_ge_None in Hd. by rewrite lookup_ge_None_2 by lia.
Qed.

Lemma act_effect net x m out m' :
  member_ok x m -> act net m out m' -> Offers.bounded m'.(window) ->
  member_ok x m' /\
  ((out = [] /\ forall k, rtc quiet_step (instance k x m) (instance k x m')) \/ handled net x m out m').
Proof.
  intros Hm Hact Hb. destruct (mo_inv _ _ Hm) as [lag Hi].
  destruct Hact as [st c' Hl Hp|rng sy msg cm Hsy Ha Hc r|msg cm Hc|d b c' eff Hh Hf|i j d Hd|f].
  - destruct (polled x m st c' Hm Hl Hp Hb). eauto.
  - rewrite <- (mo_view _ _ Hm) in Hsy. destruct (ConsensusFacts.process_message_inv _ _ rng sy msg cm Hi Hsy Hc) as (Hi' & Hfx & _).
    split; [by eapply member_fixed|].
    destruct (message_instances _ _ rng sy msg cm Hi Hsy Hc) as [[Hd He]|(i & d & Hd & Hs & Hd' & He)].
    + left. split; [subst r; by rewrite He|]. intros k. by apply instance_same.
    + right. pose proof (lookup_lt_Some _ _ _ Hd) as Hlt. pose proof (mo_bounded _ _ Hm) as Hbm. unfold Offers.bounded in Hbm.
      exists (length m.(gone) + i), rng, sy, msg, cm. rewrite (mo_view _ _ Hm) in Hsy. do 3 (split; [done|]). split.
      { rewrite Hs, Offers.sn_plus_num, (mo_seq _ _ Hm) by lia. lia. }
      destruct (instance_insert x m (mkMember r.(r_st) m.(gone) m.(delivered)) i d _ eq_refl Hd Hd') as (H1 & H2 & H3).
      rewrite (mo_node _ _ Hm) in H2, He. cbn zeta. rewrite H1, H2. subst r. split; [reflexivity|]. split; [by f_equal|exact H3].
  - destruct (ConsensusFacts.window_queue_inv _ _ msg cm Hi Hc) as (c' & Hq & Hi' & Hfx).
    split; [rewrite Hq; eapply member_fixed; try done; by rewrite Hq in Hb|]. left. split; [done|].
    destruct (queue_instances _ _ msg cm Hi Hc) as [Hd|(i & d & Hd & Hd')]; intros k.
    + by apply instance_same.
    + eapply instance_quiet; [done|exact Hd|exact Hd'|]. by eapply qs_queue.
  - destruct (finalized_instances x m c' b d eff Hm Hh Hf Hb) as (H1 & -> & H2). eauto.
  - split.
    + apply member_fixed with (n := lag); [done|by split| |done]. eapply ConsensusFacts.op_inv; [exact Hi|]. by apply (ConsensusFacts.op_tick (Sy := Sy)).
    + left. split; [done|]. eapply instance_quiet; [done|exact Hd|done|]. apply qs_tick.
  - split; [apply member_fixed with (n := lag); [done|by split| |done]; by apply ConsensusFacts.guard_inv|].
    left. split; [done|]. intros k. by apply instance_same.
Qed.

(** ** The refinement *)

Abbreviation sys := System.t.

(** The instance with number [s0 + k] at every correct replica, and the messages about it, are those of [z]. *)
Definition shows (k : nat) (y : t) (z : sys) : Prop :=
  (forall x, x ∉ byz -> z.(System.replica) x = instance k x (y.(members) x)) /\
  z.(System.net) = net_at (s0 + N.of_nat k)%N y.(net).

Abbreviation sys_reachable k := (System.reachable v (s0 + N.of_nat k)%N byz).

Lemma quiet_system k z x d' :
  sys_reachable k z -> x ∉ byz -> rtc quiet_step (z.(System.replica) x) d' ->
  exists z', sys_reachable k z' /\ z'.(System.replica) x = d' /\ z'.(System.net) = z.(System.net) /\
    forall x', x' <> x -> z'.(System.replica) x' = z.(System.replica) x'.
Proof.
  intros Hz Hx Hr. remember (z.(System.replica) x) as d eqn:Hd. revert z Hz Hd.
  induction Hr as [d|d d1 d' Hq _ IH]; intros z Hz Hd; [by exists z|].
  assert (System.step v byz z (System.mk (System.update x d1 z.(System.replica)) z.(System.net))) as Hs.
  { destruct Hq as [d|j d|m c d Hc]; subst d; [by apply System.sys_poll|by apply System.sys_tick|by eapply System.sys_queue]. }
  destruct (IH _ (System.reachable_step _ _ _ _ _ Hz Hs)) as (z' & Hz' & H1 & H2 & H3).
  { cbn. unfold System.update. by rewrite decide_True. }
  exists z'. split_and!; try done. intros x' Hx'. rewrite H3 by done. cbn. unfold System.update. by rewrite decide_False.
Qed.

Lemma net_at_app s l l' : net_at s (l ++ l') = net_at s l ++ net_at s l'.
Proof. apply filter_app. Qed.
Lemma fill_decisions n view : forall s c,
  (Consensus.fill n view s c).(decisions) =
  c.(decisions) ++ ((fun i => init_decision c.(Consensus.node_id) (sn_plus i s) view) <$> seq 0 n) /\
  (Consensus.fill n view s c).(Consensus.node_id) = c.(Consensus.node_id).
Proof.
  induction n as [|n IH]; intros s c; cbn [Consensus.fill]; [cbn; by rewrite app_nil_r|].
  destruct (IH (sn_add s ONE) (Consensus.enqueue_decision (init_decision c.(Consensus.node_id) s view) c)) as [-> ->].
  cbn. split; [|done]. rewrite <- app_assoc. f_equal. cbn. f_equal. rewrite <- fmap_S_seq, <- list_fmap_compose.
  apply list_fmap_ext. intros i j _. cbn. by rewrite ConsensusFacts.sn_add_one, ConsensusFacts.sn_plus_S.
Qed.

Context (Hw : 0 < w <= sn_window) (Hs0 : (s0 + N.of_nat w <= sn_max)%N).

Lemma new_member_ok x : member_ok x (new_member x) /\ forall k, instance k x (new_member x) = init_decision x (s0 + N.of_nat k)%N v.
Proof.
  destruct (ConsensusFacts.new_replica_inv x v s0 w (ProposerConsensusGuard.new v) Hwf Hw) as (Hi & Hs & Hv).
  pose proof (fill_decisions w v s0 (Consensus.mk x w s0 Signals.new v [] (TboQueue.new s0 w) [] (ProposerConsensusGuard.new v) false)) as [Hd Hn].
  cbn in Hd, Hn. unfold new_member, instance, all. split.
  - split; cbn; [by exists 0|exact Hn|done|rewrite Hs; lia| |done]. unfold Offers.bounded. rewrite Hs. unfold Consensus.new_replica.
    by rewrite Hd, length_fmap, length_seq.
  - intros k. cbn. unfold Consensus.new_replica. rewrite Hd, list_lookup_fmap.
    destruct (decide (k < w)) as [Hlt|Hge]; [|by rewrite lookup_seq_ge by lia].
    rewrite lookup_seq_lt by done. cbn. by rewrite Offers.sn_plus_num by lia.
Qed.

(** A correct replica sends votes for the instance that handled the message. *)
Lemma sent_seq k z x rng (sy : Sy) m cm msg :
  System.inv v (s0 + N.of_nat k)%N byz z -> x ∉ byz -> sy_view sy = v -> consensus m.(message) = Ok cm ->
  msg ∈ (sent (ConsensusDecision.process_message rng x sy m (z.(System.replica) x)).(r_eff)).*2 ->
  msg_sequence_number msg = (s0 + N.of_nat k)%N.
Proof.
  intros Hz Hx Hsy Hc ([to msg'] & -> & Hin)%list_elem_of_fmap. pose proof (System.s_inv _ _ _ _ Hz x Hx) as Hi. rewrite <- Hsy in Hi.
  pose proof (ConsensusDecision.process_message_processed rng x sy m cm _ Hi Hc) as Hpr.
  destruct (ConsensusDecision.processed_sent _ _ _ _ _ _ _ _ _ Hi Hc Hpr Hin) as (dg & _ & [[? ->]|[[? ->] _]]); cbn;
    rewrite (ConsensusDecision.g_seq _ _ _ (ConsensusDecision.processed_grows _ _ _ _ _ _ _ Hi Hpr)); by apply (System.s_seq _ _ _ _ Hz).
Qed.

Lemma net_at_sent (s : SeqNo) (x : NodeId) (out : list PBFTMessage) :
  Forall (fun m => msg_sequence_number m = s) out -> net_at s ((x,.) <$> out) = (x,.) <$> out.
Proof.
  induction 1 as [|m out Hm _ IH]; [done|]. unfold net_at in *. rewrite fmap_cons, filter_cons_True by done. by rewrite IH.
Qed.
Lemma net_at_other (s s' : SeqNo) (x : NodeId) (out : list PBFTMessage) :
  s' <> s -> Forall (fun m => msg_sequence_number m = s') out -> net_at s ((x,.) <$> out) = [].
Proof.
  intros Hne. induction 1 as [|m out Hm _ IH]; [done|]. unfold net_at in *. rewrite fmap_cons, filter_cons_False by (cbn; congruence). done.
Qed.

Definition simulated (y : t) : Prop :=
  (forall x, x ∉ byz -> member_ok x (y.(members) x)) /\ forall k, exists z, sys_reachable k z /\ shows k y z.

Lemma shows_quiet k y z x m' :
  x ∉ byz -> sys_reachable k z -> shows k y z -> rtc quiet_step (instance k x (y.(members) x)) (instance k x m') ->
  exists z', sys_reachable k z' /\ shows k (mk (upd x m' y.(members)) y.(net)) z'.
Proof.
  intros Hx Hz [Hi Hn] Hr. rewrite <- (Hi x Hx) in Hr. destruct (quiet_system k z x _ Hz Hx Hr) as (z' & Hz' & H1 & H2 & H3).
  exists z'. split; [done|]. split; [cbn|by rewrite H2]. intros x' Hx'. unfold upd. case_decide as E; [by subst|]. rewrite H3 by done. by apply Hi.
Qed.

(** An instance handles a message: a delivery step of its system, and nothing in the others. *)
Lemma shows_handled y x out m' :
  x ∉ byz -> simulated y -> handled y.(net) x (y.(members) x) out m' ->
  forall k, exists z', sys_reachable k z' /\ shows k (mk (upd x m' y.(members)) (y.(net) ++ ((x,.) <$> out))) z'.
Proof.
  intros Hx [_ Hsim] (k0 & rng & sy & msg & cm & Hsy & [Hmem Hauth] & Hc & Hseq & Hi' & -> & Hoth) k.
  destruct (Hsim k0) as (z0 & Hz0 & Hi0 & Hn0). rewrite <- (Hi0 x Hx) in *.
  set (r := ConsensusDecision.process_message rng x sy msg (z0.(System.replica) x)) in *.
  assert (Forall (fun m => msg_sequence_number m = (s0 + N.of_nat k0)%N) (sent r.(r_eff)).*2) as Hout.
  { apply Forall_forall. intros m Hm. eapply sent_seq; [apply (System.system_inv v _ byz Hwf z0 Hz0)|exact Hx|exact Hsy|exact Hc|exact Hm]. }
  destruct (decide (k = k0)) as [->|Hne].
  - exists (System.mk (System.update x r.(r_st) z0.(System.replica)) (z0.(System.net) ++ ((x,.) <$> (sent r.(r_eff)).*2))). split.
    + eapply System.reachable_step; [exact Hz0|]. eapply System.sys_deliver; try done. split; [done|]. intros Hb Hp.
      rewrite Hn0. apply list_elem_of_filter. split; [|by apply Hauth]. cbn. rewrite <- Hseq.
      destruct (message msg); cbn in Hc; try done. by injection Hc as ->.
    + split; cbn [members net System.replica System.net].
      * intros x' Hx'. unfold System.update, upd. case_decide; [by subst|by apply Hi0].
      * by rewrite net_at_app, net_at_sent, Hn0.
  - destruct (Hsim k) as (z & Hz & Hi & Hn). exists z. split; [done|]. split; cbn [members net System.replica System.net].
    + intros x' Hx'. unfold upd. case_decide; [subst; rewrite Hoth by done|]; by apply Hi.
    + rewrite net_at_app, (net_at_other _ (s0 + N.of_nat k0)%N), app_nil_r by (done || lia). done.
Qed.

Lemma reachable_simulated y : reachable y -> simulated y.
Proof.
  induction 1 as [|y y' _ [Hok Hsim] Hst].
  - split; [intros x _; apply new_member_ok|]. intros k. exists (System.start v (s0 + N.of_nat k)%N).
    split; [constructor|]. split; [|done]. intros x _. by rewrite (proj2 (new_member_ok x)).
  - destruct Hst as [x out m' Hx Hact Hb]. destruct (act_effect _ x _ _ _ (Hok x Hx) Hact Hb) as [Hok' Hcase]. split.
    + intros x' Hx'. cbn. unfold upd. case_decide; [by subst|by apply Hok].
    + intros k. destruct Hcase as [[-> Hq]|Hh]; [|by apply shows_handled].
      rewrite app_nil_r. destruct (Hsim k) as (z & Hz & Hsh). by eapply shows_quiet.
Qed.

(** C3. The window implements independent instances.  In every execution of replicas that each run a whole window (messages that
    arrive ahead of it, in the queue or out of context, being finalized and opened again), the instances with number [s0 + k], at all correct
    replicas, together with the messages sent about them, are in a reachable state of the system of that single instance. *)
Theorem window_refines_instances y k :
  reachable y -> exists z, sys_reachable k z /\ shows k y z.
Proof. intros Hr. apply (reachable_simulated y Hr). Qed.

(** ** Total order *)

Context (Hn : ViewInfo.n v = 3 * ViewInfo.f v + 1) (Hbyz : size byz <= ViewInfo.f v).

Lemma delivered_instance y x k b :
  reachable y -> x ∉ byz -> (y.(members) x).(delivered) !! k = Some b ->
  (instance k x (y.(members) x)).(ConsensusDecision.phase) = PhaseDecided /\
  ConsensusDecision.finalize (instance k x (y.(members) x)) = Ok b.
Proof.
  intros Hr Hx Hb. destruct (reachable_simulated y Hr) as [Hok _]. pose proof (mo_done _ _ (Hok x Hx)) as Hd.
  destruct (Forall2_lookup_r _ _ _ _ _ Hd Hb) as (d & Hg & Hf). unfold instance, all.
  rewrite lookup_app_l by (by eapply lookup_lt_Some). by rewrite Hg.
Qed.

(** The [k]-th batches of two correct replicas. *)
Lemma same_batches y x x' k b b' :
  reachable y -> x ∉ byz -> x' ∉ byz ->
  (y.(members) x).(delivered) !! k = Some b -> (y.(members) x').(delivered) !! k = Some b' ->
  b.(cb_seq) = (s0 + N.of_nat k)%N /\ b'.(cb_seq) = (s0 + N.of_nat k)%N /\ b.(cb_digest) = b'.(cb_digest) /\
  ((forall d d', ctx_finish (ctx_update ctx_new d) = ctx_finish (ctx_update ctx_new d') -> d = d') ->
   b.(cb_pre_prepare_ordering) = b'.(cb_pre_prepare_ordering)).
Proof.
  intros Hr Hx Hx' Hb Hb'. destruct (proj2 (reachable_simulated y Hr) k) as (z & Hz & Hi & _).
  destruct (delivered_instance y x k b Hr Hx Hb) as [Hp Hf]. destruct (delivered_instance y x' k b' Hr Hx' Hb') as [Hp' Hf'].
  rewrite <- Hi in Hp, Hf, Hp', Hf' by done. pose proof (System.system_inv v _ byz Hwf z Hz) as Hinv.
  destruct (System.decided_same v _ byz Hwf Hn Hbyz z x x' Hinv Hx Hx' Hp Hp') as (b1 & b1' & H1 & H1' & Hs & Hd & Ho).
  destruct (System.decided_prepared v _ byz z x Hinv Hx Hp) as (_ & ? & ? & _ & _ & _ & b2 & H2 & _ & Hs2 & _).
  rewrite Hf in H1, H2. rewrite Hf' in H1'. injection H1 as <-. injection H2 as <-. injection H1' as <-. split_and!; [done|congruence|done|done].
Qed.

(** C2. Total order within a view.  With [n = 3f + 1] members of which at most [f] are faulty, what correct replicas finalize is one
    sequence: the [k]-th batch of every one of them is for sequence number [s0 + k], and two correct replicas that both have a [k]-th batch have the same
    one (the same digest, and the same proposals in the same order where the hash is injective). *)
Theorem total_order y x x' k b b' :
  reachable y -> x ∉ byz -> x' ∉ byz ->
  (y.(members) x).(delivered) !! k = Some b -> (y.(members) x').(delivered) !! k = Some b' ->
  b.(cb_seq) = (s0 + N.of_nat k)%N /\ b'.(cb_seq) = (s0 + N.of_nat k)%N /\ b.(cb_digest) = b'.(cb_digest) /\
  ((forall d d', ctx_finish (ctx_update ctx_new d) = ctx_finish (ctx_update ctx_new d') -> d = d') ->
   b.(cb_pre_prepare_ordering) = b'.(cb_pre_prepare_ordering)).
Proof. apply same_batches. Qed.
End replicas.
End Replicas.
