(* ===== verification/Sync.v ===== *)
(** * The synchronizer ([bft/sync/mod.rs], [bft/sync/replica_sync/mod.rs])

    The view change protocol: STOP messages from a quorum make a replica give up its
    view, STOP-DATA messages tell the next leader what the others
    have decided and prepared, and the leader's SYNC message starts the new
    view.  The synchronizer drives the window of instances and the log, so its
    message handler works on the three of them. *)
From S2P Require Import Prelude Atlas Errors View Messages Decisions Deciding Log Network.
From S2P Require Import SyncAccessory Accessory Decision Consensus.

(** ** The environment *)

(** What [validate_signature] asks the network layer: whether the header
    parses as a wire message, whether the key of the sender is known, and whether the
    signature is valid under it. *)
Class Signatures {A : Atlas} := {
  wire_parses : Header -> bool;
  knows_key : NodeId -> bool;
  signature_valid : Header -> bool;
}.

(** The answers of the request pre-processor. *)
Record PreProcessor {A : Atlas} := mkPreProcessor {
  collect_pending_rqs : ExternalError + list (StoredMessage RQ);
  process_stopped_requests : list (StoredMessage RQ) -> ExternalError + unit;
  clone_pending_rqs : list ClientRqInfo -> ExternalError + list (StoredMessage RQ);
}.

(** A timeout of the timeout layer: the client request it is about, if it
    is about one, and how often it fired. *)
Record ModTimeout := mkModTimeout {
  extra_info : option ClientRqInfo;
  timeout_count : nat;
}.

(** ** The predicates on STOP-DATA messages *)

Inductive Sound := Unbound (b : bool) | Bound (d : Digest).

Definition sound_test (s : Sound) : bool := match s with Unbound ok => ok | Bound _ => true end.
Definition sound_value (s : Sound) : option Digest := match s with Bound d => Some d | _ => None end.

Section predicates.
Context {A : Atlas} {IO : IterationOrder} {SG : Signatures}.

Definition validate_signature (stored : Shareable) : bool :=
  wire_parses stored.(header) && knows_key (hdr_from stored.(header)) && signature_valid stored.(header).

Definition collects_t : Type := list (option CollectData).

Definition quorum_prepares_of (c : CollectData) : option ViewDecisionPair :=
  (cd_incomplete_proof c).(quorum_prepares).

Definition is_unbound (maybe_collect : option CollectData) : bool :=
  match maybe_collect with
  | Some collect =>
      match quorum_prepares_of collect with
      | Some p => bool_decide (p.(vdp_view) = ZERO)
      | None => true
      end
  | None => true
  end.

Definition unbound (curr_view : ViewInfo.t) (normalized_collects : collects_t) : bool :=
  if decide (length normalized_collects < ViewInfo.quorum curr_view) then false
  else bool_decide (ViewInfo.quorum curr_view <=
                    length (filter (fun c => is_unbound c = true) normalized_collects)).

(** Whether a collect reports [value] as prepared at [ts], or anything before [ts]. *)
Definition reports (ts : SeqNo) (value : Digest) (c : CollectData) : bool :=
  match quorum_prepares_of c with
  | Some p => bool_decide (p.(vdp_view) = ts) && bool_decide (p.(vdp_digest) = value)
  | None => false
  end.
Definition not_above (ts : SeqNo) (value : Digest) (c : CollectData) : bool :=
  match quorum_prepares_of c with
  | Some p =>
      match sn_cmp p.(vdp_view) ts with
      | Lt => true
      | Eq => bool_decide (p.(vdp_digest) = value)
      | Gt => false
      end
  | None => false
  end.

Definition quorum_highest (curr_view : ViewInfo.t) (ts : SeqNo) (value : Digest)
    (normalized_collects : collects_t) : bool :=
  let collects := omap id normalized_collects in
  existsb (reports ts value) collects &&
  bool_decide (ViewInfo.quorum curr_view <= length (filter (fun c => not_above ts value c = true) collects)).

Definition supporting (ts : SeqNo) (value : Digest) (c : CollectData) : nat :=
  length (filter (fun p => sn_geb p.(vdp_view) ts = true /\ p.(vdp_digest) = value)
            (cd_incomplete_proof c).(write_set)).

Definition certified_value (curr_view : ViewInfo.t) (ts : SeqNo) (value : Digest)
    (normalized_collects : collects_t) : bool :=
  bool_decide (ViewInfo.f curr_view < sum_list (supporting ts value <$> omap id normalized_collects)).

Definition binds (curr_view : ViewInfo.t) (ts : SeqNo) (value : Digest)
    (normalized_collects : collects_t) : bool :=
  if decide (length normalized_collects < ViewInfo.quorum curr_view) then false
  else quorum_highest curr_view ts value normalized_collects &&
       certified_value curr_view ts value normalized_collects.

(** The time stamps and values one collect contributes. *)
Definition timestamps_of (maybe_collect : option CollectData) : list SeqNo :=
  match maybe_collect with
  | Some c => default ZERO (vdp_view <$> quorum_prepares_of c) ::
              (vdp_view <$> (cd_incomplete_proof c).(write_set))
  | None => [ZERO]
  end.
Definition values_of (maybe_collect : option CollectData) : list (list byte) :=
  match maybe_collect with
  | Some c => vdp_digest <$> (cd_incomplete_proof c).(write_set)
  | None => []
  end.

(** The nested loops return the first pair that binds. *)
Definition sound (curr_view : ViewInfo.t) (normalized_collects : collects_t) : Sound :=
  let seq_numbers := in_some_order (remove_dups (normalized_collects ≫= timestamps_of)) in
  let values := in_some_order (remove_dups (normalized_collects ≫= values_of)) in
  match list_find (fun p => binds curr_view p.1 p.2 normalized_collects = true)
          (seq_no ← seq_numbers; value ← values; [(seq_no, value)]) with
  | Some (_, (_, value)) => Bound value
  | None => Unbound (unbound curr_view normalized_collects)
  end.

(** *** Collects *)

Definition collect_of (stored : Shareable) : Result (option CollectData) :=
  vc ← view_change stored.(message);
  Ok (match vc_kind vc with StopData collects => Some collects | _ => None end).

Fixpoint collect_data (collects : list Shareable) : Result (list CollectData) :=
  match collects with
  | [] => Ok []
  | m :: collects =>
      c ← collect_of m;
      rest ← collect_data collects;
      Ok (match c with Some c => c :: rest | None => rest end)
  end.

Definition normalized_collects (in_exec : SeqNo) (collects : list CollectData) : collects_t :=
  (fun c => if decide ((cd_incomplete_proof c).(Messages.in_exec) = in_exec) then Some c else None) <$> collects.

Definition signed_collects (collects : list Shareable) : list Shareable :=
  filter (fun m => validate_signature m = true) collects.

(** *** The highest proof *)

(** [filter(has_proposed_digest(digest)).filter(validate_signature).count()]; a
    message that is not a consensus message panics. *)
Fixpoint count_votes (digest : Digest) (votes : list Shareable) : Result nat :=
  match votes with
  | [] => Ok 0
  | m :: votes =>
      c ← consensus m.(message);
      rest ← count_votes digest votes;
      Ok (if default false (has_proposed_digest c digest) && validate_signature m then S rest else rest)
  end.

Definition proof_valid (view : ViewInfo.t) (proof : DecProof) : Result bool :=
  let digest := (DecProof.metadata proof).(pm_batch_digest) in
  commits ← count_votes digest (DecProof.commits proof);
  prepares ← count_votes digest (DecProof.prepares proof);
  Ok (bool_decide (ViewInfo.quorum view <= commits) && bool_decide (ViewInfo.quorum view <= prepares)).

Fixpoint valid_proofs (view : ViewInfo.t) (proofs : list DecProof) : Result (list DecProof) :=
  match proofs with
  | [] => Ok []
  | p :: proofs =>
      ok ← proof_valid view p;
      rest ← valid_proofs view proofs;
      Ok (if ok : bool then p :: rest else rest)
  end.

(** [max_by_key]: the last of the greatest elements. *)
Definition max_by_seq (best : option DecProof) (p : DecProof) : option DecProof :=
  match best with
  | Some b => if sn_gtb (DecProof.sequence_number b) (DecProof.sequence_number p) then Some b else Some p
  | None => Some p
  end.

Definition highest_proof (view : ViewInfo.t) (collects : list Shareable) : Result (option DecProof) :=
  data ← collect_data collects;
  proofs ← valid_proofs view (omap cd_last_proof data);
  Ok (foldl max_by_seq None proofs).
End predicates.

(** ** [TboQueue]: view change messages that arrive out of context *)

Module SyncTbo.
Section tbo.
Context {A : Atlas}.

Record t := mk {
  view : ViewInfo.t;
  next_view : option ViewInfo.t;
  previous_view : option ViewInfo.t;
  get_queue : bool;
  stop : list (list Shareable);
  stop_data : list (list Shareable);
  sync : list (list Shareable);
}.

Definition new (view : ViewInfo.t) : t := mk view None None false [] [] [].

Definition set_next_view x q := mk q.(view) x q.(previous_view) q.(get_queue) q.(stop) q.(stop_data) q.(sync).
Definition set_get_queue x q := mk q.(view) q.(next_view) q.(previous_view) x q.(stop) q.(stop_data) q.(sync).
Definition set_stop x q := mk q.(view) q.(next_view) q.(previous_view) q.(get_queue) x q.(stop_data) q.(sync).
Definition set_stop_data x q := mk q.(view) q.(next_view) q.(previous_view) q.(get_queue) q.(stop) x q.(sync).
Definition set_sync x q := mk q.(view) q.(next_view) q.(previous_view) q.(get_queue) q.(stop) q.(stop_data) x.

Definition install_next_view (view : ViewInfo.t) (q : t) : t := set_next_view (Some view) q.

Definition next_instance_queue (q : t) : t :=
  mk q.(view) q.(next_view) q.(previous_view) q.(get_queue) (tbo_advance_message_queue q.(stop))
    (tbo_advance_message_queue q.(stop_data)) (tbo_advance_message_queue q.(sync)).

Definition install_view {W} (v : ViewInfo.t) : M t W Error bool :=
  self ← get;
  match sn_index (ViewInfo.sequence_number v) (ViewInfo.sequence_number self.(view)) with
  | inr 0 => ret false
  | inr i =>
      modify (fun q => Nat.iter i next_instance_queue
                         (mk v q.(next_view) (Some q.(view)) q.(get_queue) q.(stop) q.(stop_data) q.(sync)));;
      ret true
  | inl _ => panic
  end.

Definition advance {W} : M t W Error bool :=
  self ← get;
  match self.(next_view) with
  | Some v => modify (set_next_view None);; install_view v
  | None => ret false
  end.

Definition signal (q : t) : t := set_get_queue true q.

Definition next_seq (q : t) : SeqNo := sn_next (ViewInfo.sequence_number q.(view)).

Definition queue_stop (m : Shareable) (q : t) : t :=
  set_stop (tbo_queue_message (next_seq q) q.(stop) (msg_sequence_number m.(message), m)) q.
Definition queue_stop_data (m : Shareable) (q : t) : t :=
  set_stop_data (tbo_queue_message (next_seq q) q.(stop_data) (msg_sequence_number m.(message), m)) q.
Definition queue_sync (m : Shareable) (q : t) : t :=
  set_sync (tbo_queue_message (next_seq q) q.(sync) (msg_sequence_number m.(message), m)) q.

Definition queue {W} (m : Shareable) : M t W Error unit :=
  vc ← lift (view_change m.(message));
  modify (match vc_kind vc with
          | Stop _ | StopQuorumJoin _ => queue_stop m
          | StopData _ => queue_stop_data m
          | Sync _ => queue_sync m
          end).

Definition front_non_empty (l : list (list Shareable)) : bool :=
  match head l with Some (_ :: _) => true | _ => false end.
Definition can_process_stops (q : t) : bool := front_non_empty q.(stop).
Definition can_process_stop_data (q : t) : bool := front_non_empty q.(stop_data).
Definition can_process_sync (q : t) : bool := front_non_empty q.(sync).
End tbo.
Arguments t {A}.
End SyncTbo.

(** ** Phases, statuses *)

Inductive ProtoPhase :=
  | InitPhase
  | Stopping (i : nat)
  | Stopping2 (i : nat)
  | ViewStopping (i : nat)
  | ViewStopping2 (i : nat)
  | StoppingData (i : nat)
  | Syncing
  | SyncingState.

Section statuses.
Context {A : Atlas} {D : AtlasDecisions}.

Record FinalizeState := mkFinalizeState {
  curr_cid : SeqNo;
  fs_sound : Sound;
  proposed : FwdConsensusMessage;
  last_proof : option DecProof;
}.

Inductive FinalizeStatus :=
  | NoValue
  | FinalizeRunCst (s : FinalizeState)
  | FinalizeCommit (s : FinalizeState).

Inductive SynchronizerStatus :=
  | SyncNil
  | SyncRunning
  | NewView (c : ConsensusStatus) (d : option FeDecision)
  | NewViewJoinedQuorum (c : ConsensusStatus) (d : option FeDecision) (n : NodeId)
  | RunCst
  | RequestsTimedOut (forwarded stopped : list ClientRqInfo).

Inductive SynchronizerPollStatus :=
  | SyncRecv
  | SyncNextMessage (m : Shareable)
  | ResumeViewChange.

Inductive SyncReconfigurationResult :=
  | ReconfFailed
  | OnGoingViewChange
  | OnGoingQuorumChange (n : NodeId)
  | SyncAlreadyPartOfQuorum
  | SyncInProgress
  | SyncCompleted.

(** [atlas_core]'s [ReconfigurationAttemptResult]. *)
Inductive ReconfigurationAttemptResult :=
  | AttemptFailed
  | AlreadyPartOfQuorum
  | CurrentlyReconfiguring (n : NodeId)
  | InProgress
  | Successful (members : list NodeId).
End statuses.

(** ** [Synchronizer] *)

Module Synchronizer.
Section state.
Context {A : Atlas}.

Record t := mk {
  node_id : NodeId;
  phase : ProtoPhase;
  tbo : SyncTbo.t;
  stopped : gmap NodeId (list (StoredMessage RQ));
  currently_adding_node : option NodeId;
  currently_adding : gmap NodeId (gset NodeId);
  collects : gmap NodeId Shareable;
  finalize_state : option FinalizeState;
  entering_quorum : bool;
  accessory : SynchronizerRole;
}.

Definition set_phase x s := mk s.(node_id) x s.(tbo) s.(stopped) s.(currently_adding_node)
  s.(currently_adding) s.(collects) s.(finalize_state) s.(entering_quorum) s.(accessory).
Definition set_tbo x s := mk s.(node_id) s.(phase) x s.(stopped) s.(currently_adding_node)
  s.(currently_adding) s.(collects) s.(finalize_state) s.(entering_quorum) s.(accessory).
Definition set_stopped x s := mk s.(node_id) s.(phase) s.(tbo) x s.(currently_adding_node)
  s.(currently_adding) s.(collects) s.(finalize_state) s.(entering_quorum) s.(accessory).
Definition set_currently_adding_node x s := mk s.(node_id) s.(phase) s.(tbo) s.(stopped) x
  s.(currently_adding) s.(collects) s.(finalize_state) s.(entering_quorum) s.(accessory).
Definition set_currently_adding x s := mk s.(node_id) s.(phase) s.(tbo) s.(stopped)
  s.(currently_adding_node) x s.(collects) s.(finalize_state) s.(entering_quorum) s.(accessory).
Definition set_collects x s := mk s.(node_id) s.(phase) s.(tbo) s.(stopped) s.(currently_adding_node)
  s.(currently_adding) x s.(finalize_state) s.(entering_quorum) s.(accessory).
Definition set_finalize_state x s := mk s.(node_id) s.(phase) s.(tbo) s.(stopped)
  s.(currently_adding_node) s.(currently_adding) s.(collects) x s.(entering_quorum) s.(accessory).
Definition set_entering_quorum x s := mk s.(node_id) s.(phase) s.(tbo) s.(stopped)
  s.(currently_adding_node) s.(currently_adding) s.(collects) s.(finalize_state) x s.(accessory).

Definition on_tbo (f : SyncTbo.t -> SyncTbo.t) (s : t) : t := set_tbo (f s.(tbo)) s.

Definition make (node_id : NodeId) (view : ViewInfo.t) (role : SynchronizerRole) : t :=
  mk node_id InitPhase (SyncTbo.new view) ∅ None ∅ ∅ None false role.
Definition new_follower (node_id : NodeId) (view : ViewInfo.t) : t := make node_id view FollowerRole.
Definition new_replica (node_id : NodeId) (view : ViewInfo.t) : t := make node_id view ReplicaRole.
Definition initialize_with_quorum (node_id : NodeId) (seq_no : SeqNo) (quorum_members : list NodeId)
    : Result t :=
  view_info ← ViewInfo.from_quorum seq_no quorum_members;
  Ok (new_replica node_id view_info).

Definition view (s : t) : ViewInfo.t := s.(tbo).(SyncTbo.view).
Definition next_view (s : t) : option ViewInfo.t := s.(tbo).(SyncTbo.next_view).
Definition install_next_view (v : ViewInfo.t) (s : t) : t := on_tbo (SyncTbo.install_next_view v) s.
Definition signal (s : t) : t := on_tbo SyncTbo.signal s.
Definition can_process_stops (s : t) : bool := SyncTbo.can_process_stops s.(tbo).
Definition can_process_stop_data (s : t) : bool := SyncTbo.can_process_stop_data s.(tbo).
Definition can_process_sync (s : t) : bool := SyncTbo.can_process_sync s.(tbo).

Definition advance_view {W} : M t W Error bool := zoom tbo set_tbo SyncTbo.advance.
Definition queue {W} (m : Shareable) : M t W Error unit := zoom tbo set_tbo (SyncTbo.queue m).

(** *** [poll] *)

(** [extract_msg!]: pop the queue [pr], or stop looking at it. *)
Definition extract_msg (pr : SyncTbo.t -> list (list Shareable))
    (up : list (list Shareable) -> SyncTbo.t -> SyncTbo.t) (s : t) : SynchronizerPollStatus * t :=
  match tbo_pop_message (pr s.(tbo)) with
  | (Some stored, q) => (SyncNextMessage stored, on_tbo (up q) s)
  | (None, q) => (SyncRecv, on_tbo (fun b => SyncTbo.set_get_queue false (up q b)) s)
  end.

Definition poll (s : t) : Result SynchronizerPollStatus * t :=
  if s.(tbo).(SyncTbo.get_queue) then
    match s.(phase) with
    | InitPhase =>
        match extract_msg SyncTbo.stop SyncTbo.set_stop s with
        | (SyncNextMessage m, s) =>
            match view_change m.(message) with
            | Ok vc =>
                (Ok (SyncNextMessage m),
                 set_phase (match vc_kind vc with StopQuorumJoin _ => ViewStopping 0 | _ => Stopping 0 end) s)
            | Err e => (Err e, s)
            | Panic => (Panic, s)
            end
        | (result, s) => (Ok result, s)
        end
    | Stopping _ | Stopping2 _ | ViewStopping _ | ViewStopping2 _ =>
        let '(r, s) := extract_msg SyncTbo.stop SyncTbo.set_stop s in (Ok r, s)
    | StoppingData _ =>
        let '(r, s) := extract_msg SyncTbo.stop_data SyncTbo.set_stop_data s in (Ok r, s)
    | Syncing =>
        let '(r, s) := extract_msg SyncTbo.sync SyncTbo.set_sync s in (Ok r, s)
    | SyncingState => (Ok ResumeViewChange, s)
    end
  else (Ok SyncRecv, s).

(** *** View from the state transfer *)

Definition received_view_from_state_transfer {W} (v : ViewInfo.t) : M t W Error bool :=
  self ← get;
  let current_view := view self in
  previous ← lift (ViewInfo.previous_view v);
  match previous with
  | Some previous_view =>
      (if decide (ViewInfo.sequence_number current_view <> ViewInfo.sequence_number previous_view) then
         installed ← zoom tbo set_tbo (SyncTbo.install_view previous_view);
         if installed : bool then ret tt else modify (set_phase InitPhase)
       else ret tt);;
      self ← get;
      leader ← lift (ViewInfo.leader v);
      if bool_decide (leader = self.(node_id)) && can_process_stop_data self then
        modify (set_phase (StoppingData 0));; modify (install_next_view v);; ret true
      else if can_process_sync self then
        modify (set_phase Syncing);; modify (install_next_view v);; ret true
      else
        zoom tbo set_tbo (SyncTbo.install_view v);; ret false
  | None =>
      installed ← zoom tbo set_tbo (SyncTbo.install_view v);
      (if installed : bool then ret tt else modify (set_phase InitPhase));;
      ret false
  end.
End state.
Arguments t {A}.

#[global] Instance synchronizer_handle {A : Atlas} : SyncHandle t := {
  sy_view := view;
  sy_request_batch_received s h c := request_batch_received s.(accessory) h c;
}.

(** The three state machines the handler works on. *)
Record World {A : Atlas} := mkWorld {
  w_sync : t;
  w_consensus : Consensus.t;
  w_log : Log.t;
}.
Definition set_sync {A : Atlas} (x : t) (w : World) : World := mkWorld _ x w.(w_consensus) w.(w_log).
Definition set_decided {A : Atlas} (x : Consensus.t * Log.t) (w : World) : World := mkWorld _ w.(w_sync) x.1 x.2.

Section handlers.
Context {A : Atlas} {D : AtlasDecisions} {WF : WireFormat} {IO : IterationOrder} {SG : Signatures}.

Abbreviation H := (M World Effect Error).
Definition on_sync {X} (m : M t Effect Error X) : H X := zoom w_sync set_sync m.
Definition modify_sync (f : t -> t) : H unit := on_sync (modify f).
Definition on_consensus {X} (m : M Consensus.t Effect Error X) : H X :=
  zoom w_consensus (fun c w => mkWorld _ w.(w_sync) c w.(w_log)) m.

(** [Result::expect], [Result::unwrap]: the mutations made before the error are kept. *)
Definition expect {S W X} (m : M S W Error X) : M S W Error X := fun s =>
  let r := m s in mkRun (match r.(r_out) with Ok x => Ok x | _ => Panic end) r.(r_st) r.(r_eff).

(** *** [ReplicaSynchronizer]: the requests of STOP messages *)

Definition insert_request (all_reqs : gmap (list byte) (StoredMessage RQ)) (r : StoredMessage RQ) :=
  <[hdr_unique_digest r.(header) := r]> all_reqs.
Definition or_insert_request (all_reqs : gmap (list byte) (StoredMessage RQ)) (r : StoredMessage RQ) :=
  match all_reqs !! hdr_unique_digest r.(header) with
  | Some _ => all_reqs
  | None => insert_request all_reqs r
  end.

Definition stopped_requests (s : t) (requests : option (list (StoredMessage RQ)))
    : list (StoredMessage RQ) :=
  let all_reqs := foldl insert_request ∅ (default [] requests) in
  let all_reqs := foldl or_insert_request all_reqs (concat (map_values s.(stopped))) in
  in_some_order (map_to_list all_reqs).*2.

Definition drain_stopped_request {W} : M t W Error (list (StoredMessage RQ)) :=
  self ← get;
  let all_reqs := foldl or_insert_request ∅ (concat (map_values self.(stopped))) in
  modify (set_stopped ∅);;
  ret (in_some_order (map_to_list all_reqs).*2).

(** A [HashSet] of infos, with repetitions removed. *)
Definition stopped_request_digests (s : t) : list ClientRqInfo :=
  in_some_order (remove_dups (rq_info <$> concat (map_values s.(stopped)))).

Definition take_stopped_requests_and_register_them (pre_processor : PreProcessor) : H unit :=
  requests ← on_sync drain_stopped_request;
  emit [ProcessStoppedRequests requests];;
  (match pre_processor.(process_stopped_requests) requests with inr _ => ret tt | inl _ => panic end);;
  emit [RequestTimeouts (transform_client_rq_to_timeouts (rq_info <$> requests)) 1 true].

Definition handle_stopping_quorum (previous_view : ViewInfo.t) (pre_processor : PreProcessor) : H unit :=
  take_stopped_requests_and_register_them pre_processor;;
  emit [ResetAllTimeouts];;
  w ← get;
  view_info ← unwrap (next_view w.(w_sync));
  current_leader ← lift (ViewInfo.leader view_info);
  incomplete_proof ← lift (Consensus.collect_incomplete_proof (ViewInfo.f previous_view) w.(w_consensus));
  let collect := mkCollectData incomplete_proof (Log.last_proof w.(w_log)) in
  emit [SendSigned (ViewChange (mkViewChangeMessage (ViewInfo.sequence_number view_info) (StopData collect)))
          current_leader].

Definition handle_begin_view_change (timed_out : option (list (StoredMessage RQ))) : M t Effect Error unit :=
  emit [CancelAllTimeouts];;
  self ← get;
  let requests := stopped_requests self timed_out in
  let current_view := view self in
  emit [BroadcastSigned (ViewChange (mkViewChangeMessage (sn_next (ViewInfo.sequence_number current_view))
                                       (Stop requests))) current_view.(ViewInfo.quorum_members)].

Definition handle_begin_quorum_view_change (join_cert : NodeId) : M t Effect Error unit :=
  self ← get;
  let current_view := view self in
  emit [BroadcastSigned (ViewChange (mkViewChangeMessage (sn_next (ViewInfo.sequence_number current_view))
                                       (StopQuorumJoin join_cert))) current_view.(ViewInfo.quorum_members)].

Fixpoint sort_timeouts (timed_out_rqs : list ModTimeout) (forwarded stopped : list ClientRqInfo)
    : list ClientRqInfo * list ClientRqInfo :=
  match timed_out_rqs with
  | [] => (forwarded, stopped)
  | x :: rest =>
      match x.(extra_info) with
      | None => sort_timeouts rest forwarded stopped
      | Some cli_rq =>
          match x.(timeout_count) with
          | 0 => sort_timeouts rest forwarded stopped
          | 1 => sort_timeouts rest (forwarded ++ [cli_rq]) stopped
          | _ => sort_timeouts rest forwarded (stopped ++ [cli_rq])
          end
      end
  end.

Definition add_known_stop (stopped : list ClientRqInfo) (rq : ClientRqInfo) : list ClientRqInfo :=
  if decide (rq ∈ stopped) then stopped else stopped ++ [rq].

Definition replica_client_requests_timed_out (s : t) (timed_out_rqs : list ModTimeout) : SynchronizerStatus :=
  let '(forwarded, stopped_rqs) := sort_timeouts timed_out_rqs [] [] in
  if decide (forwarded = [] /\ stopped_rqs = []) then SyncNil
  else
    let stopped_rqs :=
      if decide (stopped_rqs <> [] \/ s.(stopped) <> ∅)
      then foldl add_known_stop stopped_rqs (stopped_request_digests s)
      else stopped_rqs in
    RequestsTimedOut forwarded stopped_rqs.

Definition client_requests_timed_out (s : t) (seq : list ModTimeout) : SynchronizerStatus :=
  match s.(accessory) with
  | FollowerRole => SyncNil
  | ReplicaRole => replica_client_requests_timed_out s seq
  end.

Definition forward_requests (s : t) (timed_out : list (StoredMessage RQ)) : list Effect :=
  match s.(accessory) with
  | FollowerRole => []
  | ReplicaRole => [ForwardRequests timed_out (view s).(ViewInfo.quorum_members)]
  end.

Definition watch_received_requests (s : t) (digest : list ClientRqInfo) : list Effect :=
  match s.(accessory) with
  | FollowerRole => []
  | ReplicaRole => ReplicaSynchronizer.watch_received_requests digest
  end.

(** *** Starting a view change *)

Definition clear_view_change (s : t) : t :=
  set_currently_adding ∅ (set_currently_adding_node None (set_collects ∅ (set_stopped ∅ s))).

Definition begin_view_change (timed_out : option (list (StoredMessage RQ))) : M t Effect Error unit :=
  self ← get;
  let broadcast :=
    match self.(accessory) with
    | FollowerRole => ret tt
    | ReplicaRole => handle_begin_view_change timed_out
    end in
  match self.(phase), timed_out with
  | Stopping i, None => modify (set_phase (Stopping2 (i + 1)));; broadcast
  | Stopping i, Some _ => modify (set_phase (Stopping2 i));; broadcast
  | ViewStopping _, None | ViewStopping2 _, None => modify (set_phase (Stopping 1));; broadcast
  | ViewStopping _, Some _ | ViewStopping2 _, Some _ => modify (set_phase (Stopping2 0));; broadcast
  | StoppingData _, _ | Syncing, _ | Stopping2 _, _ => ret tt
  | _, _ =>
      modify clear_view_change;;
      modify (set_entering_quorum false);;
      modify (set_phase (Stopping2 0));;
      broadcast
  end.

Definition begin_quorum_view_change (join_cert : option NodeId) : M t Effect Error unit :=
  self ← get;
  let broadcast :=
    match self.(accessory), join_cert with
    | ReplicaRole, Some join_cert => handle_begin_quorum_view_change join_cert
    | _, _ => ret tt
    end in
  match self.(phase), join_cert with
  | ViewStopping i, None => modify (set_phase (ViewStopping (i + 1)));; broadcast
  | ViewStopping i, Some _ => modify (set_phase (ViewStopping2 i));; broadcast
  | StoppingData _, _ | Syncing, _ | ViewStopping2 _, _ => ret tt
  | _, _ =>
      modify clear_view_change;;
      modify (set_phase (ViewStopping2 0));;
      broadcast
  end.

Definition start_join_quorum (me joining_node : NodeId) : M t Effect Error SyncReconfigurationResult :=
  self ← get;
  if decide (joining_node ∈ (view self).(ViewInfo.quorum_members)) then ret SyncAlreadyPartOfQuorum
  else
    match self.(phase) with
    | InitPhase =>
        if decide (joining_node = me) then panic
        else begin_quorum_view_change (Some joining_node);; ret SyncInProgress
    | StoppingData _ | SyncingState | Syncing =>
        match self.(currently_adding_node) with
        | Some currently_adding => ret (OnGoingQuorumChange currently_adding)
        | None => ret OnGoingViewChange
        end
    | _ => ret OnGoingViewChange
    end.

Definition attempt_join_quorum (me : NodeId) : M t Effect Error ReconfigurationAttemptResult :=
  self ← get;
  let current_view := view self in
  if decide (me ∈ current_view.(ViewInfo.quorum_members)) then ret AlreadyPartOfQuorum
  else if decide (Exists (fun v => me ∈ v.(ViewInfo.quorum_members)) (option_list (next_view self)))
  then ret AlreadyPartOfQuorum
  else
    v ← lift (ViewInfo.next_view_with_new_node current_view me);
    modify (fun s => set_currently_adding_node (Some s.(node_id)) (set_entering_quorum true s));;
    modify (install_next_view v);;
    leader ← lift (ViewInfo.leader v);
    modify (set_phase (if decide (leader = me) then StoppingData 0 else Syncing));;
    ret InProgress.

(** *** Finishing a view change *)

(** [u32::from(seq) + 1]: the addition overflows at the largest [u32]. *)
Definition u32_succ (s : SeqNo) : Result N :=
  if decide (s < 2 ^ 32 - 1)%N then Ok (s + 1)%N else Panic.

Definition last_executed (l : Log.t) : SeqNo := default ZERO (Log.last_execution l).

Definition pre_finalize (state : FinalizeState) (proof : option DecProof) (log : Log.t)
    : Result FinalizeStatus :=
  let last_executed_cid := default ZERO (DecProof.sequence_number <$> proof) in
  next ← u32_succ (last_executed log);
  if decide (next < last_executed_cid)%N then Ok (FinalizeRunCst state)
  else
    match state.(proposed).(fwd_consensus_msg).(cm_kind) with
    | PrePrepare rqs =>
        if bool_decide (rqs = []) && negb (sound_test state.(fs_sound)) then Ok NoValue
        else Ok (FinalizeCommit state)
    | _ => Panic
    end.

Definition finalize (rng : nat -> N) (state : FinalizeState) : H SynchronizerStatus :=
  on_sync advance_view;;
  w ← get;
  let v := view w.(w_sync) in
  let '(h, message) := fwd_into_inner state.(proposed) in
  let last_executed_cid := default ZERO (DecProof.sequence_number <$> state.(last_proof)) in
  next ← lift (u32_succ (last_executed w.(w_log)));
  to_execute ← (if decide (next = last_executed_cid) then
                  match state.(last_proof) with
                  | Some last_proof =>
                      d ← zoom (fun w => (w.(w_consensus), w.(w_log))) set_decided
                            (expect (Consensus.catch_up_to_quorum v last_proof));
                      ret (Some d)
                  | None => ret None
                  end
                else ret None);
  consensus_result ← on_consensus
    (expect (Consensus.finalize_view_change rng h message v w.(w_sync)));
  modify_sync (set_phase InitPhase);;
  w ← get;
  match w.(w_sync).(currently_adding_node) with
  | Some node =>
      modify_sync (fun s => set_currently_adding ∅ (set_currently_adding_node None s));;
      ret (NewViewJoinedQuorum consensus_result to_execute node)
  | None => ret (NewView consensus_result to_execute)
  end.

(** The macro [finalize_view_change!]. *)
Definition finalize_view_change (rng : nat -> N) (state : FinalizeState) (proof : option DecProof)
    : H SynchronizerStatus :=
  w ← get;
  status ← lift (pre_finalize state proof w.(w_log));
  match status with
  | NoValue => ret SyncRunning
  | FinalizeRunCst state =>
      modify_sync (fun s => set_phase SyncingState (set_finalize_state (Some state) s));;
      ret RunCst
  | FinalizeCommit state => finalize rng state
  end.

Definition resume_view_change (rng : nat -> N) : H (option SynchronizerStatus) :=
  w ← get;
  match w.(w_sync).(finalize_state) with
  | None => ret None
  | Some state =>
      modify_sync (set_finalize_state None);;
      status ← finalize_view_change rng state None;
      ret (Some status)
  end.

(** *** [process_message] *)

Definition stop_status (i : nat) (view : ViewInfo.t) : SynchronizerStatus :=
  if decide (ViewInfo.f view < i) then SyncRunning else SyncNil.

Definition queue_with (f : Shareable -> SyncTbo.t -> SyncTbo.t) (m : Shareable) : H unit :=
  modify_sync (on_tbo (f m)).

(** STOP-DATA messages for later: followers ignore them. *)
Definition queue_stop_data (m : Shareable) : H unit :=
  w ← get;
  match w.(w_sync).(accessory) with
  | FollowerRole => ret tt
  | ReplicaRole => queue_with SyncTbo.queue_stop_data m
  end.

Definition process_init (m : Shareable) (message : ViewChangeMessage) : H SynchronizerStatus :=
  match vc_kind message with
  | Stop _ | StopQuorumJoin _ => queue_with SyncTbo.queue_stop m
  | StopData _ => queue_stop_data m
  | Sync _ => queue_with SyncTbo.queue_sync m
  end;;
  ret SyncNil.

Section message.
Context (me : NodeId) (rng : nat -> N) (pre_processor : PreProcessor).

(** A quorum agreed to leave the view. *)
Definition move_to_next_view (next_view current_view : ViewInfo.t) : H unit :=
  next_leader ← lift (ViewInfo.leader next_view);
  modify_sync (install_next_view next_view);;
  w ← get;
  match w.(w_sync).(accessory) with
  | ReplicaRole => handle_stopping_quorum current_view pre_processor
  | FollowerRole => ret tt
  end;;
  modify_sync (set_phase (if decide (next_leader = me) then StoppingData 0 else Syncing)).

Definition accept_stop (h : Header) (requests : list (StoredMessage RQ)) (i : nat) : H SynchronizerStatus :=
  w ← get;
  let current_view := view w.(w_sync) in
  modify_sync (fun s => set_stopped (<[hdr_from h := requests]> s.(stopped)) s);;
  match w.(w_sync).(phase) with
  | Stopping _ =>
      if decide (ViewInfo.f current_view < i) then
        on_sync (begin_view_change None);; ret SyncRunning
      else
        modify_sync (set_phase (Stopping i));; ret SyncNil
  | _ =>
      (if decide (ViewInfo.quorum current_view <= i) then
         next_view ← lift (ViewInfo.next_view current_view);
         move_to_next_view next_view current_view
       else modify_sync (set_phase (Stopping2 i)));;
      ret SyncRunning
  end.

Definition process_stopping (m : Shareable) (message : ViewChangeMessage) (i : nat) : H SynchronizerStatus :=
  w ← get;
  let current_view := view w.(w_sync) in
  let next_seq := sn_next (ViewInfo.sequence_number current_view) in
  match vc_kind message with
  | Stop requests =>
      if decide (vc_view message <> next_seq) then
        queue_with SyncTbo.queue_stop m;; ret (stop_status i current_view)
      else if decide (is_Some (w.(w_sync).(stopped) !! hdr_from m.(header))) then
        ret (stop_status i current_view)
      else accept_stop m.(header) requests (i + 1)
  | StopQuorumJoin _ =>
      if decide (vc_view message <> next_seq) then
        queue_with SyncTbo.queue_stop m;; ret (stop_status i current_view)
      else ret (stop_status i current_view)
  | StopData _ => queue_stop_data m;; ret (stop_status i current_view)
  | Sync _ => queue_with SyncTbo.queue_sync m;; ret (stop_status i current_view)
  end.

(** The node with the most votes, the smallest one among equals: the votes of the
    [BTreeMap], stably sorted by decreasing count. *)
Definition more_votes (best : option (NodeId * nat)) (x : NodeId * nat) : option (NodeId * nat) :=
  match best with
  | Some b => if decide (b.2 < x.2 \/ b.2 = x.2 /\ (x.1 < b.1)%N) then Some x else Some b
  | None => Some x
  end.
Definition first_vote (votes : gmap NodeId (gset NodeId)) : option (NodeId * nat) :=
  foldl more_votes None ((fun x => (x.1, size x.2)) <$> map_to_list votes).

Definition accept_join (h : Header) (node : NodeId) (received : nat) : H SynchronizerStatus :=
  w ← get;
  let current_view := view w.(w_sync) in
  modify_sync (fun s => set_currently_adding
    (<[node := {[hdr_from h]} ∪ default ∅ (s.(currently_adding) !! node)]> s.(currently_adding)) s);;
  modify_sync (set_phase (ViewStopping received));;
  (if decide (ViewInfo.quorum current_view <= received) then
     w ← get;
     match first_vote w.(w_sync).(currently_adding) with
     | Some (node_to_add, vote_count) =>
         if decide (ViewInfo.quorum current_view <= vote_count) then
           modify_sync (set_currently_adding_node (Some node));;
           next_view ← lift (ViewInfo.next_view_with_new_node current_view node_to_add);
           move_to_next_view next_view current_view
         else if decide (ViewInfo.n current_view <= received) then panic
         else ret tt
     | None => ret tt
     end
   else modify_sync (set_phase (ViewStopping2 received)));;
  ret SyncRunning.

Definition process_view_stopping (m : Shareable) (message : ViewChangeMessage) (received : nat)
    : H SynchronizerStatus :=
  w ← get;
  let current_view := view w.(w_sync) in
  let next_seq := sn_next (ViewInfo.sequence_number current_view) in
  match vc_kind message with
  | Stop _ =>
      queue_with SyncTbo.queue_stop m;;
      if decide (vc_view message <> next_seq) then ret (stop_status received current_view)
      else modify_sync (set_phase (Stopping 0));; ret SyncRunning
  | StopQuorumJoin node =>
      if decide (vc_view message <> next_seq) then
        queue_with SyncTbo.queue_stop m;; ret (stop_status received current_view)
      else accept_join m.(header) node (received + 1)
  | StopData _ => queue_stop_data m;; ret (stop_status received current_view)
  | Sync _ => queue_with SyncTbo.queue_sync m;; ret (stop_status received current_view)
  end.

(** The leader has a quorum of STOP-DATA messages: it proposes the pending
    requests and broadcasts what it was sent. *)
Definition lead_new_view (next_view : ViewInfo.t) : H SynchronizerStatus :=
  w ← get;
  let current_view := view w.(w_sync) in
  let values := map_values w.(w_sync).(collects) in
  proof ← lift (highest_proof current_view values);
  curr_cid ← (match proof with
              | Some p => lift (u32_succ (DecProof.sequence_number p))
              | None => ret ZERO
              end);
  data ← lift (collect_data values);
  let snd_ := sound next_view (normalized_collects curr_cid data) in
  match pre_processor.(collect_pending_rqs) with
  | inl _ => ret SyncRunning
  | inr p =>
      let forged := Consensus.forge_propose (rng 0) p next_view w.(w_consensus) in
      leader ← lift (ViewInfo.leader next_view);
      consensus_msg ← lift (consensus forged);
      let fwd_request := mkFwdConsensusMessage (wire_header leader leader forged) consensus_msg in
      emit [BroadcastSigned
              (ViewChange (mkViewChangeMessage (ViewInfo.sequence_number next_view)
                 (Sync (mkLeaderCollects fwd_request values))))
              (filter (fun x => x <> me) next_view.(ViewInfo.quorum_members))];;
      finalize_view_change rng (mkFinalizeState curr_cid snd_ fwd_request proof) proof
  end.

Definition process_stopping_data (m : Shareable) (message : ViewChangeMessage) (i : nat)
    : H SynchronizerStatus :=
  w ← get;
  match w.(w_sync).(accessory) with
  | FollowerRole => panic
  | ReplicaRole =>
      next_view ← unwrap (next_view w.(w_sync));
      match vc_kind message with
      | Stop _ | StopQuorumJoin _ => queue_with SyncTbo.queue_stop m;; ret SyncRunning
      | StopData _ =>
          if decide (vc_view message <> ViewInfo.sequence_number next_view) then
            peeked ← lift (ViewInfo.peek next_view (vc_view message));
            leader ← lift (ViewInfo.leader peeked);
            (if decide (leader = me) then queue_with SyncTbo.queue_stop_data m else ret tt);;
            ret SyncRunning
          else
            leader ← lift (ViewInfo.leader next_view);
            if decide (leader <> me) then ret SyncRunning
            else if decide (is_Some (w.(w_sync).(collects) !! hdr_from m.(header))) then ret SyncRunning
            else
              modify_sync (fun s => set_collects (<[hdr_from m.(header) := m]> s.(collects)) s);;
              if decide (i + 1 < ViewInfo.quorum next_view) then
                modify_sync (set_phase (StoppingData (i + 1)));; ret SyncRunning
              else lead_new_view next_view
      | Sync _ => queue_with SyncTbo.queue_sync m;; ret SyncRunning
      end
  end.

(** The SYNC message of the leader: repeat its computation on the signed collects. *)
Definition follow_new_view (next_view : ViewInfo.t) (message : ViewChangeMessage) : H SynchronizerStatus :=
  leader_collects ← unwrap (take_collects message);
  let '(proposed, collects) := lc_into_inner leader_collects in
  let signed := signed_collects collects in
  proof ← lift (highest_proof next_view signed);
  let curr_cid := default ZERO (sn_next ∘ DecProof.sequence_number <$> proof) in
  data ← lift (collect_data signed);
  let snd_ := sound next_view (normalized_collects curr_cid data) in
  finalize_view_change rng (mkFinalizeState curr_cid snd_ proposed proof) proof.

Definition process_syncing (m : Shareable) (message : ViewChangeMessage) : H SynchronizerStatus :=
  w ← get;
  next_view ← unwrap (next_view w.(w_sync));
  match vc_kind message with
  | Stop _ | StopQuorumJoin _ => queue_with SyncTbo.queue_stop m;; ret SyncRunning
  | StopData _ => queue_stop_data m;; ret SyncRunning
  | Sync _ =>
      if decide (vc_view message <> ViewInfo.sequence_number next_view) then
        queue_with SyncTbo.queue_sync m;; ret SyncRunning
      else
        leader ← lift (ViewInfo.leader next_view);
        if decide (hdr_from m.(header) <> leader) then ret SyncRunning
        else follow_new_view next_view message
  end.

Definition process_message (m : Shareable) : H SynchronizerStatus :=
  message ← lift (view_change m.(message));
  w ← get;
  match w.(w_sync).(phase) with
  | InitPhase => process_init m message
  | Stopping i | Stopping2 i => process_stopping m message i
  | ViewStopping received | ViewStopping2 received => process_view_stopping m message received
  | StoppingData i => process_stopping_data m message i
  | Syncing => process_syncing m message
  | SyncingState => panic
  end.
End message.
End handlers.
End Synchronizer.
