(* ===== verification/Collects.v ===== *)
(** * What a view change concludes from the STOP-DATA messages

    The predicates [sound], [binds], [highest_proof] of [bft/sync/mod.rs]: when a value
    is bound, that the outcome does not depend on the iteration order of hash sets, which proof is the
    highest one, and what they trust of the messages. *)
From S2P Require Import Prelude Atlas Errors View Messages Decisions Deciding Log Network.
From S2P Require Import SyncAccessory Accessory Decision Consensus ConsensusFacts Sync.

Module SyncPredicates.
Section predicates.
Context {A : Atlas} {L : AtlasLaws}.

(** The time stamps a collect reports are close to [b]. *)
Definition near_collect (b : SeqNo) (c : CollectData) : Prop :=
  forall p, quorum_prepares_of c = Some p -> near b p.(vdp_view).

(** ** What binding means *)

(** A quorum of the collects reports nothing above [value] at [ts], one reports exactly it, and
    more than [f] votes for it were stored at [ts] or later. *)
Record bound_by (v : ViewInfo.t) (ts : SeqNo) (value : Digest) (cs : collects_t) : Prop := {
  bb_reported : exists c, Some c ∈ cs /\ reports ts value c = true;
  bb_highest : ViewInfo.quorum v <= length (filter (fun c => not_above ts value c = true) (omap id cs));
  bb_certified : ViewInfo.f v < sum_list (supporting ts value <$> omap id cs);
}.

Lemma binds_spec v ts value cs : binds v ts value cs = true <-> bound_by v ts value cs.
Proof.
  unfold binds, quorum_highest, certified_value. split.
  - destruct (decide (length cs < ViewInfo.quorum v)); [done|].
    rewrite !andb_true_iff, !bool_decide_eq_true, existsb_exists.
    intros [[(c & Hin & Hr) Hh] Hc]. split; [|done..]. exists c. split; [|done].
    apply list_elem_of_In, list_elem_of_omap in Hin as (o & Ho & Hx). cbn in Hx. by subst.
  - intros [(c & Hin & Hr) Hh Hc].
    assert (length (filter (fun c => not_above ts value c = true) (omap id cs)) <= length cs).
    { etrans; [apply length_filter|apply omap_id_length]. }
    rewrite decide_False by lia. rewrite !andb_true_iff, !bool_decide_eq_true, existsb_exists.
    split_and!; [|done..]. exists c. split; [|done]. apply list_elem_of_In, list_elem_of_omap.
    by exists (Some c).
Qed.

(** Among exactly a quorum of collects all report at most the bound value. *)
Lemma bound_all v ts value cs c :
  length cs = ViewInfo.quorum v -> bound_by v ts value cs -> Some c ∈ cs -> not_above ts value c = true.
Proof.
  intros Hlen [_ Hh _] Hin. destruct (not_above ts value c) eqn:E; [done|]. exfalso.
  assert (c ∈ omap id cs) as Hc by (apply list_elem_of_omap; by exists (Some c)).
  assert (length (filter (fun c => not_above ts value c = true) (omap id cs)) < length (omap id cs))
    by (eapply length_filter_lt; [exact Hc|by rewrite E]).
  pose proof (omap_id_length cs). lia.
Qed.

Lemma bound_unique v b cs ts d ts' d' :
  length cs = ViewInfo.quorum v -> (forall c, Some c ∈ cs -> near_collect b c) ->
  bound_by v ts d cs -> bound_by v ts' d' cs -> ts = ts' /\ d = d'.
Proof.
  intros Hlen Hnear Hb Hb'.
  destruct (bb_reported _ _ _ _ Hb) as (c & Hc & Hr).
  destruct (bb_reported _ _ _ _ Hb') as (c' & Hc' & Hr').
  pose proof (bound_all _ _ _ _ c Hlen Hb' Hc) as Hle.
  pose proof (bound_all _ _ _ _ c' Hlen Hb Hc') as Hle'.
  pose proof (Hnear c Hc) as Hnc. pose proof (Hnear c' Hc') as Hnc'.
  unfold reports, not_above, near_collect in *.
  destruct (quorum_prepares_of c) as [p|]; [|done]. destruct (quorum_prepares_of c') as [p'|]; [|done].
  apply andb_true_iff in Hr as [Hv Hd], Hr' as [Hv' Hd'].
  apply bool_decide_eq_true in Hv, Hd, Hv', Hd'. subst.
  destruct (Hnc p eq_refl) as (i & Hi & Hpi), (Hnc' p' eq_refl) as (j & Hj & Hpj).
  rewrite Hpi, Hpj in *. rewrite near_cmp in Hle, Hle' by done.
  destruct (Nat.compare_spec i j) as [->|Hlt|Hgt].
  - apply bool_decide_eq_true in Hle. done.
  - rewrite (proj2 (Nat.compare_gt_iff j i)) in Hle' by done. done.
  - done.
Qed.

Lemma supporting_value ts d (cs : list CollectData) :
  0 < sum_list (supporting ts d <$> cs) -> exists c p, c ∈ cs /\ p ∈ (cd_incomplete_proof c).(write_set) /\ p.(vdp_digest) = d.
Proof.
  induction cs as [|c cs IH]; cbn; [lia|]. intros Hpos.
  destruct (decide (supporting ts d c = 0)) as [H0|Hne].
  - destruct IH as (c' & p & Hc & Hp); [lia|]. exists c', p. split; [by right|done].
  - unfold supporting in Hne. destruct (filter _ _) as [|p l] eqn:E; [done|].
    assert (p ∈ filter (fun p => sn_geb p.(vdp_view) ts = true /\ p.(vdp_digest) = d)
      (cd_incomplete_proof c).(write_set)) as Hp by (rewrite E; left).
    apply list_elem_of_filter in Hp as [[_ Hd] Hp]. exists c, p. split_and!; [left|done..].
Qed.

(** The candidates of [sound] include every pair that can bind. *)
Lemma bound_candidate {IO : IterationOrder} {IL : IterationOrderLaws} v ts d cs :
  bound_by v ts d cs ->
  (ts, d) ∈ (seq_no ← in_some_order (remove_dups (cs ≫= timestamps_of));
             value ← in_some_order (remove_dups (cs ≫= values_of)); [(seq_no, value)]).
Proof.
  intros [(c & Hc & Hr) _ Hcert]. apply list_elem_of_bind. exists ts. split.
  - apply list_elem_of_bind. exists d. split; [by apply list_elem_of_singleton|].
    rewrite in_some_order_perm, elem_of_remove_dups. apply list_elem_of_bind.
    destruct (supporting_value ts d (omap id cs)) as (c' & p & Hin & Hp & <-); [lia|].
    apply list_elem_of_omap in Hin as (o & Ho & Hx). cbn in Hx. subst. exists (Some c').
    split; [|done]. cbn. by apply list_elem_of_fmap_2.
  - rewrite in_some_order_perm, elem_of_remove_dups. apply list_elem_of_bind. exists (Some c).
    split; [|done]. unfold reports in Hr. cbn. destruct (quorum_prepares_of c) as [p|]; [|done]. cbn.
    apply andb_true_iff in Hr as [Hv _]. apply bool_decide_eq_true in Hv. subst. left.
Qed.

Lemma sound_spec {IO : IterationOrder} {IL : IterationOrderLaws} v cs :
  match sound v cs with
  | Bound d => exists ts, bound_by v ts d cs
  | Unbound b => b = unbound v cs /\ forall ts d, ~ bound_by v ts d cs
  end.
Proof.
  unfold sound. destruct (list_find _ _) as [[i [ts d]]|] eqn:E.
  - apply list_find_Some in E as (_ & Hb & _). exists ts. exact (proj1 (binds_spec v ts d cs) Hb).
  - split; [done|]. intros ts d Hb. apply list_find_None in E. rewrite Forall_forall in E.
    apply (E (ts, d)); [exact (bound_candidate v ts d cs Hb)|]. exact (proj2 (binds_spec v ts d cs) Hb).
Qed.

(** C24. The outcome of [sound] does not depend on the order the hash sets are iterated in, so
    the leader and the replicas that repeat its computation on the same collects agree: a
    value is bound exactly when a quorum of the collects reports nothing higher, one reports it and
    more than [f] votes support it; with exactly a quorum of collects there is at most one
    such value. *)
Theorem sound_deterministic (IO IO' : IterationOrder) v b cs :
  @IterationOrderLaws IO -> @IterationOrderLaws IO' ->
  length cs = ViewInfo.quorum v -> (forall c, Some c ∈ cs -> near_collect b c) ->
  @sound A IO v cs = @sound A IO' v cs /\
  (forall d, @sound A IO v cs = Bound d <-> exists ts, bound_by v ts d cs).
Proof.
  intros IL IL' Hlen Hnear.
  pose proof (@sound_spec IO IL v cs) as H1. pose proof (@sound_spec IO' IL' v cs) as H2.
  assert (forall ts d ts' d', bound_by v ts d cs -> bound_by v ts' d' cs -> d = d') as Huniq.
  { intros ts d ts' d' Hb Hb'. by destruct (bound_unique v b cs ts d ts' d' Hlen Hnear Hb Hb'). }
  destruct (@sound A IO v cs) as [o|d], (@sound A IO' v cs) as [o'|d'].
  - destruct H1 as [-> Hn], H2 as [-> _]. split; [done|]. intros d. split; [done|]. intros [ts Hb]. by destruct (Hn ts d).
  - destruct H1 as [_ Hn], H2 as [ts Hb]. by destruct (Hn ts d').
  - destruct H1 as [ts Hb], H2 as [_ Hn]. by destruct (Hn ts d).
  - destruct H1 as [ts Hb], H2 as [ts' Hb']. rewrite (Huniq _ _ _ _ Hb Hb'). split; [done|].
    intros d0. split.
    + intros [= <-]. eauto.
    + intros [ts0 Hb0]. by rewrite (Huniq _ _ _ _ Hb0 Hb').
Qed.

(** ** The highest proof *)

Section proofs.
Context {SG : Signatures}.

(** A vote for [digest] with a valid signature. *)
Definition signed_vote (digest : Digest) (m : Shareable) : Prop :=
  exists c, consensus m.(message) = Ok c /\ has_proposed_digest c digest = Some true /\ validate_signature m = true.

#[local] Instance signed_vote_dec digest m : Decision (signed_vote digest m).
Proof.
  unfold signed_vote. destruct (consensus m.(message)) as [c| |]; [|right; by intros (? & ? & _)..].
  destruct (has_proposed_digest c digest) as [[]|] eqn:E; [|right; intros (? & [= <-] & ? & _); congruence..].
  destruct (validate_signature m) eqn:E'; [left; eauto|right; by intros (? & _ & _ & ?)].
Defined.

Definition is_vote_message (m : Shareable) : Prop := exists c, consensus m.(message) = Ok c.

Lemma count_votes_ok digest votes :
  Forall is_vote_message votes -> count_votes digest votes = Ok (length (filter (signed_vote digest) votes)).
Proof.
  induction 1 as [|m votes [c Hc] _ IH]; [done|].
  rewrite filter_cons. cbn [count_votes]. rewrite Hc. cbn. rewrite IH. cbn. f_equal.
  destruct (decide (signed_vote digest m)) as [(c' & Hc' & Hd & Hv)|Hn].
  - rewrite Hc in Hc'. injection Hc' as <-. rewrite Hd, Hv. done.
  - destruct (has_proposed_digest c digest) as [[]|] eqn:E; cbn; [|done..].
    destruct (validate_signature m) eqn:E'; [|done]. destruct Hn. exists c. done.
Qed.

Lemma count_votes_panic digest votes m :
  m ∈ votes -> ~ is_vote_message m -> count_votes digest votes = Panic.
Proof.
  induction 1 as [m votes|m x votes _ IH]; intros Hn; cbn [count_votes].
  - destruct m as [h []]; cbn; [|done..]. destruct Hn. by eexists.
  - destruct x as [h []]; cbn; [by rewrite IH|done..].
Qed.

Lemma count_votes_no_err digest votes e : count_votes digest votes <> Err e.
Proof.
  induction votes as [|[h []] votes IH]; cbn; [done| |done..]. by destruct (count_votes digest votes).
Qed.

(** The votes of a proof, read without looking at who cast them. *)
Definition votes_of (p : DecProof) : list Shareable := DecProof.prepares p ++ DecProof.commits p.
Definition well_signed (v : ViewInfo.t) (p : DecProof) : Prop :=
  let digest := (DecProof.metadata p).(pm_batch_digest) in
  ViewInfo.quorum v <= length (filter (signed_vote digest) (DecProof.commits p)) /\
  ViewInfo.quorum v <= length (filter (signed_vote digest) (DecProof.prepares p)).

Lemma proof_valid_spec v p :
  Forall is_vote_message (votes_of p) -> exists b, proof_valid v p = Ok b /\ (b = true <-> well_signed v p).
Proof.
  intros [Hps Hcs]%Forall_app. unfold proof_valid. rewrite !count_votes_ok by done. cbn. eexists. split; [reflexivity|].
  by rewrite andb_true_iff, !bool_decide_eq_true.
Qed.

Lemma proof_valid_panic v p m : m ∈ votes_of p -> ~ is_vote_message m -> proof_valid v p = Panic.
Proof.
  unfold votes_of, proof_valid. intros [Hm|Hm]%elem_of_app Hn.
  - destruct (count_votes _ (DecProof.commits p)) as [k| |] eqn:E; cbn; [by rewrite (count_votes_panic _ _ m Hm Hn)|by apply count_votes_no_err in E|done].
  - by rewrite (count_votes_panic _ _ m Hm Hn).
Qed.

Lemma proof_valid_no_err v p e : proof_valid v p <> Err e.
Proof.
  unfold proof_valid. set (digest := pm_batch_digest _).
  pose proof (count_votes_no_err digest (DecProof.commits p) e).
  pose proof (count_votes_no_err digest (DecProof.prepares p) e).
  destruct (count_votes digest (DecProof.commits p)), (count_votes digest (DecProof.prepares p)); cbn; congruence.
Qed.

Lemma valid_proofs_spec v ps :
  Forall (fun p => Forall is_vote_message (votes_of p)) ps ->
  exists qs, valid_proofs v ps = Ok qs /\ forall p, p ∈ qs <-> p ∈ ps /\ well_signed v p.
Proof.
  induction 1 as [|p ps Hp _ (qs & Hqs & IH)]; cbn [valid_proofs].
  { exists []. split; [done|]. set_solver. }
  destruct (proof_valid_spec v p Hp) as (b & Hb & Hiff). rewrite Hb. cbn. rewrite Hqs. cbn.
  eexists. split; [reflexivity|]. intros q. destruct b.
  - rewrite !elem_of_cons, IH. split; [intros [->|[? ?]]|intros [[->|?] ?]]; intuition.
  - rewrite IH, elem_of_cons. split; [intros [? ?]; auto|]. intros [[->|?] Hw]; [|done].
    by apply Hiff in Hw.
Qed.

Lemma max_by_seq_spec b ps best :
  (forall p, p ∈ ps -> near b (DecProof.sequence_number p)) ->
  (forall p, best = Some p -> near b (DecProof.sequence_number p)) ->
  match foldl max_by_seq best ps with
  | None => best = None /\ ps = []
  | Some p => (best = Some p \/ p ∈ ps) /\
      forall q, best = Some q \/ q ∈ ps -> sn_cmp (DecProof.sequence_number q) (DecProof.sequence_number p) <> Gt
  end.
Proof.
  revert best. induction ps as [|x ps IH]; intros best Hps Hb; cbn [foldl].
  { destruct best as [p|]; [|done]. split; [by left|]. intros q [[= ->]|?%elem_of_nil]; [|done].
    by rewrite (proj2 (sn_cmp_eq _ _) eq_refl). }
  assert (exists y, max_by_seq best x = Some y /\ (best = Some y \/ y = x) /\
    (sn_cmp (DecProof.sequence_number x) (DecProof.sequence_number y) <> Gt) /\
    (forall q, best = Some q -> sn_cmp (DecProof.sequence_number q) (DecProof.sequence_number y) <> Gt))
    as (y & Hy & Hor & Hxy & Hqy).
  { destruct best as [p|]; cbn [max_by_seq].
    - unfold sn_gtb. destruct (Hb p eq_refl) as (i & Hi & Hpi), (Hps x ltac:(left)) as (j & Hj & Hxj).
      rewrite Hpi, Hxj, near_cmp by done.
      destruct (Nat.compare_spec i j) as [->|Hlt|Hgt]; eexists; (split; [reflexivity|]).
      + split; [by right|]. rewrite Hxj. split; [by rewrite near_cmp, Nat.compare_refl|].
        intros q [= <-]. by rewrite Hpi, near_cmp, Nat.compare_refl.
      + split; [by right|]. rewrite Hxj. split; [by rewrite near_cmp, Nat.compare_refl|].
        intros q [= <-]. rewrite Hpi, near_cmp by done. by rewrite (proj2 (Nat.compare_lt_iff _ _)).
      + split; [by left|]. rewrite Hpi. split.
        * rewrite near_cmp by done. by rewrite (proj2 (Nat.compare_lt_iff _ _)).
        * intros q [= <-]. by rewrite Hpi, near_cmp, Nat.compare_refl.
    - exists x. split_and!; [done|by right| |done]. by rewrite (proj2 (sn_cmp_eq _ _) eq_refl). }
  rewrite Hy. assert (forall p, Some y = Some p -> near b (DecProof.sequence_number p)) as Hy'.
  { intros p [= <-]. destruct Hor as [Ho| ->]; [by apply Hb|apply Hps; left]. }
  specialize (IH (Some y) ltac:(intros; apply Hps; by right) Hy').
  destruct (foldl max_by_seq (Some y) ps) as [p|]; [|by destruct IH].
  destruct IH as [Hin Hmax]. split.
  - destruct Hin as [[= <-]|Hin]; [|right; by right]. destruct Hor as [?| ->]; [by left|right; left].
  - assert (near b (DecProof.sequence_number p)) as Hnp.
    { destruct Hin as [Hin|Hin]; [by apply Hy'|apply Hps; by right]. }
    assert (forall z, near b (DecProof.sequence_number z) ->
      sn_cmp (DecProof.sequence_number z) (DecProof.sequence_number y) <> Gt ->
      sn_cmp (DecProof.sequence_number z) (DecProof.sequence_number p) <> Gt) as Htrans.
    { intros z Hz Hzy. pose proof (Hmax y ltac:(by left)) as Hyp.
      destruct Hz as (i & Hi & Hzi), (Hy' y eq_refl) as (j & Hj & Hyj), Hnp as (k & Hk & Hpk).
      rewrite Hzi, Hyj, Hpk in *. rewrite near_cmp in * by done.
      rewrite Nat.compare_gt_iff in *. lia. }
    intros q [Hq|[->|Hq]%elem_of_cons].
    + apply Htrans; [by apply Hb|by apply Hqy].
    + apply Htrans; [apply Hps; left|done].
    + apply Hmax. by right.
Qed.

Lemma collect_data_panic collects m :
  m ∈ collects -> view_change m.(message) = Panic -> collect_data collects = Panic.
Proof.
  induction 1 as [m l|m x l _ IH]; intros Hm; cbn [collect_data collect_of].
  - unfold collect_of. by rewrite Hm.
  - unfold collect_of. destruct x as [h []]; cbn; [done| |done]. by rewrite IH.
Qed.

Lemma collect_data_no_err collects e : collect_data collects <> Err e.
Proof.
  induction collects as [|[h []] l IH]; cbn; try done. destruct (collect_data l); cbn; congruence.
Qed.

Lemma collect_data_ok collects :
  Forall (fun m => exists vc, view_change m.(message) = Ok vc) collects ->
  exists data, collect_data collects = Ok data /\
    forall c, c ∈ data <-> exists m s, m ∈ collects /\ m.(message) = ViewChange (mkViewChangeMessage s (StopData c)).
Proof.
  induction 1 as [|m l [vc Hvc] _ (data & Hdata & IH)]; cbn [collect_data].
  { exists []. split; [done|]. intros c. split; [by intros ?%elem_of_nil|by intros (? & ? & ?%elem_of_nil & _)]. }
  unfold collect_of. rewrite Hvc, Hdata. cbn. eexists. split; [reflexivity|]. intros c.
  destruct m as [h [|[s k]|]]; cbn in Hvc; try done. injection Hvc as <-. cbn.
  assert (c ∈ data <-> exists m s, m ∈ l /\ m.(message) = ViewChange (mkViewChangeMessage s (StopData c))) as Hc by apply IH.
  destruct k as [| |c'|]; cbn; rewrite ?elem_of_cons, Hc; split.
  all: try (intros (m & s' & Hm & Hms); exists m, s'; split; [by right|done]).
  all: try (intros (m & s' & [->|Hm]%elem_of_cons & Hms); [done|by exists m, s']).
  - intros [->|(m & s' & Hm & Hms)]; [eexists _, s; split; [left|done]|exists m, s'; split; [by right|done]].
  - intros (m & s' & [->|Hm]%elem_of_cons & Hms); [left; cbn in Hms; congruence|right; by exists m, s'].
Qed.

(** A STOP-DATA message among the collects offers the proof. *)
Definition offered (collects : list Shareable) (p : DecProof) : Prop :=
  exists m s i, m ∈ collects /\ m.(message) = ViewChange (mkViewChangeMessage s (StopData (mkCollectData i (Some p)))).

Lemma offered_data collects (data : list CollectData) p :
  (forall c, c ∈ data <-> exists m s, m ∈ collects /\ m.(message) = ViewChange (mkViewChangeMessage s (StopData c))) ->
  p ∈ omap cd_last_proof data <-> offered collects p.
Proof.
  intros Hdata. rewrite list_elem_of_omap. unfold offered. split.
  - intros ([i o] & Hc & Hp). cbn in Hp. subst. apply Hdata in Hc as (m & s & Hm & Hms). by exists m, s, i.
  - intros (m & s & i & Hm & Hms). exists (mkCollectData i (Some p)). split; [|done]. apply Hdata. by exists m, s.
Qed.

(** C25. [highest_proof] on view change messages: of the proofs offered by STOP-DATA messages it returns one
    whose COMMITs and PREPAREs include a quorum of signed ones for the digest of the proof and
    whose sequence number is not below that of any other such proof; it returns nothing only if
    there is none. *)
Theorem highest_proof_correct v b collects :
  Forall (fun m => exists vc, view_change m.(message) = Ok vc) collects ->
  (forall p, offered collects p -> Forall is_vote_message (votes_of p) /\ near b (DecProof.sequence_number p)) ->
  exists r, highest_proof v collects = Ok r /\
    (r = None <-> forall p, offered collects p -> ~ well_signed v p) /\
    (forall p, r = Some p -> offered collects p /\ well_signed v p /\
       forall q, offered collects q -> well_signed v q ->
         sn_cmp (DecProof.sequence_number q) (DecProof.sequence_number p) <> Gt).
Proof.
  intros Hvc Hoff. destruct (collect_data_ok collects Hvc) as (data & Hdata & Hin).
  pose proof (fun p => offered_data collects data p Hin) as Hiff.
  destruct (valid_proofs_spec v (omap cd_last_proof data)) as (qs & Hqs & Hq).
  { apply Forall_forall. intros p Hp. apply Hoff. by apply Hiff. }
  exists (foldl max_by_seq None qs). unfold highest_proof. rewrite Hdata. cbn. rewrite Hqs. cbn. split; [done|].
  pose proof (max_by_seq_spec b qs None) as Hmax.
  specialize (Hmax ltac:(intros p [Hp _]%Hq; by apply Hoff, Hiff) ltac:(done)).
  destruct (foldl max_by_seq None qs) as [p|].
  - destruct Hmax as [[?|Hp] Hge]; [done|]. apply Hq in Hp as [Hp Hw]. apply Hiff in Hp. split.
    + split; [done|]. intros Hno. by destruct (Hno p Hp).
    + intros ? [= <-]. split_and!; [done..|]. intros q Hqo Hqw. apply Hge. right. apply Hq. by rewrite Hiff.
  - destruct Hmax as [_ ->]. split; [|done]. split; [|done]. intros _ p Hp Hw.
    apply (elem_of_nil p). apply Hq. by rewrite Hiff.
Qed.

(** The proof a single replica can make up: its own two votes, repeated. *)
Definition repeated_votes (v : ViewInfo.t) (md : ProofMetadata) (pps : list Shareable) (prepare commit : Shareable)
    : DecProof :=
  mkDecProof md pps (replicate (ViewInfo.quorum v) prepare) (replicate (ViewInfo.quorum v) commit).

Lemma filter_replicate_all {X} (P : X -> Prop) `{forall x, Decision (P x)} n x :
  P x -> filter P (replicate n x) = replicate n x.
Proof. intros Hx. induction n as [|n IH]; [done|]. cbn [replicate]. by rewrite filter_cons_True, IH. Qed.

(** The votes of a proof are counted without looking at their senders, and its proposals are not
    looked at at all: two votes signed by one replica, repeated, make a proof of any sequence number,
    digest and proposals valid in the eyes of [highest_proof]. *)
Theorem one_replica_forges_proof v md pps prepare commit m s i :
  signed_vote md.(pm_batch_digest) prepare -> signed_vote md.(pm_batch_digest) commit ->
  m.(message) = ViewChange (mkViewChangeMessage s
    (StopData (mkCollectData i (Some (repeated_votes v md pps prepare commit))))) ->
  highest_proof v [m] = Ok (Some (repeated_votes v md pps prepare commit)).
Proof.
  intros Hp Hc Hm. set (forged := repeated_votes v md pps prepare commit) in *.
  assert (forall x k, signed_vote md.(pm_batch_digest) x -> Forall is_vote_message (replicate k x)) as Hvote.
  { intros x k (c & Hx & _). apply Forall_forall. intros y Hy. apply elem_of_replicate_inv in Hy as ->. by exists c. }
  destruct (proof_valid_spec v forged) as (b & Hb & Hiff).
  { apply Forall_app. split; by apply Hvote. }
  assert (b = true) as ->.
  { apply Hiff. unfold well_signed. cbn. by rewrite !filter_replicate_all, !length_replicate. }
  clearbody forged. unfold highest_proof. cbn [collect_data]. unfold collect_of. rewrite Hm.
  cbn -[proof_valid]. by rewrite Hb.
Qed.

(** [highest_proof] trusts the shape of what it is given: a STOP-DATA message whose proof
    holds anything but consensus messages among its votes, or a collect that is no view change
    message, makes the replica that looks at it panic. *)
Theorem malformed_collect_panics v collects m :
  m ∈ collects ->
  (view_change m.(message) = Panic \/
   exists p x, offered [m] p /\ x ∈ votes_of p /\ ~ is_vote_message x) ->
  highest_proof v collects = Panic.
Proof.
  intros Hm Hbad. unfold highest_proof. destruct Hbad as [Hbad|(p & x & Hoff & Hx & Hn)].
  { by rewrite (collect_data_panic _ _ Hm Hbad). }
  destruct (collect_data collects) as [data|e|] eqn:E; cbn; [| |done].
  - assert (p ∈ omap cd_last_proof data) as Hp.
    { destruct Hoff as (m' & s & i & ->%list_elem_of_singleton & Hms). clear Hx Hn.
      revert data E. induction Hm as [m l|m y l _ IH]; intros data; cbn [collect_data]; unfold collect_of.
      - rewrite Hms. cbn. destruct (collect_data l) as [rest| |]; cbn; [|done..]. intros [= <-]. left.
      - destruct y as [h []]; cbn; [done| |done]. destruct (collect_data l) as [rest| |]; cbn; [|done..].
        intros [= <-]. specialize (IH Hms rest eq_refl). destruct (vc_kind _) as [| |c|]; try exact IH.
        apply list_elem_of_omap in IH as (c0 & Hc0 & Hp). apply list_elem_of_omap. exists c0. split; [by right|done]. }
    clear E Hoff Hm. induction Hp as [p l|p y l _ IH]; cbn [valid_proofs].
    + by rewrite (proof_valid_panic v p x Hx Hn).
    + destruct (proof_valid v y) as [b|e|] eqn:Ey; cbn; [| |done].
      * specialize (IH Hx). destruct (valid_proofs v l); cbn in *; done.
      * by apply proof_valid_no_err in Ey.
  - by apply collect_data_no_err in E.
Qed.
End proofs.
End predicates.
End SyncPredicates.
