(* ===== verification/SyncFacts.v ===== *)
(** * Properties of the synchronizer

    What the handlers do is put as case lemmas ([stopping_case], [joining_case], [finalized],
    [ending], ...); the invariants over executions ([counted], [collects_ok], [in_step]) are proved from
    those. *)
From S2P Require Import Prelude Atlas Errors View Messages Decisions Deciding Log Network.
From S2P Require Import SyncAccessory Accessory Decision Consensus ConsensusFacts Sync.

(** ** The state machine *)

Module SyncFacts.
Import Synchronizer.
Section facts.
Context {A : Atlas} {D : AtlasDecisions} {WF : WireFormat} {IO : IterationOrder} {SG : Signatures}.
Context {L : AtlasLaws}.

Abbreviation world := (@World A).

(** *** Symbolic execution over the three machines *)

Lemma run_modify_sync {B} (f : t -> t) (k : unit -> M world Effect Error B) w :
  (modify_sync f ≫= k) w = k tt (set_sync (f w.(w_sync)) w).
Proof. by apply bind_Ok_nil. Qed.

Lemma run_modify_sync_end (f : t -> t) w :
  modify_sync f w = mkRun (Ok tt) (set_sync (f w.(w_sync)) w) [].
Proof. done. Qed.

Lemma run_on_sync {X B} (m : M t Effect Error X) (k : X -> M world Effect Error B) w x s' eff :
  m w.(w_sync) = mkRun (Ok x) s' eff -> (on_sync m ≫= k) w = prepend eff (k x (set_sync s' w)).
Proof. intros Hm. apply bind_Ok. unfold on_sync, zoom. by rewrite Hm. Qed.

(** *** The stopping phases *)

Definition is_stop (s : SeqNo) (m : Shareable) : Prop :=
  exists rqs, m.(message) = ViewChange (mkViewChangeMessage s (Stop rqs)).

Definition next_seq (s : t) : SeqNo := sn_next (ViewInfo.sequence_number (view s)).

Definition accepted (h : Header) (rqs : list (StoredMessage RQ)) (s : t) : t :=
  set_stopped (<[hdr_from h := rqs]> s.(stopped)) s.

Lemma run_queue_with {B} f m (k : unit -> M world Effect Error B) w :
  (queue_with f m ≫= k) w = k tt (set_sync (on_tbo (f m) w.(w_sync)) w).
Proof. apply run_modify_sync. Qed.

Lemma run_queue_stop_data {B} m (k : unit -> M world Effect Error B) w :
  (Synchronizer.queue_stop_data m ≫= k) w =
  k tt (match w.(w_sync).(accessory) with
        | FollowerRole => w
        | ReplicaRole => set_sync (on_tbo (SyncTbo.queue_stop_data m) w.(w_sync)) w
        end).
Proof. apply bind_Ok_nil. unfold Synchronizer.queue_stop_data. run. by destruct (accessory _). Qed.

(** The STOP-DATA message for the leader of [nv]: the last decision and what the oldest instance
    has prepared. *)
Definition stop_data_for (pv nv : ViewInfo.t) (w : world) (msg : PBFTMessage) : Prop :=
  exists ip, Consensus.collect_incomplete_proof (ViewInfo.f pv) w.(w_consensus) = Ok ip /\
    msg = ViewChange (mkViewChangeMessage (ViewInfo.sequence_number nv)
            (StopData (mkCollectData ip (Log.last_proof w.(w_log))))).

Lemma handle_stopping_quorum_run pv pp w st w' eff :
  handle_stopping_quorum pv pp w = mkRun (Ok st) w' eff ->
  w' = set_sync (set_stopped ∅ w.(w_sync)) w /\
  exists nv leader msg, next_view w.(w_sync) = Some nv /\ ViewInfo.leader nv = Ok leader /\
    stop_data_for pv nv w msg /\ sent eff = [(leader, msg)].
Proof.
  unfold handle_stopping_quorum, take_stopped_requests_and_register_them, on_sync, drain_stopped_request.
  intros H. inv_run H. destruct (process_stopped_requests _ _); inv_run Hr. split; [done|].
  eexists _, _, _. split_and!; [exact Hr0|exact Hr1|exists a2; split; [exact Hr2|reflexivity]|done].
Qed.

Lemma move_to_next_view_run me pp nv cv w st w' eff :
  move_to_next_view me pp nv cv w = mkRun (Ok st) w' eff ->
  exists sp leader, ViewInfo.leader nv = Ok leader /\
    w' = set_sync (set_phase (if decide (leader = me) then StoppingData 0 else Syncing)
                     (set_stopped sp (install_next_view nv w.(w_sync)))) w /\
    match w.(w_sync).(accessory) with
    | ReplicaRole => sp = ∅ /\ exists msg, stop_data_for cv nv w msg /\ sent eff = [(leader, msg)]
    | FollowerRole => sp = w.(w_sync).(stopped) /\ eff = []
    end.
Proof.
  unfold move_to_next_view, modify_sync, on_sync. intros H. inv_run H. cbn in Hr0.
  destruct (accessory (w_sync w)).
  - apply handle_stopping_quorum_run in Hr0 as (-> & nv' & leader & msg & Hnv & Hl & Hsd & Hsent).
    cbn in Hnv. injection Hnv as <-. exists ∅, leader. split_and!; [done| |done|].
    + cbn. rewrite Hr in Hl. by injection Hl as ->.
    + exists msg. rewrite !sent_app. cbn. by rewrite app_nil_r.
  - inv_run Hr0. exists (stopped (w_sync w)), a. split_and!; [done| |done|done].
    cbn. by destruct w as [[]].
Qed.

Lemma begin_view_change_stopping s i st s' eff :
  s.(phase) = Stopping i -> begin_view_change None s = mkRun (Ok st) s' eff ->
  s' = set_phase (Stopping2 (i + 1)) s.
Proof.
  intros Hph H. unfold begin_view_change in H. inv_run H. rewrite Hph in Hr0. inv_run Hr0.
  unfold handle_begin_view_change in *. destruct (accessory s); inv_run Hr1; done.
Qed.

(** What handling [m] does to a synchronizer that counted [i] STOP messages, and what it sends. *)
Inductive stopping_case (w : world) (m : Shareable) (i : nat) : t -> list (NodeId * PBFTMessage) -> Prop :=
  | stop_other q : q.(SyncTbo.view) = view w.(w_sync) -> q.(SyncTbo.next_view) = next_view w.(w_sync) ->
      stopping_case w m i (set_tbo q w.(w_sync)) []
  | stop_counted rqs ph out :
      m.(message) = ViewChange (mkViewChangeMessage (next_seq w.(w_sync)) (Stop rqs)) ->
      w.(w_sync).(stopped) !! hdr_from m.(header) = None ->
      ph = Stopping (i + 1) \/ ph = Stopping2 (i + 1) ->
      stopping_case w m i (set_phase ph (accepted m.(header) rqs w.(w_sync))) out
  | stop_quorum rqs nv leader sp ph out :
      m.(message) = ViewChange (mkViewChangeMessage (next_seq w.(w_sync)) (Stop rqs)) ->
      w.(w_sync).(stopped) !! hdr_from m.(header) = None ->
      ViewInfo.quorum (view w.(w_sync)) <= i + 1 -> ViewInfo.next_view (view w.(w_sync)) = Ok nv ->
      ViewInfo.leader nv = Ok leader -> ph = StoppingData 0 \/ ph = Syncing ->
      (w.(w_sync).(accessory) = ReplicaRole ->
         sp = ∅ /\ exists msg, stop_data_for (view w.(w_sync)) nv w msg /\ out = [(leader, msg)]) ->
      stopping_case w m i (set_phase ph (set_stopped sp (install_next_view nv w.(w_sync)))) out.

Lemma accept_stop_case me pp m rqs i w st w' eff :
  w.(w_sync).(phase) = Stopping i \/ w.(w_sync).(phase) = Stopping2 i ->
  m.(message) = ViewChange (mkViewChangeMessage (next_seq w.(w_sync)) (Stop rqs)) ->
  w.(w_sync).(stopped) !! hdr_from m.(header) = None ->
  accept_stop me pp m.(header) rqs (i + 1) w = mkRun (Ok st) w' eff ->
  exists s', w' = set_sync s' w /\ stopping_case w m i s' (sent eff).
Proof.
  intros Hph Hm Hnone H. unfold accept_stop, modify_sync, on_sync in H. inv_run H. rest_as H. cbn in H.
  destruct Hph as [Hph|Hph]; rewrite Hph in H.
  - destruct (decide _); inv_run H.
    + rest_as H. apply (begin_view_change_stopping _ i) in H as ->; [|done].
      eexists. split; [reflexivity|]. eapply (stop_counted w m i rqs (Stopping2 (i + 1))); eauto.
    + eexists. split; [reflexivity|]. eapply (stop_counted w m i rqs (Stopping (i + 1))); eauto.
  - inv_run H. rest_as H. destruct (decide _) as [Hq|Hq]; inv_run H.
    + rest_as H. apply move_to_next_view_run in H as (sp & leader & Hl & -> & Hacc).
      eexists. split; [reflexivity|]. cbn [app]. rewrite app_nil_r.
      refine (stop_quorum w m i rqs _ leader sp _ _ Hm Hnone Hq _ Hl _ _); [done| |].
      * destruct (decide _); auto.
      * intros Hrole. cbn in Hacc. rewrite Hrole in Hacc. exact Hacc.
    + eexists. split; [reflexivity|]. eapply (stop_counted w m i rqs (Stopping2 (i + 1))); eauto.
Qed.

Lemma set_tbo_id s : set_tbo s.(tbo) s = s.
Proof. by destruct s. Qed.
Lemma set_sync_id (w : world) : set_sync w.(w_sync) w = w.
Proof. by destruct w. Qed.

Lemma stop_other_id w m i : exists s', w = set_sync s' w /\ stopping_case w m i s' [].
Proof.
  exists (set_tbo w.(w_sync).(tbo) w.(w_sync)). split; [by rewrite set_tbo_id, set_sync_id|by apply stop_other].
Qed.

Lemma process_stopping_run me pp m vc w i st w' eff :
  w.(w_sync).(phase) = Stopping i \/ w.(w_sync).(phase) = Stopping2 i ->
  view_change m.(message) = Ok vc ->
  process_stopping me pp m vc i w = mkRun (Ok st) w' eff ->
  exists s', w' = set_sync s' w /\ stopping_case w m i s' (sent eff).
Proof.
  intros Hph Hvc H. destruct m as [h [|[s k]|]]; try done. injection Hvc as <-.
  unfold process_stopping, queue_with, modify_sync, on_sync in H. inv_run H. rest_as H. cbn in H.
  destruct k as [rqs|n|c|lc].
  - destruct (decide _) as [Hne|Heq]; [inv_run H; eexists; split; [reflexivity|by apply stop_other]|].
    destruct (decide _) as [Hs|Hs]; [inv_run H; apply stop_other_id|].
    eapply (accept_stop_case me pp (mkStored h _)); [done| | |exact H].
    + cbn. repeat f_equal. by destruct (decide (s = next_seq (w_sync w))).
    + by apply eq_None_not_Some.
  - destruct (decide _); inv_run H; [eexists; split; [reflexivity|by apply stop_other]|apply stop_other_id].
  - unfold Synchronizer.queue_stop_data, queue_with, modify_sync, on_sync in H. inv_run H. rest_as H.
    destruct (accessory _); inv_run H.
    + eexists. split; [reflexivity|by apply stop_other].
    + apply stop_other_id.
  - inv_run H. eexists. split; [reflexivity|by apply stop_other].
Qed.

(** *** Finishing a view change *)

Lemma expect_inv {S W X} (m : M S W Error X) s x s' ws :
  expect m s = mkRun (Ok x) s' ws -> m s = mkRun (Ok x) s' ws.
Proof. unfold expect. destruct (m s) as [[y|e|] s1 ws1]; cbn; [|done..]. by intros [= -> -> ->]. Qed.

(** The view the synchronizer moves to, and the tbo queue there. *)
Lemma advance_view_run s b s' (eff : list Effect) :
  advance_view s = mkRun (Ok b) s' eff ->
  exists q, s' = set_tbo q s /\ eff = [] /\ q.(SyncTbo.next_view) = None /\
    match next_view s with
    | Some v => q.(SyncTbo.view) = (if b then v else view s) /\
        match sn_index (ViewInfo.sequence_number v) (ViewInfo.sequence_number (view s)) with
        | inr 0 => b = false | inr _ => b = true | inl _ => False
        end
    | None => q.(SyncTbo.view) = view s /\ b = false
    end.
Proof.
  unfold advance_view. intros H. inv_run H. rest_as H. unfold SyncTbo.advance in H. inv_run H. rest_as H.
  unfold next_view. destruct (SyncTbo.next_view (tbo s)) as [v|] eqn:Hn; inv_run H.
  - rest_as H. unfold SyncTbo.install_view in H. inv_run H. rest_as H. cbn in H. unfold view.
    destruct (sn_index _ _) as [|[|i]] eqn:Hi; inv_run H.
    + eexists. split_and!; [reflexivity|done..].
    + eexists. split_and!; [reflexivity|done| | |done]; clear; induction i; cbn in *; done.
  - eexists. split_and!; [reflexivity|done..].
Qed.

(** A run of [finalize] that succeeds: the tbo queue advances, the window and the log
    catch up if the last proof is the successor of the last decision, and the window enters the view. *)
Record finalized (rng : nat -> N) (state : FinalizeState) (w : world) (st : SynchronizerStatus) (w' : world)
    (moved : bool) (s1 : t) (window : Consensus.t) (cs : ConsensusStatus) : Prop := {
  fz_advance : advance_view w.(w_sync) = mkRun (W := Effect) (Ok moved) s1 [];
  fz_caught_up :
    (exists p d eff, state.(last_proof) = Some p /\
       u32_succ (last_executed w.(w_log)) = Ok (DecProof.sequence_number p) /\
       Consensus.catch_up_to_quorum (view s1) p (w.(w_consensus), w.(w_log)) =
         mkRun (Ok d) (window, w'.(w_log)) eff) \/
    (window = w.(w_consensus) /\ w'.(w_log) = w.(w_log));
  fz_entered : exists eff, Consensus.finalize_view_change rng state.(proposed).(fwd_header)
      state.(proposed).(fwd_consensus_msg) (view s1) s1 window = mkRun (Ok cs) w'.(w_consensus) eff;
  fz_phase : w'.(w_sync).(phase) = InitPhase;
  fz_tbo : w'.(w_sync).(tbo) = s1.(tbo);
  fz_kept : w'.(w_sync).(stopped) = w.(w_sync).(stopped) /\ w'.(w_sync).(collects) = w.(w_sync).(collects) /\
    w'.(w_sync).(accessory) = w.(w_sync).(accessory) /\ w'.(w_sync).(currently_adding_node) = None;
  fz_result : exists d, st = NewView cs d \/ exists n, st = NewViewJoinedQuorum cs d n;
}.

Lemma finalize_finalized rng state w st w' eff :
  finalize rng state w = mkRun (Ok st) w' eff ->
  exists moved s1 window cs, finalized rng state w st w' moved s1 window cs.
Proof.
  unfold finalize, modify_sync, on_sync, on_consensus. intros H. inv_run H.
  match goal with H : advance_view _ = _ |- _ => pose proof (advance_view_run _ _ _ _ H) as (q & -> & -> & _); rename H into Hadv end.
  rest_as H. destruct state as [cid snd_ [fh fm] lp]. cbn -[advance_view] in H.
  apply bind_inv in H as (next & s0 & ? & ? & H0 & H & ->). apply lift_inv in H0 as (Hnext & -> & ->).
  apply bind_inv in H as (to_execute & w1 & ? & ? & H0 & H & ->).
  apply bind_inv in H as (cs & w2 & ? & ? & H1 & H & ->).
  apply zoom_inv in H1 as (c2 & H1 & ->). apply expect_inv in H1.
  assert (exists window log, w1 = mkWorld _ (set_tbo q w.(w_sync)) window log /\
    ((exists p d eff, lp = Some p /\ u32_succ (last_executed w.(w_log)) = Ok (DecProof.sequence_number p) /\
        Consensus.catch_up_to_quorum (view (set_tbo q w.(w_sync))) p (w.(w_consensus), w.(w_log)) =
          mkRun (Ok d) (window, log) eff) \/
     (window = w.(w_consensus) /\ log = w.(w_log)))) as (window & log & -> & Hcatch).
  { clear H H1 Hadv. destruct (decide _) as [Hd|_]; [destruct lp as [p|]|]; inv_run H0; [|by eexists _, _; split; [reflexivity|right]..].
    rest_as H0. apply expect_inv in H0. destruct t0 as [c' l']. eexists _, _. split; [reflexivity|]. left.
    exists p, a0. eexists. split_and!; [done|by rewrite Hnext, Hd|exact H0]. }
  clear H0. revert H1 Hadv. inv_run H. rest_as H. intros H1 Hadv. cbn in H.
  exists a, (set_tbo q (w_sync w)), window, cs.
  destruct (currently_adding_node (w_sync w)) as [n|] eqn:Hn; inv_run H; split; cbn; eauto 10.
Qed.

Inductive ending (rng : nat -> N) (state : FinalizeState) (proof : option DecProof) (w : world)
    : SynchronizerStatus -> world -> Prop :=
  | end_no_value : ending rng state proof w SyncRunning w
  | end_run_cst : is_Some proof ->
      ending rng state proof w RunCst
        (set_sync (set_phase SyncingState (set_finalize_state (Some state) w.(w_sync))) w)
  | end_new_view st w' moved s1 window cs : finalized rng state w st w' moved s1 window cs ->
      ending rng state proof w st w'.

Lemma finalize_view_change_case rng state proof w st w' eff :
  finalize_view_change rng state proof w = mkRun (Ok st) w' eff -> ending rng state proof w st w'.
Proof.
  unfold finalize_view_change, modify_sync, on_sync. intros H.
  apply bind_inv in H as (w0 & ? & ? & ? & H0 & H & ->). inv_run H0.
  apply bind_inv in H as (status & ? & ? & ? & H0 & H & ->). apply lift_inv in H0 as (Hpre & -> & ->).
  unfold pre_finalize in Hpre. destruct (u32_succ _) as [next| |]; cbn in Hpre; try done.
  destruct (decide _) as [Hlt|_].
  - injection Hpre as <-. inv_run H. apply end_run_cst. destruct proof; [done|]. cbn in Hlt. unfold ZERO in Hlt. lia.
  - destruct (cm_kind _); try done. destruct (_ && _); injection Hpre as <-; [inv_run H; apply end_no_value|].
    apply finalize_finalized in H as (moved & s1 & window & cs & Hf). by eapply end_new_view.
Qed.

(** *** The SYNC message of a new leader *)

(** The proposal of the new leader: the pending requests, for the oldest instance of its window. *)
Definition sync_proposal (rng : nat -> N) (leader : NodeId) (rqs : list (StoredMessage RQ)) (nv : ViewInfo.t)
    (w : world) : FwdConsensusMessage :=
  let m := mkConsensusMessage w.(w_consensus).(Consensus.seq_no) (ViewInfo.sequence_number nv) (rng 0) (PrePrepare rqs) in
  mkFwdConsensusMessage (wire_header leader leader (Messages.Consensus m)) m.
Definition sync_message (nv : ViewInfo.t) (fwd : FwdConsensusMessage) (cs : list Shareable) : PBFTMessage :=
  ViewChange (mkViewChangeMessage (ViewInfo.sequence_number nv) (Sync (mkLeaderCollects fwd cs))).

Lemma lead_new_view_case me rng pp nv w st w' eff :
  lead_new_view me rng pp nv w = mkRun (Ok st) w' eff ->
  (w' = w /\ st = SyncRunning /\ eff = []) \/
  exists rqs leader cid snd_ proof eff',
    pp.(collect_pending_rqs) = inr rqs /\ ViewInfo.leader nv = Ok leader /\
    eff = BroadcastSigned (sync_message nv (sync_proposal rng leader rqs nv w) (map_values w.(w_sync).(collects)))
            (filter (fun x => x <> me) nv.(ViewInfo.quorum_members)) :: eff' /\
    finalize_view_change rng (mkFinalizeState cid snd_ (sync_proposal rng leader rqs nv w) proof) proof w =
      mkRun (Ok st) w' eff'.
Proof.
  unfold lead_new_view. intros H.
  apply bind_inv in H as (w0 & ? & ? & ? & H0 & H & ->). inv_run H0.
  apply bind_inv in H as (proof & ? & ? & ? & H0 & H & ->). apply lift_inv in H0 as (_ & -> & ->).
  apply bind_inv in H as (cid & s1 & ? & ? & H0 & H & ->).
  assert (s1 = w /\ x = []) as [-> ->] by (by destruct proof; inv_run H0). clear H0.
  apply bind_inv in H as (data & ? & ? & ? & H0 & H & ->). apply lift_inv in H0 as (_ & -> & ->).
  destruct (collect_pending_rqs pp) as [e|rqs]; [inv_run H; by left|]. right.
  apply bind_inv in H as (leader & ? & ? & ? & H0 & H & ->). apply lift_inv in H0 as (Hl & -> & ->).
  apply bind_inv in H as (cm & ? & ? & ? & H0 & H & ->). apply lift_inv in H0 as (Hcm & -> & ->).
  injection Hcm as <-. apply bind_inv in H as ([] & ? & ? & ? & H0 & H & ->). injection H0 as <- <-.
  eexists rqs, leader, cid, _, proof, _. split_and!; [done|done|reflexivity|exact H].
Qed.

(** *** One message *)

(** Nothing but the queues of out-of-context messages changed. *)
Definition only_queued (w w' : world) : Prop :=
  exists q, w' = set_sync (set_tbo q w.(w_sync)) w /\
    q.(SyncTbo.view) = view w.(w_sync) /\ q.(SyncTbo.next_view) = next_view w.(w_sync).

Lemma only_queued_refl w : only_queued w w.
Proof. exists w.(w_sync).(tbo). by rewrite set_tbo_id, set_sync_id. Qed.
Lemma only_queued_on f m w (st : unit) w' eff :
  (forall q, (f m q).(SyncTbo.view) = q.(SyncTbo.view) /\ (f m q).(SyncTbo.next_view) = q.(SyncTbo.next_view)) ->
  queue_with f m w = mkRun (Ok st) w' eff -> only_queued w w' /\ eff = [].
Proof.
  intros Hf H. unfold queue_with, modify_sync, on_sync in H. inv_run H. split; [|done].
  eexists. split; [reflexivity|]. apply Hf.
Qed.
Lemma only_queued_stop_data m w (st : unit) w' eff :
  Synchronizer.queue_stop_data m w = mkRun (Ok st) w' eff -> only_queued w w' /\ eff = [].
Proof.
  unfold Synchronizer.queue_stop_data. intros H. inv_run H. rest_as H. destruct (accessory _).
  - by apply only_queued_on in H as [? ->].
  - inv_run H. split; [apply only_queued_refl|done].
Qed.

Lemma queued_running f m w st w' (eff : list Effect) :
  (forall q, (f m q).(SyncTbo.view) = q.(SyncTbo.view) /\ (f m q).(SyncTbo.next_view) = q.(SyncTbo.next_view)) ->
  (queue_with f m;; ret SyncRunning) w = mkRun (Ok st) w' eff ->
  only_queued w w' /\ st = SyncRunning /\ eff = [].
Proof.
  intros Hf H. apply bind_inv in H as ([] & ? & ? & ? & H0 & H & ->). inv_run H.
  by apply only_queued_on in H0 as [? ->].
Qed.

(** What a STOP-DATA message for the view to come adds. *)
Definition collected (m : Shareable) (w : world) : world :=
  set_sync (set_collects (<[hdr_from m.(header) := m]> w.(w_sync).(collects)) w.(w_sync)) w.

Lemma process_stopping_data_case me rng pp m vc w i st w' eff :
  w.(w_sync).(phase) = StoppingData i -> view_change m.(message) = Ok vc ->
  process_stopping_data me rng pp m vc i w = mkRun (Ok st) w' eff ->
  (only_queued w w' /\ st = SyncRunning /\ eff = []) \/
  exists nv c, next_view w.(w_sync) = Some nv /\ ViewInfo.leader nv = Ok me /\
    m.(message) = ViewChange (mkViewChangeMessage (ViewInfo.sequence_number nv) (StopData c)) /\
    w.(w_sync).(collects) !! hdr_from m.(header) = None /\
    ((i + 1 < ViewInfo.quorum nv /\ st = SyncRunning /\ eff = [] /\
      w' = set_sync (set_phase (StoppingData (i + 1)) (collected m w).(w_sync)) w) \/
     (ViewInfo.quorum nv <= i + 1 /\ lead_new_view me rng pp nv (collected m w) = mkRun (Ok st) w' eff)).
Proof.
  intros Hph Hvc H. destruct m as [h [|[s k]|]]; try done. injection Hvc as <-.
  unfold process_stopping_data in H. apply bind_inv in H as (w0 & ? & ? & ? & H0 & H & ->). inv_run H0.
  destruct (accessory _); [|done].
  apply bind_inv in H as (nv & ? & ? & ? & H0 & H & ->). apply unwrap_inv in H0 as (Hnv & -> & ->). cbn [vc_kind vc_view] in H.
  destruct k as [rqs|n|c|lc]; [left; (eapply queued_running; [|exact H]; by intros q)..| |left; (eapply queued_running; [|exact H]; by intros q)].
  destruct (decide _) as [Hne|Heq].
  - left. apply bind_inv in H as (pk & ? & ? & ? & H0 & H & ->). apply lift_inv in H0 as (_ & -> & ->).
    apply bind_inv in H as (ld & ? & ? & ? & H0 & H & ->). apply lift_inv in H0 as (_ & -> & ->).
    destruct (decide _); [(eapply queued_running; [|exact H]; by intros q)|].
    inv_run H. split; [apply only_queued_refl|done].
  - apply bind_inv in H as (ld & ? & ? & ? & H0 & H & ->). apply lift_inv in H0 as (Hld & -> & ->).
    destruct (decide (ld <> me)) as [|Hme]; [inv_run H; left; split; [apply only_queued_refl|done]|].
    destruct (decide _) as [|Hnone]; [inv_run H; left; split; [apply only_queued_refl|done]|].
    right. exists nv, c. apply dec_stable in Hme as ->.
    split_and!; [done|done| |by apply eq_None_not_Some|].
    + cbn. repeat f_equal. by destruct (decide (s = ViewInfo.sequence_number nv)).
    + apply bind_inv in H as ([] & ? & ? & ? & H0 & H & ->). unfold modify_sync, on_sync in H0. inv_run H0.
      destruct (decide _) as [Hlt|Hge]; [left|right; split; [lia|exact H]].
      unfold modify_sync, on_sync in H. inv_run H. done.
Qed.

Lemma process_syncing_case rng m vc w st w' eff :
  w.(w_sync).(phase) = Syncing -> view_change m.(message) = Ok vc ->
  process_syncing rng m vc w = mkRun (Ok st) w' eff ->
  (only_queued w w' /\ st = SyncRunning /\ eff = []) \/
  exists nv lc state proof, next_view w.(w_sync) = Some nv /\ ViewInfo.leader nv = Ok (hdr_from m.(header)) /\
    m.(message) = ViewChange (mkViewChangeMessage (ViewInfo.sequence_number nv) (Sync lc)) /\
    state.(proposed) = (lc_into_inner lc).1 /\ state.(last_proof) = proof /\
    highest_proof nv (signed_collects (lc_into_inner lc).2) = Ok proof /\
    finalize_view_change rng state proof w = mkRun (Ok st) w' eff.
Proof.
  intros Hph Hvc H. destruct m as [h [|[s k]|]]; try done. injection Hvc as <-.
  unfold process_syncing in H. apply bind_inv in H as (w0 & ? & ? & ? & H0 & H & ->). inv_run H0.
  apply bind_inv in H as (nv & ? & ? & ? & H0 & H & ->). apply unwrap_inv in H0 as (Hnv & -> & ->). cbn [vc_kind vc_view] in H.
  destruct k as [rqs|n|c|lc]; [left; (eapply queued_running; [|exact H]; by intros q)..| |].
  - left. apply bind_inv in H as ([] & ? & ? & ? & H0 & H & ->). inv_run H. by apply only_queued_stop_data in H0 as [? ->].
  - destruct (decide _) as [Hne|Heq]; [left; (eapply queued_running; [|exact H]; by intros q)|].
    apply bind_inv in H as (ld & ? & ? & ? & H0 & H & ->). apply lift_inv in H0 as (Hld & -> & ->).
    destruct (decide _) as [|Hme]; [inv_run H; left; split; [apply only_queued_refl|done]|]. right.
    apply dec_stable in Hme as <-. unfold follow_new_view in H.
    apply bind_inv in H as (lc' & ? & ? & ? & H0 & H & ->). apply unwrap_inv in H0 as (Hlc & -> & ->).
    injection Hlc as <-. destruct lc as [prop cs]. cbn [lc_into_inner] in H.
    apply bind_inv in H as (proof & ? & ? & ? & H0 & H & ->). apply lift_inv in H0 as (Hp & -> & ->).
    apply bind_inv in H as (data & ? & ? & ? & H0 & H & ->). apply lift_inv in H0 as (_ & -> & ->).
    eexists nv, (mkLeaderCollects prop cs), _, proof. split_and!; [done|done| | | |exact Hp|exact H]; [|done..].
    cbn. repeat f_equal. by destruct (decide (s = ViewInfo.sequence_number nv)).
Qed.

(** *** Votes for a joining node *)

Definition vote_join (h : Header) (node : NodeId) (s : t) : t :=
  set_currently_adding
    (<[node := {[hdr_from h]} ∪ default ∅ (s.(currently_adding) !! node)]> s.(currently_adding)) s.

Inductive joining_case (me : NodeId) (pp : PreProcessor) (h : Header) (node : NodeId) (received : nat) (w : world)
    : world -> Prop :=
  | join_waiting ph : ph = ViewStopping received \/ ph = ViewStopping2 received ->
      joining_case me pp h node received w (set_sync (set_phase ph (vote_join h node w.(w_sync))) w)
  | join_moved nd votes nv leader sp :
      first_vote (vote_join h node w.(w_sync)).(currently_adding) = Some (nd, votes) ->
      ViewInfo.quorum (view w.(w_sync)) <= votes ->
      ViewInfo.next_view_with_new_node (view w.(w_sync)) nd = Ok nv -> ViewInfo.leader nv = Ok leader ->
      joining_case me pp h node received w
        (set_sync (set_phase (if decide (leader = me) then StoppingData 0 else Syncing)
           (set_stopped sp (install_next_view nv (set_currently_adding_node (Some node) (vote_join h node w.(w_sync)))))) w).

Lemma accept_join_case me pp h node received w st w' eff :
  accept_join me pp h node received w = mkRun (Ok st) w' eff -> joining_case me pp h node received w w'.
Proof.
  unfold accept_join. intros H. apply bind_inv in H as (w0 & ? & ? & ? & H0 & H & ->). inv_run H0.
  apply bind_inv in H as ([] & ? & ? & ? & H0 & H & ->). unfold modify_sync, on_sync in H0. inv_run H0.
  apply bind_inv in H as ([] & ? & ? & ? & H0 & H & ->). unfold modify_sync, on_sync in H0. inv_run H0.
  apply bind_inv in H as ([] & w1 & ? & ? & H0 & H & ->). inv_run H.
  destruct (decide _) as [Hq|Hq].
  2: { unfold modify_sync, on_sync in H0. inv_run H0. apply (join_waiting me pp h node received w (ViewStopping2 received)). by right. }
  apply bind_inv in H0 as (w0 & ? & ? & ? & H1 & H0 & ->). inv_run H1. cbn in H0.
  pose proof (join_waiting me pp h node received w (ViewStopping received) ltac:(by left)) as Hwait.
  destruct (first_vote _) as [[nd votes]|] eqn:Hf; [|by inv_run H0].
  destruct (decide _) as [Hv|]; [|by destruct (decide _); inv_run H0].
  apply bind_inv in H0 as ([] & ? & ? & ? & H1 & H0 & ->). unfold modify_sync, on_sync in H1. inv_run H1.
  apply bind_inv in H0 as (nv & ? & ? & ? & H1 & H0 & ->). apply lift_inv in H1 as (Hnv & -> & ->).
  apply move_to_next_view_run in H0 as (sp & leader & Hl & -> & _).
  exact (join_moved me pp h node received w nd votes nv leader sp Hf Hv Hnv Hl).
Qed.

Lemma process_view_stopping_case me pp m vc w i st w' eff :
  view_change m.(message) = Ok vc -> process_view_stopping me pp m vc i w = mkRun (Ok st) w' eff ->
  only_queued w w' \/
  (exists w1, only_queued w w1 /\ w' = set_sync (set_phase (Stopping 0) w1.(w_sync)) w1) \/
  exists node, m.(message) = ViewChange (mkViewChangeMessage (next_seq w.(w_sync)) (StopQuorumJoin node)) /\
    joining_case me pp m.(header) node (i + 1) w w'.
Proof.
  intros Hvc H. destruct m as [h [|[s k]|]]; try done. injection Hvc as <-.
  unfold process_view_stopping in H. apply bind_inv in H as (w0 & ? & ? & ? & H0 & H & ->). inv_run H0. cbn [vc_kind vc_view] in H.
  destruct k as [rqs|n|c|lc].
  - apply bind_inv in H as ([] & w1 & ? & ? & H0 & H & ->). apply only_queued_on in H0 as [Hq _]; [|by intros q].
    destruct (decide _); unfold modify_sync, on_sync in H; inv_run H; [by left|right; left]. by exists w1.
  - destruct (decide _) as [|Heq].
    + apply bind_inv in H as ([] & w1 & ? & ? & H0 & H & ->). apply only_queued_on in H0 as [Hq _]; [|by intros q].
      inv_run H. by left.
    + right. right. exists n. split; [|by eapply accept_join_case].
      cbn. repeat f_equal. by destruct (decide (s = next_seq (w_sync w))).
  - apply bind_inv in H as ([] & w1 & ? & ? & H0 & H & ->). apply only_queued_stop_data in H0 as [Hq _]. inv_run H. by left.
  - apply bind_inv in H as ([] & w1 & ? & ? & H0 & H & ->). apply only_queued_on in H0 as [Hq _]; [|by intros q].
    inv_run H. by left.
Qed.

(** ** Executions *)

(** The replica starts in a view, handles messages, polls, reacts to timeouts, takes part in reconfigurations, resumes after a state
    transfer and is given views by it; what else happens to the window and the log is arbitrary.  The first list holds the messages
    handled before state transfer last gave it a view, the second those handled since. *)
Inductive executes (me : NodeId) : list Shareable -> list Shareable -> world -> Prop :=
  | ex_start v c l : executes me [] [] (mkWorld _ (new_replica me v) c l)
  | ex_message old h w rng pp m st w' eff : executes me old h w ->
      process_message me rng pp m w = mkRun (Ok st) w' eff -> executes me old (h ++ [m]) w'
  | ex_poll old h w st s' : executes me old h w -> poll w.(w_sync) = (Ok st, s') -> executes me old h (set_sync s' w)
  | ex_timeout old h w rqs st s' eff : executes me old h w ->
      begin_view_change (Some rqs) w.(w_sync) = mkRun (Ok st) s' eff -> executes me old h (set_sync s' w)
  | ex_join old h w n st s' eff : executes me old h w ->
      start_join_quorum me n w.(w_sync) = mkRun (Ok st) s' eff -> executes me old h (set_sync s' w)
  | ex_joining old h w st s' eff : executes me old h w ->
      attempt_join_quorum me w.(w_sync) = mkRun (Ok st) s' eff -> executes me old h (set_sync s' w)
  | ex_queue old h w m s' eff : executes me old h w ->
      queue (W := Effect) m w.(w_sync) = mkRun (Ok tt) s' eff -> executes me old h (set_sync s' w)
  | ex_signal old h w : executes me old h w -> executes me old h (set_sync (signal w.(w_sync)) w)
  | ex_resume old h w rng st w' eff : executes me old h w ->
      resume_view_change rng w = mkRun (Ok st) w' eff -> executes me old h w'
  | ex_install old h w v st s' eff : executes me old h w ->
      received_view_from_state_transfer (W := Effect) v w.(w_sync) = mkRun (Ok st) s' eff ->
      executes me (old ++ h) [] (set_sync s' w)
  | ex_rest old h w c l : executes me old h w -> executes me old h (mkWorld _ w.(w_sync) c l).

(** What a view given by state transfer leaves alone. *)
Lemma received_view_kept v (s : t) b s' (eff : list Effect) :
  received_view_from_state_transfer v s = mkRun (Ok b) s' eff ->
  s'.(finalize_state) = s.(finalize_state) /\ s'.(stopped) = s.(stopped) /\ s'.(collects) = s.(collects) /\
  if b then s'.(phase) = StoppingData 0 \/ s'.(phase) = Syncing else s'.(phase) = s.(phase) \/ s'.(phase) = InitPhase.
Proof.
  unfold received_view_from_state_transfer. intros Hrun. inv_run Hrun. rest_as Hrun. destruct a as [pv|].
  - apply bind_inv in Hrun as ([] & s1 & ? & ? & H0 & Hrun & ->).
    assert (s1.(finalize_state) = s.(finalize_state) /\ s1.(stopped) = s.(stopped) /\ s1.(collects) = s.(collects) /\
      (s1.(phase) = s.(phase) \/ s1.(phase) = InitPhase)) as (Hf & Hs & Hc & Hp).
    { destruct (decide _); [|inv_run H0; auto]. apply bind_inv in H0 as (i & s0 & ? & ? & H1 & H0 & ->).
      apply zoom_inv in H1 as (q & _ & ->). destruct i; inv_run H0; auto. }
    inv_run Hrun. rest_as Hrun. destruct (_ && _); [inv_run Hrun; cbn; auto|].
    destruct (can_process_sync _); [inv_run Hrun; cbn; auto|].
    apply bind_inv in Hrun as (i & s2 & ? & ? & H1 & Hrun & ->). apply zoom_inv in H1 as (q & _ & ->). inv_run Hrun. cbn. auto.
  - apply bind_inv in Hrun as (i & s0 & ? & ? & H1 & Hrun & ->). apply zoom_inv in H1 as (q & _ & ->).
    destruct i; inv_run Hrun; cbn; auto.
Qed.

Section stops.
Context (old : list Shareable).

(** Every STOP that is counted was sent by a different replica, for the next view, unless it was handled before state transfer last gave
    the replica a view. *)
Definition stops_from (h : list Shareable) (s : SeqNo) (S : gset NodeId) : Prop :=
  forall x, x ∈ S -> exists m s0, hdr_from m.(header) = x /\ is_stop s0 m /\ (m ∈ h /\ s0 = s \/ m ∈ old).
Definition counted (h : list Shareable) (s : t) : Prop :=
  forall i, s.(phase) = Stopping i \/ s.(phase) = Stopping2 i ->
    exists S, S ⊆ dom s.(stopped) /\ i <= size S /\ stops_from h (next_seq s) S.

Lemma counted_other h s :
  (forall i, s.(phase) <> Stopping (S i) /\ s.(phase) <> Stopping2 (S i)) -> counted h s.
Proof.
  intros Hph [|i] Hi; [|by destruct (Hph i), Hi].
  exists ∅. split_and!; [set_solver|lia|]. intros x Hx. set_solver.
Qed.

Lemma counted_same h h' s s' :
  counted h s -> (forall m, m ∈ h -> m ∈ h') -> view s' = view s -> s'.(stopped) = s.(stopped) ->
  (forall i, s'.(phase) = Stopping i \/ s'.(phase) = Stopping2 i -> s.(phase) = Stopping i \/ s.(phase) = Stopping2 i) ->
  counted h' s'.
Proof.
  intros Hc Hh Hv Hs Hph i Hi. destruct (Hc i (Hph i Hi)) as (S & Hsub & Hsz & Hst).
  exists S. rewrite Hs. split_and!; [done..|]. intros x Hx. destruct (Hst x Hx) as (m & s0 & Hm & Hx' & Hm').
  exists m, s0. unfold next_seq in *. rewrite Hv. naive_solver.
Qed.

Lemma counted_queued h h' w w' :
  counted h w.(w_sync) -> (forall m, m ∈ h -> m ∈ h') -> only_queued w w' -> counted h' w'.(w_sync).
Proof. intros Hc Hh (q & -> & Hv & _). by eapply counted_same. Qed.

Lemma counted_ending h h' rng state proof w st w' :
  counted h w.(w_sync) -> (forall m, m ∈ h -> m ∈ h') -> ending rng state proof w st w' -> counted h' w'.(w_sync).
Proof.
  intros Hc Hh [| |st' w'' moved s1 window cs Hf].
  - by eapply counted_same.
  - by apply counted_other.
  - apply counted_other. by rewrite (fz_phase _ _ _ _ _ _ _ _ _ Hf).
Qed.

Lemma stopping_counted h w m i s' out :
  counted h w.(w_sync) -> w.(w_sync).(phase) = Stopping i \/ w.(w_sync).(phase) = Stopping2 i ->
  stopping_case w m i s' out -> counted (h ++ [m]) s'.
Proof.
  intros Hc Hph Hcase. assert (forall x, x ∈ h -> x ∈ h ++ [m]) as Hh by set_solver.
  destruct Hcase as [q Hv Hn|rqs ph out Hm Hnone Hphase|rqs nv leader sp ph out Hm Hnone Hq Hnv Hl Hphase _].
  - by eapply counted_same.
  - intros j Hj. assert (j = i + 1) as ->.
    { cbn in Hj. destruct Hphase as [-> | ->]; destruct Hj as [[=]|[=]]; done. }
    destruct (Hc i Hph) as (S & Hsub & Hsz & Hst). exists ({[hdr_from m.(header)]} ∪ S). cbn.
    rewrite dom_insert_L. apply not_elem_of_dom in Hnone. split_and!; [set_solver| |].
    + rewrite size_union by set_solver. rewrite size_singleton. lia.
    + intros x [->%elem_of_singleton|Hx]%elem_of_union.
      * exists m, (next_seq w.(w_sync)). split_and!; [done|by exists rqs|]. left. split; [set_solver|done].
      * destruct (Hst x Hx) as (m' & s0 & ? & ? & Hm'). exists m', s0. split_and!; [done..|]. cbn in *. set_solver.
  - apply counted_other. by destruct Hphase as [-> | ->].
Qed.

Lemma message_counted me h rng pp m w st w' eff :
  counted h w.(w_sync) -> process_message me rng pp m w = mkRun (Ok st) w' eff -> counted (h ++ [m]) w'.(w_sync).
Proof.
  intros Hc H. assert (forall x, x ∈ h -> x ∈ h ++ [m]) as Hh by set_solver.
  unfold process_message in H. apply bind_inv in H as (vc & ? & ? & ? & Hvc & H & ->). apply lift_inv in Hvc as (Hvc & -> & ->).
  apply bind_inv in H as (w0 & ? & ? & ? & H0 & H & ->). inv_run H0.
  destruct (phase (w_sync w)) as [|i|i|i|i|i| |] eqn:Hph; [| | | | | | |done].
  - unfold process_init in H. apply bind_inv in H as ([] & ? & ? & ? & H0 & H & ->). inv_run H.
    eapply counted_queued; [done..|].
    destruct (vc_kind vc); [by apply only_queued_on in H0 as [? _]..|by apply only_queued_stop_data in H0 as [? _]|by apply only_queued_on in H0 as [? _]].
  - destruct (process_stopping_run _ _ _ _ _ i _ _ _ (or_introl Hph) Hvc H) as (s' & -> & Hcase).
    eapply stopping_counted; [done|by left|done].
  - destruct (process_stopping_run _ _ _ _ _ i _ _ _ (or_intror Hph) Hvc H) as (s' & -> & Hcase).
    eapply stopping_counted; [done|by right|done].
  - apply (process_view_stopping_case _ _ _ _ _ _ _ _ _ Hvc) in H as [Hq|[(w1 & _ & ->)|(node & _ & [ph [-> | ->]|nd votes nv leader sp _ _ _ _])]];
      [by eapply counted_queued|by apply counted_other..|]. apply counted_other. cbn. by destruct (decide _).
  - apply (process_view_stopping_case _ _ _ _ _ _ _ _ _ Hvc) in H as [Hq|[(w1 & _ & ->)|(node & _ & [ph [-> | ->]|nd votes nv leader sp _ _ _ _])]];
      [by eapply counted_queued|by apply counted_other..|]. apply counted_other. cbn. by destruct (decide _).
  - apply (process_stopping_data_case _ _ _ _ _ _ _ _ _ _ Hph Hvc) in H
      as [(Hq & _)|(nv & c & _ & _ & _ & _ & [(_ & _ & _ & ->)|(_ & H)])]; [by eapply counted_queued|by apply counted_other|].
    apply lead_new_view_case in H as [(-> & _)|(? & ? & ? & ? & ? & ? & _ & _ & _ & H)].
    + apply counted_other. cbn. by rewrite Hph.
    + apply finalize_view_change_case in H. eapply counted_ending; [|done|exact H]. apply counted_other. cbn. by rewrite Hph.
  - apply (process_syncing_case _ _ _ _ _ _ _ Hph Hvc) in H as [(Hq & _)|(? & ? & ? & ? & _ & _ & _ & _ & _ & _ & H)];
      [by eapply counted_queued|]. apply finalize_view_change_case in H. by eapply counted_ending.
Qed.

Lemma begin_view_change_counted h s rqs st s' eff :
  counted h s -> begin_view_change (Some rqs) s = mkRun (Ok st) s' eff -> counted h s'.
Proof.
  intros Hc H. unfold begin_view_change in H. inv_run H. rest_as H.
  assert (forall f, (exists st eff, (modify f;;
      match accessory s with FollowerRole => ret tt | ReplicaRole => handle_begin_view_change (Some rqs) end) s =
      mkRun (Ok st) s' eff) -> s' = f s) as Hmod.
  { intros f (st' & eff' & H'). inv_run H'. rest_as H'. destruct (accessory s); [|by inv_run H'].
    unfold handle_begin_view_change in H'. by inv_run H'. }
  destruct (phase s) as [|i|i|i|i|i| |] eqn:Hph.
  - inv_run H. rest_as H. unfold handle_begin_view_change in H. destruct (accessory s); inv_run H; by apply counted_other.
  - rewrite (Hmod (set_phase (Stopping2 i))) by eauto. eapply counted_same; [done..|].
    intros j [Hj|Hj]; cbn in Hj; [done|]. injection Hj as <-. by left.
  - by inv_run H.
  - rewrite (Hmod (set_phase (Stopping2 0))) by eauto. by apply counted_other.
  - rewrite (Hmod (set_phase (Stopping2 0))) by eauto. by apply counted_other.
  - by inv_run H.
  - by inv_run H.
  - inv_run H. rest_as H. unfold handle_begin_view_change in H. destruct (accessory s); inv_run H; by apply counted_other.
Qed.

Lemma extract_msg_counted h pr up s st s' :
  (forall x q, (up x q).(SyncTbo.view) = q.(SyncTbo.view)) ->
  counted h s -> extract_msg pr up s = (st, s') -> counted h s' /\ s'.(phase) = s.(phase).
Proof.
  intros Hup Hc. unfold extract_msg. destruct (tbo_pop_message _) as [[m|] q]; intros [= <- <-]; split; try done;
    (eapply counted_same; [done|done| |done|done]); unfold view; cbn; apply Hup.
Qed.

Lemma poll_counted h s st s' : counted h s -> poll s = (Ok st, s') -> counted h s'.
Proof.
  intros Hc. unfold poll. destruct (SyncTbo.get_queue _); [|by intros [= _ <-]].
  destruct (phase s) eqn:Hph.
  - destruct (extract_msg _ _ _) as [[|m|] s1] eqn:E; try (intros [= _ <-]; by eapply extract_msg_counted in E as [? _]).
    destruct (view_change _); [|done..]. intros [= _ <-]. apply counted_other. cbn. by destruct (vc_kind _).
  - destruct (extract_msg _ _ _) as [r s1] eqn:E. intros [= _ <-]. by eapply extract_msg_counted in E as [? _].
  - destruct (extract_msg _ _ _) as [r s1] eqn:E. intros [= _ <-]. by eapply extract_msg_counted in E as [? _].
  - destruct (extract_msg _ _ _) as [r s1] eqn:E. intros [= _ <-]. by eapply extract_msg_counted in E as [? _].
  - destruct (extract_msg _ _ _) as [r s1] eqn:E. intros [= _ <-]. by eapply extract_msg_counted in E as [? _].
  - destruct (extract_msg _ _ _) as [r s1] eqn:E. intros [= _ <-]. by eapply extract_msg_counted in E as [? _].
  - destruct (extract_msg _ _ _) as [r s1] eqn:E. intros [= _ <-]. by eapply extract_msg_counted in E as [? _].
  - by intros [= _ <-].
Qed.

Lemma join_counted me h n s st s' eff :
  counted h s -> start_join_quorum me n s = mkRun (Ok st) s' eff -> counted h s'.
Proof.
  intros Hc H. unfold start_join_quorum in H. inv_run H. rest_as H.
  destruct (decide _); [by inv_run H|]. destruct (phase s) eqn:Hph.
  - destruct (decide _); [done|]. unfold begin_quorum_view_change, handle_begin_quorum_view_change in H.
    inv_run H. rest_as H. rewrite Hph in H. inv_run H. rest_as H. destruct (accessory s); inv_run H; by apply counted_other.
  - by inv_run H.
  - by inv_run H.
  - by inv_run H.
  - by inv_run H.
  - destruct (currently_adding_node s); by inv_run H.
  - destruct (currently_adding_node s); by inv_run H.
  - destruct (currently_adding_node s); by inv_run H.
Qed.

Lemma joining_counted me h s st s' eff :
  counted h s -> attempt_join_quorum me s = mkRun (Ok st) s' eff -> counted h s'.
Proof.
  intros Hc H. unfold attempt_join_quorum in H. inv_run H. rest_as H. destruct (decide _); [by inv_run H|].
  destruct (decide _); inv_run H; [done|]. apply counted_other. cbn. by destruct (decide _).
Qed.

Lemma resume_counted h rng w st w' eff :
  counted h w.(w_sync) -> resume_view_change rng w = mkRun (Ok st) w' eff -> counted h w'.(w_sync).
Proof.
  intros Hc H. unfold resume_view_change, modify_sync, on_sync in H.
  apply bind_inv in H as (w0 & ? & ? & ? & H0 & H & ->). inv_run H0.
  destruct (finalize_state _) as [state|]; [|by inv_run H].
  apply bind_inv in H as ([] & ? & ? & ? & H0 & H & ->). inv_run H0.
  apply bind_inv in H as (st' & ? & ? & ? & H0 & H & ->). inv_run H.
  apply finalize_view_change_case in H0. eapply counted_ending; [|by intros m|exact H0].
  by eapply counted_same.
Qed.

End stops.

Lemma received_view_counted old h v s b s' (eff : list Effect) :
  counted old h s -> received_view_from_state_transfer v s = mkRun (Ok b) s' eff -> counted (old ++ h) [] s'.
Proof.
  intros Hc (_ & Hs & _ & Hp)%received_view_kept.
  assert (forall i, s'.(phase) = Stopping i \/ s'.(phase) = Stopping2 i -> s.(phase) = Stopping i \/ s.(phase) = Stopping2 i) as Hph.
  { intros i Hi. destruct b; destruct Hp as [Hp|Hp]; rewrite Hp in Hi; auto; by destruct Hi. }
  intros i Hi. destruct (Hc i (Hph i Hi)) as (S & Hsub & Hsz & Hst). exists S. rewrite Hs. split_and!; [done..|].
  intros x Hx. destruct (Hst x Hx) as (m & s0 & ? & ? & Hm). exists m, s0. split_and!; [done..|]. right. set_solver.
Qed.

Lemma executes_counted me old h w : executes me old h w -> counted old h w.(w_sync).
Proof.
  induction 1 as [v c l|old h w rng pp m st w' eff _ IH H|old h w st s' _ IH H|old h w rqs st s' eff _ IH H
    |old h w n st s' eff _ IH H|old h w st s' eff _ IH H|old h w m s' eff _ IH H|old h w _ IH|old h w rng st w' eff _ IH H
    |old h w v st s' eff _ IH H|old h w c l _ IH].
  - by apply counted_other.
  - by eapply message_counted.
  - by eapply poll_counted.
  - by eapply begin_view_change_counted.
  - by eapply join_counted.
  - by eapply joining_counted.
  - unfold queue in H. inv_run H. rest_as H. unfold SyncTbo.queue in H. inv_run H.
    eapply counted_same; [done|done| |done|done]. unfold view. cbn. by destruct (vc_kind _).
  - by eapply counted_same.
  - by eapply resume_counted.
  - by eapply received_view_counted.
  - done.
Qed.

(** C20. A view is only given up on the word of a quorum: when a message makes the synchronizer leave the
    stopping phase for the next view, a quorum of different replicas has sent it STOP messages, and those it has handled since state transfer last gave it
    a view (all of them, if that never happened) are for exactly that view; it then tells the leader of that view, by STOP-DATA, the last decision of its log and what
    its oldest instance has prepared. *)
Theorem stop_certificate me old h w i rng pp m st w' eff :
  executes me old h w -> w.(w_sync).(phase) = Stopping i \/ w.(w_sync).(phase) = Stopping2 i ->
  w.(w_sync).(accessory) = ReplicaRole ->
  process_message me rng pp m w = mkRun (Ok st) w' eff ->
  (exists j, w'.(w_sync).(phase) = StoppingData j) \/ w'.(w_sync).(phase) = Syncing ->
  view w'.(w_sync) = view w.(w_sync) /\
  exists S nv leader msg, ViewInfo.quorum (view w.(w_sync)) <= size S /\
    stops_from old (h ++ [m]) (next_seq w.(w_sync)) S /\
    ViewInfo.next_view (view w.(w_sync)) = Ok nv /\ next_view w'.(w_sync) = Some nv /\
    ViewInfo.leader nv = Ok leader /\ stop_data_for (view w.(w_sync)) nv w msg /\ sent eff = [(leader, msg)].
Proof.
  intros Hex Hph Hrole H Hnew. pose proof (executes_counted _ _ _ _ Hex) as Hc.
  unfold process_message in H. apply bind_inv in H as (vc & ? & ? & ? & Hvc & H & ->). apply lift_inv in Hvc as (Hvc & -> & ->).
  apply bind_inv in H as (w0 & ? & ? & ? & H0 & H & ->). inv_run H0.
  assert (process_stopping me pp m vc i w = mkRun (Ok st) w' x2) as H' by (destruct Hph as [Hph|Hph]; rewrite Hph in H; exact H).
  apply process_stopping_run in H' as (s' & -> & Hcase); [|done..]. cbn [app].
  destruct Hcase as [q Hv Hn|rqs ph out Hm Hnone Hphase|rqs nv leader sp ph out Hm Hnone Hq Hnv Hl Hphase Hacc].
  - exfalso. cbn in Hnew. destruct Hnew as [[j Hj]|Hj]; destruct Hph as [Hph|Hph]; congruence.
  - exfalso. cbn in Hnew. destruct Hphase as [-> | ->]; destruct Hnew as [[j Hj]|Hj]; congruence.
  - split; [done|]. destruct (Hacc Hrole) as (_ & msg & Hsd & ->).
    destruct (stopping_counted old h w m i (set_phase (Stopping2 (i + 1)) (accepted m.(header) rqs w.(w_sync))) [] Hc Hph
      (stop_counted w m i rqs _ [] Hm Hnone (or_intror eq_refl)) (i + 1) (or_intror eq_refl)) as (S & _ & Hsz & Hst).
    exists S, nv, leader, msg. split_and!; try done. lia.
Qed.

(** ** The STOP-DATA messages a leader collects *)

Definition is_stop_data (m : Shareable) : Prop :=
  exists s c, m.(message) = ViewChange (mkViewChangeMessage s (StopData c)).

Record collects_ok (s : t) : Prop := {
  co_count : forall i, s.(phase) = StoppingData i -> i <= size s.(collects);
  co_entry : forall x m, s.(collects) !! x = Some m -> hdr_from m.(header) = x /\ is_stop_data m;
}.

Lemma collects_same s s' :
  collects_ok s -> s'.(collects) = s.(collects) ->
  (forall i, s'.(phase) = StoppingData i -> s.(phase) = StoppingData i \/ i = 0) -> collects_ok s'.
Proof.
  intros [Hc He] Hs Hp. split; rewrite Hs; [|done]. intros i [Hi| ->]%Hp; [by apply Hc|lia].
Qed.
Lemma collects_cleared s : s.(collects) = ∅ -> (forall i, s.(phase) <> StoppingData (S i)) -> collects_ok s.
Proof.
  intros Hs Hp. split; rewrite Hs; [|by intros x m; rewrite lookup_empty]. intros [|i] Hi; [lia|by destruct (Hp i)].
Qed.
Lemma collects_queued w w' : collects_ok w.(w_sync) -> only_queued w w' -> collects_ok w'.(w_sync).
Proof. intros Hc (q & -> & _). eapply collects_same; [done|done|]. cbn. auto. Qed.

Lemma collects_ending rng state proof w st w' :
  collects_ok w.(w_sync) -> ending rng state proof w st w' -> collects_ok w'.(w_sync).
Proof.
  intros Hc [| |st' w'' moved s1 window cs Hf]; [done|by eapply collects_same|].
  destruct (fz_kept _ _ _ _ _ _ _ _ _ Hf) as (_ & Hk & _). eapply collects_same; [done|done|].
  by rewrite (fz_phase _ _ _ _ _ _ _ _ _ Hf).
Qed.

Lemma collected_ok m w :
  collects_ok w.(w_sync) -> is_stop_data m -> collects_ok (set_phase InitPhase (collected m w).(w_sync)).
Proof.
  intros [Hc He] Hm. split; [done|]. intros x m'. cbn.
  destruct (decide (hdr_from m.(header) = x)) as [<-|Hne].
  - rewrite lookup_insert_eq. by intros [= <-].
  - rewrite lookup_insert_ne by done. apply He.
Qed.

Lemma message_collects me rng pp m w st w' eff :
  collects_ok w.(w_sync) -> process_message me rng pp m w = mkRun (Ok st) w' eff -> collects_ok w'.(w_sync).
Proof.
  intros Hc H.
  unfold process_message in H. apply bind_inv in H as (vc & ? & ? & ? & Hvc & H & ->). apply lift_inv in Hvc as (Hvc & -> & ->).
  apply bind_inv in H as (w0 & ? & ? & ? & H0 & H & ->). inv_run H0.
  assert (forall i, w.(w_sync).(phase) = Stopping i \/ w.(w_sync).(phase) = Stopping2 i ->
    process_stopping me pp m vc i w = mkRun (Ok st) w' x2 -> collects_ok w'.(w_sync)) as Hstop.
  { intros i Hph H1. apply process_stopping_run in H1 as (s' & -> & Hcase); [|done..].
    destruct Hcase as [q Hv Hn|rqs ph out Hm Hnone Hphase|rqs nv leader sp ph out Hm Hnone Hq Hnv Hl Hphase _].
    - eapply collects_same; [done|done|]. cbn. auto.
    - eapply collects_same; [done|done|]. cbn. by destruct Hphase as [-> | ->].
    - eapply collects_same; [done|done|]. cbn. destruct Hphase as [-> | ->]; [intros j [= <-]; auto|done]. }
  assert (forall i, process_view_stopping me pp m vc i w = mkRun (Ok st) w' x2 -> collects_ok w'.(w_sync)) as Hview.
  { intros i H1. apply (process_view_stopping_case _ _ _ _ _ _ _ _ _ Hvc) in H1
      as [Hq|[(w1 & (q & -> & _) & ->)|(node & _ & [ph Hphase|nd votes nv leader sp _ _ _ _])]].
    - by eapply collects_queued.
    - by eapply collects_same.
    - eapply collects_same; [done|done|]. cbn. by destruct Hphase as [-> | ->].
    - eapply collects_same; [done|done|]. cbn. destruct (decide _); [intros j [= <-]; auto|done]. }
  destruct (phase (w_sync w)) as [|i|i|i|i|i| |] eqn:Hph; [| |by eauto..| | |done].
  - unfold process_init in H. apply bind_inv in H as ([] & ? & ? & ? & H0 & H & ->). inv_run H.
    eapply collects_queued; [done..|].
    destruct (vc_kind vc); [by apply only_queued_on in H0 as [? _]..|by apply only_queued_stop_data in H0 as [? _]|by apply only_queued_on in H0 as [? _]].
  - by eauto.
  - apply (process_stopping_data_case _ _ _ _ _ _ _ _ _ _ Hph Hvc) in H
      as [(Hq & _)|(nv & c & _ & _ & Hm & Hnone & Hor)]; [by eapply collects_queued|].
    assert (is_stop_data m) as Hsd by (by eexists _, _).
    pose proof (collected_ok m w Hc Hsd) as [_ He]. cbn in He.
    pose proof (co_count _ Hc i Hph) as Hi.
    assert (forall ph, (forall j, ph = StoppingData j -> j <= i + 1) ->
      collects_ok (set_phase ph (collected m w).(w_sync))) as Hph'.
    { intros ph Hj. split; cbn; [|done]. intros j ->. rewrite map_size_insert_None by done. specialize (Hj j eq_refl). lia. }
    destruct Hor as [(_ & _ & _ & ->)|(_ & H1)].
    + apply Hph'. by intros j [= <-].
    + assert (collects_ok (collected m w).(w_sync)) as Hcm.
      { replace ((collected m w).(w_sync)) with (set_phase (StoppingData i) (collected m w).(w_sync)).
        - apply Hph'. intros j [= <-]. lia.
        - cbn. destruct w as [[]]. cbn in *. by rewrite Hph. }
      apply lead_new_view_case in H1 as [(-> & _)|(? & ? & ? & ? & ? & ? & _ & _ & _ & H1)]; [done|].
      apply finalize_view_change_case in H1. by eapply collects_ending.
  - apply (process_syncing_case _ _ _ _ _ _ _ Hph Hvc) in H as [(Hq & _)|(? & ? & ? & ? & _ & _ & _ & _ & _ & _ & H)];
      [by eapply collects_queued|]. apply finalize_view_change_case in H. by eapply collects_ending.
Qed.

Lemma begin_view_change_collects s rqs st s' eff :
  collects_ok s -> begin_view_change (Some rqs) s = mkRun (Ok st) s' eff -> collects_ok s'.
Proof.
  intros Hc H. unfold begin_view_change, handle_begin_view_change in H. inv_run H. rest_as H.
  destruct (phase s) eqn:Hph; destruct (accessory s); inv_run H;
    first [exact Hc | by apply collects_cleared | by eapply collects_same].
Qed.

Lemma extract_msg_kept pr up s st s' :
  extract_msg pr up s = (st, s') -> s'.(collects) = s.(collects) /\ s'.(phase) = s.(phase).
Proof. unfold extract_msg. destruct (tbo_pop_message _) as [[m|] q]; by intros [= <- <-]. Qed.

Lemma poll_collects s st s' : collects_ok s -> poll s = (Ok st, s') -> collects_ok s'.
Proof.
  intros Hc. unfold poll. destruct (SyncTbo.get_queue _); [|by intros [= _ <-]].
  destruct (phase s) eqn:Hph; [|destruct (extract_msg _ _ _) as [r s1] eqn:E; intros [= _ <-];
    apply extract_msg_kept in E as [Hk Hp]; eapply collects_same; [done..|]; rewrite Hp; auto..|by intros [= _ <-]].
  destruct (extract_msg _ _ _) as [[|m|] s1] eqn:E; apply extract_msg_kept in E as [Hk Hp];
    [intros [= _ <-]; eapply collects_same; [done..|]; rewrite Hp; auto| |intros [= _ <-]; eapply collects_same; [done..|]; rewrite Hp; auto].
  destruct (view_change _); [|done..]. intros [= _ <-]. eapply collects_same; [done..|]. cbn. by destruct (vc_kind _).
Qed.

Lemma join_collects me n s st s' eff :
  collects_ok s -> start_join_quorum me n s = mkRun (Ok st) s' eff -> collects_ok s'.
Proof.
  intros Hc H. unfold start_join_quorum in H. inv_run H. rest_as H.
  destruct (decide _); [by inv_run H|]. destruct (phase s) eqn:Hph; try (destruct (currently_adding_node s)); try (by inv_run H).
  all: destruct (decide _); [done|]; unfold begin_quorum_view_change, handle_begin_quorum_view_change in H;
    inv_run H; rest_as H; rewrite Hph in H; inv_run H; rest_as H; destruct (accessory s); inv_run H; by apply collects_cleared.
Qed.

Lemma joining_collects me s st s' eff :
  collects_ok s -> attempt_join_quorum me s = mkRun (Ok st) s' eff -> collects_ok s'.
Proof.
  intros Hc H. unfold attempt_join_quorum in H. inv_run H. rest_as H. destruct (decide _); [by inv_run H|].
  destruct (decide _); inv_run H; [done|]. eapply collects_same; [done..|]. cbn. destruct (decide _); [|done].
  intros j [= <-]. auto.
Qed.

Lemma resume_collects rng w st w' eff :
  collects_ok w.(w_sync) -> resume_view_change rng w = mkRun (Ok st) w' eff -> collects_ok w'.(w_sync).
Proof.
  intros Hc H. unfold resume_view_change, modify_sync, on_sync in H.
  apply bind_inv in H as (w0 & ? & ? & ? & H0 & H & ->). inv_run H0.
  destruct (finalize_state _) as [state|]; [|by inv_run H].
  apply bind_inv in H as ([] & ? & ? & ? & H0 & H & ->). inv_run H0.
  apply bind_inv in H as (st' & ? & ? & ? & H0 & H & ->). inv_run H.
  apply finalize_view_change_case in H0. eapply collects_ending; [|exact H0].
  eapply collects_same; [done..|]. cbn. auto.
Qed.

Lemma executes_collects me old h w : executes me old h w -> collects_ok w.(w_sync).
Proof.
  induction 1 as [v c l|old h w rng pp m st w' eff _ IH H|old h w st s' _ IH H|old h w rqs st s' eff _ IH H
    |old h w n st s' eff _ IH H|old h w st s' eff _ IH H|old h w m s' eff _ IH H|old h w _ IH|old h w rng st w' eff _ IH H
    |old h w v st s' eff _ IH H|old h w c l _ IH].
  - by apply collects_cleared.
  - by eapply message_collects.
  - by eapply poll_collects.
  - by eapply begin_view_change_collects.
  - by eapply join_collects.
  - by eapply joining_collects.
  - unfold queue in H. inv_run H. rest_as H. unfold SyncTbo.queue in H. inv_run H.
    eapply collects_same; [done..|]. cbn. auto.
  - eapply collects_same; [done..|]. cbn. auto.
  - by eapply resume_collects.
  - apply received_view_kept in H as (_ & _ & Hk & Hp). eapply collects_same; [done..|]. intros i Hi. cbn in Hi.
    destruct st; destruct Hp as [Hp|Hp]; rewrite Hp in Hi; auto; simplify_eq; auto.
  - done.
Qed.

Lemma map_values_senders (IL : IterationOrderLaws) s :
  collects_ok s ->
  NoDup ((fun m => hdr_from m.(header)) <$> map_values s.(collects)) /\
  Forall is_stop_data (map_values s.(collects)) /\ length (map_values s.(collects)) = size s.(collects).
Proof.
  intros [_ He]. unfold map_values. rewrite in_some_order_perm. split_and!.
  - apply (values_NoDup (fun m : Shareable => hdr_from m.(header))). intros x m Hm. by apply He.
  - apply Forall_forall. intros m Hm.
    apply list_elem_of_fmap in Hm as ([x m'] & -> & Hin%elem_of_map_to_list). by apply (He x).
  - by rewrite length_fmap, length_map_to_list.
Qed.

(** C22. The leader of the next view acts on a quorum of STOP-DATA messages from different replicas: it is silent
    until it has them, and then its SYNC message to the other members carries all of
    them.  The proposal in it is the batch of requests its pre-processor has pending, whatever value the
    collects bind. *)
Theorem sync_certificate (IL : IterationOrderLaws) me old h w i rng pp m st w' eff :
  executes me old h w -> w.(w_sync).(phase) = StoppingData i ->
  process_message me rng pp m w = mkRun (Ok st) w' eff ->
  eff = [] \/
  exists nv rqs values eff', next_view w.(w_sync) = Some nv /\ ViewInfo.leader nv = Ok me /\
    pp.(collect_pending_rqs) = inr rqs /\
    eff = BroadcastSigned (sync_message nv (sync_proposal rng me rqs nv w) values)
            (filter (fun x => x <> me) nv.(ViewInfo.quorum_members)) :: eff' /\
    ViewInfo.quorum nv <= length values /\ Forall is_stop_data values /\
    NoDup ((fun m => hdr_from m.(header)) <$> values).
Proof.
  intros Hex Hph H. pose proof (executes_collects _ _ _ _ Hex) as Hc.
  unfold process_message in H. apply bind_inv in H as (vc & ? & ? & ? & Hvc & H & ->). apply lift_inv in Hvc as (Hvc & -> & ->).
  apply bind_inv in H as (w0 & ? & ? & ? & H0 & H & ->). inv_run H0. rewrite Hph in H. cbn [app].
  apply (process_stopping_data_case _ _ _ _ _ _ _ _ _ _ Hph Hvc) in H
    as [(_ & _ & ->)|(nv & c & Hnv & Hl & Hm & Hnone & [(_ & _ & -> & _)|(Hq & H)])]; [by left..|].
  apply lead_new_view_case in H as [(_ & _ & ->)|(rqs & leader & ? & ? & ? & eff' & Hrqs & Hl' & -> & _)]; [by left|].
  right. rewrite Hl in Hl'. injection Hl' as <-. eexists nv, rqs, _, eff'. split_and!; [done|done|done|reflexivity|..].
  all: destruct (map_values_senders IL (set_phase InitPhase (collected m w).(w_sync))) as (Hnd & Hall & Hlen);
    [apply collected_ok; [done|by eexists _, _]|]; cbn in Hnd, Hall, Hlen |- *; try done.
  rewrite Hlen, map_size_insert_None by done. pose proof (co_count _ Hc i Hph). lia.
Qed.

(** ** The window follows the synchronizer *)

#[global] Instance synchronizer_handle_laws : SyncHandleLaws t.
Proof. split. intros s h c rqs. exact (sy_batch_infos (s.(accessory), view s) h c rqs). Qed.

Definition addressable (v : ViewInfo.t) : Prop := (N.of_nat (ViewInfo.n v) < 2 ^ 32)%N.

(** The window is consistent and in the view of the synchronizer, and the view to come, which
    a view change that waits for a state transfer has agreed on already, is a well-formed later one. *)
Record in_step (lag : nat) (w : world) : Prop := {
  is_window : ConsensusFacts.inv lag w.(w_consensus);
  is_view : w.(w_consensus).(Consensus.curr_view) = view w.(w_sync);
  is_addressable : addressable (view w.(w_sync));
  is_next : forall nv, next_view w.(w_sync) = Some nv -> ViewInfo.wf nv /\ addressable nv /\
    exists n, sn_index nv.(ViewInfo.seq) (view w.(w_sync)).(ViewInfo.seq) = inr (S n);
  is_waiting : w.(w_sync).(phase) = SyncingState -> is_Some (next_view w.(w_sync));
}.

Lemma in_step_same lag w s :
  in_step lag w -> view s = view w.(w_sync) -> next_view s = next_view w.(w_sync) ->
  (s.(phase) = SyncingState -> w.(w_sync).(phase) = SyncingState) -> in_step lag (set_sync s w).
Proof. intros [] Hv Hn Hp. split; cbn; rewrite ?Hv, ?Hn; auto. Qed.

Lemma in_step_queued lag w w' : in_step lag w -> only_queued w w' -> in_step lag w'.
Proof. intros Hi (q & -> & Hv & Hn). by apply in_step_same. Qed.

(** What entering the view [nv] does to the three machines. *)
Record entered (nv : ViewInfo.t) (w w' : world) : Prop := {
  en_view : view w'.(w_sync) = nv;
  en_phase : w'.(w_sync).(phase) = InitPhase;
  en_next : next_view w'.(w_sync) = None;
  en_propose : w'.(w_consensus).(Consensus.consensus_guard).(ProposerConsensusGuard.can_propose) = true;
  en_progress :
    (w'.(w_log) = w.(w_log) /\ w'.(w_consensus).(Consensus.seq_no) = w.(w_consensus).(Consensus.seq_no)) \/
    (w'.(w_consensus).(Consensus.seq_no) = sn_next w.(w_consensus).(Consensus.seq_no) /\
     exists p, u32_succ (last_executed w.(w_log)) = Ok (DecProof.sequence_number p) /\
       forall s, Log.last_execution w.(w_log) = Some s -> Log.last_proof w'.(w_log) = Some p);
}.

Lemma finalized_entered lag rng state w st w' moved s1 window cs nv :
  in_step lag w -> next_view w.(w_sync) = Some nv ->
  finalized rng state w st w' moved s1 window cs -> in_step lag w' /\ entered nv w w'.
Proof.
  intros [Hinv Hview Ha Hn _] Hnv [Hadv Hcatch [eff Hent] Hph Htbo Hkept _].
  destruct (Hn nv Hnv) as (Hwf & Hanv & n & Hidx).
  apply advance_view_run in Hadv as (q & -> & _ & Hqn & Hq). rewrite Hnv in Hq. unfold ViewInfo.sequence_number in Hq.
  rewrite Hidx in Hq. destruct Hq as [Hqv ->]. cbn in Htbo. unfold view in Hent, Hcatch. cbn in Hent, Hcatch. rewrite Hqv in Hent, Hcatch.
  assert (ConsensusFacts.rebuildable window /\ window.(Consensus.curr_view) = w.(w_consensus).(Consensus.curr_view) /\
    ((w'.(w_log) = w.(w_log) /\ window.(Consensus.seq_no) = w.(w_consensus).(Consensus.seq_no)) \/
     (window.(Consensus.seq_no) = sn_next w.(w_consensus).(Consensus.seq_no) /\
      exists p, u32_succ (last_executed w.(w_log)) = Ok (DecProof.sequence_number p) /\
        forall s, Log.last_execution w.(w_log) = Some s -> Log.last_proof w'.(w_log) = Some p)))
    as (Hrb & Hcv & Hprog).
  { pose proof (ConsensusFacts.inv_rebuildable _ _ Hinv) as Hrb0.
    destruct Hcatch as [(p & d & eff0 & _ & Hsucc & Hrun)|[-> ->]]; [|by auto].
    destruct (ConsensusFacts.catch_up_other _ _ _ _ _ _ _ _ Hrb0 Hrun) as (? & ? & ? & Hlog). split_and!; [done..|].
    right. split; [done|]. exists p. split; [done|]. intros s Hs. by apply Hlog in Hs as [_ ?]. }
  rewrite <- Hview, <- Hcv in Hidx.
  pose proof (ConsensusFacts.finalize_view_change_run window rng state.(proposed).(fwd_header)
    state.(proposed).(fwd_consensus_msg) nv (set_tbo q w.(w_sync)) n Hrb Hwf Hqv Hidx) as Hfin.
  cbn zeta in Hfin. rewrite Hent in Hfin. cbn in Hfin. destruct Hfin as (_ & Hinv' & Hview' & Hseq & Hprop).
  assert (view w'.(w_sync) = nv) as Hv' by (unfold view; by rewrite Htbo).
  assert (next_view w'.(w_sync) = None) as Hn' by (unfold next_view; by rewrite Htbo).
  split; split; try done; [eapply ConsensusFacts.inv_lag_mono; [|done]; lia|congruence|congruence|by rewrite Hn'|by rewrite Hph|by eapply Hprop|].
  by rewrite Hseq.
Qed.

Lemma ending_in_step lag rng state proof w st w' nv :
  in_step lag w -> next_view w.(w_sync) = Some nv -> ending rng state proof w st w' ->
  in_step lag w' /\ (entered nv w w' \/ (w'.(w_consensus) = w.(w_consensus) /\ w'.(w_log) = w.(w_log))).
Proof.
  intros Hi Hnv [|Hp|st' w'' moved s1 window cs Hf].
  - by auto.
  - split; [|by auto]. destruct Hi. by split.
  - destruct (finalized_entered _ _ _ _ _ _ _ _ _ _ _ Hi Hnv Hf). auto.
Qed.

Lemma stopping_in_step lag w m i s' out :
  in_step lag w -> stopping_case w m i s' out -> in_step lag (set_sync s' w).
Proof.
  intros Hi [q Hv Hn|rqs ph out' Hm Hnone Hphase|rqs nv leader sp ph out' Hm Hnone Hq Hnv Hl Hphase _].
  - by apply in_step_same.
  - apply in_step_same; [done..|]. cbn. by destruct Hphase as [-> | ->].
  - destruct Hi as [Hinv Hview Ha _ _].
    destruct (ViewInfo.next_view_ok (view w.(w_sync))) as (v' & Hv' & Hwf & Hseq & _ & Hn & _); [done| |].
    { rewrite <- Hview. apply (ConsensusFacts.i_view _ _ Hinv). }
    rewrite Hv' in Hnv. injection Hnv as ->. split; cbn; try done.
    intros nv' [= <-]. split_and!; [done|unfold addressable; by rewrite Hn|].
    exists 0. rewrite Hseq. apply (sn_index_plus 1). pose proof sn_window_pos. lia.
Qed.

(** C21. Through every message the synchronizer handles outside a reconfiguration, the window stays consistent and
    in the view of the synchronizer.  A message either leaves window and log alone or completes the view
    change: then synchronizer and window have both entered the view that was agreed on, the
    synchronizer waits for the next one, the proposer may propose again, and the log has at most
    caught up with the one decision it was missing. *)
Theorem new_view_agreed lag me rng pp m w st w' eff :
  in_step lag w -> (forall i, w.(w_sync).(phase) <> ViewStopping i /\ w.(w_sync).(phase) <> ViewStopping2 i) ->
  process_message me rng pp m w = mkRun (Ok st) w' eff ->
  in_step lag w' /\
  ((exists nv, next_view w.(w_sync) = Some nv /\ entered nv w w') \/
   (w'.(w_consensus) = w.(w_consensus) /\ w'.(w_log) = w.(w_log))).
Proof.
  intros Hi Hjoin H.
  unfold process_message in H. apply bind_inv in H as (vc & ? & ? & ? & Hvc & H & ->). apply lift_inv in Hvc as (Hvc & -> & ->).
  apply bind_inv in H as (w0 & ? & ? & ? & H0 & H & ->). inv_run H0.
  assert (only_queued w w' -> in_step lag w' /\ w'.(w_consensus) = w.(w_consensus) /\ w'.(w_log) = w.(w_log)) as Hqueued.
  { intros Hq. split; [by eapply in_step_queued|]. by destruct Hq as (q & -> & _). }
  assert (forall i, w.(w_sync).(phase) = Stopping i \/ w.(w_sync).(phase) = Stopping2 i ->
    process_stopping me pp m vc i w = mkRun (Ok st) w' x2 ->
    in_step lag w' /\ w'.(w_consensus) = w.(w_consensus) /\ w'.(w_log) = w.(w_log)) as Hstop.
  { intros i Hph H1. apply process_stopping_run in H1 as (s' & -> & Hcase); [|done..]. split; [|done].
    by eapply stopping_in_step. }
  destruct (phase (w_sync w)) as [|i|i|i|i|i| |] eqn:Hph; [| |by edestruct Hstop; eauto|by destruct (Hjoin i)..| | |done].
  - unfold process_init in H. apply bind_inv in H as ([] & ? & ? & ? & H0 & H & ->).
    assert (only_queued w w') as Hq; [|by apply Hqueued in Hq as [? ?]; auto]. inv_run H.
    destruct (vc_kind vc); [by apply only_queued_on in H0 as [? _]..|by apply only_queued_stop_data in H0 as [? _]|by apply only_queued_on in H0 as [? _]].
  - edestruct Hstop; eauto.
  - apply (process_stopping_data_case _ _ _ _ _ _ _ _ _ _ Hph Hvc) in H
      as [(Hq & _)|(nv & c & Hnv & _ & _ & _ & [(_ & _ & _ & ->)|(_ & H)])]; [by apply Hqueued in Hq as [? ?]; auto| |].
    + split; [|by auto]. by apply (in_step_same lag w).
    + apply lead_new_view_case in H as [(-> & _)|(? & ? & ? & ? & ? & ? & _ & _ & _ & H)].
      * split; [|by auto]. apply (in_step_same lag w); [done..|]. cbn. by rewrite Hph.
      * apply finalize_view_change_case in H.
        eapply (ending_in_step lag) in H as [? [He|?]]; [|split; [done|by right]| |exact Hnv].
        -- split; [done|]. left. exists nv. split; [done|]. by destruct He.
        -- apply (in_step_same lag w); [done..|]. cbn. by rewrite Hph.
  - apply (process_syncing_case _ _ _ _ _ _ _ Hph Hvc) in H as [(Hq & _)|(nv & ? & ? & ? & Hnv & _ & _ & _ & _ & _ & H)];
      [by apply Hqueued in Hq as [? ?]; auto|]. apply finalize_view_change_case in H.
    destruct (ending_in_step lag _ _ _ w _ _ nv Hi Hnv H) as [? [He|?]]; split; eauto.
Qed.

(** ** A leader with the STOP-DATA messages of an earlier view change *)

Inductive handles (me : NodeId) : list Shareable -> world -> world -> Prop :=
  | handles_nil w : handles me [] w w
  | handles_cons m ms w rng pp st w1 eff w' : process_message me rng pp m w = mkRun (Ok st) w1 eff ->
      handles me ms w1 w' -> handles me (m :: ms) w w'.

(** The members whose STOP-DATA messages would still be accepted. *)
Definition missing (nv : ViewInfo.t) (s : t) : gset NodeId :=
  list_to_set nv.(ViewInfo.quorum_members) ∖ dom s.(collects).

Definition short (nv : ViewInfo.t) (w : world) : Prop :=
  next_view w.(w_sync) = Some nv /\
  exists i, w.(w_sync).(phase) = StoppingData i /\ i + size (missing nv w.(w_sync)) < ViewInfo.quorum nv.

Lemma short_kept me rng pp nv m w st w' eff :
  short nv w -> hdr_from m.(header) ∈ nv.(ViewInfo.quorum_members) ->
  process_message me rng pp m w = mkRun (Ok st) w' eff -> short nv w' /\ eff = [].
Proof.
  intros (Hnv & i & Hph & Hlt) Hmem H.
  unfold process_message in H. apply bind_inv in H as (vc & ? & ? & ? & Hvc & H & ->). apply lift_inv in Hvc as (Hvc & -> & ->).
  apply bind_inv in H as (w0 & ? & ? & ? & H0 & H & ->). inv_run H0. rewrite Hph in H. cbn [app].
  apply (process_stopping_data_case _ _ _ _ _ _ _ _ _ _ Hph Hvc) in H
    as [((q & -> & Hv & Hn) & _ & ->)|(nv' & c & Hnv' & _ & _ & Hnone & Hor)].
  - split; [|done]. split; [by rewrite <- Hnv|]. by exists i.
  - rewrite Hnv in Hnv'. injection Hnv' as <-. apply not_elem_of_dom in Hnone.
    assert (size (missing nv (w_sync w)) = S (size (missing nv (collected m w).(w_sync)))) as Hsz.
    { unfold missing. cbn. rewrite dom_insert_L.
      replace (list_to_set nv.(ViewInfo.quorum_members) ∖ dom w.(w_sync).(collects) : gset NodeId)
        with ({[hdr_from m.(header)]} ∪ list_to_set nv.(ViewInfo.quorum_members) ∖
                ({[hdr_from m.(header)]} ∪ dom w.(w_sync).(collects)) : gset NodeId).
      - rewrite size_union by set_solver. by rewrite size_singleton.
      - apply set_eq. intros x. destruct (decide (x = hdr_from m.(header))) as [->|]; set_solver. }
    destruct Hor as [(_ & _ & -> & ->)|(Hq & _)]; [|lia]. split; [|done]. split; [done|].
    exists (i + 1). split; [done|]. unfold missing in *. cbn in *. lia.
Qed.

(** C26. The STOP-DATA messages of a view change are kept when it is over, and a sender that
    is among them is not counted again.  If too few members of the next view are not among them when its leader
    starts to collect, then whatever messages the members send it, it stays in that phase and sends
    nothing. *)
Theorem stale_collects_block me nv ms w w' :
  short nv w -> Forall (fun m => hdr_from m.(header) ∈ nv.(ViewInfo.quorum_members)) ms ->
  handles me ms w w' -> exists j, w'.(w_sync).(phase) = StoppingData j /\ j < ViewInfo.quorum nv.
Proof.
  intros Hs Hms Hh. induction Hh as [w|m ms w rng pp st w1 eff w' H _ IH].
  - destruct Hs as (_ & i & Hi & Hlt). exists i. split; [done|lia].
  - apply Forall_cons in Hms as [Hm Hms]. apply IH; [|done]. by eapply short_kept.
Qed.

(** ** The requests of STOP messages *)

Definition rq_digest (r : StoredMessage RQ) : list byte := hdr_unique_digest r.(header).

Lemma or_insert_spec (l : list (StoredMessage RQ)) m :
  (forall r, r ∈ l -> is_Some (foldl or_insert_request m l !! rq_digest r)) /\
  (forall k r, foldl or_insert_request m l !! k = Some r ->
     m !! k = Some r \/ (m !! k = None /\ r ∈ l /\ rq_digest r = k)) /\
  m ⊆ foldl or_insert_request m l.
Proof.
  revert m. induction l as [|x l IH]; intros m; cbn [foldl].
  { split_and!; [by intros r ?%elem_of_nil|by left|done]. }
  destruct (IH (or_insert_request m x)) as (H1 & H2 & H3).
  assert (m ⊆ or_insert_request m x /\ is_Some (or_insert_request m x !! rq_digest x) /\
    forall k r, or_insert_request m x !! k = Some r -> m !! k = Some r \/ (m !! k = None /\ r = x /\ rq_digest x = k))
    as (Hsub & Hx & Hx').
  { unfold or_insert_request, insert_request, rq_digest. destruct (m !! _) as [y|] eqn:E; [split_and!; eauto|].
    split_and!; [by apply insert_subseteq|rewrite lookup_insert_eq; eauto|].
    intros k r. destruct (decide (hdr_unique_digest x.(header) = k)) as [<-|Hne].
    - rewrite lookup_insert_eq. intros [= <-]. by right.
    - rewrite lookup_insert_ne by done. by left. }
  split_and!.
  - intros r [->|Hr]%elem_of_cons; [|by apply H1]. destruct Hx as [y Hy]. exists y. by eapply lookup_weaken.
  - intros k r Hr. destruct (H2 k r Hr) as [Hl|(Hl & Hin & <-)].
    + destruct (Hx' k r Hl) as [?|(? & -> & <-)]; [by left|right]. split_and!; [done|left|done].
    + right. split_and!; [|by right|done]. destruct (m !! rq_digest r) eqn:E; [|done].
      apply (lookup_weaken _ _ _ _ E) in Hsub. congruence.
  - by etrans.
Qed.

Lemma insert_spec (l : list (StoredMessage RQ)) m :
  (forall r, r ∈ l -> is_Some (foldl insert_request m l !! rq_digest r)) /\
  (forall k r, foldl insert_request m l !! k = Some r -> m !! k = Some r \/ (r ∈ l /\ rq_digest r = k)) /\
  dom m ⊆ dom (foldl insert_request m l).
Proof.
  revert m. induction l as [|x l IH]; intros m; cbn [foldl].
  { split_and!; [by intros r ?%elem_of_nil|by left|done]. }
  destruct (IH (insert_request m x)) as (H1 & H2 & H3). unfold insert_request in H3 at 1. rewrite dom_insert_L in H3. split_and!.
  - intros r [->|Hr]%elem_of_cons; [|by apply H1]. apply elem_of_dom, H3, elem_of_union_l, elem_of_singleton. done.
  - intros k r Hr. destruct (H2 k r Hr) as [Hl|[Hin <-]]; [|right; split; [by right|done]].
    unfold insert_request in Hl. destruct (decide (hdr_unique_digest x.(header) = k)) as [<-|Hne].
    + rewrite lookup_insert_eq in Hl. injection Hl as <-. right. split; [left|done].
    + rewrite lookup_insert_ne in Hl by done. by left.
  - etrans; [|exact H3]. set_solver.
Qed.

(** The requests of the STOP messages the synchronizer holds. *)
Definition known_stopped (s : t) (r : StoredMessage RQ) : Prop :=
  exists x l, s.(stopped) !! x = Some l /\ r ∈ l.

Lemma known_stopped_values (IL : IterationOrderLaws) s r :
  r ∈ concat (map_values s.(stopped)) <-> known_stopped s r.
Proof.
  unfold map_values, known_stopped. rewrite list_elem_of_In, in_concat. setoid_rewrite <- list_elem_of_In. split.
  - intros (l & Hl & Hr). rewrite in_some_order_perm in Hl.
    apply list_elem_of_fmap in Hl as ([x l'] & -> & Hin%elem_of_map_to_list). by exists x, l'.
  - intros (x & l & Hl & Hr). exists l. split; [|done]. rewrite in_some_order_perm.
    apply list_elem_of_fmap. exists (x, l). split; [done|]. by apply elem_of_map_to_list.
Qed.

(** The STOP message of a replica names every request that timed out and every request it was
    told about in the STOP messages of others, each digest once, and nothing else; where the two have
    a request of the same digest, it is its own. *)
Theorem stopped_requests_cover (IL : IterationOrderLaws) s requests :
  let all := stopped_requests s requests in
  NoDup (rq_digest <$> all) /\
  (forall r, r ∈ default [] requests \/ known_stopped s r -> rq_digest r ∈ (rq_digest <$> all)) /\
  (forall r, r ∈ all -> r ∈ default [] requests \/
     (known_stopped s r /\ forall r', r' ∈ default [] requests -> rq_digest r' <> rq_digest r)).
Proof.
  cbn zeta. unfold stopped_requests.
  destruct (insert_spec (default [] requests) ∅) as (I1 & I2 & _).
  set (own := foldl insert_request ∅ (default [] requests)) in *.
  destruct (or_insert_spec (concat (map_values s.(stopped))) own) as (O1 & O2 & O3).
  set (all := foldl or_insert_request own _) in *.
  assert (forall k r, all !! k = Some r -> rq_digest r = k) as Hkey.
  { intros k r [Hr|(_ & _ & ?)]%O2; [|done]. apply I2 in Hr as [Hr|[_ ?]]; [by rewrite lookup_empty in Hr|done]. }
  rewrite !in_some_order_perm. split_and!.
  - by apply values_NoDup.
  - intros r Hr. assert (is_Some (all !! rq_digest r)) as [y Hy].
    { destruct Hr as [Hr|Hr]; [|by apply O1, known_stopped_values]. destruct (I1 r Hr) as [y Hy].
      exists y. by eapply lookup_weaken. }
    rewrite <- (Hkey _ _ Hy). apply list_elem_of_fmap_2. rewrite in_some_order_perm.
    apply list_elem_of_fmap. exists (rq_digest r, y).
    split; [done|]. by apply elem_of_map_to_list.
  - intros r Hr. rewrite in_some_order_perm in Hr.
    apply list_elem_of_fmap in Hr as ([k r0] & -> & Hin%elem_of_map_to_list). cbn.
    apply O2 in Hin as [Hin|(Hnone & Hin & Hk)].
    + apply I2 in Hin as [Hin|[Hin _]]; [by rewrite lookup_empty in Hin|by left].
    + right. split; [by apply known_stopped_values|]. intros r' Hr' E. destruct (I1 r' Hr') as [y Hy]. congruence.
Qed.

(** ** Timeouts of client requests *)

(** The infos of the timeouts that fired as often as [P] says, in order. *)
Definition timed_out_infos (P : nat -> bool) (seq : list ModTimeout) : list ClientRqInfo :=
  omap (fun x => if P x.(timeout_count) then x.(extra_info) else None) seq.

Lemma sort_timeouts_spec seq fwd stp :
  sort_timeouts seq fwd stp =
  (fwd ++ timed_out_infos (Nat.eqb 1) seq, stp ++ timed_out_infos (Nat.leb 2) seq).
Proof.
  revert fwd stp. induction seq as [|x seq IH]; intros fwd stp; cbn [sort_timeouts timed_out_infos omap list_omap].
  { by rewrite !app_nil_r. }
  destruct x as [[i|] [|[|k]]]; cbn; rewrite IH; cbn; by rewrite <- ?app_assoc.
Qed.

Lemma add_known_stops infos stp x : x ∈ foldl add_known_stop stp infos <-> x ∈ stp \/ x ∈ infos.
Proof.
  revert stp. induction infos as [|y infos IH]; intros stp; cbn [foldl].
  { split; [by left|]. by intros [?|?%elem_of_nil]. }
  rewrite IH. unfold add_known_stop. rewrite elem_of_cons. destruct (decide (y ∈ stp)).
  - split; [tauto|]. intros [?|[->|?]]; auto.
  - rewrite elem_of_app, list_elem_of_singleton. tauto.
Qed.

(** A replica forwards the requests that timed out once and starts a view change for those that timed out again; it
    then also names every request others want to stop for.  Nothing is
    reported when no request timed out, or by a follower. *)
Theorem client_requests_timed_out_spec (IL : IterationOrderLaws) s seq :
  match client_requests_timed_out s seq with
  | SyncNil => s.(accessory) = FollowerRole \/
      timed_out_infos (Nat.eqb 1) seq = [] /\ timed_out_infos (Nat.leb 2) seq = []
  | RequestsTimedOut forwarded stopped =>
      s.(accessory) = ReplicaRole /\ forwarded = timed_out_infos (Nat.eqb 1) seq /\
      forall x, x ∈ stopped <-> x ∈ timed_out_infos (Nat.leb 2) seq \/ exists r, known_stopped s r /\ rq_info r = x
  | _ => False
  end.
Proof.
  unfold client_requests_timed_out. destruct (accessory s); [|by left].
  unfold replica_client_requests_timed_out. rewrite sort_timeouts_spec. cbn [app].
  destruct (decide _) as [?|_]; [by right|]. split_and!; [done..|]. intros x.
  assert (x ∈ stopped_request_digests s <-> exists r, known_stopped s r /\ rq_info r = x) as Hk.
  { unfold stopped_request_digests. rewrite in_some_order_perm, elem_of_remove_dups, list_elem_of_fmap.
    split; [intros (r & -> & Hr%known_stopped_values)|intros (r & Hr%known_stopped_values & <-)]; eauto. }
  rewrite <- Hk. destruct (decide _) as [_|Hn]; [by apply add_known_stops|].
  assert (stopped s = ∅) as He by (destruct (decide (stopped s = ∅)); [done|tauto]).
  split; [by left|]. intros [?|Hx]; [done|]. apply Hk in Hx as (r & (y & l & Hl & _) & _). by rewrite He, lookup_empty in Hl.
Qed.

(** What the collects of a SYNC message say only matters for an empty proposal: a replica that waits for
    the leader of the next view finishes the view change on a SYNC message with no
    STOP-DATA message at all, as long as the proposal in it names a request. *)
Theorem sync_without_collects me rng pp h fwd nv w rqs next :
  w.(w_sync).(phase) = Syncing -> next_view w.(w_sync) = Some nv -> ViewInfo.leader nv = Ok (hdr_from h) ->
  fwd.(fwd_consensus_msg).(cm_kind) = PrePrepare rqs -> rqs <> [] -> u32_succ (last_executed w.(w_log)) = Ok next ->
  process_message me rng pp (mkStored h (sync_message nv fwd [])) w =
  finalize rng (mkFinalizeState ZERO (sound nv []) fwd None) w.
Proof.
  intros Hph Hnv Hl Hk Hne Hnext. unfold process_message, sync_message. cbn [message view_change]. run.
  rewrite Hph. unfold process_syncing. run. rewrite Hnv. run. cbn [vc_kind vc_view]. rewrite decide_False by tauto.
  rewrite Hl. run. cbn [header]. rewrite decide_False by tauto. unfold follow_new_view. cbn [take_collects vc_kind]. run.
  cbn [lc_into_inner]. change (highest_proof nv (signed_collects [])) with (Ok (@None DecProof) : Result _).
  change (collect_data (signed_collects [])) with (Ok [] : Result (list CollectData)). run.
  unfold finalize_view_change, pre_finalize. run. rewrite Hnext. cbn [mbind Res_bind].
  rewrite decide_False by (cbn; unfold ZERO; lia). cbn [proposed].
  rewrite Hk, bool_decide_false by done. cbn [andb]. by run.
Qed.
End facts.
End SyncFacts.
