(* ===== verification/Proposer.v ===== *)
(** * The proposer ([bft/proposer/mod.rs])

    A thread of its own collects the requests of the clients and, while the replica leads, proposes them in
    batches.  It shares the guard, the synchronizer and a flag with the replica thread.  What
    happens between two of its accesses to them is an [Interference]: any calls the other
    threads make and the time that passes; a model run takes the list of them as part of its
    state, so a theorem about every such list is one about every interleaving. *)
From S2P Require Import Prelude Atlas Errors View Messages Network SyncAccessory Consensus Sync.

(** ** The fields of [Proposer] that never change, and the profile of the build *)
Record ProposerParams := mkParams {
  me : NodeId;
  target_global_batch_size : nat;
  (** in microseconds *)
  global_batch_time_limit : N;
  max_batch_size : nat;
  (** [overflow-checks] of the profiles dev and release in Cargo.toml *)
  overflow_checks : bool;
}.

(** [bft/config/mod.rs]; the numbers are [u64] and, for the threads, [u32]. *)
Record ProposerConfig := mkProposerConfig {
  cfg_target_batch_size : N;
  cfg_max_batch_size : N;
  cfg_batch_timeout : N;
  cfg_processing_threads : N;
}.

(** [a - b] on [u128]. *)
Definition sub_u128 (checks : bool) (a b : N) : Result N :=
  if (b <=? a)%N then Ok (a - b)%N
  else if checks then Panic else Ok (a + 2 ^ 128 - b)%N.

(** ** The other threads *)
Section shared.
Context {A : Atlas}.

Inductive SharedOp :=
  | Lock
  | Unlock
  | MakeSeqAvailable (s : SeqNo)
  | InstallSeqNo (s : SeqNo)
  | InstallView (v : ViewInfo.t)
  | InstallSyncMessageRequests (rqs : list ClientRqInfo)
  | ClearSeqNos
  (** the replica thread ran a method of the synchronizer *)
  | SyncMoves (s : Synchronizer.t)
  | Cancel.

Record Interference := mkInterference {
  i_ops : list SharedOp;
  (** in nanoseconds *)
  i_time : N;
}.

(** One receive from the pre-processor. *)
Inductive Reception :=
  | Received (batch : list (StoredMessage RQ))
  | TimedOut
  | Disconnected.
End shared.

Module Proposer.
Section proposer.
Context {A : Atlas}.

Record ProposeBuilder := mkBuilder {
  currently_accumulated : list (StoredMessage RQ);
  (** an [Instant], in nanoseconds *)
  last_proposal : N;
}.

Record t := mk {
  ordered_propose : ProposeBuilder;
  consensus_guard : ProposerConsensusGuard.t;
  synchronizer : Synchronizer.t;
  cancelled : bool;
  now : N;
  others : list Interference;
}.

Definition set_ordered_propose x s := mk x s.(consensus_guard) s.(synchronizer) s.(cancelled) s.(now) s.(others).
Definition set_guard x s := mk s.(ordered_propose) x s.(synchronizer) s.(cancelled) s.(now) s.(others).
Definition set_synchronizer x s := mk s.(ordered_propose) s.(consensus_guard) x s.(cancelled) s.(now) s.(others).
Definition set_cancelled x s := mk s.(ordered_propose) s.(consensus_guard) s.(synchronizer) x s.(now) s.(others).
Definition set_now x s := mk s.(ordered_propose) s.(consensus_guard) s.(synchronizer) s.(cancelled) x s.(others).
Definition set_others x s := mk s.(ordered_propose) s.(consensus_guard) s.(synchronizer) s.(cancelled) s.(now) x.

Definition on_guard (f : ProposerConsensusGuard.t -> ProposerConsensusGuard.t) (s : t) : t :=
  set_guard (f s.(consensus_guard)) s.
Definition set_accumulated x s := set_ordered_propose (mkBuilder x s.(ordered_propose).(last_proposal)) s.
Definition set_last_proposal x s := set_ordered_propose (mkBuilder s.(ordered_propose).(currently_accumulated) x) s.
Definition accumulated (s : t) : list (StoredMessage RQ) := s.(ordered_propose).(currently_accumulated).

(** The casts to [usize] and [u128] keep the numbers; the thread pool has no effect on the results. *)
Definition new (node : NodeId) (profile_checks : bool) (config : ProposerConfig) : ProposerParams :=
  mkParams node (N.to_nat config.(cfg_target_batch_size)) config.(cfg_batch_timeout)
    (N.to_nat config.(cfg_max_batch_size)) profile_checks.

(** [ProposeBuilder::new], at the start of the thread. *)
Definition new_builder (at_ : N) : ProposeBuilder := mkBuilder [] at_.

Definition cancel (s : t) : t := set_cancelled true s.

(** *** Interference *)

Definition apply_op (s : t) (o : SharedOp) : t :=
  match o with
  | Lock => on_guard ProposerConsensusGuard.lock_consensus s
  | Unlock => on_guard ProposerConsensusGuard.unlock_consensus s
  | MakeSeqAvailable n => on_guard (ProposerConsensusGuard.make_seq_available n) s
  | InstallSeqNo n => on_guard (ProposerConsensusGuard.install_seq_no n) s
  | InstallView v => on_guard (ProposerConsensusGuard.install_view v) s
  | InstallSyncMessageRequests rqs => on_guard (ProposerConsensusGuard.install_sync_message_requests rqs) s
  | ClearSeqNos => on_guard ProposerConsensusGuard.clear s
  | SyncMoves sy => set_synchronizer sy s
  | Cancel => cancel s
  end.

Definition apply_interference (i : Interference) (s : t) : t :=
  set_now (s.(now) + i.(i_time))%N (foldl apply_op s i.(i_ops)).

(** The other threads run until the next access to something shared. *)
Definition advance (s : t) : t :=
  match s.(others) with
  | [] => s
  | i :: others => apply_interference i (set_others others s)
  end.

Abbreviation H := (M t Effect Error).

Definition interfere : H unit := modify advance.

(** [last_proposal.elapsed().as_micros()]. *)
Definition since_last (s : t) : N := ((s.(now) - s.(ordered_propose).(last_proposal)) / 1000)%N.
Definition elapsed : H N := interfere;; s ← get; ret (since_last s).

(** [self.consensus_guard.can_propose()]. *)
Definition can_propose : H bool := interfere;; s ← get; ret s.(consensus_guard).(ProposerConsensusGuard.can_propose).

(** [self.consensus_guard.next_seq_no()], under the mutex of the queue. *)
Definition next_seq_no : H (option (SeqNo * ViewInfo.t)) :=
  interfere;;
  s ← get;
  let '(r, g) := ProposerConsensusGuard.next_seq_no s.(consensus_guard) in
  modify (set_guard g);;
  ret r.

(** *** Waiting for the guard *)

(** [unlock_consensus] is the one method that notifies the event. *)
Definition notifies (i : Interference) : bool :=
  existsb (fun o => match o with Unlock => true | _ => false end) i.(i_ops).

(** [event_waker.listen().wait()], once registered: only a later notification ends it.  [false]: still waiting
    when the list ends. *)
Fixpoint wait_notified (pending : list Interference) (s : t) : bool * t :=
  match pending with
  | [] => (false, set_others [] s)
  | i :: pending =>
      let s := apply_interference i (set_others pending s) in
      if notifies i then (true, s) else wait_notified pending s
  end.

(** [block_until_ready]: what happens before the listener is registered is not waited for. *)
Definition block_until_ready : H bool :=
  interfere;;
  s ← get;
  let '(woken, s') := wait_notified s.(others) s in
  put s';;
  ret woken.

(** [while !can_propose() { block_until_ready() }]; every iteration but the last uses up interference. *)
Fixpoint wait_until_can_propose (fuel : nat) : H bool :=
  match fuel with
  | 0 => ret false
  | S fuel =>
      ready ← can_propose;
      if ready : bool then ret true
      else
        woken ← block_until_ready;
        if woken : bool then wait_until_can_propose fuel else ret false
  end.

Section params.
Context (p : ProposerParams).

(** *** Receiving requests *)

Definition process_request_message_leader (message : StoredMessage RQ) (leader_set_size : nat)
    (our_slice : option HashSpace) : Result (option (StoredMessage RQ)) :=
  let digest := hdr_unique_digest message.(header) in
  if decide (1 < leader_set_size) then
    match our_slice with
    | Some slice => Ok (if is_request_in_hash_space digest slice then Some message else None)
    | None => Panic
    end
  else Ok (Some message).

(** [messages.into_iter().filter_map(..).collect()]; the parallel iterator gives the same list. *)
Fixpoint filter_map_leader (messages : list (StoredMessage RQ)) (leader_set_size : nat) (our_slice : option HashSpace)
    : Result (list (StoredMessage RQ)) :=
  match messages with
  | [] => Ok []
  | message :: messages =>
      kept ← process_request_message_leader message leader_set_size our_slice;
      rest ← filter_map_leader messages leader_set_size our_slice;
      Ok (match kept with Some message => message :: rest | None => rest end)
  end.

Definition process_request_message_non_leader (message : StoredMessage RQ) : ClientRqInfo :=
  mkClientRqInfo (hdr_unique_digest message.(header)) (hdr_from message.(header))
    (rq_sequence_number message.(Atlas.message)) (rq_session_number message.(Atlas.message)).

Definition process_received_messages (view_info : ViewInfo.t) (messages : list (StoredMessage RQ)) : H unit :=
  let leader_set_size := length view_info.(ViewInfo.leader_set) in
  let our_slice := view_info.(ViewInfo.leader_hash_space_division) !! p.(me) in
  if decide (p.(me) ∈ view_info.(ViewInfo.leader_set)) then
    messages ← lift (filter_map_leader messages leader_set_size our_slice);
    modify (fun s => set_accumulated (accumulated s ++ messages) s)
  else
    let digest_vec := process_request_message_non_leader <$> messages in
    match digest_vec with
    | [] => ret tt
    | _ => interfere;; s ← get; emit (Synchronizer.watch_received_requests s.(synchronizer) digest_vec)
    end.

(** The answer is whether to stop receiving. *)
Definition handle_received_message (collected_requests : option (list (StoredMessage RQ))) (is_leader : bool)
    (message_batch : list (StoredMessage RQ)) : H (bool * option (list (StoredMessage RQ))) :=
  let collected_requests :=
    match collected_requests with
    | Some requests => Some (requests ++ message_batch)
    | None => Some message_batch
    end in
  let collected_request_count := default 0 (length <$> collected_requests) in
  micros_since_last_batch ← elapsed;
  ret (is_leader && ((p.(target_global_batch_size) <=? collected_request_count)
                     || (p.(global_batch_time_limit) <=? micros_since_last_batch)%N),
       collected_requests).

(** The two [while let Ok(..) = self.batch_reception.recv*(..)]: [recv_timeout] for a leader, [recv], which only
    fails on a closed channel, otherwise.  [None]: still waiting when the list ends. *)
Fixpoint receive (is_leader : bool) (incoming : list Reception) (collected_requests : option (list (StoredMessage RQ)))
    : H (option (option (list (StoredMessage RQ)) * list Reception)) :=
  match incoming with
  | [] => ret None
  | Received message_batch :: incoming =>
      '(stop, collected_requests) ← handle_received_message collected_requests is_leader message_batch;
      if stop : bool then ret (Some (collected_requests, incoming))
      else receive is_leader incoming collected_requests
  | TimedOut :: incoming =>
      if is_leader then ret (Some (collected_requests, incoming))
      else receive is_leader incoming collected_requests
  | Disconnected :: _ => ret (Some (collected_requests, incoming))
  end.

Definition get_time_until_next_propose : H N :=
  micros ← elapsed;
  left_ ← lift (sub_u128 p.(overflow_checks) p.(global_batch_time_limit) micros);
  ret (N.min (p.(global_batch_time_limit) / 2) left_).

(** [Duration::from_micros((time_until_next_proposal / 2) as u64)], the time to sleep. *)
Definition sleep_for_appropriate_amount_of_time : H N :=
  time_until_next_proposal ← get_time_until_next_propose;
  ret ((time_until_next_proposal / 2) `mod` 2 ^ 64)%N.

(** *** Proposing *)

(** [seen] is the content of the mutex the caller holds. *)
Definition check_if_has_been_proposed (req : StoredMessage RQ) (seen : option (gmap NodeId (gmap SeqNo SeqNo)))
    : bool * option (gmap NodeId (gmap SeqNo SeqNo)) :=
  match seen with
  | None => (false, seen)
  | Some seen_rqs =>
      let from := hdr_from req.(header) in
      match seen_rqs !! from with
      | None => (false, seen)
      | Some session_map =>
          let session := rq_session_number req.(message) in
          match session_map !! session with
          | None => (false, seen)
          | Some seq_no =>
              if sn_gtb (rq_sequence_number req.(message)) seq_no then
                let session_map := delete session session_map in
                (false, Some (if decide (session_map = ∅) then delete from seen_rqs
                              else <[from := session_map]> seen_rqs))
              else (true, seen)
          end
      end
  end.

(** [currently_accumulated.retain(|msg| !check_if_has_been_proposed(msg, ..))]. *)
Fixpoint retain (batch : list (StoredMessage RQ)) (seen : option (gmap NodeId (gmap SeqNo SeqNo)))
    : list (StoredMessage RQ) * option (gmap NodeId (gmap SeqNo SeqNo)) :=
  match batch with
  | [] => ([], seen)
  | msg :: batch =>
      let '(proposed, seen) := check_if_has_been_proposed msg seen in
      let '(kept, seen) := retain batch seen in
      (if proposed : bool then kept else msg :: kept, seen)
  end.

Definition set_last_view_change (seen : option (gmap NodeId (gmap SeqNo SeqNo))) (g : ProposerConsensusGuard.t)
    : ProposerConsensusGuard.t :=
  ProposerConsensusGuard.mk g.(ProposerConsensusGuard.can_propose) g.(ProposerConsensusGuard.seq_no_queue)
    g.(ProposerConsensusGuard.has_pending_view_change_reqs) seen.

(** The scope of the mutex: what is kept of the batch, and whether the map is empty now. *)
Definition retain_new (currently_accumulated : list (StoredMessage RQ)) : H (list (StoredMessage RQ) * bool) :=
  interfere;;
  s ← get;
  if s.(consensus_guard).(ProposerConsensusGuard.has_pending_view_change_reqs) then
    interfere;;
    s ← get;
    let '(kept, seen) := retain currently_accumulated s.(consensus_guard).(ProposerConsensusGuard.last_view_change) in
    modify (on_guard (set_last_view_change seen));;
    ret (kept, match seen with Some seen => bool_decide (seen = ∅) | None => false end)
  else ret (currently_accumulated, false).

Definition propose (nonce : N) (seq : SeqNo) (view : ViewInfo.t) (currently_accumulated : list (StoredMessage RQ)) : H unit :=
  '(currently_accumulated, is_view_change_empty) ← retain_new currently_accumulated;
  (if is_view_change_empty : bool
   then interfere;; modify (on_guard ProposerConsensusGuard.sync_messages_clear) else ret tt);;
  let message := Messages.Consensus (mkConsensusMessage seq (ViewInfo.sequence_number view) nonce
                                       (PrePrepare currently_accumulated)) in
  emit [BroadcastSigned message view.(ViewInfo.quorum_members)].

(** [split_off(len - max)], the swap and the [mem::replace]: what is proposed and what stays. *)
Definition split_batch (all : list (StoredMessage RQ)) : list (StoredMessage RQ) * list (StoredMessage RQ) :=
  if decide (p.(max_batch_size) < length all)
  then (drop (length all - p.(max_batch_size)) all, take (length all - p.(max_batch_size)) all)
  else (all, []).

(** [true] if a batch was proposed. *)
Definition propose_ordered (nonce : N) (is_leader : bool) : H bool :=
  if is_leader then
    s ← get;
    early ← (if decide (length (accumulated s) < p.(target_global_batch_size)) then
               micros_since_last_batch ← elapsed;
               ret (micros_since_last_batch <=? p.(global_batch_time_limit))%N
             else ret false);
    if early : bool then ret false
    else
      allowed ← can_propose;
      if allowed : bool then
        next ← next_seq_no;
        match next with
        | Some (seq, view) =>
            interfere;;
            modify (fun s => set_last_proposal s.(now) s);;
            s ← get;
            let '(current_batch, next_batch) := split_batch (accumulated s) in
            modify (set_accumulated next_batch);;
            propose nonce seq view current_batch;;
            ret true
        | None => ret false
        end
      else ret false
  else ret false.

(** *** The loop of the thread *)

Inductive Iteration :=
  | Stopped
  (** waits for the guard, or for a message *)
  | Waiting
  | Iterated (incoming : list Reception).

Definition iteration (nonce : N) (incoming : list Reception) : H Iteration :=
  interfere;;
  s ← get;
  if s.(cancelled) then ret Stopped
  else
    ready ← wait_until_can_propose (S (length s.(others)));
    if negb ready then ret Waiting
    else
      interfere;;
      s ← get;
      let info := Synchronizer.view s.(synchronizer) in
      let is_leader := bool_decide (p.(me) ∈ info.(ViewInfo.leader_set)) in
      (if is_leader then (get_time_until_next_propose ≫= fun _ => ret tt) else ret tt);;
      received ← receive is_leader incoming None;
      match received with
      | None => ret Waiting
      | Some (collected_requests, incoming) =>
          discovered_requests ←
            match collected_requests with
            | Some messages => process_received_messages info messages;; ret true
            | None => ret false
            end;
          propose_ordered nonce is_leader;;
          (if discovered_requests : bool then ret tt else (sleep_for_appropriate_amount_of_time ≫= fun _ => ret tt));;
          ret (Iterated incoming)
      end.
End params.
End proposer.
End Proposer.
