(* ===== verification/ProposerFacts.v ===== *)
(** * Correctness of the proposer

    What it proposes, whatever the other threads do meanwhile; which requests of a SYNC message it leaves
    out; and the ways it gets stuck. *)
From S2P Require Import Prelude Atlas Errors View Messages Network SyncAccessory Consensus ConsensusFacts Sync Proposer.

Module ProposerFacts.
Section facts.
Context {A : Atlas}.
Import Proposer.

Abbreviation handler := (M t Effect Error).
Abbreviation Batch := (list (StoredMessage RQ)).
Abbreviation Seen := (option (gmap NodeId (gmap SeqNo SeqNo))).
Abbreviation guard_can_propose := ProposerConsensusGuard.can_propose.

(** ** The other threads leave the builder alone *)

Lemma apply_op_builder s o : (apply_op s o).(ordered_propose) = s.(ordered_propose).
Proof. by destruct o. Qed.

Lemma apply_ops_builder ops : forall s, (foldl apply_op s ops).(ordered_propose) = s.(ordered_propose).
Proof. induction ops as [|o ops IH]; intros s; cbn; [done|]. by rewrite IH, apply_op_builder. Qed.

Lemma advance_builder s : (advance s).(ordered_propose) = s.(ordered_propose).
Proof. unfold advance. destruct s.(others) as [|i r]; [done|]. cbn. by rewrite apply_ops_builder. Qed.

Lemma advance_accumulated s : accumulated (advance s) = accumulated s.
Proof. unfold accumulated. by rewrite advance_builder. Qed.

Lemma advance_quiet s : s.(others) = [] -> advance s = s.
Proof. intros H. unfold advance. by rewrite H. Qed.

(** The other threads do not look at the builder. *)
Lemma advance_set_builder b s : advance (set_ordered_propose b s) = set_ordered_propose b (advance s).
Proof.
  unfold advance. cbn. destruct (others s) as [|i rest]; [done|]. unfold apply_interference.
  assert (forall ops s, foldl apply_op (set_ordered_propose b s) ops = set_ordered_propose b (foldl apply_op s ops)) as Hops.
  { clear. induction ops as [|o ops IH]; intros s; [done|]. cbn [foldl]. rewrite <- IH. f_equal. by destruct o. }
  change (set_others rest (set_ordered_propose b s)) with (set_ordered_propose b (set_others rest s)). by rewrite Hops.
Qed.

Lemma run_interfere {X} (k : unit -> handler X) s : (interfere ≫= k) s = k tt (advance s).
Proof. unfold interfere. by run. Qed.

Lemma run_elapsed {X} (k : N -> handler X) s : (elapsed ≫= k) s = k (since_last (advance s)) (advance s).
Proof. apply bind_Ok_nil. unfold elapsed. rewrite run_interfere. by run. Qed.

Lemma run_can_propose {X} (k : bool -> handler X) s :
  (can_propose ≫= k) s = k (advance s).(consensus_guard).(guard_can_propose) (advance s).
Proof. apply bind_Ok_nil. unfold can_propose. rewrite run_interfere. by run. Qed.

Lemma run_next_seq_no {X} (k : option (SeqNo * ViewInfo.t) -> handler X) s :
  (next_seq_no ≫= k) s =
  k (ProposerConsensusGuard.next_seq_no (advance s).(consensus_guard)).1
    (set_guard (ProposerConsensusGuard.next_seq_no (advance s).(consensus_guard)).2 (advance s)).
Proof.
  apply bind_Ok_nil. unfold next_seq_no. rewrite run_interfere. run.
  destruct (ProposerConsensusGuard.next_seq_no _) as [r g]. by run.
Qed.

(** ** What is proposed *)

Lemma retain_sublist batch : forall seen, (retain batch seen).1 `sublist_of` batch.
Proof.
  induction batch as [|m batch IH]; intros seen; cbn; [done|].
  destruct (check_if_has_been_proposed m seen) as [pr seen1].
  specialize (IH seen1). destruct (retain batch seen1) as [kept seen2]. cbn in *.
  destruct pr; by constructor.
Qed.

Lemma split_batch_spec p all taken kept :
  split_batch p all = (taken, kept) ->
  all = kept ++ taken /\ length taken = min (length all) p.(max_batch_size).
Proof.
  unfold split_batch. destruct (decide _) as [Hlt|Hge]; intros [= <- <-].
  - rewrite take_drop, length_drop. split; [done|lia].
  - cbn. split; [done|lia].
Qed.

(** What the proposer reads of the requests of the last SYNC message. *)
Definition sync_notes (s : t) : Seen :=
  if (advance s).(consensus_guard).(ProposerConsensusGuard.has_pending_view_change_reqs)
  then (advance (advance s)).(consensus_guard).(ProposerConsensusGuard.last_view_change) else None.

(** What retaining the new requests does: a sublist of the batch is kept, nothing is sent, the builder is not touched. *)
Lemma retain_new_run batch s :
  exists e s1, retain_new batch s = mkRun (Ok ((retain batch (sync_notes s)).1, e)) s1 [] /\
    s1.(ordered_propose) = s.(ordered_propose).
Proof.
  unfold retain_new, sync_notes. rewrite run_interfere. run.
  destruct (ProposerConsensusGuard.has_pending_view_change_reqs _).
  - rewrite run_interfere. run.
    destruct (retain batch _) as [kept seen]. run. eexists _, _. split; [done|]. cbn. by rewrite !advance_builder.
  - exists false, (advance s).
    assert (forall l, (retain l None).1 = l) as Hn.
    { clear. induction l as [|x l IH]; cbn; [done|]. destruct (retain l None) as [k sn]. cbn in *. by subst. }
    by rewrite Hn, advance_builder.
Qed.

Lemma propose_run nonce seq view batch s :
  exists s1, propose nonce seq view batch s =
    mkRun (Ok tt) s1 [BroadcastSigned (Messages.Consensus (mkConsensusMessage seq (ViewInfo.sequence_number view) nonce
                                         (PrePrepare (retain batch (sync_notes s)).1))) view.(ViewInfo.quorum_members)] /\
    s1.(ordered_propose) = s.(ordered_propose).
Proof.
  destruct (retain_new_run batch s) as (e & s1 & Hr & Hb). unfold propose. rewrite (bind_Ok_nil _ _ _ _ _ Hr). destruct e.
  - assert ((interfere;; modify (on_guard ProposerConsensusGuard.sync_messages_clear) : handler unit) s1 =
            mkRun (Ok tt) (on_guard ProposerConsensusGuard.sync_messages_clear (advance s1)) []) as Hc
      by (by rewrite run_interfere).
    rewrite (bind_Ok_nil _ _ _ _ _ Hc). eexists. split; [done|]. cbn. by rewrite advance_builder.
  - run. eauto.
Qed.

(** The tail of [propose_ordered] once a number is taken. *)
Lemma propose_taken p nonce seq view s :
  let s4 := advance s in
  exists s1 kept taken,
    (interfere;;
     modify (fun s => set_last_proposal s.(now) s);;
     s ← get;
     let '(current_batch, next_batch) := split_batch p (accumulated s) in
     modify (set_accumulated next_batch);;
     propose nonce seq view current_batch;;
     ret true : handler bool) s =
    mkRun (Ok true) s1 [BroadcastSigned (Messages.Consensus (mkConsensusMessage seq (ViewInfo.sequence_number view) nonce
                              (PrePrepare (retain taken (sync_notes s4)).1))) view.(ViewInfo.quorum_members)] /\
    accumulated s = kept ++ taken /\ s1.(ordered_propose) = mkBuilder kept s4.(now) /\
    length taken = min (length (accumulated s)) p.(max_batch_size).
Proof.
  intros s4. rewrite run_interfere. run. fold s4.
  assert (accumulated (set_last_proposal (now s4) s4) = accumulated s) as Hacc.
  { unfold accumulated, s4. cbn. by rewrite advance_builder. }
  rewrite Hacc. destruct (split_batch p (accumulated s)) as [taken kept] eqn:Hsp.
  apply split_batch_spec in Hsp as [Hall Hlen]. run.
  set (s5 := set_accumulated kept (set_last_proposal (now s4) s4)).
  assert (sync_notes s5 = sync_notes s4) as Hn.
  { change s5 with (set_ordered_propose (mkBuilder kept (now s4)) s4). unfold sync_notes. by rewrite !advance_set_builder. }
  destruct (propose_run nonce seq view taken s5) as (s1 & Hp & Hb). rewrite (bind_Ok _ _ _ _ _ _ Hp), <- Hn.
  exists s1, kept, taken. by rewrite Hb.
Qed.

Lemma next_seq_no_some g :
  is_Some (ProposerConsensusGuard.next_seq_no g).1 <-> g.(ProposerConsensusGuard.seq_no_queue).1 <> [].
Proof.
  unfold ProposerConsensusGuard.next_seq_no. pose proof (ConsensusFacts.heap_pop_spec g.(ProposerConsensusGuard.seq_no_queue).1) as Hp.
  destruct (heap_pop _) as [[n h]|]; cbn.
  - split; [|eauto]. intros _ E. rewrite E in Hp. by apply Permutation_nil_cons in Hp.
  - rewrite Hp. split; [intros [? ?]|]; done.
Qed.

(** A batch is due when it is large enough or the time limit has passed. *)
Definition due (p : ProposerParams) (s : t) : Prop :=
  p.(target_global_batch_size) <= length (accumulated s) \/ (p.(global_batch_time_limit) < since_last s)%N.

Lemma propose_due p nonce s :
  let s1 := if decide (length (accumulated s) < p.(target_global_batch_size)) then advance s else s in
  propose_ordered p nonce true s =
    (allowed ← can_propose;
     if allowed : bool then
       next ← next_seq_no;
       match next with
       | Some (seq, view) =>
           interfere;;
           modify (fun s => set_last_proposal s.(now) s);;
           s ← get;
           let '(current_batch, next_batch) := split_batch p (accumulated s) in
           modify (set_accumulated next_batch);;
           propose nonce seq view current_batch;;
           ret true
       | None => ret false
       end
     else ret false) s1 /\ due p s1 \/
  propose_ordered p nonce true s = mkRun (Ok false) s1 [] /\ ~ due p s1.
Proof.
  unfold propose_ordered. run. destruct (decide _) as [Hlt|Hge]; cbn zeta.
  - assert ((micros ← elapsed; ret (micros <=? p.(global_batch_time_limit))%N : handler bool) s =
            mkRun (Ok (since_last (advance s) <=? p.(global_batch_time_limit))%N) (advance s) []) as He
      by (by rewrite run_elapsed).
    rewrite (bind_Ok_nil _ _ _ _ _ He). unfold due. rewrite advance_accumulated.
    destruct (N.leb_spec (since_last (advance s)) (global_batch_time_limit p)) as [Hle|Hgt].
    + right. split; [done|]. intros [?|?]; lia.
    + left. split; [done|by right].
  - left. run. split; [done|]. left. lia.
Qed.

(** *** The three times the shared state is read before a number is taken

    The clock (only if the batch is small), the flag of the guard, its queue. *)
Definition clock_read (p : ProposerParams) (s : t) : t :=
  if decide (length (accumulated s) < p.(target_global_batch_size)) then advance s else s.
Definition flag_read (p : ProposerParams) (s : t) : t := advance (clock_read p s).
Definition queue_read (p : ProposerParams) (s : t) : t := advance (flag_read p s).

Definition may_propose (p : ProposerParams) (s : t) : Prop :=
  due p (clock_read p s) /\ (flag_read p s).(consensus_guard).(guard_can_propose) = true /\
  (queue_read p s).(consensus_guard).(ProposerConsensusGuard.seq_no_queue).1 <> [].

(** What [propose_ordered] did if it proposed: number and view are the next ones of the queue it read, the requests are the newest
    ones, less those that the notes of the SYNC message, as they are after the batch was cut, say are proposed already. *)
Definition proposed_one (p : ProposerParams) (nonce : N) (s s' : t) (eff : list Effect) : Prop :=
  exists kept taken seq view g,
    accumulated s = kept ++ taken /\ length taken = min (length (accumulated s)) p.(max_batch_size) /\
    ProposerConsensusGuard.next_seq_no (queue_read p s).(consensus_guard) = (Some (seq, view), g) /\
    let s4 := advance (set_guard g (queue_read p s)) in
    s'.(ordered_propose) = mkBuilder kept s4.(now) /\
    eff = [BroadcastSigned (Messages.Consensus (mkConsensusMessage seq (ViewInfo.sequence_number view) nonce
                              (PrePrepare (retain taken (sync_notes s4)).1))) view.(ViewInfo.quorum_members)].

Lemma propose_ordered_run p nonce s :
  exists b s' eff, propose_ordered p nonce true s = mkRun (Ok b) s' eff /\ (b = true <-> may_propose p s) /\
    (if b then proposed_one p nonce s s' eff else s'.(ordered_propose) = s.(ordered_propose) /\ eff = []).
Proof.
  assert ((clock_read p s).(ordered_propose) = s.(ordered_propose)) as Hb1.
  { unfold clock_read. destruct (decide _); [apply advance_builder|done]. }
  unfold may_propose. destruct (propose_due p nonce s) as [(-> & Hdue)|(-> & Hdue)]; fold (clock_read p s) in *.
  2: { eexists false, _, _. split; [done|]. split; [|done]. split; [done|tauto]. }
  rewrite run_can_propose. fold (flag_read p s). destruct (guard_can_propose _) eqn:Hc.
  2: { eexists false, _, _. split; [done|]. split; [split; [done|by intros (_ & ? & _)]|].
       unfold flag_read. by rewrite advance_builder. }
  rewrite run_next_seq_no. fold (queue_read p s). pose proof (next_seq_no_some (queue_read p s).(consensus_guard)) as Hsome.
  assert ((queue_read p s).(ordered_propose) = s.(ordered_propose)) as Hb3 by (unfold queue_read, flag_read; by rewrite !advance_builder).
  destruct (ProposerConsensusGuard.next_seq_no _) as [[[seq view]|] g] eqn:Hn; cbn [fst snd] in *.
  - destruct (propose_taken p nonce seq view (set_guard g (queue_read p s))) as (s2 & kept & taken & Hr & Hall & Hk & Hl).
    rewrite Hr. eexists true, _, _. split; [done|]. split; [split; [|done]; intros _; split_and!; [done..|apply Hsome; eauto]|].
    assert (accumulated (set_guard g (queue_read p s)) = accumulated s) as Ha by (unfold accumulated; cbn; by rewrite Hb3).
    rewrite Ha in *. by exists kept, taken, seq, view, g.
  - eexists false, _, _. split; [done|]. split; [split; [done|]|done]. intros (_ & _ & Hne). apply Hsome in Hne as [? ?]. done.
Qed.

(** ** Requests of the SYNC message *)

Definition noted (seen : Seen) (c n : N) : option SeqNo := m ← seen; sessions ← m !! c; sessions !! n.
Definition key_of (x : StoredMessage RQ) : N * N := (hdr_from x.(header), rq_session_number x.(message)).
Definition same_session (x : StoredMessage RQ) (r : ClientRqInfo) : Prop := key_of x = (r.(rq_sender), r.(rq_session)).
Abbreviation seq_of x := (rq_sequence_number x.(message)).

Lemma check_spec x seen :
  let '(b, seen') := check_if_has_been_proposed x seen in
  (b = true <-> exists q, noted seen (key_of x).1 (key_of x).2 = Some q /\ sn_gtb (seq_of x) q = false) /\
  (b = true -> seen' = seen) /\
  forall c n, noted seen' c n = if decide (b = false /\ (c, n) = key_of x) then None else noted seen c n.
Proof.
  unfold check_if_has_been_proposed, noted, key_of. destruct seen as [m|]; cbn.
  2: { split_and!; [split; [done|by intros (? & ? & _)]|done|]. intros. by destruct (decide _). }
  destruct (m !! hdr_from x.(header)) as [sm|] eqn:Hm; cbn.
  2: { split_and!; [split; [done|by intros (? & ? & _)]|done|]. intros c n. destruct (decide _) as [[_ [= -> ->]]|]; [|done]. by rewrite Hm. }
  destruct (sm !! rq_session_number x.(message)) as [q|] eqn:Hq; cbn.
  2: { split_and!; [split; [done|by intros (? & ? & _)]|done|]. intros c n. destruct (decide _) as [[_ [= -> ->]]|]; [|done]. by rewrite Hm. }
  destruct (sn_gtb (seq_of x) q) eqn:Hgt; cbn.
  - split_and!; [split; [done|intros (? & [= <-] & ?); congruence]|done|]. intros c n.
    destruct (decide (c = hdr_from x.(header))) as [->|Hc].
    + rewrite Hm. cbn. destruct (decide (n = rq_session_number x.(message))) as [->|Hn].
      * destruct (decide (_ /\ _)) as [_|[]]; [|done]. destruct (decide (delete _ _ = ∅)).
        -- by rewrite lookup_delete_eq.
        -- rewrite lookup_insert_eq. cbn. apply lookup_delete_eq.
      * destruct (decide (_ /\ _)) as [[_ [= ?]]|_]; [done|]. destruct (decide (delete _ _ = ∅)) as [He|He].
        -- rewrite lookup_delete_eq. cbn. rewrite <- (lookup_delete_ne sm (rq_session_number x.(message)) n) by done.
           by rewrite He, lookup_empty.
        -- rewrite lookup_insert_eq. cbn. by apply lookup_delete_ne.
    + destruct (decide (_ /\ _)) as [[_ [= ? ?]]|_]; [done|]. destruct (decide (delete _ _ = ∅));
        [rewrite lookup_delete_ne by done|rewrite lookup_insert_ne by done]; done.
  - split_and!; [split; [eauto|done]|done|]. intros c n. by destruct (decide _) as [[? _]|].
Qed.

(** Only what is noted matters. *)
Lemma retain_noted batch : forall seen seen',
  (forall c n, noted seen c n = noted seen' c n) ->
  (retain batch seen).1 = (retain batch seen').1 /\
  forall c n, noted (retain batch seen).2 c n = noted (retain batch seen').2 c n.
Proof.
  induction batch as [|x batch IH]; intros seen seen' Heq; cbn; [done|].
  pose proof (check_spec x seen) as H1. pose proof (check_spec x seen') as H2.
  destruct (check_if_has_been_proposed x seen) as [b1 k1]. destruct (check_if_has_been_proposed x seen') as [b2 k2].
  destruct H1 as (Hb1 & _ & Hk1), H2 as (Hb2 & _ & Hk2).
  assert (b1 = b2) as ->.
  { apply eq_iff_eq_true. rewrite Hb1, Hb2. by rewrite Heq. }
  destruct (IH k1 k2) as [Hk Hn].
  { intros c n. by rewrite Hk1, Hk2, Heq. }
  destruct (retain batch k1) as [r1 n1], (retain batch k2) as [r2 n2]. cbn in *. by rewrite Hk.
Qed.

Lemma retain_app l k : forall seen,
  retain (l ++ k) seen = ((retain l seen).1 ++ (retain k (retain l seen).2).1, (retain k (retain l seen).2).2).
Proof.
  induction l as [|x l IH]; intros seen; cbn; [apply surjective_pairing|].
  destruct (check_if_has_been_proposed x seen) as [b seen1]. rewrite (IH seen1).
  destruct (retain l seen1) as [r2 n2]. cbn. by destruct b.
Qed.

(** What [install_sync_message_requests] notes. *)
Definition at_most (r : ClientRqInfo) (q : SeqNo) : Prop := sn_gtb r.(rq_seq_no) q = false.

Lemma noted_note_request m r c n :
  noted (Some (ProposerConsensusGuard.note_request m r)) c n =
  if decide ((c, n) = (r.(rq_sender), r.(rq_session)))
  then Some (match noted (Some m) c n with
             | Some q => if sn_ltb q r.(rq_seq_no) then r.(rq_seq_no) else q
             | None => if sn_ltb r.(rq_seq_no) r.(rq_seq_no) then r.(rq_seq_no) else r.(rq_seq_no)
             end)
  else noted (Some m) c n.
Proof.
  unfold noted, ProposerConsensusGuard.note_request. cbn.
  destruct (decide (c = rq_sender r)) as [->|Hc].
  - rewrite lookup_insert_eq. cbn. destruct (decide (n = rq_session r)) as [->|Hn].
    + rewrite lookup_insert_eq. destruct (decide _) as [_|[]]; [|done]. f_equal.
      destruct (m !! rq_sender r) as [sm|]; cbn; [by destruct (sm !! rq_session r)|by rewrite lookup_empty].
    + rewrite lookup_insert_ne by done. destruct (decide _) as [[= ?]|_]; [done|].
      destruct (m !! rq_sender r) as [sm|]; cbn; [done|apply lookup_empty].
  - rewrite lookup_insert_ne by done. by destruct (decide _) as [[= ? ?]|_].
Qed.

Section ordered.
Context {L : AtlasLaws} (base : N -> N -> SeqNo).

(** The numbers of a session are close enough to be ordered. *)
Definition comparable (r : ClientRqInfo) : Prop := near (base r.(rq_sender) r.(rq_session)) r.(rq_seq_no).

Lemma gtb_plus b i j : i <= sn_window -> j <= sn_window -> sn_gtb (sn_plus i b) (sn_plus j b) = bool_decide (j < i).
Proof.
  intros Hi Hj. unfold sn_gtb. rewrite near_cmp by done.
  destruct (Nat.compare_spec i j); symmetry; [apply bool_decide_eq_false|apply bool_decide_eq_false|apply bool_decide_eq_true]; lia.
Qed.

Lemma ltb_plus b i j : i <= sn_window -> j <= sn_window -> sn_ltb (sn_plus i b) (sn_plus j b) = bool_decide (i < j).
Proof.
  intros Hi Hj. unfold sn_ltb. rewrite near_cmp by done.
  destruct (Nat.compare_spec i j); symmetry; [apply bool_decide_eq_false|apply bool_decide_eq_true|apply bool_decide_eq_false]; lia.
Qed.

Lemma gtb_trans b x y z : near b x -> near b y -> near b z ->
  sn_gtb x z = true -> sn_gtb x y = false -> sn_gtb y z = true.
Proof.
  intros (i & Hi & ->) (j & Hj & ->) (k & Hk & ->). rewrite !gtb_plus by done.
  rewrite !bool_decide_eq_true, bool_decide_eq_false. lia.
Qed.

Lemma gtb_false_trans b x y z : near b x -> near b y -> near b z ->
  sn_gtb x y = false -> sn_gtb y z = false -> sn_gtb x z = false.
Proof.
  intros (i & Hi & ->) (j & Hj & ->) (k & Hk & ->). rewrite !gtb_plus by done. rewrite !bool_decide_eq_false. lia.
Qed.

Definition later (q s : SeqNo) : SeqNo := if sn_ltb q s then s else q.

Lemma later_spec b x y : near b x -> near b y ->
  (later x y = x \/ later x y = y) /\ sn_gtb x (later x y) = false /\ sn_gtb y (later x y) = false.
Proof.
  intros (i & Hi & ->) (j & Hj & ->). unfold later. rewrite ltb_plus by done.
  case_bool_decide; rewrite !gtb_plus, !bool_decide_eq_false by done; split_and!; auto; lia.
Qed.

(** The number noted for a session. *)
Definition is_note (rqs : list ClientRqInfo) (c n : N) (o : option SeqNo) : Prop :=
  match o with
  | Some q => (exists r, r ∈ rqs /\ (r.(rq_sender), r.(rq_session)) = (c, n) /\ q = r.(rq_seq_no)) /\
              forall r, r ∈ rqs -> (r.(rq_sender), r.(rq_session)) = (c, n) -> at_most r q
  | None => forall r, r ∈ rqs -> (r.(rq_sender), r.(rq_session)) <> (c, n)
  end.

Lemma comparable_near r c n : comparable r -> (r.(rq_sender), r.(rq_session)) = (c, n) -> near (base c n) r.(rq_seq_no).
Proof. unfold comparable. by intros ? [= <- <-]. Qed.

Lemma is_note_near rqs c n q : Forall comparable rqs -> is_note rqs c n (Some q) -> near (base c n) q.
Proof. intros Hall [(r & Hr & Hk & ->) _]. apply comparable_near; [|done]. by eapply Forall_forall in Hall. Qed.

Lemma is_note_snoc rqs r c n o :
  Forall comparable (rqs ++ [r]) -> (r.(rq_sender), r.(rq_session)) = (c, n) -> is_note rqs c n o ->
  is_note (rqs ++ [r]) c n (Some (match o with Some q => later q r.(rq_seq_no) | None => r.(rq_seq_no) end)).
Proof.
  intros [Hall Hr]%Forall_app Hk Ho. rewrite Forall_singleton in Hr. pose proof (comparable_near _ _ _ Hr Hk) as Hn.
  destruct o as [q|].
  - pose proof (is_note_near _ _ _ _ Hall Ho) as Hq. destruct Ho as [(r0 & Hr0 & Hk0 & E) Hmax].
    destruct (later_spec _ _ _ Hq Hn) as (Hl & Hlq & Hlr).
    assert (near (base c n) (later q (rq_seq_no r))) as Hnl by (by destruct Hl as [-> | ->]).
    split.
    + destruct Hl as [-> | ->]; [exists r0|exists r]; (split; [apply elem_of_app|done]); [by left|right; by apply list_elem_of_singleton].
    + intros r1 [Hr1|Hr1]%elem_of_app Hk1; unfold at_most; [|apply list_elem_of_singleton in Hr1; by subst].
      apply (gtb_false_trans (base c n) _ q); [|done..|by apply Hmax|done].
      apply comparable_near; [|done]. by eapply Forall_forall in Hall.
  - split; [exists r; split; [apply elem_of_app; right; by apply list_elem_of_singleton|done]|]. intros r1 [Hr1|Hr1]%elem_of_app Hk1; [by destruct (Ho _ Hr1)|].
    apply list_elem_of_singleton in Hr1 as ->. unfold at_most. destruct Hn as (i & Hi & ->).
    rewrite gtb_plus by done. apply bool_decide_eq_false. lia.
Qed.

(** The largest number of each session is noted. *)
Lemma noted_installed rqs g c n :
  Forall comparable rqs ->
  is_note rqs c n (noted (ProposerConsensusGuard.install_sync_message_requests rqs g).(ProposerConsensusGuard.last_view_change) c n).
Proof.
  intros Hall. cbn -[noted]. induction rqs as [|r rqs IH] using rev_ind.
  { cbn. rewrite lookup_empty. cbn. by intros ? ?%elem_of_nil. }
  assert (Forall comparable rqs) as Hall0 by (by apply Forall_app in Hall as [? _]). specialize (IH Hall0).
  rewrite foldl_snoc, noted_note_request. destruct (decide _) as [Hk|Hk].
  - pose proof (is_note_snoc _ r _ _ _ Hall (eq_sym Hk) IH) as H. unfold later in H.
    destruct (noted _ c n); [done|]. by destruct (sn_ltb _ _).
  - unfold is_note in *. destruct (noted _ c n) as [q|].
    + destruct IH as [(r0 & Hr0 & ?) Hmax]. split; [exists r0; split; [apply elem_of_app; by left|done]|].
      intros r1 [Hr1|Hr1]%elem_of_app Hk1; [by apply Hmax|]. apply list_elem_of_singleton in Hr1 as ->. by destruct Hk.
    + intros r1 [Hr1|Hr1]%elem_of_app; [by apply IH|]. apply list_elem_of_singleton in Hr1 as ->. congruence.
Qed.

(** Requests of one session arrive in the order of their numbers. *)
Definition ascending : Batch -> Prop :=
  StronglySorted (fun x y => key_of x = key_of y -> sn_gtb (seq_of x) (seq_of y) = false).

(** Every note is still there, or the rest of the batch is past it. *)
Definition notes_left (seen0 seen : Seen) (batch : Batch) : Prop := forall c n,
  noted seen c n = noted seen0 c n \/
  noted seen c n = None /\
  forall x q, x ∈ batch -> key_of x = (c, n) -> noted seen0 c n = Some q -> sn_gtb (seq_of x) q = true.

Lemma retain_correct seen0 batch : forall seen,
  (forall c n q, noted seen0 c n = Some q -> near (base c n) q) ->
  Forall (fun x => comparable (rq_info x)) batch -> ascending batch -> notes_left seen0 seen batch ->
  (forall x q, x ∈ (retain batch seen).1 -> noted seen0 (key_of x).1 (key_of x).2 = Some q -> sn_gtb (seq_of x) q = true) /\
  (forall x, x ∈ batch -> x ∉ (retain batch seen).1 ->
     exists q, noted seen0 (key_of x).1 (key_of x).2 = Some q /\ sn_gtb (seq_of x) q = false).
Proof.
  induction batch as [|x batch IH]; intros seen Hnear Hc Hs Hl; cbn.
  { split; [by intros ? ? ?%elem_of_nil|by intros ? ?%elem_of_nil]. }
  apply Forall_cons in Hc as [Hx Hc]. apply StronglySorted_cons in Hs as [Hxs Hs].
  pose proof (check_spec x seen) as Hk. destruct (check_if_has_been_proposed x seen) as [b seen1]. destruct Hk as (Hb & Hsame & Hk).
  assert (notes_left seen0 seen1 batch) as Hl1.
  { intros c n. rewrite Hk. destruct (Hl c n) as [E|(E & Hpast)]; destruct (decide _) as [[-> Hck]|Hnd].
    - right. split; [done|]. intros y q Hy Hyk Hq. rewrite Forall_forall in Hxs, Hc. specialize (Hxs y Hy). rewrite <- Hck in Hxs.
      apply (gtb_trans (base c n) (seq_of x)); [| |by eapply Hnear| |by apply Hxs].
      + unfold comparable in Hx. cbn in Hx. unfold key_of in Hck. by injection Hck as -> ->.
      + specialize (Hc y Hy). unfold comparable in Hc. cbn in Hc. unfold key_of in Hyk. by injection Hyk as <- <-.
      + destruct (sn_gtb (seq_of x) q) eqn:Hg; [done|]. assert (false = true) as [=]. apply Hb. rewrite <- Hck. cbn. rewrite E. eauto.
    - by left.
    - right. split; [done|]. intros y q Hy. apply Hpast. by right.
    - right. split; [done|]. intros y q Hy. apply Hpast. by right. }
  destruct (IH seen1 Hnear Hc Hs Hl1) as [H1 H2]. destruct (retain batch seen1) as [kept seen2]. cbn [fst snd] in *. destruct b.
  - split; [done|]. intros y [->|Hy]%elem_of_cons Hny; [|by apply H2]. destruct (proj1 Hb eq_refl) as (q & Hq & Hg).
    exists q. split; [|done]. change (noted seen0 (key_of x).1 (key_of x).2 = Some q).
    destruct (Hl (key_of x).1 (key_of x).2) as [E|(E & _)]; congruence.
  - split.
    + intros y q [->|Hy]%elem_of_cons Hq; [|by eapply H1]. destruct (Hl (key_of x).1 (key_of x).2) as [E|(E & Hpast)].
      * destruct (sn_gtb (seq_of x) q) eqn:Hg; [done|]. assert (false = true) as [=]. apply Hb. rewrite E. eauto.
      * eapply Hpast; [by left|by destruct (key_of x)|done].
    + intros y [->|Hy]%elem_of_cons Hny; [by destruct Hny; left|]. apply H2; [done|]. contradict Hny. by right.
Qed.

(** The requests that were broadcast. *)
Definition proposed (eff : list Effect) : Batch :=
  eff ≫= fun e =>
    match e with
    | BroadcastSigned (Messages.Consensus c) _ => match c.(cm_kind) with PrePrepare b => b | _ => [] end
    | _ => []
    end.

(** The notes the next proposal looks at. *)
Definition effective (g : ProposerConsensusGuard.t) : Seen :=
  if g.(ProposerConsensusGuard.has_pending_view_change_reqs) then g.(ProposerConsensusGuard.last_view_change) else None.

Lemma retain_none l : retain l None = (l, None).
Proof. induction l as [|x l IH]; cbn; [done|]. by rewrite IH. Qed.

Lemma propose_quiet nonce seq view batch s :
  s.(others) = [] ->
  exists s1 m, propose nonce seq view batch s = mkRun (Ok tt) s1 [m] /\ s1.(others) = [] /\
    proposed [m] = (retain batch (effective s.(consensus_guard))).1 /\
    (forall c n, noted (effective s1.(consensus_guard)) c n = noted (retain batch (effective s.(consensus_guard))).2 c n) /\
    s1.(ordered_propose) = s.(ordered_propose) /\
    s1.(consensus_guard).(guard_can_propose) = s.(consensus_guard).(guard_can_propose) /\
    s1.(consensus_guard).(ProposerConsensusGuard.seq_no_queue) = s.(consensus_guard).(ProposerConsensusGuard.seq_no_queue).
Proof.
  intros Hq. unfold effective. destruct (ProposerConsensusGuard.has_pending_view_change_reqs (consensus_guard s)) eqn:Hp.
  - destruct (retain batch _) as [kept seen] eqn:Hr.
    set (e := match seen with Some seen => bool_decide (seen = ∅) | None => false end).
    assert (retain_new batch s = mkRun (Ok (kept, e)) (on_guard (set_last_view_change seen) s) []) as Hn.
    { unfold retain_new. rewrite run_interfere, (advance_quiet s Hq). run. rewrite Hp.
      rewrite run_interfere, (advance_quiet s Hq). run. by rewrite Hr. }
    unfold propose. rewrite (bind_Ok_nil _ _ _ _ _ Hn). destruct e eqn:He.
    + assert ((interfere;; modify (on_guard ProposerConsensusGuard.sync_messages_clear) : handler unit) (on_guard (set_last_view_change seen) s) =
              mkRun (Ok tt) (on_guard ProposerConsensusGuard.sync_messages_clear (on_guard (set_last_view_change seen) s)) []) as Hc
        by (by rewrite run_interfere, advance_quiet).
      rewrite (bind_Ok_nil _ _ _ _ _ Hc). eexists _, _. split; [done|]. cbn. rewrite app_nil_r. split_and!; try done.
      intros c n. subst e. destruct seen as [m|]; [|done]. apply bool_decide_eq_true in He as ->. unfold noted. cbn. by rewrite lookup_empty.
    + run. eexists _, _. split; [done|]. cbn. rewrite app_nil_r, Hp. done.
  - rewrite retain_none. assert (retain_new batch s = mkRun (Ok (batch, false)) s []) as Hn.
    { unfold retain_new. rewrite run_interfere, (advance_quiet s Hq). run. by rewrite Hp. }
    unfold propose. rewrite (bind_Ok_nil _ _ _ _ _ Hn). run. eexists _, _. split; [done|]. cbn. rewrite app_nil_r, Hp. done.
Qed.

(** *** The leader's turns

    Between two proposals the other threads may do anything but install the requests of another SYNC message. *)
Definition no_new_sync (s : t) : Prop :=
  Forall (fun i => Forall (fun o => match o with InstallSyncMessageRequests _ => False | _ => True end) i.(i_ops)) s.(others).

Abbreviation pending g := (ProposerConsensusGuard.has_pending_view_change_reqs g).
Abbreviation notes g := (ProposerConsensusGuard.last_view_change g).

Lemma advance_no_sync s : no_new_sync s ->
  no_new_sync (advance s) /\ pending (advance s).(consensus_guard) = pending s.(consensus_guard) /\
  notes (advance s).(consensus_guard) = notes s.(consensus_guard).
Proof.
  unfold no_new_sync, advance. destruct (others s) as [|i rest] eqn:Ho; [by rewrite Ho|]. intros [Hi Hrest]%Forall_cons.
  assert (forall ops s, Forall (fun o => match o with InstallSyncMessageRequests _ => False | _ => True end) ops ->
    let s' := foldl apply_op s ops in
    s'.(others) = s.(others) /\ pending s'.(consensus_guard) = pending s.(consensus_guard) /\ notes s'.(consensus_guard) = notes s.(consensus_guard)) as Hops.
  { clear. induction ops as [|o ops IH]; intros s Hf; [done|]. apply Forall_cons in Hf as [Ho Hf]. cbn [foldl].
    destruct (IH (apply_op s o) Hf) as (-> & -> & ->). by destruct o. }
  destruct (Hops i.(i_ops) (set_others rest s) Hi) as (H1 & H2 & H3). unfold apply_interference. cbn. by rewrite H1, H2, H3.
Qed.

Lemma propose_no_sync nonce seq view batch s :
  no_new_sync s ->
  exists s1 m, propose nonce seq view batch s = mkRun (Ok tt) s1 [m] /\ no_new_sync s1 /\
    proposed [m] = (retain batch (effective s.(consensus_guard))).1 /\
    (forall c n, noted (effective s1.(consensus_guard)) c n = noted (retain batch (effective s.(consensus_guard))).2 c n) /\
    s1.(ordered_propose) = s.(ordered_propose).
Proof.
  intros Hs. destruct (advance_no_sync s Hs) as (Hs1 & Hp1 & Hn1). destruct (advance_no_sync _ Hs1) as (Hs2 & Hp2 & Hn2).
  unfold effective. destruct (pending (consensus_guard s)) eqn:Hp.
  - destruct (retain batch _) as [kept seen] eqn:Hr.
    set (e := match seen with Some seen => bool_decide (seen = ∅) | None => false end).
    set (s3 := on_guard (set_last_view_change seen) (advance (advance s))).
    assert (retain_new batch s = mkRun (Ok (kept, e)) s3 []) as Hn.
    { unfold retain_new. rewrite run_interfere. run. rewrite Hp1. rewrite run_interfere. run. by rewrite Hn2, Hn1, Hr. }
    assert (no_new_sync s3) as Hs3 by exact Hs2. destruct (advance_no_sync _ Hs3) as (Hs4 & Hp4 & Hn4).
    unfold propose. rewrite (bind_Ok_nil _ _ _ _ _ Hn). destruct e eqn:He.
    + assert ((interfere;; modify (on_guard ProposerConsensusGuard.sync_messages_clear) : handler unit) s3 =
              mkRun (Ok tt) (on_guard ProposerConsensusGuard.sync_messages_clear (advance s3)) []) as Hc by (by rewrite run_interfere).
      rewrite (bind_Ok_nil _ _ _ _ _ Hc). eexists _, _. split; [done|]. cbn. rewrite app_nil_r, advance_builder. cbn.
      rewrite !advance_builder. split_and!; try done.
      intros c n. subst e. destruct seen as [m|]; [|done]. apply bool_decide_eq_true in He as ->. unfold noted. cbn. by rewrite lookup_empty.
    + run. eexists _, _. split; [done|]. cbn. rewrite app_nil_r, Hp2, Hp1, !advance_builder. done.
  - rewrite retain_none. assert (retain_new batch s = mkRun (Ok (batch, false)) (advance s) []) as Hn.
    { unfold retain_new. rewrite run_interfere. run. by rewrite Hp1. }
    unfold propose. rewrite (bind_Ok_nil _ _ _ _ _ Hn). run. eexists _, _. split; [done|]. cbn.
    by rewrite app_nil_r, Hp1, advance_builder.
Qed.
Lemma effective_advance s : no_new_sync s -> effective (advance s).(consensus_guard) = effective s.(consensus_guard).
Proof. intros H. destruct (advance_no_sync s H) as (_ & Hp & Hn). unfold effective. by rewrite Hp, Hn. Qed.

Lemma next_seq_no_effective g : effective (ProposerConsensusGuard.next_seq_no g).2 = effective g.
Proof. unfold ProposerConsensusGuard.next_seq_no. by destruct (heap_pop _) as [[? ?]|]. Qed.

(** Whether it proposed or not, what left the builder has passed the filter, and the notes are those the filter left. *)
Definition filtered (p : ProposerParams) (s : t) (b : bool) (s1 : t) (eff : list Effect) : Prop :=
  let '(taken, kept) := if b then split_batch p (accumulated s) else ([], accumulated s) in
  accumulated s1 = kept /\ proposed eff = (retain taken (effective s.(consensus_guard))).1 /\
  (forall c n, noted (effective s1.(consensus_guard)) c n = noted (retain taken (effective s.(consensus_guard))).2 c n).

Lemma propose_ordered_no_sync p nonce s :
  no_new_sync s ->
  exists b s1 eff, propose_ordered p nonce true s = mkRun (Ok b) s1 eff /\ no_new_sync s1 /\ filtered p s b s1 eff.
Proof.
  intros Hs. assert (forall s1, accumulated s1 = accumulated s -> effective s1.(consensus_guard) = effective s.(consensus_guard) ->
    filtered p s false s1 []) as Hnone.
  { intros s1 H1 H2. unfold filtered. by rewrite H2. }
  pose proof (propose_due p nonce s) as Hdue. cbn zeta in Hdue.
  set (s1 := if decide _ then _ else _) in Hdue.
  assert (no_new_sync s1 /\ accumulated s1 = accumulated s /\ effective s1.(consensus_guard) = effective s.(consensus_guard)) as (H1 & A1 & E1).
  { subst s1. destruct (decide _); [|done]. rewrite advance_accumulated, (effective_advance s Hs). by split; [apply advance_no_sync|]. }
  destruct Hdue as [(-> & _)|(-> & _)]; [|eexists false, _, _; eauto]. rewrite run_can_propose.
  destruct (advance_no_sync s1 H1) as (H2 & _). pose proof (effective_advance s1 H1) as E2.
  destruct (guard_can_propose _).
  2: { eexists false, _, _. split; [done|]. split; [done|]. apply Hnone; [by rewrite advance_accumulated|congruence]. }
  rewrite run_next_seq_no. destruct (advance_no_sync _ H2) as (H3 & _). pose proof (effective_advance _ H2) as E3.
  pose proof (next_seq_no_effective (advance (advance s1)).(consensus_guard)) as E4.
  destruct (ProposerConsensusGuard.next_seq_no _) as [[[seq view]|] g]; cbn [fst snd] in *.
  2: { eexists false, _, _. split; [done|]. split; [exact H3|]. apply Hnone; [|cbn; congruence].
       rewrite <- A1. unfold accumulated. cbn. by rewrite !advance_builder. }
  rewrite run_interfere. run. set (s4 := set_guard g (advance (advance s1))).
  assert (no_new_sync s4) as H4 by exact H3. destruct (advance_no_sync s4 H4) as (H5 & _). pose proof (effective_advance s4 H4) as E5.
  assert (accumulated (set_last_proposal (now (advance s4)) (advance s4)) = accumulated s) as ->.
  { rewrite <- A1. unfold accumulated. cbn. rewrite advance_builder. subst s4. cbn. by rewrite !advance_builder. }
  destruct (split_batch p (accumulated s)) as [taken kept] eqn:Hsp. run.
  destruct (propose_no_sync nonce seq view taken (set_accumulated kept (set_last_proposal (now (advance s4)) (advance s4))) H5)
    as (s6 & m & Hr & H6 & Hm & Hn & Hb).
  rewrite (bind_Ok _ _ _ _ _ _ Hr). eexists true, s6, [m]. split; [done|]. split; [done|]. unfold filtered. rewrite Hsp.
  split; [unfold accumulated; by rewrite Hb|].
  assert (effective (set_accumulated kept (set_last_proposal (now (advance s4)) (advance s4))).(consensus_guard) =
          effective s.(consensus_guard)) as E.
  { change (effective (advance s4).(consensus_guard) = effective s.(consensus_guard)). rewrite E5. subst s4. cbn. congruence. }
  by rewrite E in Hm, Hn.
Qed.

(** What a leader's thread does from the state [s0] on: it takes in requests, it tries to propose, other threads interfere.
    [arrived] are the requests in the builder of [s0] and, in order, those accepted since.  The builder holds no more than
    one batch when it tries to propose. *)
Inductive leads (p : ProposerParams) (s0 : t) : Batch -> list Effect -> t -> Prop :=
  | ld_start : leads p s0 (accumulated s0) [] s0
  | ld_receive arrived eff s info messages accepted s' :
      leads p s0 arrived eff s -> p.(me) ∈ info.(ViewInfo.leader_set) ->
      filter_map_leader messages (length info.(ViewInfo.leader_set)) (info.(ViewInfo.leader_hash_space_division) !! p.(me)) = Ok accepted ->
      process_received_messages p info messages s = mkRun (Ok tt) s' [] -> leads p s0 (arrived ++ accepted) eff s'
  | ld_propose arrived eff s nonce b s' eff' :
      leads p s0 arrived eff s -> length (accumulated s) <= p.(max_batch_size) ->
      propose_ordered p nonce true s = mkRun (Ok b) s' eff' -> leads p s0 arrived (eff ++ eff') s'
  | ld_interfere arrived eff s : leads p s0 arrived eff s -> leads p s0 arrived eff (advance s).

(** Everything that left the builder went through the filter, in the order of arrival. *)
Lemma leads_filtered p s0 arrived eff s :
  no_new_sync s0 -> leads p s0 arrived eff s ->
  let seen0 := effective s0.(consensus_guard) in
  no_new_sync s /\ exists past, arrived = past ++ accumulated s /\ proposed eff = (retain past seen0).1 /\
    (forall c n, noted (effective s.(consensus_guard)) c n = noted (retain past seen0).2 c n).
Proof.
  intros H0 Hl seen0. induction Hl as [|arrived eff s info messages accepted s' _ (Hs & past & -> & He & Hn) Hme Hacc Hrun
    |arrived eff s nonce b s' eff' _ (Hs & past & -> & He & Hn) Hlen Hrun|arrived eff s _ (Hs & past & -> & He & Hn)].
  - split; [done|]. exists []. by split_and!.
  - revert Hrun. unfold process_received_messages. rewrite decide_True by done. rewrite Hacc. run. intros [= <-].
    split; [exact Hs|]. exists past. split; [cbn; by rewrite app_assoc|done].
  - destruct (propose_ordered_no_sync p nonce s Hs) as (b' & s1 & eff1 & Hrun' & Hs' & Hp). rewrite Hrun in Hrun'. injection Hrun' as <- <- <-.
    split; [done|]. destruct b.
    + unfold filtered, split_batch in Hp. rewrite decide_False in Hp by lia. destruct Hp as (Ha & Hp & Hn').
      exists (past ++ accumulated s). rewrite Ha, app_nil_r. split; [done|]. rewrite retain_app.
      destruct (retain_noted (accumulated s) _ _ Hn) as [R1 R2]. unfold proposed in *. rewrite bind_app, He, Hp, R1. split; [done|].
      intros c n. cbn. by rewrite Hn', R2.
    + destruct Hp as (Ha & Hp & Hn'). exists past. unfold filtered. rewrite Ha. split; [done|]. unfold proposed in *. rewrite bind_app, He, Hp.
      split; [by cbn; rewrite app_nil_r|]. intros c n. rewrite Hn'. cbn. apply Hn.
  - split; [by apply advance_no_sync|]. exists past. rewrite advance_accumulated, (effective_advance s Hs). done.
Qed.

(** C31. The requests a SYNC message carried are not proposed again.  After the message is installed the leader's thread takes in
    requests, tries to propose and is interfered with in any order; no other SYNC message is installed.  If the requests of each
    session arrive in the order of their numbers, which lie within the range where they compare, and the builder never holds more than one batch when a proposal is tried (an
    overfull builder is cut newest first, see [split_repeats_request]), then every request broadcast has a number above all those the
    SYNC message has for its session, and every request that was accepted waits in the builder, was broadcast, or has a number that
    does not exceed one of the SYNC message for its session. *)
Theorem sync_requests_not_repeated p s0 rqs g arrived eff s :
  no_new_sync s0 -> s0.(consensus_guard) = ProposerConsensusGuard.install_sync_message_requests rqs g ->
  Forall comparable rqs -> Forall (fun x => comparable (rq_info x)) arrived -> ascending arrived ->
  leads p s0 arrived eff s ->
  (forall x r, x ∈ proposed eff -> r ∈ rqs -> same_session x r -> sn_gtb (seq_of x) r.(rq_seq_no) = true) /\
  (forall x, x ∈ arrived -> x ∉ accumulated s -> x ∉ proposed eff ->
     exists r, r ∈ rqs /\ same_session x r /\ sn_gtb (seq_of x) r.(rq_seq_no) = false).
Proof.
  intros H0 Hg Hrqs Hall Hasc Hl. destruct (leads_filtered p s0 arrived eff s H0 Hl) as (_ & past & -> & He & _).
  apply Forall_app in Hall as [Hb _]. apply StronglySorted_app_1_l in Hasc.
  rewrite He, Hg. unfold effective. cbn [ProposerConsensusGuard.install_sync_message_requests ProposerConsensusGuard.has_pending_view_change_reqs].
  pose proof (fun c n => noted_installed rqs g c n Hrqs) as Hnote.
  set (seen := ProposerConsensusGuard.last_view_change _) in *.
  destruct (retain_correct seen past seen) as [H1 H2]; [|done..|by left|].
  { intros c n q Hn. specialize (Hnote c n). rewrite Hn in Hnote. by eapply is_note_near. }
  split.
  - intros x r Hx Hin Hs. specialize (Hnote (key_of x).1 (key_of x).2). unfold same_session in Hs.
    destruct (noted seen (key_of x).1 (key_of x).2) as [q|] eqn:Hn.
    + pose proof (is_note_near _ _ _ _ Hrqs Hnote) as Hq'. destruct Hnote as [_ Hmax].
      assert (comparable (rq_info x)) as Hcx.
      { eapply Forall_forall in Hb; [done|]. eapply elem_of_sublist; [done|apply retain_sublist]. }
      specialize (H1 x q Hx Hn). specialize (Hmax r Hin). rewrite <- surjective_pairing in Hmax. specialize (Hmax (eq_sym Hs)).
      assert (near (base (key_of x).1 (key_of x).2) (rq_seq_no r)) as Hnr.
      { apply comparable_near; [by eapply Forall_forall in Hrqs|]. by rewrite <- surjective_pairing. }
      destruct (sn_gtb (seq_of x) (rq_seq_no r)) eqn:Hc; [done|].
      enough (sn_gtb (seq_of x) q = false) by congruence.
      by apply (gtb_false_trans (base (key_of x).1 (key_of x).2) _ (rq_seq_no r)).
    + destruct (Hnote r Hin). by rewrite <- surjective_pairing.
  - intros x [Hx|?]%elem_of_app Hna Hnx; [|done]. destruct (H2 x Hx Hnx) as (q & Hn & Hgt). specialize (Hnote (key_of x).1 (key_of x).2).
    rewrite Hn in Hnote. destruct Hnote as [(r & Hr' & Hk & ->) _]. exists r. split_and!; [done| |done].
    unfold same_session. by rewrite Hk, <- surjective_pairing.
Qed.
End ordered.

Lemma propose_ordered_quiet p nonce s seq view g :
  s.(others) = [] -> due p s -> s.(consensus_guard).(guard_can_propose) = true ->
  ProposerConsensusGuard.next_seq_no s.(consensus_guard) = (Some (seq, view), g) ->
  exists s1 m, propose_ordered p nonce true s = mkRun (Ok true) s1 [m] /\ s1.(others) = [] /\
    proposed [m] = (retain (split_batch p (accumulated s)).1 (effective g)).1 /\
    accumulated s1 = (split_batch p (accumulated s)).2 /\
    (forall c n, noted (effective s1.(consensus_guard)) c n =
                 noted (retain (split_batch p (accumulated s)).1 (effective g)).2 c n) /\
    s1.(consensus_guard).(guard_can_propose) = g.(guard_can_propose) /\
    s1.(consensus_guard).(ProposerConsensusGuard.seq_no_queue) = g.(ProposerConsensusGuard.seq_no_queue).
Proof.
  intros Hq Hdue Hc Hn.
  assert ((if decide (length (accumulated s) < p.(target_global_batch_size)) then advance s else s) = s) as Hs
    by (destruct (decide _); [by apply advance_quiet|done]).
  pose proof (propose_due p nonce s) as Hd. rewrite Hs in Hd. destruct Hd as [(-> & _)|(_ & Hnd)]; [|done].
  rewrite run_can_propose, (advance_quiet s Hq), Hc, run_next_seq_no, (advance_quiet s Hq), Hn. cbn [fst snd].
  rewrite run_interfere, (advance_quiet (set_guard g s)) by done. run.
  change (accumulated (set_last_proposal _ _)) with (accumulated s).
  destruct (split_batch p (accumulated s)) as [taken kept]. run.
  destruct (propose_quiet nonce seq view taken (set_accumulated kept (set_last_proposal (now (set_guard g s)) (set_guard g s))) Hq)
    as (s1 & m & Hr & Hq1 & Hm & Hnote & Hb & Hcp & Hqu).
  rewrite (bind_Ok _ _ _ _ _ _ Hr). exists s1, m. split; [done|]. split_and!; [done..| |done|done|done].
  unfold accumulated. by rewrite Hb.
Qed.

(** C30. A leader's attempt to propose always completes, whatever the other threads do meanwhile.  It proposes exactly if a batch is
    due when it reads the clock, the guard is open when it reads the flag and a number is available when it locks the queue.  Then it
    takes the first number and the view of that queue, cuts off the newest [max_batch_size] requests (all, if there are fewer), keeps
    the others in order, notes the time, and broadcasts to the members of that view one PRE-PREPARE with that number and view, for
    those of the requests that are not in the notes of the SYNC message at that time.  Otherwise it sends nothing and the builder is
    as before.  Left alone, it decides on the state it started in and leaves the queue without the number it took. *)
Theorem propose_ordered_spec p nonce s :
  exists b s' eff, propose_ordered p nonce true s = mkRun (Ok b) s' eff /\ (b = true <-> may_propose p s) /\
    (if b then proposed_one p nonce s s' eff else s'.(ordered_propose) = s.(ordered_propose) /\ eff = []) /\
    (s.(others) = [] -> queue_read p s = s /\
     (b = true <-> due p s /\ s.(consensus_guard).(guard_can_propose) = true /\
                  s.(consensus_guard).(ProposerConsensusGuard.seq_no_queue).1 <> []) /\
     (b = true -> s'.(consensus_guard).(ProposerConsensusGuard.seq_no_queue) =
                  (ProposerConsensusGuard.next_seq_no s.(consensus_guard)).2.(ProposerConsensusGuard.seq_no_queue))).
Proof.
  destruct (propose_ordered_run p nonce s) as (b & s' & eff & Hr & Hb & Hd). exists b, s', eff. split_and!; [done..|].
  intros Hq. assert (clock_read p s = s) as H1 by (unfold clock_read; destruct (decide _); [by apply advance_quiet|done]).
  assert (flag_read p s = s) as H2 by (unfold flag_read; rewrite H1; by apply advance_quiet).
  assert (queue_read p s = s) as H3 by (unfold queue_read; rewrite H2; by apply advance_quiet).
  unfold may_propose in Hb. rewrite H1, H2, H3 in Hb. split_and!; [done..|]. intros Ht. apply Hb in Ht as (Hdue & Hc & Hne).
  apply next_seq_no_some in Hne. destruct (ProposerConsensusGuard.next_seq_no s.(consensus_guard)) as [[[seq view]|] g] eqn:Hn;
    [|by destruct Hne].
  destruct (propose_ordered_quiet p nonce s seq view g Hq Hdue Hc Hn) as (s1 & m & Hr' & _ & _ & _ & _ & _ & Hqu).
  rewrite Hr in Hr'. by injection Hr' as _ <- _.
Qed.

(** A request past the note of its session is kept, and the note is dropped. *)
Lemma retain_single x seen :
  (forall q, noted seen (key_of x).1 (key_of x).2 = Some q -> sn_gtb (seq_of x) q = true) -> (retain [x] seen).1 = [x].
Proof.
  intros H. cbn. pose proof (check_spec x seen) as Hc. destruct (check_if_has_been_proposed x seen) as [[] seen1]; [|done].
  destruct (proj1 (proj1 Hc) eq_refl) as (q & Hq & Hg). by rewrite (H q Hq) in Hg.
Qed.

Lemma retain_single_note x seen :
  (forall q, noted seen (key_of x).1 (key_of x).2 = Some q -> sn_gtb (seq_of x) q = true) ->
  noted (retain [x] seen).2 (key_of x).1 (key_of x).2 = None.
Proof.
  intros H. cbn -[key_of]. pose proof (check_spec x seen) as Hc. destruct (check_if_has_been_proposed x seen) as [[] seen1].
  - destruct (proj1 (proj1 Hc) eq_refl) as (q & Hq & Hg). by rewrite (H q Hq) in Hg.
  - destruct Hc as (_ & _ & ->). by rewrite decide_True by (by rewrite <- surjective_pairing).
Qed.

(** Within an overfull builder the newest requests go first, and that defeats the filter: a request of the SYNC message
    that waits behind a newer one of its session is proposed again. *)
Theorem split_repeats_request p n1 n2 s r1 r2 a b view lvc :
  s.(others) = [] -> accumulated s = [r1; r2] -> p.(max_batch_size) = 1 -> p.(target_global_batch_size) <= 1 ->
  key_of r1 = key_of r2 -> sn_gtb (seq_of r2) (seq_of r1) = true ->
  s.(consensus_guard) = ProposerConsensusGuard.install_sync_message_requests [rq_info r1]
                          (ProposerConsensusGuard.mk true ([a; b], view) false lvc) ->
  exists s1 s2 eff1 eff2,
    propose_ordered p n1 true s = mkRun (Ok true) s1 eff1 /\ proposed eff1 = [r2] /\
    propose_ordered p n2 true s1 = mkRun (Ok true) s2 eff2 /\ proposed eff2 = [r1].
Proof.
  intros Hq Ha Hmax Ht Hk Hgt Hg.
  destruct (ProposerConsensusGuard.next_seq_no s.(consensus_guard)) as [o g] eqn:Hn.
  assert (exists x y, o = Some (x, view) /\ g = ProposerConsensusGuard.set_queue ([y], view) s.(consensus_guard)) as (x & y & -> & ->).
  { revert Hn. rewrite Hg. unfold ProposerConsensusGuard.next_seq_no. cbn. destruct (sn_gtb a b) eqn:E; cbn.
    - destruct (decide (a = b)) as [->|]; [|rewrite decide_True by done]; intros [= <- <-]; eauto.
    - rewrite decide_True by done. intros [= <- <-]. eauto. }
  assert (split_batch p [r1; r2] = ([r2], [r1])) as Hs1 by (unfold split_batch; rewrite Hmax; done).
  assert (split_batch p [r1] = ([r1], [])) as Hs2 by (unfold split_batch; rewrite Hmax; done).
  destruct (propose_ordered_quiet p n1 s x view (ProposerConsensusGuard.set_queue ([y], view) s.(consensus_guard)) Hq) as (s1 & m1 & Hr1 & Hq1 & Hm1 & Ha1 & Hno1 & Hc1 & Hqu1); [| |done|].
  { left. rewrite Ha. cbn. lia. } { by rewrite Hg. }
  rewrite Ha, Hs1 in *. cbn [fst snd] in *.
  destruct (propose_ordered_quiet p n2 s1 y view (ProposerConsensusGuard.set_queue ([], view) s1.(consensus_guard)) Hq1)
    as (s2 & m2 & Hr2 & _ & Hm2 & _).
  { left. rewrite Ha1. cbn. lia. } { by rewrite Hc1, Hg. }
  { unfold ProposerConsensusGuard.next_seq_no. rewrite Hqu1. cbn. by rewrite decide_True. }
  assert (noted (effective (ProposerConsensusGuard.set_queue ([y], view) s.(consensus_guard))) (key_of r2).1 (key_of r2).2 =
          Some (seq_of r1)) as Hnote.
  { rewrite Hg, <- Hk. unfold effective. cbn -[noted ProposerConsensusGuard.note_request key_of].
    rewrite noted_note_request, decide_True by done. cbn. rewrite lookup_empty. cbn. by destruct (sn_ltb _ _). }
  exists s1, s2, [m1], [m2]. split_and!; [done| |done|].
  - rewrite Hm1. apply retain_single. intros q Hq'. rewrite Hnote in Hq'. by injection Hq' as <-.
  - rewrite Hm2, Ha1, Hs2. apply retain_single. intros q. change (effective _) with (effective s1.(consensus_guard)).
    rewrite Hno1, Hk, retain_single_note; [done|]. intros q' Hq'. rewrite Hnote in Hq'. by injection Hq' as <-.
Qed.

(** ** Getting stuck *)

(** Nothing that arrives makes a replica that does not lead stop receiving. *)
Lemma receive_forever p incoming : forall collected s,
  Disconnected ∉ incoming -> exists s', receive p false incoming collected s = mkRun (Ok None) s' [].
Proof.
  induction incoming as [|[batch| |] incoming IH]; intros collected s Hd; cbn [receive]; [by eexists| | |].
  - unfold handle_received_message.
    match goal with |- exists s', ((elapsed ≫= ?f) ≫= ?k) s = _ =>
      assert ((elapsed ≫= f) s = f (since_last (advance s)) (advance s)) as He by apply run_elapsed end.
    rewrite (bind_Ok_nil _ _ _ _ _ He). apply IH. set_solver.
  - apply IH. set_solver.
  - destruct Hd. by left.
Qed.

(** C32. A replica that does not lead when it starts to receive never stops receiving, whatever arrives and whatever the
    other threads do, unless the channel is closed: the requests it collects are never watched for a timeout,
    and it does not propose when it becomes the leader later. *)
Theorem non_leader_never_watches p nonce incoming s :
  let s3 := advance (advance (advance s)) in
  (advance s).(cancelled) = false -> (advance (advance s)).(consensus_guard).(guard_can_propose) = true ->
  p.(me) ∉ (Synchronizer.view s3.(synchronizer)).(ViewInfo.leader_set) -> Disconnected ∉ incoming ->
  exists s', iteration p nonce incoming s = mkRun (Ok Waiting) s' [].
Proof.
  intros s3 Hc Hg Hl Hd. unfold iteration. rewrite run_interfere. run. rewrite Hc.
  assert (wait_until_can_propose (S (length (advance s).(others))) (advance s) = mkRun (Ok true) (advance (advance s)) []) as Hw
    by (cbn [wait_until_can_propose]; by rewrite run_can_propose, Hg).
  rewrite (bind_Ok_nil _ _ _ _ _ Hw). cbn [negb]. rewrite run_interfere. run. fold s3. cbn zeta.
  rewrite bool_decide_false by done. run. destruct (receive_forever p incoming None s3 Hd) as [s' Hr].
  rewrite (bind_Ok_nil _ _ _ _ _ Hr). by eexists.
Qed.

(** Interference that leaves the flag of the guard alone. *)
Definition flag_untouched (i : Interference) : Prop := Lock ∉ i.(i_ops) /\ Unlock ∉ i.(i_ops).

Lemma apply_ops_flag ops : forall s, Lock ∉ ops -> Unlock ∉ ops ->
  (foldl apply_op s ops).(consensus_guard).(guard_can_propose) = s.(consensus_guard).(guard_can_propose).
Proof.
  induction ops as [|o ops IH]; intros s Hl Hu; cbn; [done|].
  rewrite not_elem_of_cons in Hl, Hu. destruct Hl as [? Hl], Hu as [? Hu]. rewrite IH by done. by destruct o.
Qed.

Lemma untouched_silent i : flag_untouched i -> notifies i = false.
Proof.
  intros [_ Hu]. unfold notifies. apply not_true_iff_false. intros (o & Ho & E)%existsb_exists. destruct o; try done.
  destruct Hu. by apply list_elem_of_In.
Qed.

Lemma wait_silent pending : forall s, Forall flag_untouched pending ->
  exists s', wait_notified pending s = (false, s') /\
    s'.(consensus_guard).(guard_can_propose) = s.(consensus_guard).(guard_can_propose).
Proof.
  induction pending as [|i pending IH]; intros s Hall; cbn [wait_notified]; [by eexists|].
  apply Forall_cons in Hall as [Hi Hall]. rewrite (untouched_silent i Hi).
  destruct (IH (apply_interference i (set_others pending s)) Hall) as (s' & -> & Hf).
  exists s'. split; [done|]. rewrite Hf. destruct Hi. unfold apply_interference. cbn. by rewrite apply_ops_flag.
Qed.

(** *** The fuel of the waiting loop *)

Lemma apply_ops_others ops : forall s, (foldl apply_op s ops).(others) = s.(others).
Proof. induction ops as [|o ops IH]; intros s; cbn; [done|]. rewrite IH. by destruct o. Qed.

Lemma advance_others s : length (advance s).(others) <= length s.(others).
Proof. unfold advance. destruct s.(others) as [|i r] eqn:E; [by rewrite E|]. cbn. rewrite apply_ops_others. cbn. lia. Qed.

Lemma woken_others pending : forall s s', wait_notified pending s = (true, s') -> length s'.(others) < length pending.
Proof.
  induction pending as [|i pending IH]; intros s s'; cbn [wait_notified]; [done|]. destruct (notifies i).
  - intros [= <-]. unfold apply_interference. cbn. rewrite apply_ops_others. cbn. lia.
  - intros H%IH. cbn. lia.
Qed.

(** Every wake-up uses up interference, so more fuel than there is of it makes no difference. *)
Lemma wait_fuel_enough f1 : forall f2 s, length s.(others) < f1 -> length s.(others) < f2 ->
  wait_until_can_propose f1 s = wait_until_can_propose f2 s.
Proof.
  induction f1 as [|f1 IH]; intros [|f2] s H1 H2; [lia..|]. cbn [wait_until_can_propose]. rewrite !run_can_propose.
  destruct (guard_can_propose _); [done|]. pose proof (advance_others s) as Ha. pose proof (advance_others (advance s)) as Hb.
  destruct (wait_notified (advance (advance s)).(others) (advance (advance s))) as [woken s'] eqn:Hw.
  assert (block_until_ready (advance s) = mkRun (Ok woken) s' []) as Hr.
  { unfold block_until_ready. rewrite run_interfere. run. by rewrite Hw. }
  rewrite !(bind_Ok_nil _ _ _ _ _ Hr). destruct woken; [|done]. apply woken_others in Hw. apply IH; lia.
Qed.

(** A wake-up is lost if the guard is opened between the proposer's look at the flag and its registration as a
    listener: the proposer then waits although the guard stays open, until it is opened once more. *)
Theorem wake_up_lost p nonce incoming s :
  let s3 := advance (advance (advance s)) in
  (advance s).(cancelled) = false ->
  (advance (advance s)).(consensus_guard).(guard_can_propose) = false ->
  s3.(consensus_guard).(guard_can_propose) = true -> Forall flag_untouched s3.(others) ->
  exists s', iteration p nonce incoming s = mkRun (Ok Waiting) s' [] /\
    s'.(consensus_guard).(guard_can_propose) = true.
Proof.
  intros s3 Hc Hg Hopen Hrest. unfold iteration. rewrite run_interfere. run. rewrite Hc.
  destruct (wait_silent s3.(others) s3 Hrest) as (s' & Hw & Hf).
  assert (block_until_ready (advance (advance s)) = mkRun (Ok false) s' []) as Hb.
  { unfold block_until_ready. rewrite run_interfere. run. fold s3. by rewrite Hw. }
  assert (wait_until_can_propose (S (length (advance s).(others))) (advance s) = mkRun (Ok false) s' []) as Hwait.
  { cbn [wait_until_can_propose]. rewrite run_can_propose, Hg. by rewrite (bind_Ok_nil _ _ _ _ _ Hb). }
  rewrite (bind_Ok_nil _ _ _ _ _ Hwait). exists s'. split; [done|]. congruence.
Qed.

(** C33. The time to wait for requests is at most half the time limit.  Computing it when the limit has already
    passed underflows: with overflow checks the thread panics, without them it waits half the limit again. *)
Theorem time_until_next_propose_spec p s :
  let t := since_last (advance s) in
  (p.(global_batch_time_limit) < 2 ^ 64)%N -> (t < 2 ^ 64)%N ->
  get_time_until_next_propose p s =
    mkRun (if (t <=? p.(global_batch_time_limit))%N
           then Ok (N.min (p.(global_batch_time_limit) / 2) (p.(global_batch_time_limit) - t))%N
           else if p.(overflow_checks) then Panic else Ok (p.(global_batch_time_limit) / 2)%N)
          (advance s) [].
Proof.
  intros t Hl Ht. unfold get_time_until_next_propose. rewrite run_elapsed. fold t. unfold sub_u128.
  destruct (N.leb_spec t (global_batch_time_limit p)) as [Hle|Hgt]; [by run|].
  destruct (overflow_checks p); [done|]. run. unfold ret. f_equal. f_equal.
  assert (2 ^ 128 = 2 ^ 64 * 2 ^ 64)%N as -> by done. assert (2 ^ 64 = 18446744073709551616)%N as E by done. rewrite E in *.
  pose proof (N.Div0.div_le_upper_bound (global_batch_time_limit p) 2 (global_batch_time_limit p) ltac:(lia)). lia.
Qed.
End facts.
End ProposerFacts.
