(* ===== verification/LeaderProgress.v ===== *)
(** * From a proposal to a decision

    The proposer of the leader broadcasts a batch; in three rounds the correct members of the view decide it and hand out its requests.  This
    composes the proposer, the instances of all replicas and the messages between them. *)
From S2P Require Import Prelude Atlas Errors View Messages Decisions Deciding Log Network.
From S2P Require Import SyncAccessory Accessory Decision Progress Consensus ConsensusFacts Waiting Liveness.
From S2P Require Import Sync Proposer ProposerFacts.

Module LeaderProgress.
Section leader_progress.
Context {A : Atlas} {D : AtlasDecisions} {WF : WireFormat} {Sy : Type} {SH : SyncHandle Sy} {SL : SyncHandleLaws Sy}.
Context {L : AtlasLaws} {WL : WireFormatLaws}.
Context (v : ViewInfo.t) (s : SeqNo) (byz : gset NodeId) (Hwf : ViewInfo.wf v) (Hmembers : v.(ViewInfo.quorum_members) = node_targets (ViewInfo.n v)).
Context (rng : nat -> N) (sy : Sy) (pool : Liveness.node -> list nat) (Hsy : sy_view sy = v).

(** What [l] has sent to [x], as it arrives there. *)
Definition arrivals (l : NodeId) (out : list (NodeId * PBFTMessage)) (x : NodeId) : list Shareable :=
  (fun p => mkStored (wire_header l x p.2) p.2) <$> filter (fun p => p.1 = x) out.

Definition proposal (nonce : N) (rqs : list (StoredMessage RQ)) : PBFTMessage :=
  Messages.Consensus (mkConsensusMessage s v.(ViewInfo.seq) nonce (PrePrepare rqs)).

Lemma arrivals_broadcast l nonce rqs x m :
  m ∈ arrivals l (sent [BroadcastSigned (proposal nonce rqs) v.(ViewInfo.quorum_members)]) x ->
  m = mkStored (wire_header l x (proposal nonce rqs)) (proposal nonce rqs).
Proof.
  cbn. rewrite app_nil_r. intros (p & -> & Hp)%list_elem_of_fmap. apply list_elem_of_filter in Hp as [_ Hp].
  by apply list_elem_of_fmap in Hp as (z & -> & _).
Qed.

Lemma arrivals_member l nonce rqs x :
  x ∈ v.(ViewInfo.quorum_members) ->
  mkStored (wire_header l x (proposal nonce rqs)) (proposal nonce rqs) ∈
    arrivals l (sent [BroadcastSigned (proposal nonce rqs) v.(ViewInfo.quorum_members)]) x.
Proof.
  intros Hx. cbn. rewrite app_nil_r. apply list_elem_of_fmap. exists (x, proposal nonce rqs). split; [done|].
  apply list_elem_of_filter. split; [done|]. apply list_elem_of_fmap. by exists x.
Qed.

(** The leader's batch is acceptable to everybody. *)
Lemma leader_proposal_valid l nonce rqs x :
  l ∈ v.(ViewInfo.leader_set) -> Forall (fun r => length (rq_digest (rq_info r)) = digest_length) rqs ->
  Progress.valid_proposal v s x l (mkStored (wire_header l x (proposal nonce rqs)) (proposal nonce rqs)).
Proof.
  intros Hl Hlen. split; [apply wire_header_from|]. split; [done|]. exists nonce, rqs. split; [done|]. right.
  destruct (ViewInfo.wf_leader_division v l Hwf Hl) as [slice Hs]. exists slice. split; [done|]. apply forallb_forall. intros r Hr%list_elem_of_In.
  rewrite Forall_forall in Hlen. destruct (ViewInfo.wf_leader_accepts v l _ Hwf Hl (Hlen r Hr)) as (slice' & Hs' & ?). by simplify_eq.
Qed.

Context (same_digest : forall me x x' m, hdr_digest (wire_header me x m) = hdr_digest (wire_header me x' m)).

(** C5. A proposal becomes a decision, in a view whose members are the nodes 0 to n-1 and of which [f] at most are faulty.  The proposer of the
    leader, under whatever interference of the other threads, broadcasts a batch of requests, which is [batch] less what the SYNC message of the last
    view change has proposed.  If no other proposal for this instance has arrived in the leader's name, three rounds later, whatever the thread
    pools do in them, every correct member can finalize its instance, and the batch it hands to the execution is made of exactly these requests. *)
Theorem proposal_decided l nonce batch st q y :
  size byz <= ViewInfo.f v -> l ∈ v.(ViewInfo.leader_set) -> Forall (fun r => length (rq_digest (rq_info r)) = digest_length) batch ->
  Liveness.early_ok q -> Liveness.evolves (Sy := Sy) v byz (Liveness.start v s q) y -> Liveness.only v s byz (fun _ => False) y ->
  let r := Proposer.propose nonce s v batch st in
  let y' := Liveness.three_rounds v byz rng sy pool (arrivals l (sent r.(r_eff))) y in
  r.(r_out) = Ok tt /\ Liveness.evolves (Sy := Sy) v byz y y' /\
    forall x, x ∉ byz -> x ∈ v.(ViewInfo.quorum_members) ->
    exists b, ConsensusDecision.finalize (y' x).(Liveness.instance) = Ok b /\ b.(cb_seq) = s /\
      b.(cb_client_requests) = (Proposer.retain batch (ProposerFacts.sync_notes st)).1.
Proof.
  intros Hb Hl Hlen Hq Hev Hnone. destruct (ProposerFacts.propose_run nonce s v batch st) as (st1 & Hrun & _).
  cbn zeta. rewrite Hrun. cbn [r_out r_eff]. split; [done|]. set (rqs := (Proposer.retain batch (ProposerFacts.sync_notes st)).1) in *.
  change (Messages.Consensus _) with (proposal nonce rqs).
  assert (forall z, Liveness.consensus_messages (arrivals l (sent [BroadcastSigned (proposal nonce rqs) v.(ViewInfo.quorum_members)]) z)) as Hc
    by (intros z m ->%arrivals_broadcast; by eexists).
  assert (Forall (fun r => length (rq_digest (rq_info r)) = digest_length) rqs) as Hlen'.
  { rewrite Forall_forall in Hlen |- *. intros r Hr. apply Hlen. by eapply elem_of_sublist; [|apply ProposerFacts.retain_sublist]. }
  pose proof (Liveness.started_good v s byz Hwf Hmembers q y Hq Hev) as G0.
  destruct (Liveness.three_rounds_ok v s byz Hwf Hmembers rng sy pool Hsy _ y G0 Hc) as [G3 E3]. split; [exact E3|]. intros x Hx Hxm.
  set (dp := hdr_digest (wire_header l l (proposal nonce rqs))).
  destruct (Liveness.rounds_decided v s byz Hwf Hmembers rng sy pool Hsy dp (arrivals l (sent [BroadcastSigned (proposal nonce rqs) v.(ViewInfo.quorum_members)])) y Hb G0)
    with (x := x) as [Hph _]; try done.
  { intros z l' m Hz Hzm Hl' Hm Hp. by destruct (Hnone z l' m). }
  { intros z l' Hz Hzm Hl'. destruct Hwf as (_ & _ & _ & (l0 & _ & Hl0 & _) & _). assert (l' = l) as -> by (rewrite Hl0 in *; set_solver).
    split; [eexists; split; [by apply arrivals_member|by apply leader_proposal_valid]|]. intros m ->%arrivals_broadcast _. apply same_digest. }
  apply (Liveness.finalized_requests v s Hwf x); [by apply G3|done|]. intros l' m Hl' Hm Hp.
  destruct (Liveness.three_rounds_only v s byz Hwf Hmembers rng sy pool Hsy (fun m => DecProof.kind_of m = Ok (PrePrepare rqs)) _ y G0 Hc) as (_ & _ & Ho).
  { intros z l2 m' ? ? ? ? ?. by destruct (Hnone z l2 m'). }
  { intros z l2 m' _ _ _ ->%arrivals_broadcast _. done. }
  by apply (Ho x l' m).
Qed.
End leader_progress.
End LeaderProgress.
