(* ===== verification/Protocol.v ===== *)
(** * The ordering protocol ([bft/mod.rs])

    [PBFTOrderProtocol] routes messages, timeouts and polls to the window of instances or to the
    synchronizer, depending on the phase the replica is in, finalizes what is decided and hands the decisions to the layers
    above. *)
From S2P Require Import Prelude Atlas Errors View Messages Decisions Deciding Log Network.
From S2P Require Import SyncAccessory Accessory Decision Consensus Sync.

Inductive ConsensusPhase := NormalPhase | SyncPhase.

#[global] Instance ConsensusPhase_eq_dec : EqDecision ConsensusPhase.
Proof. solve_decision. Defined.

(** [atlas_core]'s answers to the layer above. *)
Inductive DecisionsAhead := IgnoreAhead | ClearAhead.
Record JoinInfo := mkJoinInfo { ji_node : NodeId; ji_new_quorum : list NodeId }.

Section statuses.
Context {A : Atlas} {D : AtlasDecisions}.

Inductive SyncPhaseRes :=
  | SyncProtocolNotNeeded
  | RunSyncProtocol
  | SyncProtocolFinished (c : ConsensusStatus) (d : option FeDecision)
  | JoinedQuorum (c : ConsensusStatus) (d : option FeDecision) (n : NodeId)
  | RunCSTProtocol.

Inductive OPExecResult :=
  | MessageDropped
  | ExecQueued
  | MessageProcessedNoUpdate
  | ExecProgressed (a : DecisionsAhead) (ds : list FeDecision)
  | ExecJoined (a : DecisionsAhead) (ds : option (list FeDecision)) (j : JoinInfo)
  | ExecRunCst.

Inductive OPPollResult :=
  | PollRunCst
  | PollReceiveMsg
  | PollExec (m : Shareable)
  | PollProgressed (a : DecisionsAhead) (ds : list FeDecision)
  | PollJoined (a : DecisionsAhead) (ds : option (list FeDecision)) (j : JoinInfo)
  | PollRePoll.
End statuses.

(** ** Fault tolerance ([OrderProtocolTolerance]) *)

Definition get_n_for_f (f : nat) : nat := 3 * f + 1.
(** [n - 1] underflows for [n = 0]. *)
Definition get_f_for_n (n : nat) : Result nat := if decide (n = 0) then Panic else Ok ((n - 1) / 3).
Definition get_quorum_for_n (n : nat) : Result nat := f ← get_f_for_n n; Ok (2 * f + 1).

(** ** [BTreeMap<SeqNo, _>] *)

(** The entries in the order of their keys. *)
Definition btree (V : Type) : Type := list (SeqNo * V).

Section btree.
Context {A : Atlas} {V : Type}.

Fixpoint bt_get (k : SeqNo) (m : btree V) : option V :=
  match m with
  | [] => None
  | (k', v) :: m =>
      match sn_cmp k k' with
      | Lt => None
      | Eq => Some v
      | Gt => bt_get k m
      end
  end.

Fixpoint bt_insert (k : SeqNo) (x : V) (m : btree V) : btree V :=
  match m with
  | [] => [(k, x)]
  | (k', v) :: m' =>
      match sn_cmp k k' with
      | Lt => (k, x) :: m
      | Eq => (k', x) :: m'
      | Gt => (k', v) :: bt_insert k x m'
      end
  end.
End btree.

(** ** [PBFTOrderProtocol] *)

Module PBFTOrderProtocol.
Section protocol.
Context {A : Atlas} {D : AtlasDecisions} {WF : WireFormat} {IO : IterationOrder} {SG : Signatures}.

(** The phase and the state machines it is about; the guard shared with the proposer is the one of the window. *)
Record t := mk {
  phase : ConsensusPhase;
  world : Synchronizer.World;
}.

Definition set_phase x s := mk x s.(world).
Definition set_world x s := mk s.(phase) x.
Definition synchronizer (s : t) : Synchronizer.t := s.(world).(Synchronizer.w_sync).
Definition consensus (s : t) : Consensus.t := s.(world).(Synchronizer.w_consensus).
Definition message_log (s : t) : Log.t := s.(world).(Synchronizer.w_log).

Abbreviation H := (M t Effect Error).

Definition on_world {X} (m : M Synchronizer.World Effect Error X) : H X := zoom world set_world m.
Definition on_synchronizer {X} (m : M Synchronizer.t Effect Error X) : H X := on_world (Synchronizer.on_sync m).
Definition on_consensus {X} (m : M Consensus.t Effect Error X) : H X := on_world (Synchronizer.on_consensus m).
Definition on_log {X} (m : M Log.t Effect Error X) : H X :=
  on_world (zoom Synchronizer.w_log (fun l w => Synchronizer.mkWorld _ w.(Synchronizer.w_sync) w.(Synchronizer.w_consensus) l) m).
Definition on_guard (f : ProposerConsensusGuard.t -> ProposerConsensusGuard.t) : H unit :=
  on_consensus (modify (Consensus.on_guard f)).

Definition propagate {X} (r : ExternalError + X) : H X :=
  match r with inr x => ret x | inl e => fail (EExternal e) end.

Definition sequence_number (s : t) : SeqNo := Consensus.sequence_number (consensus s).
Definition view (s : t) : ViewInfo.t := Synchronizer.view (synchronizer s).

Definition initialize_protocol (node_id : NodeId) (watermark : nat) (quorum : list NodeId) : Result t :=
  sync ← Synchronizer.initialize_with_quorum node_id ZERO quorum;
  let v := Synchronizer.view sync in
  let guard := ProposerConsensusGuard.new v in
  Ok (mk NormalPhase (Synchronizer.mkWorld _ sync (Consensus.new_replica node_id v ZERO watermark guard)
                        (Log.initialize_decided_log node_id))).

(** The proposer is locked out when the normal phase ends; the end of the view change lets it in again. *)
Definition switch_phase (new_phase : ConsensusPhase) : H unit :=
  self ← get;
  modify (set_phase new_phase);;
  if decide (new_phase = self.(phase)) then ret tt
  else match self.(phase) with
       | NormalPhase => on_guard ProposerConsensusGuard.lock_consensus
       | SyncPhase => ret tt
       end.

(** *** Decisions *)

(** [while self.consensus.can_finalize()]; every iteration consumes a decided instance at the front of the window. *)
Fixpoint finalize_loop (fuel : nat) (v : ViewInfo.t) : H (list ProtocolConsensusDecision) :=
  match fuel with
  | 0 => panic
  | S fuel =>
      self ← get;
      if Consensus.can_finalize (consensus self) then
        completed ← on_consensus (Consensus.finalize v);
        completed_batch ← unwrap completed;
        exec_info ← on_log (Log.finalize_batch completed_batch);
        rest ← finalize_loop fuel v;
        ret (exec_info :: rest)
      else ret []
  end.

Definition finalize_all_possible : H (list ProtocolConsensusDecision) := fun s =>
  finalize_loop (S (Consensus.finalizeable_count (consensus s))) (view s) s.

Definition merge_one (map : btree FeDecision) (dec : FeDecision) : Result (btree FeDecision) :=
  match bt_get (dec_sequence_number dec) map with
  | Some member =>
      match dec_merge member dec with
      | inr member => Ok (bt_insert (dec_sequence_number dec) member map)
      | inl e => Err (EExternal e)
      end
  | None => Ok (bt_insert (dec_sequence_number dec) dec map)
  end.

Fixpoint merge_decision_vec (map : btree FeDecision) (decision : list FeDecision) : Result (btree FeDecision) :=
  match decision with
  | [] => Ok map
  | dec :: decision => map ← merge_one map dec; merge_decision_vec map decision
  end.

Definition merge_finalized (map : btree FeDecision) (decision : ProtocolConsensusDecision) : btree FeDecision :=
  let seq := pcd_sequence_number decision in
  match bt_get seq map with
  | Some member => bt_insert seq (dec_append_done member decision) map
  | None => bt_insert seq (dec_completed seq decision) map
  end.

Definition merge_decisions (status : list FeDecision) (finalized_decisions : list ProtocolConsensusDecision)
    : Result (list FeDecision) :=
  map ← merge_decision_vec [] status;
  Ok (foldl merge_finalized map finalized_decisions).*2.

Definition handle_decided (decisions : list FeDecision) : H (list FeDecision) :=
  finalized_decisions ← finalize_all_possible;
  lift (merge_decisions decisions finalized_decisions).

Definition handle_sync_result (status : ConsensusStatus) (to_exec : option FeDecision) : H (list FeDecision) :=
  map ← (match status with
         | CDeciding decision => lift (merge_decision_vec [] decision)
         | CDecided decision =>
             map ← lift (merge_decision_vec [] decision);
             finalized ← finalize_all_possible;
             ret (foldl merge_finalized map finalized)
         | _ => ret []
         end);
  ret (match to_exec with
       | Some decision => bt_insert (dec_sequence_number decision) decision map
       | None => map
       end).*2.

(** *** Messages *)

Section message.
Context (me : NodeId) (rng : nat -> N) (pre_processor : PreProcessor).

Definition adv_consensus (message : Shareable) : H OPExecResult :=
  self ← get;
  status ← on_consensus (Consensus.process_message rng (synchronizer self) message);
  match status with
  | CVotedTwice _ | CMessageIgnored => ret MessageDropped
  | CMessageQueued => ret ExecQueued
  | CDeciding result => ret (ExecProgressed IgnoreAhead result)
  | CDecided result => ds ← handle_decided result; ret (ExecProgressed IgnoreAhead ds)
  end.

(** [self.synchronizer.process_message(..); self.synchronizer.signal()]. *)
Definition sync_message (message : Shareable) : H SynchronizerStatus :=
  status ← on_world (Synchronizer.expect (Synchronizer.process_message me rng pre_processor message));
  on_synchronizer (modify Synchronizer.signal);;
  ret status.

Definition adv_sync (message : Shareable) : H SyncPhaseRes :=
  status ← sync_message message;
  match status with
  | SyncNil => ret SyncProtocolNotNeeded
  | SyncRunning => ret RunSyncProtocol
  | NewView consensus_status to_execute =>
      switch_phase NormalPhase;; ret (SyncProtocolFinished consensus_status to_execute)
  | NewViewJoinedQuorum consensus_decision decision node =>
      switch_phase NormalPhase;; ret (JoinedQuorum consensus_decision decision node)
  | RunCst => switch_phase SyncPhase;; ret RunCSTProtocol
  | RequestsTimedOut _ _ => panic
  end.

Definition update_normal_phase (message : Shareable) : H OPExecResult :=
  match message.(Atlas.message) with
  | Consensus _ => adv_consensus message
  | ViewChange _ =>
      status ← sync_message message;
      match status with
      | SyncNil => ret tt
      | SyncRunning => switch_phase SyncPhase
      | _ => panic
      end;;
      ret MessageProcessedNoUpdate
  | _ => ret MessageProcessedNoUpdate
  end.

(** The decisions a completed join is reported with. *)
Definition some_decisions (ds : list FeDecision) : option (list FeDecision) :=
  match ds with [] => None | _ => Some ds end.

Definition update_sync_phase (message : Shareable) : H OPExecResult :=
  match message.(Atlas.message) with
  | ViewChange _ =>
      result ← adv_sync message;
      match result with
      | SyncProtocolNotNeeded | RunSyncProtocol => ret MessageProcessedNoUpdate
      | SyncProtocolFinished status to_execute =>
          ds ← handle_sync_result status to_execute; ret (ExecProgressed ClearAhead ds)
      | JoinedQuorum status to_execute node =>
          self ← get;
          let join_info := mkJoinInfo node (view self).(ViewInfo.quorum_members) in
          decision_adv ← handle_sync_result status to_execute;
          ret (ExecJoined ClearAhead (some_decisions decision_adv) join_info)
      | RunCSTProtocol => ret ExecRunCst
      end
  | Consensus _ => on_consensus (Consensus.queue message);; ret MessageProcessedNoUpdate
  | _ => ret MessageProcessedNoUpdate
  end.

Definition process_message (message : Shareable) : H OPExecResult :=
  self ← get;
  match self.(phase) with
  | NormalPhase => update_normal_phase message
  | SyncPhase => update_sync_phase message
  end.

Definition handle_off_ctx_message (message : Shareable) : H unit :=
  match message.(Atlas.message) with
  | Consensus _ => on_consensus (Consensus.queue message)
  | ViewChange _ =>
      on_synchronizer (Synchronizer.queue message);;
      on_synchronizer (modify Synchronizer.signal)
  | _ => panic
  end.

(** *** Polling *)

Definition resume_sync : H OPPollResult :=
  sync_status ← on_world (Synchronizer.expect (Synchronizer.resume_view_change rng));
  switch_phase NormalPhase;;
  match sync_status with
  | Some (NewViewJoinedQuorum consensus_status decisions node) =>
      decisions ← handle_sync_result consensus_status decisions;
      self ← get;
      let joined := mkJoinInfo node (view self).(ViewInfo.quorum_members) in
      ret (PollJoined ClearAhead (some_decisions decisions) joined)
  | Some (NewView consensus_status decisions) =>
      decisions ← handle_sync_result consensus_status decisions;
      ret (PollProgressed ClearAhead decisions)
  | _ => ret PollRePoll
  end.

Definition poll_sync_phase : H OPPollResult :=
  poll_result ← on_synchronizer (fun s => let '(r, s') := Synchronizer.poll s in mkRun r s' []);
  match poll_result with
  | SyncRecv => ret PollReceiveMsg
  | SyncNextMessage message => ret (PollExec message)
  | ResumeViewChange => resume_sync
  end.

(** What the loop of [poll_normal_phase] does with a message of the synchronizer. *)
Definition handle_polled (s_message : Shareable) : H OPPollResult :=
  match s_message.(Atlas.message) with
  | ViewChange _ =>
      result ← adv_sync s_message;
      match result with
      | RunSyncProtocol => switch_phase SyncPhase;; ret PollRePoll
      | RunCSTProtocol => ret PollRunCst
      | _ => ret PollRePoll
      end
  | _ => panic
  end.

Definition poll_consensus : H (option OPPollResult) :=
  polled_message ← on_consensus Consensus.poll;
  match polled_message with
  | None => ret None
  | Some CPRecv => ret (Some PollReceiveMsg)
  | Some (CPNextMessage message) => ret (Some (PollExec message))
  | Some (CPDecided decisions) => ds ← handle_decided decisions; ret (Some (PollProgressed IgnoreAhead ds))
  end.

(** [while self.synchronizer.can_process_stops()]; running out of fuel is told apart from every result. *)
Fixpoint poll_normal_phase (fuel : nat) : H (option OPPollResult) :=
  match fuel with
  | 0 => ret None
  | S fuel =>
      self ← get;
      if Synchronizer.can_process_stops (synchronizer self) then
        sync_protocol ← poll_sync_phase;
        match sync_protocol with
        | PollExec s_message => r ← handle_polled s_message; ret (Some r)
        | _ => poll_normal_phase fuel
        end
      else poll_consensus
  end.

Definition poll (fuel : nat) : H (option OPPollResult) :=
  self ← get;
  match self.(phase) with
  | NormalPhase => poll_normal_phase fuel
  | SyncPhase => r ← poll_sync_phase; ret (Some r)
  end.

(** *** Timeouts, execution, state transfer *)

Definition handle_timeout (timeout : list ModTimeout) : H OPExecResult :=
  self ← get;
  if Consensus.is_catching_up (consensus self) then ret MessageDropped
  else
    match Synchronizer.client_requests_timed_out (synchronizer self) timeout with
    | RequestsTimedOut forwarded stopped =>
        (match forwarded with
         | [] => ret tt
         | _ =>
             requests ← propagate (pre_processor.(clone_pending_rqs) forwarded);
             emit (Synchronizer.forward_requests (synchronizer self) requests)
         end);;
        (match stopped with
         | [] => ret tt
         | _ =>
             stopped ← propagate (pre_processor.(clone_pending_rqs) stopped);
             switch_phase SyncPhase;;
             on_synchronizer (Synchronizer.begin_view_change (Some stopped))
         end)
    | _ => ret tt
    end;;
    ret MessageProcessedNoUpdate.

Definition handle_execution_changed (is_executing : bool) : H unit :=
  if is_executing then
    self ← get;
    match self.(phase) with
    | NormalPhase => on_guard ProposerConsensusGuard.unlock_consensus
    | SyncPhase => ret tt
    end
  else on_guard ProposerConsensusGuard.lock_consensus.

Definition install_seq_no (seq_no : SeqNo) : H unit :=
  self ← get;
  on_consensus (Synchronizer.expect (Consensus.install_sequence_number seq_no (view self))).

Definition install_view (v : ViewInfo.t) : H unit :=
  self ← get;
  match sn_index (ViewInfo.sequence_number v) (ViewInfo.sequence_number (view self)) with
  | inl _ | inr 0 => ret tt
  | inr _ =>
      on_consensus (Synchronizer.expect (Consensus.install_view v));;
      runs ← on_synchronizer (Synchronizer.expect (Synchronizer.received_view_from_state_transfer v));
      if runs : bool then switch_phase SyncPhase else ret tt
  end.

(** *** Reconfiguration *)

Definition attempt_quorum_node_join (joining_node : NodeId) : H ReconfigurationAttemptResult :=
  result ← on_synchronizer (Synchronizer.expect (Synchronizer.start_join_quorum me joining_node));
  match result with
  | ReconfFailed => ret AttemptFailed
  | OnGoingViewChange => ret InProgress
  | OnGoingQuorumChange node_id => ret (CurrentlyReconfiguring node_id)
  | SyncAlreadyPartOfQuorum => ret AlreadyPartOfQuorum
  | SyncInProgress => ret InProgress
  | SyncCompleted => self ← get; ret (Successful (view self).(ViewInfo.quorum_members))
  end.

Definition joining_quorum : H ReconfigurationAttemptResult :=
  result ← on_synchronizer (Synchronizer.expect (Synchronizer.attempt_join_quorum me));
  match result with
  | InProgress => switch_phase SyncPhase
  | _ => ret tt
  end;;
  ret result.
End message.

(** *** The log of messages ([OrderProtocolLogHelper]) *)

Inductive MessageType := CF_PRE_PREPARES | CF_PREPARES | CF_COMMIT.

Definition message_types : list MessageType := [CF_PRE_PREPARES; CF_PREPARES; CF_COMMIT].

Definition get_type_for_message (msg : PBFTMessage) : Result MessageType :=
  match msg with
  | Consensus c =>
      match c.(cm_kind) with
      | PrePrepare _ => Ok CF_PRE_PREPARES
      | Prepare _ => Ok CF_PREPARES
      | Commit _ => Ok CF_COMMIT
      end
  | _ => Err EAnyhow
  end.

Definition init_proof_from (metadata : ProofMetadata) (messages : list Shareable) : Result DecProof :=
  DecProof.init_from_messages metadata messages.

Definition decompose_proof (proof : DecProof) : ProofMetadata * list unit * list Shareable :=
  (DecProof.metadata proof, [], DecProof.pre_prepares proof ++ DecProof.prepares proof ++ DecProof.commits proof).

Definition get_requests_in_proof (proof : DecProof) : Result ProtocolConsensusDecision := decision_from_proof proof.
End protocol.
Arguments t {A}.
End PBFTOrderProtocol.
