(* ===== verification/ProtocolFacts.v ===== *)
(** * Properties of the ordering protocol

    Decisions leave the replica in order and without gaps; the phase of the protocol, the one of the
    synchronizer and the lock on the proposer agree in every state; polling returns. *)
From S2P Require Import Prelude Atlas Errors View Messages Decisions Deciding Log Network.
From S2P Require Import SyncAccessory Accessory Decision Progress Consensus ConsensusFacts Sync SyncFacts Protocol.

Import PBFTOrderProtocol.

Module ProtocolFacts.

(** ** Maps ordered by sequence number *)

Section btree.
Context {A : Atlas} {L : AtlasLaws} {V : Type}.
Implicit Types (m : btree V) (x v : V).

Definition before (s q : SeqNo) : Prop := sn_cmp s q = Lt.

(** The keys are close to each other and increase. *)
Record ordered (b : SeqNo) (m : btree V) : Prop := {
  o_near : forall k, k ∈ m.*1 -> near b k;
  o_sorted : StronglySorted before m.*1;
}.

Lemma near_cases b s q : near b s -> near b q ->
  (sn_cmp s q = Lt /\ before s q) \/ (sn_cmp s q = Eq /\ s = q) \/ (sn_cmp s q = Gt /\ before q s).
Proof.
  intros (i & Hi & ->) (j & Hj & ->). unfold before. rewrite !near_cmp by done.
  destruct (Nat.compare_spec i j) as [->|Hlt|Hgt]; [by auto|by auto|]. right. right. split; [done|].
  by apply Nat.compare_lt_iff.
Qed.

Lemma before_trans b s q r : near b s -> near b q -> near b r -> before s q -> before q r -> before s r.
Proof.
  intros (i & Hi & ->) (j & Hj & ->) (k & Hk & ->). unfold before. rewrite !near_cmp by done. rewrite !Nat.compare_lt_iff. lia.
Qed.

Lemma before_irrefl s : ~ before s s.
Proof. unfold before. by rewrite (proj2 (sn_cmp_eq s s) eq_refl). Qed.

Lemma ordered_nil b : ordered b [].
Proof. split; [by intros k ?%elem_of_nil|constructor]. Qed.

Lemma ordered_cons b k v m :
  ordered b ((k, v) :: m) <-> near b k /\ ordered b m /\ forall q, q ∈ m.*1 -> before k q.
Proof.
  split.
  - intros [Hn Hs]. cbn in *. inversion Hs as [|? ? Hs' Hall]; subst. split_and!; [apply Hn; left| |by apply Forall_forall].
    split; [|done]. intros q Hq. apply Hn. by right.
  - intros (Hk & [Hn Hs] & Hall). split; cbn; [intros q [->|Hq]%elem_of_cons; [done|by apply Hn]|].
    constructor; [done|]. by apply Forall_forall.
Qed.

Lemma bt_get_keys k v m : bt_get k m = Some v -> k ∈ m.*1.
Proof.
  induction m as [|[q w] m IH]; [done|]. cbn. destruct (sn_cmp k q) eqn:E; [|done|].
  - apply sn_cmp_eq in E as ->. left.
  - intros ?%IH. by right.
Qed.

Lemma bt_get_elem k v m : bt_get k m = Some v -> (k, v) ∈ m.
Proof.
  induction m as [|[q w] m IH]; [done|]. cbn. destruct (sn_cmp k q) eqn:E; [|done|].
  - apply sn_cmp_eq in E as ->. intros [= ->]. left.
  - intros ?%IH. by right.
Qed.

Lemma bt_insert_keys k x m q : q ∈ (bt_insert k x m).*1 <-> q = k \/ q ∈ m.*1.
Proof.
  induction m as [|[r w] m IH]; cbn; [set_solver|]. destruct (sn_cmp k r) eqn:E; cbn.
  - apply sn_cmp_eq in E as ->. set_solver.
  - set_solver.
  - rewrite elem_of_cons, IH. set_solver.
Qed.

Lemma bt_insert_ordered b k x m : near b k -> ordered b m -> ordered b (bt_insert k x m).
Proof.
  intros Hk. induction m as [|[r w] m IH]; intros Hm; cbn.
  - apply ordered_cons. split_and!; [done|apply ordered_nil|by intros q ?%elem_of_nil].
  - pose proof (proj1 (ordered_cons _ _ _ _) Hm) as (Hr & Hm' & Hall).
    destruct (near_cases b k r Hk Hr) as [[-> Hlt]|[[-> ->]|[-> Hgt]]].
    + apply ordered_cons. split_and!; [done..|]. intros q [->|Hq]%elem_of_cons; [done|].
      eapply (before_trans b); eauto. by apply (o_near _ _ Hm').
    + by apply ordered_cons.
    + apply ordered_cons. split_and!; [done|by apply IH|]. intros q [->|Hq]%bt_insert_keys; [done|by apply Hall].
Qed.

Lemma bt_get_insert b k q x m :
  near b k -> near b q -> ordered b m -> bt_get q (bt_insert k x m) = if decide (q = k) then Some x else bt_get q m.
Proof.
  intros Hk Hq. induction m as [|[r w] m IH]; intros Hm; cbn [bt_insert bt_get].
  - destruct (near_cases b q k Hq Hk) as [[-> Hlt]|[[-> ->]|[-> Hgt]]]; [|by rewrite decide_True|];
      (rewrite decide_False; [done|intros ->; by eapply before_irrefl]).
  - pose proof (proj1 (ordered_cons _ _ _ _) Hm) as (Hr & Hm' & Hall). specialize (IH Hm').
    destruct (near_cases b k r Hk Hr) as [[-> Hlt]|[[-> ->]|[-> Hgt]]]; cbn [bt_get].
    + destruct (near_cases b q k Hq Hk) as [[-> H1]|[[-> ->]|[-> H1]]]; [|by rewrite decide_True|].
      * rewrite decide_False by (intros ->; by eapply before_irrefl).
        assert (before q r) as -> by (by eapply (before_trans b q k r)). done.
      * rewrite decide_False by (intros ->; by eapply before_irrefl). done.
    + destruct (near_cases b q r Hq Hr) as [[-> H1]|[[-> ->]|[-> H1]]]; [|by rewrite decide_True|];
        (rewrite decide_False; [done|intros ->; by eapply before_irrefl]).
    + destruct (near_cases b q r Hq Hr) as [[-> H1]|[[-> ->]|[-> H1]]].
      * rewrite decide_False; [done|]. intros ->. eapply before_irrefl. by eapply (before_trans b k r k).
      * rewrite decide_False; [done|]. intros ->. by eapply before_irrefl.
      * done.
Qed.

Lemma bt_get_none b k m : near b k -> ordered b m -> bt_get k m = None -> k ∉ m.*1.
Proof.
  intros Hk. induction m as [|[r w] m IH]; intros Hm; cbn; [set_solver|].
  pose proof (proj1 (ordered_cons _ _ _ _) Hm) as (Hr & Hm' & Hall).
  destruct (near_cases b k r Hk Hr) as [[-> Hlt]|[[-> ->]|[-> Hgt]]]; [|done|].
  - intros _ [->|Hin]%elem_of_cons; [by eapply before_irrefl|].
    eapply before_irrefl. eapply (before_trans b k r k); auto.
  - intros Hg%IH; [|done]. intros [->|Hin]%elem_of_cons; [by eapply before_irrefl|done].
Qed.
End btree.

(** ** Decided instances are finalized together *)

Section finalizing.
Context {A : Atlas} {D : AtlasDecisions} {WF : WireFormat} {IO : IterationOrder} {SG : Signatures}.
Context {L : AtlasLaws} {DL : AtlasDecisionsLaws}.

(** What [finalize_batch] hands to the executor and what it leaves in the log. *)
Definition executed (b : CompletedBatch) : ProtocolConsensusDecision :=
  pcd_new b.(cb_seq)
    (foldl bd_add_message (bd_new_with_cap b.(cb_seq) (length b.(cb_client_requests))) b.(cb_client_requests))
    b.(cb_client_request_info) b.(cb_digest).

Lemma next_instance_window v c d rest :
  c.(Consensus.decisions) = d :: rest ->
  exists c' eff nd, Consensus.next_instance v c = mkRun (Ok d) c' eff /\
    c'.(Consensus.decisions) = rest ++ [nd] /\ nd.(ConsensusDecision.phase) = Initialize /\
    c'.(Consensus.consensus_guard) = c.(Consensus.consensus_guard).
Proof.
  intros Hd. unfold Consensus.next_instance. run. rewrite Hd. run.
  destruct (TboQueue.advance_queue _) as [q tbo]. run.
  destruct (_ && _); run; eexists _, _, _; (split; [reflexivity|]); done.
Qed.

Lemma finalizeable_snoc ds d :
  ConsensusDecision.is_finalizeable d = false ->
  Consensus.finalizeable_count_of (ds ++ [d]) = Consensus.finalizeable_count_of ds.
Proof.
  intros Hd. induction ds as [|x ds IH]; cbn; [by rewrite Hd|]. destruct (ConsensusDecision.is_finalizeable x); [by f_equal|done].
Qed.

(** One round of the loop. *)
Lemma finalize_round lag c :
  ConsensusFacts.inv lag c -> Consensus.can_finalize c = true ->
  exists d rest nd b c' eff, c.(Consensus.decisions) = d :: rest /\ c'.(Consensus.decisions) = rest ++ [nd] /\
    ConsensusDecision.is_finalizeable d = true /\ ConsensusDecision.is_finalizeable nd = false /\
    Consensus.finalize c.(Consensus.curr_view) c = mkRun (Ok (Some b)) c' eff /\
    ConsensusDecision.finalize d = Ok b /\ b.(cb_seq) = c.(Consensus.seq_no) /\
    c'.(Consensus.seq_no) = sn_next c.(Consensus.seq_no) /\ c'.(Consensus.curr_view) = c.(Consensus.curr_view) /\
    c'.(Consensus.consensus_guard) = c.(Consensus.consensus_guard) /\
    ConsensusFacts.inv (S lag) c' /\ sent eff = [].
Proof.
  intros Hinv Hcan.
  destruct (ConsensusFacts.next_instance_spec lag c Hinv) as (d & rest & c' & eff & Hd & Hnext & _ & _ & _ & _ & Hv).
  destruct (next_instance_window c.(Consensus.curr_view) c d rest Hd) as (c1 & eff1 & nd & Hnext' & Hds & Hph & Hg).
  rewrite Hnext in Hnext'. injection Hnext' as <- <-.
  destruct (ConsensusFacts.finalize_run lag c Hinv) as [(c2 & b & eff2 & Hrun & _ & Hs & Hs' & Hi & Hsent)|[_ Hn]]; [|congruence].
  assert (ConsensusDecision.is_finalizeable d = true) as Hf by (unfold Consensus.can_finalize in Hcan; by rewrite Hd in Hcan).
  assert (c2 = c' /\ ConsensusDecision.finalize d = Ok b) as [-> Hb].
  { revert Hrun. unfold Consensus.finalize. run. rewrite Hd. cbn [head]. rewrite Hf, (bind_Ok _ _ _ _ _ _ Hnext).
    destruct (ConsensusDecision.finalize d) as [b'| |]; [|done..]. run. unfold ret, prepend. cbn. by intros [= -> <- _]. }
  exists d, rest, nd, b, c', eff2. split_and!; try done.
  unfold ConsensusDecision.is_finalizeable. by rewrite Hph.
Qed.

(** The state with another window and another log. *)
Definition with_decided (c : Consensus.t) (l : Log.t) (s : t) : t :=
  mk s.(phase) (Synchronizer.mkWorld _ (synchronizer s) c l).

(** What the loop makes of the instances it finalizes. *)
Inductive finalized_batches : list ConsensusDecision.t -> list CompletedBatch -> Prop :=
  | fb_nil : finalized_batches [] []
  | fb_cons d b ds bs : ConsensusDecision.is_finalizeable d = true -> ConsensusDecision.finalize d = Ok b ->
      finalized_batches ds bs -> finalized_batches (d :: ds) (b :: bs).

Definition log_after (bs : list CompletedBatch) (l : Log.t) : Log.t :=
  foldl (fun l b => Log.append_proof (Log.proof_of_batch b) l) l bs.

(** One call of [Consensus::finalize] after the other. *)
Inductive finalizes (v : ViewInfo.t) : Consensus.t -> list CompletedBatch -> Consensus.t -> Prop :=
  | fz_nil c : finalizes v c [] c
  | fz_cons c d b c1 eff bs c' : head c.(Consensus.decisions) = Some d -> Consensus.finalize v c = mkRun (Ok (Some b)) c1 eff ->
      sent eff = [] -> finalizes v c1 bs c' -> finalizes v c (b :: bs) c'.

Lemma finalize_loop_spec fuel : forall lag s,
  ConsensusFacts.inv lag (consensus s) -> Consensus.finalizeable_count (consensus s) < fuel ->
  exists bs c' eff,
    finalize_loop fuel (consensus s).(Consensus.curr_view) s =
      mkRun (Ok (executed <$> bs)) (with_decided c' (log_after bs (message_log s)) s) eff /\
    finalized_batches (take (Consensus.finalizeable_count (consensus s)) (consensus s).(Consensus.decisions)) bs /\
    (forall i b, bs !! i = Some b -> b.(cb_seq) = sn_plus i (consensus s).(Consensus.seq_no)) /\
    c'.(Consensus.seq_no) = sn_plus (length bs) (consensus s).(Consensus.seq_no) /\
    c'.(Consensus.curr_view) = (consensus s).(Consensus.curr_view) /\
    c'.(Consensus.consensus_guard) = (consensus s).(Consensus.consensus_guard) /\
    ConsensusFacts.inv (lag + length bs) c' /\ Consensus.can_finalize c' = false /\ sent eff = [] /\
    finalizes (consensus s).(Consensus.curr_view) (consensus s) bs c'.
Proof.
  induction fuel as [|fuel IH]; intros lag s Hinv Hfuel; [lia|]. cbn [finalize_loop]. run.
  destruct (Consensus.can_finalize (consensus s)) eqn:Hcan.
  - destruct (finalize_round lag (consensus s) Hinv Hcan)
      as (d & rest & nd & b & c' & eff & Hd & Hd' & Hf & Hnf & Hrun & Hb & Hseq & Hs' & Hv & Hg & Hi & Hsent).
    unfold on_consensus at 1, on_world at 1, Synchronizer.on_consensus.
    set (s1 := with_decided c' (message_log s) s).
    assert (zoom world set_world (zoom Synchronizer.w_consensus (fun c w => Synchronizer.mkWorld _ w.(Synchronizer.w_sync) c w.(Synchronizer.w_log))
      (Consensus.finalize (consensus s).(Consensus.curr_view))) s = mkRun (Ok (Some b)) s1 eff) as E1.
    { unfold zoom. change (Synchronizer.w_consensus (world s)) with (consensus s). rewrite Hrun. done. }
    rewrite (bind_Ok _ _ _ _ _ _ E1). run.
    set (s2 := with_decided c' (Log.append_proof (Log.proof_of_batch b) (message_log s)) s).
    assert (on_log (Log.finalize_batch b) s1 = mkRun (Ok (executed b)) s2 []) as E2 by done.
    rewrite (bind_Ok_nil _ _ _ _ _ E2).
    assert (Consensus.finalizeable_count (consensus s) = S (Consensus.finalizeable_count (consensus s2))) as Hcount.
    { unfold Consensus.finalizeable_count. rewrite Hd. cbn. by rewrite Hf, Hd', finalizeable_snoc. }
    destruct (IH (S lag) s2) as (bs & c2 & eff2 & Hloop & Hfb & Hseqs & Hs2 & Hv2 & Hg2 & Hi2 & Hcan2 & Hsent2 & Hfz2); [done|lia|].
    cbn in Hv2. rewrite Hv in *. change (Consensus.curr_view (consensus s2)) with (Consensus.curr_view c') in Hloop. rewrite Hv in Hloop.
    rewrite (bind_Ok _ _ _ _ _ _ Hloop). exists (b :: bs), c2. eexists. split; [reflexivity|].
    change (consensus s2) with c' in *. rewrite Hs' in Hs2, Hseqs. rewrite Hv in Hfz2.
    split_and!; try done.
    + rewrite Hcount, Hd. cbn. constructor; [done..|]. rewrite Hd' in Hfb. rewrite take_app_le in Hfb; [done|].
      clear -Hcount Hd Hf. unfold Consensus.finalizeable_count in *. rewrite Hd in Hcount. cbn in Hcount. rewrite Hf in Hcount.
      injection Hcount as <-. generalize rest. induction rest0 as [|x l IHl]; cbn; [lia|]. destruct (ConsensusDecision.is_finalizeable x); lia.
    + intros [|i] b'; [by intros [= <-]|]. intros Hb'. rewrite (Hseqs _ _ Hb'). by rewrite ConsensusFacts.sn_plus_S.
    + cbn [length]. rewrite ConsensusFacts.sn_plus_S. done.
    + rewrite Hg2. done.
    + cbn [length]. rewrite Nat.add_succ_r. done.
    + unfold ret, prepend. cbn [r_eff]. by rewrite !sent_app, Hsent, Hsent2.
    + eapply fz_cons; [by rewrite Hd|exact Hrun|done|exact Hfz2].
  - assert (Consensus.finalizeable_count (consensus s) = 0) as ->.
    { unfold Consensus.finalizeable_count, Consensus.can_finalize in *. destruct (Consensus.decisions _) as [|x ?]; [done|].
      cbn in *. by rewrite Hcan. }
    exists [], (consensus s), []. rewrite Nat.add_0_r. split_and!; try done; [|constructor|constructor].
    unfold with_decided, ret. cbn. by destruct s as [ph []].
Qed.

(** ** Merging what was decided *)

(** A map in order whose entries stand at their own sequence number. *)
Definition keyed (m : btree FeDecision) : Prop := forall k d, (k, d) ∈ m -> dec_sequence_number d = k.

Lemma bt_insert_elem {V} k (x : V) m k' v : (k', v) ∈ bt_insert k x m -> (k', v) = (k, x) \/ (k', v) ∈ m.
Proof.
  induction m as [|[r w] m IH]; cbn; [set_solver|]. destruct (sn_cmp k r) eqn:E.
  - apply sn_cmp_eq in E as ->. set_solver.
  - set_solver.
  - intros [->|Hin]%elem_of_cons; [set_solver|]. destruct (IH Hin); set_solver.
Qed.

Record merged (b : SeqNo) (m : btree FeDecision) (seqs : SeqNo -> Prop) : Prop := {
  mg_ordered : ordered b m;
  mg_keyed : keyed m;
  mg_keys : forall q, q ∈ m.*1 <-> seqs q;
}.

Lemma merged_insert b m seqs k d :
  merged b m seqs -> near b k -> dec_sequence_number d = k -> merged b (bt_insert k d m) (fun q => q = k \/ seqs q).
Proof.
  intros [Ho Hk Hs] Hnear Hd. split.
  - by apply bt_insert_ordered.
  - intros k' d' [[= -> ->]|?]%bt_insert_elem; [done|by apply Hk].
  - intros q. by rewrite bt_insert_keys, Hs.
Qed.

Lemma merged_iff b m (P Q : SeqNo -> Prop) : (forall q, P q <-> Q q) -> merged b m P -> merged b m Q.
Proof. intros HPQ [? ? Hs]. split; [done..|]. intros q. by rewrite Hs. Qed.

Lemma merge_one_ok b m seqs d :
  merged b m seqs -> near b (dec_sequence_number d) ->
  exists m', merge_one m d = Ok m' /\ merged b m' (fun q => q = dec_sequence_number d \/ seqs q).
Proof.
  intros Hm Hn. unfold merge_one. destruct (bt_get _ m) as [e|] eqn:Hg.
  - pose proof (mg_keyed _ _ _ Hm _ _ (bt_get_elem _ _ _ Hg)) as He.
    destruct (dec_merge_same e d He) as (r & -> & Hr). eexists. split; [reflexivity|].
    apply merged_insert; [done..|congruence].
  - eexists. split; [reflexivity|]. by apply merged_insert.
Qed.

Lemma merge_vec_ok b ds : forall m seqs,
  merged b m seqs -> (forall d, d ∈ ds -> near b (dec_sequence_number d)) ->
  exists m', merge_decision_vec m ds = Ok m' /\ merged b m' (fun q => q ∈ (dec_sequence_number <$> ds) \/ seqs q).
Proof.
  induction ds as [|d ds IH]; intros m seqs Hm Hn; cbn.
  - exists m. split; [done|]. eapply merged_iff; [|done]. set_solver.
  - destruct (merge_one_ok b m seqs d Hm) as (m1 & -> & Hm1); [apply Hn; left|].
    destruct (IH _ _ Hm1) as (m2 & Hv & Hm2); [intros; apply Hn; by right|]. exists m2. split; [done|].
    eapply merged_iff; [|done]. set_solver.
Qed.

(** The entry says that [p] is done. *)
Definition done_with (p : ProtocolConsensusDecision) (d : FeDecision) : Prop :=
  d = dec_completed (pcd_sequence_number p) p \/ exists e, d = dec_append_done e p.

Lemma merge_finalized_ok b m seqs p :
  merged b m seqs -> near b (pcd_sequence_number p) ->
  merged b (merge_finalized m p) (fun q => q = pcd_sequence_number p \/ seqs q) /\
  (exists d, bt_get (pcd_sequence_number p) (merge_finalized m p) = Some d /\ done_with p d) /\
  forall q, near b q -> q <> pcd_sequence_number p -> bt_get q (merge_finalized m p) = bt_get q m.
Proof.
  intros Hm Hn. pose proof (mg_ordered _ _ _ Hm) as Ho. unfold merge_finalized, done_with.
  destruct (bt_get _ m) as [e|] eqn:Hg; (split; [|split]).
  - apply merged_insert; [done..|]. rewrite dec_append_seq. exact (mg_keyed _ _ _ Hm _ _ (bt_get_elem _ _ _ Hg)).
  - eexists. rewrite (bt_get_insert b), decide_True by done. eauto.
  - intros q Hq Hne. by rewrite (bt_get_insert b), decide_False.
  - apply merged_insert; [done..|apply dec_completed_seq].
  - eexists. rewrite (bt_get_insert b), decide_True by done. eauto.
  - intros q Hq Hne. by rewrite (bt_get_insert b), decide_False.
Qed.

Lemma merge_all_finalized b ps : forall m seqs,
  merged b m seqs -> (forall p, p ∈ ps -> near b (pcd_sequence_number p)) -> NoDup (pcd_sequence_number <$> ps) ->
  let m' := foldl merge_finalized m ps in
  merged b m' (fun q => q ∈ (pcd_sequence_number <$> ps) \/ seqs q) /\
  (forall p, p ∈ ps -> exists d, bt_get (pcd_sequence_number p) m' = Some d /\ done_with p d) /\
  (forall q, near b q -> q ∉ (pcd_sequence_number <$> ps) -> bt_get q m' = bt_get q m).
Proof.
  induction ps as [|p ps IH]; intros m seqs Hm Hn Hnd; cbn.
  - split_and!; [|by intros ? ?%elem_of_nil|done]. eapply merged_iff; [|done]. set_solver.
  - cbn in Hnd. apply NoDup_cons in Hnd as [Hp Hnd].
    destruct (merge_finalized_ok b m seqs p Hm) as (Hm1 & Hd & Hother); [apply Hn; left|].
    destruct (IH _ _ Hm1) as (Hm2 & Hdone & Hkept); [intros; apply Hn; by right|done|]. split_and!.
    + eapply merged_iff; [|done]. set_solver.
    + intros p' [->|Hin]%elem_of_cons; [|by apply Hdone]. rewrite Hkept; [done|apply Hn; left|done].
    + intros q Hq Hnin. apply not_elem_of_cons in Hnin as [? ?]. rewrite Hkept by done. by apply Hother.
Qed.

Lemma merged_values b m seqs :
  merged b m seqs -> StronglySorted before (dec_sequence_number <$> m.*2) /\
  (forall q, q ∈ (dec_sequence_number <$> m.*2) <-> seqs q).
Proof.
  intros [Ho Hk Hs]. assert (dec_sequence_number <$> m.*2 = m.*1) as ->.
  { clear Ho Hs. induction m as [|[k d] m IH]; [done|]. cbn. f_equal; [apply Hk; left|]. apply IH.
    intros k' d' ?. apply Hk. by right. }
  split; [apply Ho|done].
Qed.

Lemma merge_decisions_ok b ds ps :
  (forall d, d ∈ ds -> near b (dec_sequence_number d)) -> (forall p, p ∈ ps -> near b (pcd_sequence_number p)) ->
  NoDup (pcd_sequence_number <$> ps) ->
  exists out, merge_decisions ds ps = Ok out /\ StronglySorted before (dec_sequence_number <$> out) /\
    (forall q, q ∈ (dec_sequence_number <$> out) <-> q ∈ (dec_sequence_number <$> ds) \/ q ∈ (pcd_sequence_number <$> ps)) /\
    (forall p, p ∈ ps -> exists d, d ∈ out /\ done_with p d).
Proof.
  intros Hd Hp Hnd. unfold merge_decisions.
  assert (merged b [] (fun _ => False)) as H0.
  { split; [apply ordered_nil|by intros ? ? ?%elem_of_nil|]. intros q. split; [apply elem_of_nil|done]. }
  destruct (merge_vec_ok b ds _ _ H0 Hd) as (m & -> & Hm). cbn.
  destruct (merge_all_finalized b ps m _ Hm Hp Hnd) as (Hm' & Hdone & _). eexists. split; [reflexivity|].
  destruct (merged_values _ _ _ Hm') as [Hs Hk]. split_and!; [done| |].
  - intros q. rewrite Hk. tauto.
  - intros p (d & Hg & Hdw)%Hdone. exists d. split; [|done]. apply bt_get_elem in Hg.
    apply list_elem_of_fmap. by exists (pcd_sequence_number p, d).
Qed.

(** ** What is delivered *)

Lemma finalized_batches_length ds bs : finalized_batches ds bs -> length bs = length ds.
Proof. induction 1; cbn; lia. Qed.

Lemma finalized_batches_lookup ds bs i b :
  finalized_batches ds bs -> bs !! i = Some b -> exists d, ds !! i = Some d /\ ConsensusDecision.finalize d = Ok b.
Proof.
  intros Hf. revert i. induction Hf as [|d b' ds bs _ Hb _ IH]; intros [|i]; [done..|intros [= <-]; eauto|apply IH].
Qed.

Lemma finalizeable_le ds : Consensus.finalizeable_count_of ds <= length ds.
Proof. induction ds as [|d ds IH]; cbn; [lia|]. destruct (ConsensusDecision.is_finalizeable d); lia. Qed.

Lemma executed_seq b : pcd_sequence_number (executed b) = b.(cb_seq).
Proof. apply pcd_new_seq. Qed.

(** The window is close enough to [b] for its sequence numbers to be comparable. *)
Definition window_near (b : SeqNo) (c : Consensus.t) : Prop :=
  exists k, c.(Consensus.seq_no) = sn_plus k b /\ k + c.(Consensus.watermark) <= sn_window.

Lemma batches_seqs b c bs :
  window_near b c -> length bs <= c.(Consensus.watermark) ->
  (forall i x, bs !! i = Some x -> x.(cb_seq) = sn_plus i c.(Consensus.seq_no)) ->
  (forall p, p ∈ executed <$> bs -> near b (pcd_sequence_number p)) /\
  NoDup (pcd_sequence_number <$> (executed <$> bs)).
Proof.
  intros (k & Hk & Hw) Hlen Hseq. split.
  - intros p (x & -> & Hx)%list_elem_of_fmap. apply list_elem_of_lookup in Hx as [i Hi].
    pose proof (lookup_lt_Some _ _ _ Hi). exists (i + k). rewrite executed_seq, (Hseq _ _ Hi), Hk, sn_plus_add.
    split; [lia|done].
  - apply NoDup_alt. intros i j x. rewrite <- list_fmap_compose, !list_lookup_fmap, !fmap_Some.
    intros (x1 & H1 & ->) (x2 & H2 & Heq). cbn in Heq. rewrite !executed_seq, (Hseq _ _ H1), (Hseq _ _ H2) in Heq.
    pose proof (lookup_lt_Some _ _ _ H1). pose proof (lookup_lt_Some _ _ _ H2).
    eapply ConsensusFacts.sn_plus_inj; [..|done]; lia.
Qed.

(** C16. When the oldest instance is decided, every decided instance at the front of the window is finalized in one go: the
    loop terminates, the layers above receive one entry per sequence number in increasing order, namely for
    the messages just handled and for each finalized instance, whose entry carries its
    batch; the window moves on past them to an undecided instance, and the log ends
    with the proof of the last one. *)
Theorem handle_decided_delivers lag b s decisions :
  ConsensusFacts.inv lag (consensus s) -> (consensus s).(Consensus.curr_view) = view s ->
  window_near b (consensus s) -> (forall d, d ∈ decisions -> near b (dec_sequence_number d)) ->
  let n := Consensus.finalizeable_count (consensus s) in
  exists bs out c' eff,
    handle_decided decisions s = mkRun (Ok out) (with_decided c' (log_after bs (message_log s)) s) eff /\
    length bs = n /\
    (forall i x, bs !! i = Some x -> x.(cb_seq) = sn_plus i (consensus s).(Consensus.seq_no) /\
       (exists d, (consensus s).(Consensus.decisions) !! i = Some d /\ ConsensusDecision.finalize d = Ok x) /\
       exists e, e ∈ out /\ done_with (executed x) e) /\
    StronglySorted before (dec_sequence_number <$> out) /\
    (forall q, q ∈ (dec_sequence_number <$> out) <->
       q ∈ (dec_sequence_number <$> decisions) \/ exists i, i < n /\ q = sn_plus i (consensus s).(Consensus.seq_no)) /\
    c'.(Consensus.seq_no) = sn_plus n (consensus s).(Consensus.seq_no) /\
    Consensus.can_finalize c' = false /\ ConsensusFacts.inv (lag + n) c' /\ sent eff = [].
Proof.
  intros Hinv Hview Hnear Hds n. unfold handle_decided.
  destruct (finalize_loop_spec (S n) lag s Hinv ltac:(unfold n; lia))
    as (bs & c' & eff & Hrun & Hfb & Hseq & Hs' & _ & _ & Hi & Hcan & Hsent & _).
  assert (length bs = n) as Hlen.
  { rewrite (finalized_batches_length _ _ Hfb), length_take. pose proof (finalizeable_le (consensus s).(Consensus.decisions)).
    unfold n, Consensus.finalizeable_count. lia. }
  assert (n <= (consensus s).(Consensus.watermark)) as Hle.
  { rewrite <- (ConsensusFacts.i_len _ _ Hinv). apply finalizeable_le. }
  destruct (batches_seqs b (consensus s) bs) as [Hps Hnd]; [done|lia|done|].
  destruct (merge_decisions_ok b decisions (executed <$> bs) Hds Hps Hnd) as (out & Hm & Hsorted & Hkeys & Hdone).
  assert (finalize_all_possible s = mkRun (Ok (executed <$> bs)) (with_decided c' (log_after bs (message_log s)) s) eff) as E.
  { unfold finalize_all_possible. rewrite <- Hview. exact Hrun. }
  rewrite (bind_Ok _ _ _ _ _ _ E), Hm.
  exists bs, out, c'. eexists. split; [reflexivity|]. rewrite Hlen in *. split_and!; try done.
  - intros i x Hx. split_and!; [by apply Hseq| |].
    + destruct (finalized_batches_lookup _ _ _ _ Hfb Hx) as (d & Hd & ?). exists d. split; [|done].
      by apply lookup_take_Some in Hd as [? _].
    + apply Hdone. apply list_elem_of_fmap_2. by eapply list_elem_of_lookup_2.
  - intros q. rewrite Hkeys. apply or_iff_compat_l. rewrite <- list_fmap_compose, list_elem_of_fmap. split.
    + intros (x & -> & [i Hx]%list_elem_of_lookup). pose proof (lookup_lt_Some _ _ _ Hx). exists i. cbn.
      rewrite executed_seq, (Hseq _ _ Hx). split; [lia|done].
    + intros (i & Hlt & ->). destruct (lookup_lt_is_Some_2 bs i) as [x Hx]; [lia|]. exists x. cbn.
      rewrite executed_seq, (Hseq _ _ Hx). split; [done|]. by eapply list_elem_of_lookup_2.
  - unfold lift, prepend. cbn. by rewrite app_nil_r.
Qed.
End finalizing.

(** ** Fault tolerance *)

(** The nodes from [a] on. *)
Definition nodes (a k : nat) : gset NodeId := list_to_set (N.of_nat <$> seq a k).

Lemma nodes_in a k x : x ∈ nodes a k <-> (N.of_nat a <= x < N.of_nat (a + k))%N.
Proof.
  unfold nodes. rewrite elem_of_list_to_set, list_elem_of_fmap. split.
  - intros (i & -> & Hi%elem_of_seq). lia.
  - intros H. exists (N.to_nat x). rewrite elem_of_seq. lia.
Qed.

Lemma nodes_size a k : size (nodes a k) = k.
Proof.
  unfold nodes. rewrite size_list_to_set, length_fmap, length_seq; [done|].
  apply NoDup_fmap_2; [apply _|apply NoDup_seq].
Qed.

Lemma nodes_inter n k : k <= n -> nodes 0 k ∩ nodes (n - k) k = nodes (n - k) (2 * k - n).
Proof. intros Hk. apply set_eq. intros x. rewrite elem_of_intersection, !nodes_in. lia. Qed.

(** C34. What the tolerance functions promise holds for [n = 3f + 1] replicas and only then: with the quorum they
    compute, any two quorums have a replica in common that is not one of [f] faulty ones
    exactly if [n] is the number [get_n_for_f] gives. *)
Theorem tolerance_exact n f q :
  get_f_for_n n = Ok f -> get_quorum_for_n n = Ok q ->
  (forall U P Q B : gset NodeId, size U = n -> P ⊆ U -> Q ⊆ U -> q <= size P -> q <= size Q -> size B <= f ->
     exists x, x ∈ P /\ x ∈ Q /\ x ∉ B) <-> n = get_n_for_f f.
Proof.
  unfold get_quorum_for_n, get_f_for_n, get_n_for_f. destruct (decide (n = 0)) as [|Hn]; [done|]. intros Hf Hquorum.
  assert (f = (n - 1) / 3) as Ef by congruence. assert (q = 2 * f + 1) as -> by (rewrite Ef; by inversion Hquorum). clear Hf Hquorum.
  pose proof (Nat.div_mod (n - 1) 3 ltac:(lia)) as Hdm. pose proof (Nat.mod_upper_bound (n - 1) 3 ltac:(lia)) as Hm.
  rewrite <- Ef in Hdm. split.
  - intros Hshare. destruct (decide (n = 3 * f + 1)) as [|Hne]; [done|exfalso].
    assert (2 * f + 1 <= n) as Hq by lia. pose proof (nodes_inter n (2 * f + 1) Hq) as Hi.
    destruct (Hshare (nodes 0 n) (nodes 0 (2 * f + 1)) (nodes (n - (2 * f + 1)) (2 * f + 1)) (nodes (n - (2 * f + 1)) (2 * (2 * f + 1) - n)))
      as (x & H1 & H2 & H3); rewrite ?nodes_size; try lia.
    + intros x. rewrite !nodes_in. lia.
    + intros x. rewrite !nodes_in. lia.
    + apply H3. rewrite <- Hi. by apply elem_of_intersection.
  - intros E U P Q B HU HP HQ HsP HsQ HB. apply (quorum_share_correct U P Q B f); [lia|done..].
Qed.
End ProtocolFacts.
