(* ===== verification/ProtocolPhases.v ===== *)
(** * The phases of the ordering protocol

    The phase of the protocol decides who gets a message; it has to fit the phase of
    the synchronizer, and the proposer must be locked out while the view changes. *)
From S2P Require Import Prelude Atlas Errors View Messages Decisions Deciding Log Network.
From S2P Require Import SyncAccessory Accessory Decision Progress Consensus ConsensusFacts Sync SyncFacts Protocol ProtocolFacts.

Import PBFTOrderProtocol.

Module ProtocolPhases.
Section phases.
Context {A : Atlas} {D : AtlasDecisions} {WF : WireFormat} {IO : IterationOrder} {SG : Signatures} {L : AtlasLaws}.
Import SyncFacts.

Abbreviation handler := (M t Effect Error).
Abbreviation World := Synchronizer.World.
Abbreviation sync_phase := Synchronizer.phase.
Abbreviation w_sync := Synchronizer.w_sync.
Abbreviation w_consensus := Synchronizer.w_consensus.

(** The phases in which the synchronizer only counts STOP messages and has not called for a view change itself. *)
Definition listening (ph : ProtoPhase) : Prop :=
  match ph with InitPhase | Stopping _ | ViewStopping _ | ViewStopping2 _ => True | _ => False end.

(** ** What a message does to the synchronizer *)

Inductive sync_outcome (w : World) : SynchronizerStatus -> World -> Prop :=
  | so_quiet st w' : st = SyncNil \/ st = SyncRunning -> w'.(w_consensus) = w.(w_consensus) ->
      sync_phase w'.(w_sync) <> SyncingState ->
      (st = SyncNil -> listening (sync_phase w.(w_sync)) -> listening (sync_phase w'.(w_sync))) ->
      sync_outcome w st w'
  | so_cst w' : w'.(w_consensus) = w.(w_consensus) -> sync_phase w'.(w_sync) = SyncingState ->
      is_Some w'.(w_sync).(Synchronizer.finalize_state) -> ~ listening (sync_phase w.(w_sync)) ->
      sync_outcome w RunCst w'
  | so_view st w' cs d n : st = NewView cs d \/ st = NewViewJoinedQuorum cs d n ->
      sync_phase w'.(w_sync) = InitPhase -> ~ listening (sync_phase w.(w_sync)) -> sync_outcome w st w'.

Lemma stop_status_cases i v : Synchronizer.stop_status i v = SyncNil \/ Synchronizer.stop_status i v = SyncRunning.
Proof. unfold Synchronizer.stop_status. destruct (decide _); auto. Qed.

Lemma queued_outcome w st w' :
  only_queued w w' -> st = SyncNil \/ st = SyncRunning -> sync_phase w.(w_sync) <> SyncingState -> sync_outcome w st w'.
Proof. intros (q & -> & _) Hst Hph. by apply so_quiet. Qed.

Lemma quiet_queue f m w (st st' : SynchronizerStatus) w' (eff : list Effect) :
  (forall q, (f m q).(SyncTbo.view) = q.(SyncTbo.view) /\ (f m q).(SyncTbo.next_view) = q.(SyncTbo.next_view)) ->
  (Synchronizer.queue_with f m;; ret st) w = mkRun (Ok st') w' eff -> only_queued w w' /\ st' = st.
Proof.
  intros Hf H. apply bind_inv in H as ([] & ? & ? & ? & H0 & H & ->). inv_run H.
  by apply only_queued_on in H0 as [? ->].
Qed.

Lemma quiet_stop_data m w (st st' : SynchronizerStatus) w' (eff : list Effect) :
  (Synchronizer.queue_stop_data m;; ret st) w = mkRun (Ok st') w' eff -> only_queued w w' /\ st' = st.
Proof.
  intros H. apply bind_inv in H as ([] & ? & ? & ? & H0 & H & ->). inv_run H.
  by apply only_queued_stop_data in H0 as [? ->].
Qed.

Lemma accept_stop_outcome me pp h rqs i w st w' eff j :
  sync_phase w.(w_sync) = Stopping j \/ sync_phase w.(w_sync) = Stopping2 j ->
  Synchronizer.accept_stop me pp h rqs i w = mkRun (Ok st) w' eff -> sync_outcome w st w'.
Proof.
  intros Hph H. unfold Synchronizer.accept_stop, Synchronizer.modify_sync, Synchronizer.on_sync in H. inv_run H. rest_as H.
  cbn in H. destruct Hph as [Hph|Hph]; rewrite Hph in H.
  - destruct (decide _); inv_run H.
    + rest_as H. apply (begin_view_change_stopping _ j) in H as ->; [|done]. apply so_quiet; auto; done.
    + apply so_quiet; auto; done.
  - apply bind_inv in H as ([] & w1 & ? & ? & H0 & H & ->). inv_run H. destruct (decide _).
    + inv_run H0. rest_as H0. apply move_to_next_view_run in H0 as (sp & leader & _ & -> & _).
      apply so_quiet; [by right|done| |done]. cbn. by destruct (decide _).
    + unfold Synchronizer.modify_sync, Synchronizer.on_sync in H0. inv_run H0. apply so_quiet; [by right|done|done|done].
Qed.

Lemma stopping_outcome me pp m vc i w st w' eff :
  sync_phase w.(w_sync) = Stopping i \/ sync_phase w.(w_sync) = Stopping2 i ->
  Synchronizer.process_stopping me pp m vc i w = mkRun (Ok st) w' eff -> sync_outcome w st w'.
Proof.
  intros Hph H. assert (sync_phase w.(w_sync) <> SyncingState) as Hns by (destruct Hph as [-> | ->]; done).
  unfold Synchronizer.process_stopping in H. apply bind_inv in H as (w0 & ? & ? & ? & H0 & H & ->). inv_run H0.
  destruct (vc_kind vc) as [rqs|n|c|lc].
  - destruct (decide _); [|destruct (decide _)].
    + apply quiet_queue in H as [? ->]; [|by intros q]. apply queued_outcome; [done|apply stop_status_cases|done].
    + inv_run H. apply queued_outcome; [apply only_queued_refl|apply stop_status_cases|done].
    + by eapply accept_stop_outcome.
  - destruct (decide _).
    + apply quiet_queue in H as [? ->]; [|by intros q]. apply queued_outcome; [done|apply stop_status_cases|done].
    + inv_run H. apply queued_outcome; [apply only_queued_refl|apply stop_status_cases|done].
  - apply quiet_stop_data in H as [? ->]. apply queued_outcome; [done|apply stop_status_cases|done].
  - apply quiet_queue in H as [? ->]; [|by intros q]. apply queued_outcome; [done|apply stop_status_cases|done].
Qed.

Lemma view_stopping_outcome me pp m vc i w st w' eff :
  view_change m.(message) = Ok vc -> sync_phase w.(w_sync) = ViewStopping i \/ sync_phase w.(w_sync) = ViewStopping2 i ->
  Synchronizer.process_view_stopping me pp m vc i w = mkRun (Ok st) w' eff -> sync_outcome w st w'.
Proof.
  intros Hvc Hph H. assert (sync_phase w.(w_sync) <> SyncingState) as Hns by (destruct Hph as [-> | ->]; done).
  assert (st = SyncNil \/ st = SyncRunning) as Hst.
  { revert H. unfold Synchronizer.process_view_stopping. intros H. apply bind_inv in H as (w0 & ? & ? & ? & H0 & H & ->). inv_run H0.
    destruct (vc_kind vc) as [rqs|n|c|lc].
    - apply bind_inv in H as ([] & w1 & ? & ? & H0 & H & ->). destruct (decide _); inv_run H; [apply stop_status_cases|by right].
    - destruct (decide _); [apply quiet_queue in H as [_ ->]; [apply stop_status_cases|by intros q]|].
      right. unfold Synchronizer.accept_join in H. apply bind_inv in H as (? & ? & ? & ? & _ & H & ->).
      apply bind_inv in H as ([] & ? & ? & ? & _ & H & ->). apply bind_inv in H as ([] & ? & ? & ? & _ & H & ->).
      apply bind_inv in H as ([] & ? & ? & ? & _ & H & ->). by inv_run H.
    - apply quiet_stop_data in H as [_ ->]. apply stop_status_cases.
    - apply quiet_queue in H as [_ ->]; [apply stop_status_cases|by intros q]. }
  assert (st = SyncNil -> only_queued w w') as Hnil.
  { intros ->. revert H. unfold Synchronizer.process_view_stopping. intros H. apply bind_inv in H as (w0 & ? & ? & ? & H0 & H & ->). inv_run H0.
    destruct (vc_kind vc) as [rqs|n|c|lc].
    - apply bind_inv in H as ([] & w1 & ? & ? & H0 & H & ->). apply only_queued_on in H0 as [Hq _]; [|by intros q].
      destruct (decide _); [injection H as _ <- _; done|]. by apply bind_inv in H as (? & ? & ? & ? & _ & H & _).
    - destruct (decide _); [apply quiet_queue in H as [? _]; [done|by intros q]|].
      unfold Synchronizer.accept_join in H. apply bind_inv in H as (? & ? & ? & ? & _ & H & ->).
      apply bind_inv in H as ([] & ? & ? & ? & _ & H & ->). apply bind_inv in H as ([] & ? & ? & ? & _ & H & ->).
      by apply bind_inv in H as ([] & ? & ? & ? & _ & H & ->).
    - by apply quiet_stop_data in H as [? _].
    - apply quiet_queue in H as [? _]; [done|by intros q]. }
  apply (process_view_stopping_case _ _ _ _ _ _ _ _ _ Hvc) in H as [Hq|[(w1 & (q & -> & _) & ->)|(node & _ & Hj)]].
  - by apply queued_outcome.
  - by apply so_quiet.
  - destruct Hj as [ph [-> | ->]|nd votes nv leader sp _ _ _ _]; apply so_quiet; try done.
    + cbn. by destruct (decide _).
    + intros Hn _. destruct (Hnil Hn) as (q & Heq & _). apply (f_equal (fun w => sync_phase w.(w_sync))) in Heq.
      cbn in Heq. rewrite Heq. by destruct Hph as [-> | ->].
Qed.

Lemma ending_outcome rng state proof w w0 st w' :
  w0.(w_consensus) = w.(w_consensus) -> sync_phase w0.(w_sync) <> SyncingState -> ~ listening (sync_phase w.(w_sync)) ->
  ending rng state proof w0 st w' -> sync_outcome w st w'.
Proof.
  intros Hc Hns Hl [|Hp|st' w'' moved s1 window cs [_ _ _ Hph _ _ (d & [-> |[n ->]])]].
  - apply so_quiet; [by right|done..].
  - apply so_cst; done.
  - eapply (so_view _ _ _ cs d ZERO); [by left|done..].
  - eapply (so_view _ _ _ cs d n); [by right|done..].
Qed.

(** Every message the synchronizer handles has one of the three outcomes. *)
Lemma message_outcome me rng pp m w st w' eff :
  Synchronizer.process_message me rng pp m w = mkRun (Ok st) w' eff -> sync_outcome w st w'.
Proof.
  intros H. unfold Synchronizer.process_message in H. apply bind_inv in H as (vc & ? & ? & ? & Hvc & H & ->).
  apply lift_inv in Hvc as (Hvc & -> & ->). apply bind_inv in H as (w0 & ? & ? & ? & H0 & H & ->). inv_run H0.
  destruct (sync_phase w.(w_sync)) as [|i|i|i|i|i| |] eqn:Hph.
  - unfold Synchronizer.process_init in H. apply bind_inv in H as ([] & ? & ? & ? & H0 & H & ->). inv_run H.
    apply queued_outcome; [|by left|by rewrite Hph].
    destruct (vc_kind vc); [by apply only_queued_on in H0 as [? _]..|by apply only_queued_stop_data in H0 as [? _]|by apply only_queued_on in H0 as [? _]].
  - eapply stopping_outcome; eauto.
  - eapply stopping_outcome; eauto.
  - eapply view_stopping_outcome; eauto.
  - eapply view_stopping_outcome; eauto.
  - assert (~ listening (sync_phase w.(w_sync))) as Hl by (rewrite Hph; by intros []).
    apply (process_stopping_data_case _ _ _ _ _ _ _ _ _ _ Hph Hvc) in H
      as [(Hq & -> & _)|(nv & c & _ & _ & _ & _ & [(_ & -> & _ & ->)|(_ & H)])].
    + apply queued_outcome; [done|by right|by rewrite Hph].
    + apply so_quiet; [by right|done..].
    + apply lead_new_view_case in H as [(-> & -> & _)|(? & ? & ? & ? & ? & ? & _ & _ & _ & H)].
      * apply so_quiet; [by right|done| |done]. cbn. by rewrite Hph.
      * apply finalize_view_change_case in H. eapply ending_outcome; [| |done|exact H]; [done|]. cbn. by rewrite Hph.
  - assert (~ listening (sync_phase w.(w_sync))) as Hl by (rewrite Hph; by intros []).
    apply (process_syncing_case _ _ _ _ _ _ _ Hph Hvc) in H as [(Hq & -> & _)|(? & ? & ? & ? & _ & _ & _ & _ & _ & _ & H)].
    + apply queued_outcome; [done|by right|by rewrite Hph].
    + apply finalize_view_change_case in H. eapply ending_outcome; [done|by rewrite Hph|done|exact H].
  - done.
Qed.

(** ** Who touches the lock *)

Definition lock_of (c : Consensus.t) : bool := c.(Consensus.consensus_guard).(ProposerConsensusGuard.can_propose).

Lemma keeps_on_decision {X} i (m : M ConsensusDecision.t Effect Error X) : keeps lock_of (Consensus.on_decision i m).
Proof. intros c. unfold Consensus.on_decision. by destruct (_ !! _). Qed.
Lemma keeps_tbo_queue {X} (m : M TboQueue.t Effect Error X) :
  keeps lock_of (zoom Consensus.tbo_queue Consensus.set_tbo_queue m).
Proof. apply keeps_zoom. by left. Qed.
Lemma fill_lock n v q c : lock_of (Consensus.fill n v q c) = lock_of c.
Proof. revert q c. induction n as [|n IH]; intros q c; cbn; [done|]. by rewrite IH. Qed.
Lemma fill_from_tbo_lock n go v q c : lock_of (Consensus.fill_from_tbo n go v q c).2 = lock_of c.
Proof.
  revert q c. induction n as [|n IH]; intros q c; cbn; [done|]. destruct (_ && _); [|done].
  destruct (TboQueue.advance_queue _). by rewrite IH.
Qed.
#[local] Hint Resolve keeps_on_decision keeps_tbo_queue fill_lock fill_from_tbo_lock : keeps.

Lemma queue_lock m : keeps lock_of (Consensus.queue m).
Proof. unfold Consensus.queue. keep. Qed.
Lemma next_instance_lock v : keeps lock_of (Consensus.next_instance v).
Proof. unfold Consensus.next_instance. keep. Qed.
#[local] Hint Resolve queue_lock next_instance_lock : keeps.
Lemma finalize_lock v : keeps lock_of (Consensus.finalize v).
Proof. unfold Consensus.finalize. keep. Qed.
Lemma process_lock {Sy} {SH : SyncHandle Sy} rng (sy : Sy) m : keeps lock_of (Consensus.process_message rng sy m).
Proof. unfold Consensus.process_message. keep. Qed.
Lemma poll_loop_lock fuel : keeps lock_of (Consensus.poll_loop fuel).
Proof.
  induction fuel as [|fuel IH]; cbn [Consensus.poll_loop]; keep; try exact IH.
  all: apply keeps_modify; intros c; by destruct (decide _).
Qed.
Lemma poll_lock : keeps lock_of Consensus.poll.
Proof. intros c. apply poll_loop_lock. Qed.
Lemma queue_all_lock ms : keeps lock_of (Consensus.queue_all ms).
Proof. induction ms; cbn [Consensus.queue_all]; keep. Qed.
#[local] Hint Resolve finalize_lock process_lock poll_lock queue_all_lock : keeps.
Lemma install_view_lock v : keeps lock_of (Consensus.install_view v).
Proof. unfold Consensus.install_view. keep. Qed.

Lemma install_past_window_lock limit q v : keeps lock_of (Consensus.install_past_window limit q v).
Proof.
  unfold Consensus.install_past_window. do 2 (apply keeps_bind; [keep|intro]). do 2 (apply keeps_bind; [keep|intro]).
  intros c. run. pose proof (fill_from_tbo_lock c.(Consensus.watermark)
    (fun c => sn_ltb (TboQueue.sequence_number c.(Consensus.tbo_queue)) q) v q c) as H.
  destruct (Consensus.fill_from_tbo _ _ _ _ _) as [q' c']. run. cbn [snd] in H. rewrite <- H. apply fill_lock.
Qed.
#[local] Hint Resolve install_past_window_lock : keeps.
Lemma install_seq_lock q v : keeps lock_of (Consensus.install_sequence_number q v).
Proof.
  unfold Consensus.install_sequence_number, Consensus.install_behind, Consensus.install_in_window, Consensus.install_checks. keep.
Qed.
#[local] Hint Resolve install_view_lock install_seq_lock : keeps.

Lemma expect_keeps {S W X Y} (f : S -> Y) (m : M S W Error X) : keeps f m -> keeps f (Synchronizer.expect m).
Proof. intros Hm s. apply Hm. Qed.
#[local] Hint Resolve expect_keeps : keeps.

(** What the invariant looks at. *)
Definition seen (s : t) : ConsensusPhase * Synchronizer.t * bool := (s.(phase), synchronizer s, lock_of (consensus s)).

Lemma on_consensus_seen {X} (m : M Consensus.t Effect Error X) : keeps lock_of m -> keeps seen (on_consensus m).
Proof.
  intros Hm s. unfold on_consensus, on_world, Synchronizer.on_consensus, zoom, seen. cbn. f_equal. apply Hm.
Qed.
Lemma on_log_seen {X} (m : M Log.t Effect Error X) : keeps seen (on_log m).
Proof. done. Qed.
#[local] Hint Resolve on_consensus_seen on_log_seen : keeps.

Lemma finalize_loop_seen fuel v : keeps seen (finalize_loop fuel v).
Proof. induction fuel as [|fuel IH]; cbn [finalize_loop]; keep. Qed.
Lemma finalize_all_seen : keeps seen finalize_all_possible.
Proof. intros s. apply finalize_loop_seen. Qed.
#[local] Hint Resolve finalize_all_seen : keeps.
Lemma handle_decided_seen ds : keeps seen (handle_decided ds).
Proof. unfold handle_decided. keep. Qed.
Lemma handle_sync_result_seen st d : keeps seen (handle_sync_result st d).
Proof. unfold handle_sync_result. keep. Qed.
#[local] Hint Resolve handle_decided_seen handle_sync_result_seen : keeps.
Lemma adv_consensus_seen rng m : keeps seen (adv_consensus rng m).
Proof. unfold adv_consensus. keep. Qed.
Lemma poll_consensus_seen : keeps seen poll_consensus.
Proof. unfold poll_consensus. keep. Qed.

(** ** The invariant *)

(** A view change given up half-way: nothing is left to resume. *)
Definition abandoned (sy : Synchronizer.t) : Prop :=
  sync_phase sy = SyncingState /\ sy.(Synchronizer.finalize_state) = None.

Definition agrees (x : ConsensusPhase * Synchronizer.t * bool) : Prop :=
  match x with
  | (NormalPhase, sy, _) => listening (sync_phase sy) \/ abandoned sy
  | (SyncPhase, sy, lock) => lock = false /\
      (sync_phase sy = SyncingState -> is_Some sy.(Synchronizer.finalize_state))
  end.

(** The phases agree after the run unless it panics. *)
Definition respects {X} (m : handler X) : Prop :=
  forall s, agrees (seen s) -> (m s).(r_out) <> Panic -> agrees (seen (m s).(r_st)).

Lemma keeps_respects {X} (m : handler X) : keeps seen m -> respects m.
Proof. intros Hm s Hs _. by rewrite Hm. Qed.

Lemma respects_bind {X Y} (m : handler X) (k : X -> handler Y) : respects m -> (forall x, respects (k x)) -> respects (m ≫= k).
Proof.
  intros Hm Hk s Hs. specialize (Hm s Hs). unfold mbind, M_bind, bind. destruct (m s) as [[x|e|] s1 w]; cbn [r_out r_st] in *; [|intros _; by apply Hm|by intros []].
  intros Hok. apply Hk; [by apply Hm|exact Hok].
Qed.

Lemma switch_run new s :
  exists s', switch_phase new s = mkRun (Ok tt) s' [] /\ s'.(phase) = new /\ synchronizer s' = synchronizer s /\
    lock_of (consensus s') = match s.(phase), new with NormalPhase, SyncPhase => false | _, _ => lock_of (consensus s) end.
Proof.
  unfold switch_phase. run. destruct (decide (new = s.(phase))) as [->|Hne].
  - eexists. split; [reflexivity|]. cbn. by destruct (phase s).
  - destruct (phase s) eqn:Hp; eexists; (split; [reflexivity|]); cbn; destruct new; done.
Qed.

Lemma expect_case {S W X} (m : M S W Error X) s :
  (exists x, m s = mkRun (Ok x) (m s).(r_st) (m s).(r_eff) /\
     Synchronizer.expect m s = mkRun (Ok x) (m s).(r_st) (m s).(r_eff)) \/
  (Synchronizer.expect m s).(r_out) = Panic.
Proof. unfold Synchronizer.expect. destruct (m s) as [[x|e|] s' ws]; cbn; eauto. Qed.

Lemma on_sync_expect {X} (m : M Synchronizer.t Effect Error X) s :
  (exists x sy' eff, m (synchronizer s) = mkRun (Ok x) sy' eff /\
     on_synchronizer (Synchronizer.expect m) s = mkRun (Ok x) (set_world (Synchronizer.set_sync sy' s.(world)) s) eff) \/
  (on_synchronizer (Synchronizer.expect m) s).(r_out) = Panic.
Proof.
  unfold on_synchronizer, on_world, Synchronizer.on_sync, zoom. change (Synchronizer.w_sync (world s)) with (synchronizer s).
  destruct (expect_case m (synchronizer s)) as [(x & Hrun & He)|He]; rewrite He; [left|by right]. eexists x, _, _. by split.
Qed.

Section handlers.
Context (me : NodeId) (rng : nat -> N) (pp : PreProcessor).

(** A message goes to the synchronizer, which is woken up. *)
Lemma sync_message_case m s :
  (exists st w' eff, PBFTOrderProtocol.sync_message me rng pp m s =
     mkRun (Ok st) (set_world (Synchronizer.set_sync (Synchronizer.signal w'.(w_sync)) w') s) eff /\
     Synchronizer.process_message me rng pp m s.(world) = mkRun (Ok st) w' eff) \/
  (PBFTOrderProtocol.sync_message me rng pp m s).(r_out) = Panic.
Proof.
  unfold PBFTOrderProtocol.sync_message.
  destruct (expect_case (Synchronizer.process_message me rng pp m) s.(world)) as [(st & Hrun & He)|He].
  - left. eexists st, _, _. split; [|exact Hrun].
    assert (on_world (Synchronizer.expect (Synchronizer.process_message me rng pp m)) s =
      mkRun (Ok st) (set_world (Synchronizer.process_message me rng pp m s.(world)).(r_st) s)
        (Synchronizer.process_message me rng pp m s.(world)).(r_eff)) as E by (unfold on_world, zoom; by rewrite He).
    rewrite (bind_Ok _ _ _ _ _ _ E). unfold prepend. cbn. by rewrite app_nil_r.
  - right. unfold mbind, M_bind, bind, on_world, zoom. by rewrite He.
Qed.

Lemma message_not_resting m w st w' eff :
  Synchronizer.process_message me rng pp m w = mkRun (Ok st) w' eff -> sync_phase w.(w_sync) <> SyncingState.
Proof.
  intros Hrun Hph. unfold Synchronizer.process_message in Hrun. apply bind_inv in Hrun as (vc & ? & ? & ? & Hvc & Hrun & ->).
  apply lift_inv in Hvc as (_ & -> & ->). apply bind_inv in Hrun as (w0 & ? & ? & ? & H0 & Hrun & ->). inv_run H0.
  by rewrite Hph in Hrun.
Qed.

(** [s'] is [s] after the synchronizer was handed a message and is on its way out of the view. *)
Definition moving (s s' : t) : Prop :=
  s'.(phase) = s.(phase) /\ sync_phase (synchronizer s') <> SyncingState /\ lock_of (consensus s') = lock_of (consensus s).

Lemma moving_switch s s' : agrees (seen s) -> moving s s' -> agrees (seen (switch_phase SyncPhase s').(r_st)).
Proof.
  intros Hs (Hp & Hns & Hl). destruct (switch_run SyncPhase s') as (s2 & -> & Hp2 & Hs2 & Hl2). cbn [r_st].
  unfold seen in *. rewrite Hp2, Hs2, Hl2, Hp, Hl. cbn. split; [|done]. destruct (phase s); [done|]. apply Hs.
Qed.

Lemma adv_sync_case m s :
  agrees (seen s) -> (adv_sync me rng pp m s).(r_out) <> Panic ->
  exists res s' eff, adv_sync me rng pp m s = mkRun (Ok res) s' eff /\
    match res with RunSyncProtocol => moving s s' | _ => agrees (seen s') end.
Proof.
  intros Hs. unfold adv_sync.
  destruct (sync_message_case m s) as [(st & w' & eff & E & Hrun)|E]; [|unfold mbind, M_bind, bind; rewrite E; by intros []].
  rewrite (bind_Ok _ _ _ _ _ _ E). pose proof (message_not_resting _ _ _ _ _ Hrun) as Hns.
  set (s1 := set_world _ s).
  assert (forall new, exists s', switch_phase new s1 = mkRun (Ok tt) s' [] /\ s'.(phase) = new /\
    synchronizer s' = synchronizer s1 /\ lock_of (consensus s') =
      match s.(phase), new with NormalPhase, SyncPhase => false | _, _ => lock_of (consensus s1) end) as Hsw
    by (intros new; exact (switch_run new s1)).
  apply message_outcome in Hrun. clear E. destruct Hrun as [st w' [-> | ->] Hc Hns' Hl|w' Hc Hph Hfin _|st w' cs d n [-> | ->] Hph _].
  - intros _. eexists _, s1, _. split; [reflexivity|]. unfold seen, synchronizer, consensus in *. cbn in *. rewrite Hc.
    destruct (phase s); [|split; [apply Hs|done]]. destruct Hs as [Hs|[Hs _]]; [|done]. left. by apply Hl.
  - intros _. eexists _, s1, _. split; [reflexivity|]. unfold moving, synchronizer, consensus, s1. cbn. by rewrite Hc.
  - intros _. destruct (Hsw SyncPhase) as (s2 & E2 & Hp2 & Hs2 & Hl2). rewrite (bind_Ok_nil _ _ _ _ _ E2).
    eexists _, s2, _. split; [reflexivity|]. unfold seen. rewrite Hp2, Hs2, Hl2. cbn. unfold consensus in Hl2 |- *. cbn. rewrite Hc.
    split; [|by intros _]. unfold seen in Hs. destruct (phase s); [done|apply Hs].
  - intros _. destruct (Hsw NormalPhase) as (s2 & E2 & Hp2 & Hs2 & Hl2). rewrite (bind_Ok_nil _ _ _ _ _ E2).
    eexists _, s2, _. split; [reflexivity|]. unfold seen. rewrite Hp2, Hs2. cbn. left. cbn. by rewrite Hph.
  - intros _. destruct (Hsw NormalPhase) as (s2 & E2 & Hp2 & Hs2 & Hl2). rewrite (bind_Ok_nil _ _ _ _ _ E2).
    eexists _, s2, _. split; [reflexivity|]. unfold seen. rewrite Hp2, Hs2. cbn. left. cbn. by rewrite Hph.
Qed.

Lemma ret_respects {X} (x : X) : respects (ret x).
Proof. by intros s Hs _. Qed.
Lemma panic_respects {X} : respects (panic : handler X).
Proof. intros s _ []. done. Qed.

Lemma handle_polled_respects m : respects (handle_polled me rng pp m).
Proof.
  unfold handle_polled. destruct (message m); [apply panic_respects| |apply panic_respects]. intros s Hs Hok.
  unfold mbind, M_bind, bind in *.
  destruct (adv_sync_case m s Hs) as (res & s1 & eff & E & Hres); [intros Hp; by rewrite Hp in Hok|]. rewrite E in *. cbn [r_out r_st] in *.
  destruct res; try done. pose proof (moving_switch s s1 Hs Hres) as Hsw.
  destruct (switch_run SyncPhase s1) as (s2 & E2 & _). by rewrite E2 in *.
Qed.

Lemma update_normal_respects m : respects (update_normal_phase me rng pp m).
Proof.
  unfold update_normal_phase. destruct (message m); [|intros s Hs Hok|apply ret_respects].
  - apply keeps_respects, adv_consensus_seen.
  - unfold mbind, M_bind, bind in *.
    destruct (sync_message_case m s) as [(st & w' & eff & E & Hrun)|E]; [|rewrite E in *; by destruct Hok].
    rewrite E in *. cbn [r_out r_st] in *. pose proof (message_not_resting _ _ _ _ _ Hrun) as Hns.
    apply message_outcome in Hrun. clear E. destruct Hrun as [st w' [-> | ->] Hc Hns' Hl|w' Hc Hph Hfin _|st w' cs d n [-> | ->] Hph _]; try done.
    + unfold seen, synchronizer, consensus in *. cbn in *. rewrite Hc.
      destruct (phase s); [|split; [apply Hs|done]]. destruct Hs as [Hs|[Hs _]]; [|done]. left. by apply Hl.
    + set (s1 := set_world _ s) in *. assert (moving s s1) as Hm by (unfold moving, synchronizer, consensus, s1; cbn; by rewrite Hc).
      pose proof (moving_switch s s1 Hs Hm) as Hsw. destruct (switch_run SyncPhase s1) as (s2 & E2 & _). by rewrite E2 in *.
Qed.

Lemma moving_syncing s s' : s.(phase) = SyncPhase -> agrees (seen s) -> moving s s' -> agrees (seen s').
Proof. intros Hp Hs (Hp' & Hns & Hl). unfold seen in *. rewrite Hp', Hl, Hp in *. split; [apply Hs|done]. Qed.

Lemma update_sync_respects m s :
  s.(phase) = SyncPhase -> agrees (seen s) -> (update_sync_phase me rng pp m s).(r_out) <> Panic ->
  agrees (seen (update_sync_phase me rng pp m s).(r_st)).
Proof.
  intros Hp Hs. unfold update_sync_phase. destruct (message m); [|intros Hok|done].
  - intros _. set (m' := on_consensus _ ≫= _). assert (keeps seen m') as Hk by (subst m'; keep). by rewrite Hk.
  - match goal with |- context [adv_sync me rng pp m ≫= ?K] => assert (forall res, keeps seen (K res)) as Hk by (intros res; keep);
      set (k := K) in * end.
    clearbody k. unfold mbind, M_bind, bind in *.
    destruct (adv_sync_case m s Hs) as (res & s1 & eff & E & Hres); [intros E; by rewrite E in Hok|]. rewrite E in *. cbn [r_out r_st] in *.
    rewrite Hk. destruct res; try done. by eapply moving_syncing.
Qed.

Lemma process_respects m : respects (process_message me rng pp m).
Proof.
  unfold process_message. intros s Hs. run. destruct (phase s) eqn:Hp.
  - by apply update_normal_respects.
  - by apply update_sync_respects.
Qed.

(** *** Polling *)

Lemma extract_kept pr up (sy : Synchronizer.t) :
  sync_phase (Synchronizer.extract_msg pr up sy).2 = sync_phase sy /\
  (Synchronizer.extract_msg pr up sy).2.(Synchronizer.finalize_state) = sy.(Synchronizer.finalize_state) /\
  (Synchronizer.extract_msg pr up sy).1 <> ResumeViewChange.
Proof. unfold Synchronizer.extract_msg. by destruct (tbo_pop_message _) as [[]]. Qed.

Lemma protocol_poll_kept sy :
  let r := Synchronizer.poll sy in
  (listening (sync_phase sy) -> listening (sync_phase r.2)) /\
  (sync_phase r.2 = SyncingState <-> sync_phase sy = SyncingState) /\
  r.2.(Synchronizer.finalize_state) = sy.(Synchronizer.finalize_state) /\
  (r.1 = Ok ResumeViewChange -> sync_phase sy = SyncingState /\ r.2 = sy).
Proof.
  cbn zeta. unfold Synchronizer.poll. destruct (SyncTbo.get_queue _); [|by split_and!].
  destruct (sync_phase sy) as [|i|i|i|i|i| |] eqn:Hph.
  8: by split_and!.
  all: match goal with |- context [Synchronizer.extract_msg ?pr ?up ?s0] =>
    pose proof (extract_kept pr up s0) as (H1 & H2 & H3); destruct (Synchronizer.extract_msg pr up s0) as [[|x|] s1] end;
    cbn in H1, H2, H3; cbn [fst snd]; rewrite ?H1, ?Hph; try (split_and!; done).
  destruct (view_change _) as [vc| |]; cbn [fst snd]; rewrite ?H1, ?Hph; split_and!; try done; cbn; by destruct (vc_kind vc).
Qed.

Lemma agrees_kept ph sy sy' l :
  (listening (sync_phase sy) -> listening (sync_phase sy')) -> (sync_phase sy' = SyncingState <-> sync_phase sy = SyncingState) ->
  sy'.(Synchronizer.finalize_state) = sy.(Synchronizer.finalize_state) -> agrees (ph, sy, l) -> agrees (ph, sy', l).
Proof.
  intros Hl Hp Hf. destruct ph; cbn; unfold abandoned; rewrite Hf.
  - intros [?|[? ?]]; [by left; auto|right]. split; [by apply Hp|done].
  - intros [? Hw]. split; [done|]. intros ?%Hp. auto.
Qed.

(** Resuming ends the view change, one way or the other. *)
Lemma resume_respects s :
  agrees (seen s) -> sync_phase (synchronizer s) = SyncingState -> (resume_sync rng s).(r_out) <> Panic ->
  agrees (seen (resume_sync rng s).(r_st)).
Proof.
  intros Hs Hph. unfold resume_sync.
  match goal with |- context [on_world _ ≫= ?K] => set (k := K) end.
  assert (forall st w', (st = None \/ st = Some SyncRunning) /\ abandoned w'.(w_sync) \/ sync_phase w'.(w_sync) = InitPhase ->
    agrees (seen (k st (set_world w' s)).(r_st))) as Hk.
  { intros st w' Hst. subst k. cbn beta. destruct (switch_run NormalPhase (set_world w' s)) as (s2 & E2 & Hp2 & Hs2 & _).
    rewrite (bind_Ok_nil _ _ _ _ _ E2).
    match goal with |- agrees (seen (?M s2).(r_st)) => assert (keeps seen M) as -> by keep end.
    unfold seen. rewrite Hp2, Hs2. change (synchronizer (set_world w' s)) with w'.(w_sync).
    destruct Hst as [[_ ?]|Hin]; [by right|left; by rewrite Hin]. }
  intros Hok. unfold mbind, M_bind, bind, on_world, zoom in *.
  destruct (expect_case (Synchronizer.resume_view_change rng) s.(world)) as [(st & Hrun & He)|He]; [|rewrite He in *; by destruct Hok].
  rewrite He in *. cbn [r_out r_st] in *. apply Hk. clear Hk Hok He k.
  set (w' := (Synchronizer.resume_view_change rng (world s)).(r_st)) in *. clearbody w'.
  unfold Synchronizer.resume_view_change, Synchronizer.modify_sync, Synchronizer.on_sync in Hrun.
  apply bind_inv in Hrun as (w0 & ? & ? & ? & H0 & Hrun & _). inv_run H0.
  destruct (Synchronizer.finalize_state (w_sync (world s))) as [state|] eqn:Hfs.
  - apply bind_inv in Hrun as ([] & ? & ? & ? & H0 & Hrun & _). inv_run H0.
    apply bind_inv in Hrun as (st' & ? & ? & ? & H0 & Hrun & _). inv_run Hrun.
    apply finalize_view_change_case in H0 as [|[? ?]|st w'' moved s1 window cs Hf]; [left|done|right; apply Hf].
    split; [by right|]. done.
  - inv_run Hrun. left. split; [by left|]. by split.
Qed.

Lemma poll_sync_respects : respects (poll_sync_phase rng).
Proof.
  intros s Hs. unfold poll_sync_phase. match goal with |- context [on_synchronizer _ ≫= ?K] => set (k := K) end.
  pose proof (protocol_poll_kept (synchronizer s)) as (Hl & Hp & Hf & Hr). cbn zeta in *.
  unfold mbind, M_bind, bind, on_synchronizer, on_world, Synchronizer.on_sync, zoom.
  change (Synchronizer.w_sync (world s)) with (synchronizer s). destruct (Synchronizer.poll (synchronizer s)) as [out sy']. cbn [fst snd r_out r_st] in *.
  set (s1 := set_world _ s).
  assert (agrees (seen s1)) as Hs1 by (unfold seen, s1; cbn; by eapply agrees_kept).
  destruct out as [st|e|]; cbn [r_out r_st]; [|done..]. subst k. cbn beta.
  destruct st; [done..|]. destruct (Hr eq_refl) as [Hph ->]. intros Hok. apply resume_respects; [done| |exact Hok]. done.
Qed.

Lemma poll_normal_respects fuel : respects (poll_normal_phase me rng pp fuel).
Proof.
  induction fuel as [|fuel IH]; cbn [poll_normal_phase]; [apply ret_respects|]. intros s Hs. run.
  destruct (Synchronizer.can_process_stops _); [|by apply keeps_respects; [apply poll_consensus_seen|]].
  revert s Hs. apply respects_bind; [apply poll_sync_respects|]. intros []; try exact IH.
  apply respects_bind; [apply handle_polled_respects|]. intros r. apply ret_respects.
Qed.

Lemma poll_respects fuel : respects (poll me rng pp fuel).
Proof.
  unfold poll. intros s Hs. run. destruct (phase s); [by apply poll_normal_respects|].
  revert s Hs. apply respects_bind; [apply poll_sync_respects|]. intros r. apply ret_respects.
Qed.

(** *** Timeouts, execution, state transfer, reconfiguration *)

Lemma broadcast_run rqs (sy : Synchronizer.t) :
  exists eff, Synchronizer.handle_begin_view_change rqs sy = mkRun (Ok tt) sy eff.
Proof. unfold Synchronizer.handle_begin_view_change. run. eexists. reflexivity. Qed.

Lemma begin_run rqs (sy : Synchronizer.t) :
  exists sy' eff, Synchronizer.begin_view_change (Some rqs) sy = mkRun (Ok tt) sy' eff /\ sync_phase sy' <> SyncingState.
Proof.
  unfold Synchronizer.begin_view_change. run.
  assert (forall sy', exists eff, match Synchronizer.accessory sy with
    | FollowerRole => ret tt | ReplicaRole => Synchronizer.handle_begin_view_change (Some rqs) end sy' = mkRun (Ok tt) sy' eff) as Hb.
  { intros sy'. destruct (Synchronizer.accessory sy); [apply broadcast_run|by eexists]. }
  destruct (sync_phase sy) eqn:Hph; run;
    first [match goal with |- context [mkRun (Ok tt)] => idtac end; match goal with
      | |- exists _ _, match Synchronizer.accessory _ with _ => _ end ?x = _ /\ _ => destruct (Hb x) as [eff ->]; by eexists _, _
      end
    | eexists _, _; split; [reflexivity|]; by rewrite Hph].
Qed.

Lemma timeout_respects l : respects (handle_timeout pp l).
Proof.
  intros s Hs. unfold handle_timeout. run. destruct (Consensus.is_catching_up _); [done|].
  destruct (Synchronizer.client_requests_timed_out _ _) as [| | | | |fwd stp]; run; try done.
  match goal with |- context [(?M1 ≫= fun _ => ?M2) ≫= ?K] => assert (keeps seen M1) as Hk1; [|assert (respects M2) as H2] end.
  { destruct fwd; [apply keeps_ret|]. unfold propagate. keep. }
  { destruct stp as [|x stp]; [apply ret_respects|]. apply respects_bind; [unfold propagate; apply keeps_respects; keep|].
    intros rqs s1 Hs1 _. destruct (switch_run SyncPhase s1) as (s2 & E2 & Hp2 & Hy2 & Hl2). rewrite (bind_Ok_nil _ _ _ _ _ E2).
    destruct (begin_run rqs (synchronizer s2)) as (sy' & eff & Hrun & Hph).
    unfold on_synchronizer, on_world, Synchronizer.on_sync, zoom. change (Synchronizer.w_sync (world s2)) with (synchronizer s2).
    rewrite Hrun. unfold seen, consensus, synchronizer. cbn. rewrite Hp2. split; [|done].
    change (lock_of (consensus s2) = false). rewrite Hl2. unfold seen in Hs1. destruct (phase s1); [done|apply Hs1]. }
  refine (respects_bind _ _ _ _ s Hs); [|intros ?; apply ret_respects]. by apply respects_bind; [apply keeps_respects|].
Qed.

Lemma execution_respects b : respects (handle_execution_changed b).
Proof.
  intros s Hs _. unfold handle_execution_changed. destruct b; run.
  - unfold seen in *. destruct (phase s) eqn:Hp; cbn; rewrite Hp; exact Hs.
  - unfold seen in *. cbn. destruct (phase s); [exact Hs|]. split; [done|apply Hs].
Qed.

Lemma off_ctx_respects m : respects (handle_off_ctx_message m).
Proof.
  unfold handle_off_ctx_message. destruct (message m); [apply keeps_respects; keep| |apply panic_respects].
  intros s Hs Hok. unfold mbind, M_bind, bind in *.
  assert (forall sy', sync_phase sy' = sync_phase (synchronizer s) -> sy'.(Synchronizer.finalize_state) = (synchronizer s).(Synchronizer.finalize_state) ->
    agrees (seen (set_world (Synchronizer.set_sync sy' s.(world)) s))) as Hset.
  { intros sy' Hp Hf. unfold seen. cbn. eapply agrees_kept; [..|exact Hs]; by rewrite ?Hp. }
  clear Hok. unfold on_synchronizer, on_world, Synchronizer.on_sync, Synchronizer.queue, zoom. cbn [r_st r_out].
  destruct (SyncTbo.queue m _) as [[] q e]; cbn [r_st r_out]; exact (Hset _ eq_refl eq_refl).
Qed.

Lemma received_run v (sy : Synchronizer.t) b sy' (eff : list Effect) :
  Synchronizer.received_view_from_state_transfer v sy = mkRun (Ok b) sy' eff ->
  sy'.(Synchronizer.finalize_state) = sy.(Synchronizer.finalize_state) /\
  if b then sync_phase sy' <> SyncingState else sync_phase sy' = sync_phase sy \/ sync_phase sy' = InitPhase.
Proof.
  intros (Hf & _ & _ & Hp)%SyncFacts.received_view_kept. split; [done|]. destruct b; [by destruct Hp as [-> | ->]|exact Hp].
Qed.

Lemma install_view_respects v : respects (install_view v).
Proof.
  intros s Hs. unfold install_view. run. destruct (sn_index _ _) as [e|[|n]]; [done..|].
  refine (respects_bind _ _ _ _ s Hs); [apply keeps_respects; keep|]. clear s Hs. intros _ s Hs Hok.
  destruct (on_sync_expect (Synchronizer.received_view_from_state_transfer v) s) as [(b & sy' & eff & Hrun & E)|E].
  2: { unfold mbind, M_bind, bind in Hok. rewrite E in Hok. by destruct Hok. }
  clear Hok. rewrite (bind_Ok _ _ _ _ _ _ E). cbn [r_st prepend]. apply received_run in Hrun as [Hf Hp].
  set (s1 := set_world _ s). destruct b; cbn [r_st].
  - destruct (switch_run SyncPhase s1) as (s2 & -> & Hp2 & Hy2 & Hl2). cbn [r_st]. unfold seen. rewrite Hp2, Hy2, Hl2.
    split; [|done]. unfold seen in Hs. cbn. destruct (phase s); [done|apply Hs].
  - unfold seen in *. cbn. destruct Hp as [Hp|Hp].
    + eapply agrees_kept; [..|exact Hs]; by rewrite ?Hp.
    + destruct (phase s); cbn; rewrite Hp; [by left|]. split; [apply Hs|done].
Qed.

Lemma join_run n (sy : Synchronizer.t) r sy' eff :
  Synchronizer.start_join_quorum me n sy = mkRun (Ok r) sy' eff ->
  (sync_phase sy' = sync_phase sy /\ sy'.(Synchronizer.finalize_state) = sy.(Synchronizer.finalize_state)) \/
  sync_phase sy' = ViewStopping2 0.
Proof.
  unfold Synchronizer.start_join_quorum. intros Hrun. inv_run Hrun. rest_as Hrun. destruct (decide _); [inv_run Hrun; auto|].
  destruct (sync_phase sy) eqn:Hph; try (inv_run Hrun; by left);
    [|destruct (Synchronizer.currently_adding_node sy); inv_run Hrun; by left..].
  destruct (decide _); [done|]. right. unfold Synchronizer.begin_quorum_view_change, Synchronizer.handle_begin_quorum_view_change in Hrun.
  inv_run Hrun. rest_as Hrun. rewrite Hph in Hrun. inv_run Hrun. rest_as Hrun. destruct (Synchronizer.accessory sy); by inv_run Hrun.
Qed.

Lemma node_join_respects n : respects (attempt_quorum_node_join me n).
Proof.
  unfold attempt_quorum_node_join. apply respects_bind; [|intros r; apply keeps_respects; keep]. intros s Hs Hok.
  destruct (on_sync_expect (Synchronizer.start_join_quorum me n) s) as [(r & sy' & eff & Hrun & E)|E]; rewrite ?E in *; [|done].
  apply join_run in Hrun.
  unfold seen in *. cbn. destruct Hrun as [[Hp Hf]|Hp].
  - eapply agrees_kept; [..|exact Hs]; by rewrite ?Hp.
  - destruct (phase s); cbn; rewrite Hp; [by left|]. split; [apply Hs|done].
Qed.

Lemma joining_run (sy : Synchronizer.t) r sy' eff :
  Synchronizer.attempt_join_quorum me sy = mkRun (Ok r) sy' eff ->
  (r = AlreadyPartOfQuorum /\ sy' = sy) \/ (r = InProgress /\ sync_phase sy' <> SyncingState).
Proof.
  unfold Synchronizer.attempt_join_quorum. intros Hrun. inv_run Hrun. rest_as Hrun. destruct (decide _); [inv_run Hrun; auto|].
  destruct (decide _); inv_run Hrun; auto. right. split; [done|]. cbn. by destruct (decide _).
Qed.

Lemma joining_respects : respects (joining_quorum me).
Proof.
  unfold joining_quorum. intros s Hs Hok.
  destruct (on_sync_expect (Synchronizer.attempt_join_quorum me) s) as [(r & sy' & eff & Hrun & E)|E].
  2: { unfold mbind, M_bind, bind in Hok. rewrite E in Hok. by destruct Hok. }
  clear Hok. rewrite (bind_Ok _ _ _ _ _ _ E). cbn [r_st prepend]. set (s1 := set_world _ s).
  apply joining_run in Hrun as [[-> ->]|[-> Hp]].
  - exact Hs.
  - destruct (switch_run SyncPhase s1) as (s2 & E2 & Hp2 & Hy2 & Hl2). rewrite (bind_Ok_nil _ _ _ _ _ E2). cbn [r_st ret].
    unfold seen. rewrite Hp2, Hy2, Hl2. split; [|done]. unfold seen in Hs. cbn. destruct (phase s); [done|apply Hs].
Qed.
End handlers.

(** ** Executions *)

(** The calls the layers above make on the replica [me] in its view, until one panics. *)
Inductive called (me : NodeId) (s : t) : t -> Prop :=
  | call_message rng pp m : (process_message me rng pp m s).(r_out) <> Panic ->
      called me s (process_message me rng pp m s).(r_st)
  | call_poll rng pp fuel : (poll me rng pp fuel s).(r_out) <> Panic -> called me s (poll me rng pp fuel s).(r_st)
  | call_off_ctx m : (handle_off_ctx_message m s).(r_out) <> Panic -> called me s (handle_off_ctx_message m s).(r_st)
  | call_timeout pp l : (handle_timeout pp l s).(r_out) <> Panic -> called me s (handle_timeout pp l s).(r_st)
  | call_execution b : called me s (handle_execution_changed b s).(r_st)
  | call_seq_no n : (install_seq_no n s).(r_out) <> Panic -> called me s (install_seq_no n s).(r_st)
  | call_join n : (attempt_quorum_node_join me n s).(r_out) <> Panic -> called me s (attempt_quorum_node_join me n s).(r_st)
  | call_joining : (joining_quorum me s).(r_out) <> Panic -> called me s (joining_quorum me s).(r_st).

Inductive lives (me : NodeId) : t -> Prop :=
  | lives_init watermark quorum s : initialize_protocol me watermark quorum = Ok s -> lives me s
  | lives_call s s' : lives me s -> called me s s' -> lives me s'
  | lives_view s v : lives me s -> (install_view v s).(r_out) <> Panic -> lives me (install_view v s).(r_st).

Lemma initialize_agrees me watermark quorum s : initialize_protocol me watermark quorum = Ok s -> agrees (seen s).
Proof.
  intros Hi. unfold initialize_protocol, Synchronizer.initialize_with_quorum in Hi.
  destruct (ViewInfo.from_quorum _ _) as [v| |]; [|done..]. injection Hi as <-. by left.
Qed.

Lemma called_agrees me s s' : agrees (seen s) -> called me s s' -> agrees (seen s').
Proof.
  intros IH Hc. destruct Hc.
  - by apply process_respects.
  - by apply poll_respects.
  - by apply off_ctx_respects.
  - by apply timeout_respects.
  - apply execution_respects; [done|]. unfold handle_execution_changed. destruct b; run; by destruct (phase s).
  - unfold install_seq_no. apply keeps_respects; [keep|done..].
  - by apply node_join_respects.
  - by apply joining_respects.
Qed.

Lemma lives_agrees me s : lives me s -> agrees (seen s).
Proof.
  induction 1 as [watermark quorum s Hi|s s' _ IH Hc|s v _ IH Hok].
  - by eapply initialize_agrees.
  - by eapply called_agrees.
  - by apply install_view_respects.
Qed.

(** C17. Whatever the layers above call, the two state machines of a replica agree on its phase: during a view change the
    proposer is locked out, and a view change that waits for the state transfer has its
    state; in the normal phase the synchronizer is only counting STOP messages, or a view change
    was given up on the way. *)
Theorem phases_agree me s :
  lives me s ->
  match s.(phase) with
  | SyncPhase => lock_of (consensus s) = false /\
      (sync_phase (synchronizer s) = SyncingState -> is_Some (synchronizer s).(Synchronizer.finalize_state))
  | NormalPhase => listening (sync_phase (synchronizer s)) \/ abandoned (synchronizer s)
  end.
Proof. intros Hl. apply lives_agrees in Hl. unfold seen in Hl. by destruct (phase s). Qed.

(** In the normal phase no view change message makes the replica reach the branch of [update_normal_phase] for statuses that
    should not happen: if handling it panics, it is the synchronizer that panics. *)
Theorem normal_phase_reachable me rng pp m s vc :
  lives me s -> s.(phase) = NormalPhase -> message m = ViewChange vc ->
  (Synchronizer.process_message me rng pp m s.(world)).(r_out) <> Panic ->
  (forall e, (Synchronizer.process_message me rng pp m s.(world)).(r_out) <> Err e) ->
  exists s' eff, process_message me rng pp m s = mkRun (Ok MessageProcessedNoUpdate) s' eff.
Proof.
  intros Hl Hp Hm Hok Herr. apply lives_agrees in Hl. unfold process_message, update_normal_phase. run. rewrite Hp, Hm.
  destruct (sync_message_case me rng pp m s) as [(st & w' & eff & E & Hrun)|E].
  - rewrite (bind_Ok _ _ _ _ _ _ E). unfold seen in Hl. rewrite Hp in Hl. cbn in Hl.
    pose proof (message_not_resting _ _ _ _ _ _ _ _ Hrun) as Hns.
    assert (listening (sync_phase (synchronizer s))) as Hlis by (destruct Hl as [?|[? _]]; done).
    apply message_outcome in Hrun. clear E. destruct Hrun as [st w' [-> | ->] Hc Hns' _|w' Hc Hph Hfin Hn|st w' cs d n [-> | ->] Hph Hn]; try done.
    + by eexists _, _.
    + set (s1 := set_world _ s). destruct (switch_run SyncPhase s1) as (s2 & E2 & _). rewrite (bind_Ok_nil _ _ _ _ _ E2).
      by eexists _, _.
  - exfalso. unfold PBFTOrderProtocol.sync_message, mbind, M_bind, bind, on_world, zoom, Synchronizer.expect in E.
    destruct (Synchronizer.process_message me rng pp m (world s)) as [[st|e|] w' eff]; [|by destruct (Herr e)|by destruct Hok].
    done.
Qed.
End phases.
End ProtocolPhases.
