(* ===== verification/ProtocolPolling.v ===== *)
(** * Polling the ordering protocol

    In the normal phase [poll] first works off STOP messages, in a loop that ends because the
    synchronizer hands out a message whenever it has one, unless a view change was given up after a state transfer. *)
From S2P Require Import Prelude Atlas Errors View Messages Decisions Deciding Log Network.
From S2P Require Import SyncAccessory Accessory Decision Progress Consensus ConsensusFacts Sync SyncFacts Protocol ProtocolFacts ProtocolPhases.

Import PBFTOrderProtocol ProtocolPhases.

Module ProtocolPolling.
Section polling.
Context {A : Atlas} {D : AtlasDecisions} {WF : WireFormat} {IO : IterationOrder} {SG : Signatures} {L : AtlasLaws}.

Abbreviation handler := (M t Effect Error).
Abbreviation w_sync := Synchronizer.w_sync.
Abbreviation sync_phase := Synchronizer.phase.

(** ** The wake-up flag of the synchronizer *)

Definition flag_of (w : Synchronizer.World) : bool := w.(w_sync).(Synchronizer.tbo).(SyncTbo.get_queue).
Definition wake (s : t) : bool := flag_of s.(world).

Lemma seen_wake {X} (m : handler X) : keeps seen m -> keeps wake m.
Proof.
  intros Hm s. specialize (Hm s). unfold wake, flag_of. unfold seen in Hm. injection Hm as _ Hs _.
  change (w_sync (world (r_st (m s)))) with (synchronizer (r_st (m s))). by rewrite Hs.
Qed.

Lemma switch_wake new : keeps wake (switch_phase new).
Proof.
  intros s. unfold wake, flag_of. destruct (switch_run new s) as (s' & -> & _ & Hs & _). cbn.
  change (w_sync (world s')) with (synchronizer s'). by rewrite Hs.
Qed.

Lemma iter_flag k q : SyncTbo.get_queue (Nat.iter k SyncTbo.next_instance_queue q) = SyncTbo.get_queue q.
Proof. induction k as [|k IH]; [done|]. cbn. exact IH. Qed.
Lemma advance_flag : keeps SyncTbo.get_queue (SyncTbo.advance (W := Effect)).
Proof. unfold SyncTbo.advance, SyncTbo.install_view. keep. apply keeps_modify. intros q. by rewrite iter_flag. Qed.

Lemma on_sync_flag {X} (m : M Synchronizer.t Effect Error X) :
  keeps (fun s => s.(Synchronizer.tbo).(SyncTbo.get_queue)) m -> keeps flag_of (Synchronizer.on_sync m).
Proof. intros Hm w. unfold flag_of, Synchronizer.on_sync, zoom. cbn. apply Hm. Qed.
Lemma modify_sync_flag f :
  (forall s, (f s).(Synchronizer.tbo).(SyncTbo.get_queue) = s.(Synchronizer.tbo).(SyncTbo.get_queue)) ->
  keeps flag_of (Synchronizer.modify_sync f).
Proof. intros Hf. apply on_sync_flag. by apply keeps_modify. Qed.
Lemma advance_view_flag : keeps flag_of (Synchronizer.on_sync Synchronizer.advance_view).
Proof.
  apply on_sync_flag. intros s. unfold Synchronizer.advance_view, zoom. cbn. apply advance_flag.
Qed.
Lemma on_consensus_flag {X} (m : M Consensus.t Effect Error X) : keeps flag_of (Synchronizer.on_consensus m).
Proof. done. Qed.
Lemma catch_up_flag {X} (m : M (Consensus.t * Log.t) Effect Error X) :
  keeps flag_of (zoom (fun w => (w.(Synchronizer.w_consensus), w.(Synchronizer.w_log))) Synchronizer.set_decided m).
Proof. done. Qed.
#[local] Hint Resolve advance_view_flag on_consensus_flag catch_up_flag : keeps.

Lemma finalize_flag rng state : keeps flag_of (Synchronizer.finalize rng state).
Proof.
  unfold Synchronizer.finalize. keep; apply modify_sync_flag; done.
Qed.
#[local] Hint Resolve finalize_flag : keeps.
Lemma resume_flag rng : keeps flag_of (Synchronizer.resume_view_change rng).
Proof.
  unfold Synchronizer.resume_view_change, Synchronizer.finalize_view_change. keep; apply modify_sync_flag; done.
Qed.

(** [m] leaves the flag set. *)
Definition wakes {X} (m : handler X) : Prop := forall s, (m s).(r_out) <> Panic -> wake (m s).(r_st) = true.

Lemma wakes_bind {X Y} (m : handler X) (k : X -> handler Y) : wakes m -> (forall x, keeps wake (k x)) -> wakes (m ≫= k).
Proof.
  intros Hm Hk s. specialize (Hm s). unfold mbind, M_bind, bind. destruct (m s) as [[x|e|] s1 w]; cbn [r_out r_st] in *.
  - intros _. rewrite Hk. by apply Hm.
  - intros _. by apply Hm.
  - by intros [].
Qed.

#[local] Hint Resolve switch_wake : keeps.
Lemma sync_result_wake st d : keeps wake (handle_sync_result st d).
Proof. apply seen_wake, handle_sync_result_seen. Qed.
#[local] Hint Resolve sync_result_wake : keeps.

Section handlers.
Context (me : NodeId) (rng : nat -> N) (pp : PreProcessor).

Lemma sync_message_wakes m : wakes (PBFTOrderProtocol.sync_message me rng pp m).
Proof. intros s Hok. by destruct (sync_message_case me rng pp m s) as [(st & w' & eff & -> & _)|E]. Qed.
Lemma adv_sync_wakes m : wakes (adv_sync me rng pp m).
Proof. unfold adv_sync. apply wakes_bind; [apply sync_message_wakes|]. intros st. keep. Qed.
Lemma handle_polled_wakes m : wakes (handle_polled me rng pp m).
Proof.
  unfold handle_polled. destruct (message m); [by intros s []| |by intros s []]. apply wakes_bind; [apply adv_sync_wakes|].
  intros r. keep.
Qed.
Lemma resume_wake : keeps wake (resume_sync rng).
Proof.
  unfold resume_sync. apply keeps_bind; [|intros st; keep]. intros s. unfold wake, on_world, zoom. cbn. apply resume_flag.
Qed.

(** ** The loop ends *)

(** In the normal phase STOP messages that wait, for whatever view, come with the flag set. *)
Definition steady (s : t) : Prop :=
  s.(phase) = NormalPhase -> wake s = true \/ (synchronizer s).(Synchronizer.tbo).(SyncTbo.stop) = [].

Lemma steady_wake s : wake s = true -> steady s.
Proof. intros Hw _. by left. Qed.

Lemma steady_stops s :
  steady s -> s.(phase) = NormalPhase -> Synchronizer.can_process_stops (synchronizer s) = true -> wake s = true.
Proof.
  intros Hs Hp. destruct (Hs Hp) as [|Hq]; [done|].
  unfold Synchronizer.can_process_stops, SyncTbo.can_process_stops. by rewrite Hq.
Qed.

Lemma steady_seen {X} (m : handler X) s : keeps seen m -> steady s -> steady (m s).(r_st).
Proof.
  intros Hm Hs. pose proof (seen_wake m Hm s) as Hw. specialize (Hm s). unfold seen in Hm. injection Hm as Hp Hy _.
  unfold steady. by rewrite Hp, Hy, Hw.
Qed.

(** A synchronizer that listens and has a STOP message hands it out. *)
Lemma poll_stop sy :
  listening (sync_phase sy) -> sy.(Synchronizer.tbo).(SyncTbo.get_queue) = true -> Synchronizer.can_process_stops sy = true ->
  exists m, (exists sy', Synchronizer.poll sy = (Ok (SyncNextMessage m), sy')) \/ (Synchronizer.poll sy).1 = Panic.
Proof.
  intros Hl Hq Hc. unfold Synchronizer.poll. rewrite Hq. unfold Synchronizer.can_process_stops, SyncTbo.can_process_stops, SyncTbo.front_non_empty in Hc.
  destruct (SyncTbo.stop (Synchronizer.tbo sy)) as [|[|m b] q] eqn:E; [done..|]. exists m.
  assert (forall up, Synchronizer.extract_msg SyncTbo.stop up sy = (SyncNextMessage m, Synchronizer.on_tbo (up (b :: q)) sy)) as Hx.
  { intros up. unfold Synchronizer.extract_msg. by rewrite E, tbo_pop_some. }
  destruct (sync_phase sy); try done; rewrite Hx; [|by left; eexists..].
  unfold view_change. destruct (message m); [by right| |by right]. left. by eexists.
Qed.

Lemma poll_sync_stop s :
  listening (sync_phase (synchronizer s)) -> wake s = true -> Synchronizer.can_process_stops (synchronizer s) = true ->
  (exists m s', poll_sync_phase rng s = mkRun (Ok (PollExec m)) s' []) \/ (poll_sync_phase rng s).(r_out) = Panic.
Proof.
  intros Hl Hq Hc. destruct (poll_stop (synchronizer s) Hl Hq Hc) as (m & Hm).
  unfold poll_sync_phase, mbind, M_bind, bind, on_synchronizer, on_world, Synchronizer.on_sync, zoom.
  change (w_sync (world s)) with (synchronizer s). destruct Hm as [(sy' & ->)|Hm]; [left; by eexists m, _|right].
  by destruct (Synchronizer.poll (synchronizer s)) as [[] ?].
Qed.

(** What [steady] looks at. *)
Definition queues (s : t) : ConsensusPhase * SyncTbo.t := (s.(phase), (synchronizer s).(Synchronizer.tbo)).

Lemma steady_queues s s' : queues s' = queues s -> steady s -> steady s'.
Proof.
  unfold queues, steady, wake, flag_of. intros [= -> Ht].
  change (w_sync (world s')) with (synchronizer s'). change (w_sync (world s)) with (synchronizer s). by rewrite Ht.
Qed.

Lemma seen_queues {X} (m : handler X) : keeps seen m -> keeps queues m.
Proof. intros Hm s. specialize (Hm s). unfold seen, queues in *. by injection Hm as -> -> _. Qed.

Lemma syncing_steady s : s.(phase) = SyncPhase -> steady s.
Proof. unfold steady. by intros ->. Qed.

Lemma process_steady m s :
  steady s -> (process_message me rng pp m s).(r_out) <> Panic -> steady (process_message me rng pp m s).(r_st).
Proof.
  intros Hs. unfold process_message. run. destruct (phase s) eqn:Hp.
  - unfold update_normal_phase. destruct (message m) eqn:Hm; [|intros Hok; apply steady_wake|done].
    + intros _. apply steady_seen; [apply adv_consensus_seen|done].
    + refine (wakes_bind _ _ _ _ s Hok); [apply sync_message_wakes|]. intros st. keep.
  - unfold update_sync_phase. destruct (message m) eqn:Hm; [|intros Hok; apply steady_wake|done].
    + intros _. set (m' := on_consensus _ ≫= _). apply (steady_seen m'); [|done].
      subst m'. apply keeps_bind; [apply on_consensus_seen, queue_lock|done].
    + refine (wakes_bind _ _ _ _ s Hok); [apply adv_sync_wakes|]. intros st. keep.
Qed.

(** The message of the synchronizer is handled, or there is none and a view change is resumed. *)
Lemma poll_sync_cases s :
  (poll_sync_phase rng s).(r_out) <> Panic ->
  (poll_sync_phase rng s).(r_st).(phase) = s.(phase) \/
  (wake s = true /\ poll_sync_phase rng s = resume_sync rng s).
Proof.
  intros Hok. unfold poll_sync_phase in *.
  pose proof (protocol_poll_kept (synchronizer s)) as (_ & _ & _ & Hr). cbn zeta in Hr.
  assert (forall st, (Synchronizer.poll (synchronizer s)).1 = Ok st -> st = ResumeViewChange -> wake s = true) as Hw.
  { intros st Hst ->. revert Hst. unfold Synchronizer.poll, wake, flag_of. change (w_sync (world s)) with (synchronizer s).
    by destruct (SyncTbo.get_queue _). }
  match goal with |- context [on_synchronizer ?M ≫= ?K] => set (k := K) in *; assert (on_synchronizer M s =
    mkRun (Synchronizer.poll (synchronizer s)).1 (set_world (Synchronizer.set_sync (Synchronizer.poll (synchronizer s)).2 s.(world)) s) []) as E end.
  { unfold on_synchronizer, on_world, Synchronizer.on_sync, zoom. change (w_sync (world s)) with (synchronizer s).
    by destruct (Synchronizer.poll (synchronizer s)). }
  unfold mbind, M_bind, bind in *. rewrite E in *. cbn [r_out r_st] in *.
  destruct (Synchronizer.poll (synchronizer s)) as [[st|e|] sy']; cbn [fst snd r_out r_st] in *; [|by left..].
  destruct st; [by left..|]. right. split; [by eapply Hw|]. destruct (Hr eq_refl) as [_ ->].
  subst k. cbn beta. unfold set_world. replace (Synchronizer.set_sync _ _) with s.(world); [|by destruct s as [? []]].
  replace (mk s.(phase) s.(world)) with s by (by destruct s). by destruct (resume_sync rng s).
Qed.

(** With nothing left to resume, resuming changes nothing. *)
Lemma abandoned_stuck s :
  s.(phase) = NormalPhase -> abandoned (synchronizer s) -> wake s = true ->
  poll_sync_phase rng s = mkRun (Ok PollRePoll) s [].
Proof.
  intros Hp [Hph Hf] Hw. unfold poll_sync_phase. destruct s as [ph [sy c l]]. cbn in Hp, Hph, Hf, Hw. subst ph.
  match goal with |- (on_synchronizer ?M ≫= ?K) ?S = _ => assert (on_synchronizer M S = mkRun (Ok ResumeViewChange) S []) as E end.
  { unfold on_synchronizer, on_world, Synchronizer.on_sync, zoom, Synchronizer.poll. cbn. unfold wake, flag_of in Hw. cbn in Hw. by rewrite Hw, Hph. }
  rewrite (bind_Ok_nil _ _ _ _ _ E). unfold resume_sync.
  match goal with |- (on_world ?M ≫= ?K) ?S = _ => assert (on_world M S = mkRun (Ok None) S []) as E2 end.
  { unfold on_world, zoom, Synchronizer.expect, Synchronizer.resume_view_change. run. cbn [Synchronizer.w_sync world]. by rewrite Hf. }
  rewrite (bind_Ok_nil _ _ _ _ _ E2). done.
Qed.

Lemma poll_normal_steady fuel : forall s,
  s.(phase) = NormalPhase -> agrees (seen s) -> steady s -> (poll_normal_phase me rng pp fuel s).(r_out) <> Panic ->
  steady (poll_normal_phase me rng pp fuel s).(r_st).
Proof.
  induction fuel as [|fuel IH]; intros s Hp Ha Hs; cbn [poll_normal_phase]; [done|]. run.
  destruct (Synchronizer.can_process_stops (synchronizer s)) eqn:Hc.
  2: { intros _. apply steady_seen; [apply poll_consensus_seen|done]. }
  pose proof (steady_stops s Hs Hp Hc) as Hw. pose proof Ha as Ha'. unfold seen in Ha'. rewrite Hp in Ha'. destruct Ha' as [Hl|Hab].
  - destruct (poll_sync_stop s Hl Hw Hc) as [(m & s' & E)|E].
    + rewrite (bind_Ok_nil _ _ _ _ _ E). intros Hok. apply steady_wake.
      refine (wakes_bind _ _ _ _ s' Hok); [apply handle_polled_wakes|]. intros r. keep.
    + unfold mbind, M_bind, bind. rewrite E. by intros [].
  - rewrite (bind_Ok_nil _ _ _ _ _ (abandoned_stuck s Hp Hab Hw)). by apply IH.
Qed.

Lemma poll_steady fuel s :
  agrees (seen s) -> steady s -> (poll me rng pp fuel s).(r_out) <> Panic -> steady (poll me rng pp fuel s).(r_st).
Proof.
  intros Ha Hs. unfold poll. run. destruct (phase s) eqn:Hp; [by apply poll_normal_steady|]. intros Hok.
  assert ((poll_sync_phase rng s).(r_out) <> Panic /\ ((poll_sync_phase rng ≫= fun r => ret (Some r)) s).(r_st) =
    (poll_sync_phase rng s).(r_st)) as [Hok1 ->].
  { unfold mbind, M_bind, bind in *. by destruct (poll_sync_phase rng s) as [[] ? ?]. }
  destruct (poll_sync_cases s Hok1) as [Hph|[Hw E]]; [apply syncing_steady; congruence|].
  apply steady_wake. rewrite E. by rewrite resume_wake.
Qed.

Lemma timeout_steady l s : steady s -> steady (handle_timeout pp l s).(r_st).
Proof.
  intros Hs. unfold handle_timeout. run. destruct (Consensus.is_catching_up _); [done|].
  destruct (Synchronizer.client_requests_timed_out _ _) as [| | | | |fwd stp]; run; try done.
  match goal with |- context [(?M1 ≫= fun _ => ?M2) ≫= ?K] => set (m1 := M1); set (m2 := M2) end.
  assert (keeps seen m1) as Hk1 by (subst m1; destruct fwd; [apply keeps_ret|]; unfold propagate; keep).
  assert (forall s, steady s -> steady (m2 s).(r_st)) as H2.
  { clear s Hs m1 Hk1. intros s Hs. subst m2. destruct stp as [|x stp]; [done|]. unfold propagate.
    destruct (clone_pending_rqs _ _) as [e|rqs]; run; [done|].
    destruct (switch_run SyncPhase s) as (s2 & E2 & Hp2 & _). rewrite (bind_Ok_nil _ _ _ _ _ E2). by apply syncing_steady. }
  clearbody m1 m2. pose proof (steady_seen m1 s Hk1 Hs) as Hs1. unfold mbind, M_bind, bind.
  destruct (m1 s) as [[x|e|] s1 w]; cbn [r_out r_st] in *; [|done..]. specialize (H2 s1 Hs1).
  by destruct (m2 s1) as [[] ? ?].
Qed.
End handlers.

(** ** Executions *)

Lemma off_ctx_steady m s :
  steady s -> (handle_off_ctx_message m s).(r_out) <> Panic -> steady (handle_off_ctx_message m s).(r_st).
Proof.
  intros Hs. unfold handle_off_ctx_message. destruct (message m) eqn:Hm; [|intros _; apply steady_wake|by intros []].
  - intros _. apply steady_seen; [apply on_consensus_seen, queue_lock|done].
  - unfold mbind, M_bind, bind, on_synchronizer, on_world, Synchronizer.on_sync, Synchronizer.queue, zoom. cbn [r_out r_st].
    unfold SyncTbo.queue, view_change. rewrite Hm. by run.
Qed.

Lemma join_tbo me n : keeps Synchronizer.tbo (Synchronizer.start_join_quorum me n).
Proof.
  unfold Synchronizer.start_join_quorum, Synchronizer.begin_quorum_view_change, Synchronizer.handle_begin_quorum_view_change. keep.
Qed.

Lemma joins_steady me n s :
  steady s -> (attempt_quorum_node_join me n s).(r_out) <> Panic -> steady (attempt_quorum_node_join me n s).(r_st).
Proof.
  intros Hs _. assert (keeps queues (attempt_quorum_node_join me n)) as Hk; [|by apply (steady_queues s); [apply Hk|]].
  unfold attempt_quorum_node_join. apply keeps_bind; [|intros r; keep].
  intros s0. unfold queues, on_synchronizer, on_world, Synchronizer.on_sync, zoom. cbn. f_equal. apply join_tbo.
Qed.

Lemma joining_steady me s :
  steady s -> (joining_quorum me s).(r_out) <> Panic -> steady (joining_quorum me s).(r_st).
Proof.
  intros Hs. unfold joining_quorum.
  destruct (on_sync_expect (Synchronizer.attempt_join_quorum me) s) as [(r & sy' & eff & Hrun & E)|E].
  2: { unfold mbind, M_bind, bind. rewrite E. by intros []. }
  intros _. rewrite (bind_Ok _ _ _ _ _ _ E). cbn [r_st prepend]. set (s1 := set_world _ s).
  apply joining_run in Hrun as [[-> ->]|[-> _]].
  - by apply (steady_queues s).
  - destruct (switch_run SyncPhase s1) as (s2 & E2 & Hp2 & _). rewrite (bind_Ok_nil _ _ _ _ _ E2). by apply syncing_steady.
Qed.

Lemma execution_queues b : keeps queues (handle_execution_changed b).
Proof. intros s. unfold handle_execution_changed. destruct b; run; by destruct (phase s). Qed.

Lemma called_steady me s s' : agrees (seen s) -> steady s -> called me s s' -> steady s'.
Proof.
  intros Ha Hs Hc. destruct Hc.
  - by apply process_steady.
  - by apply poll_steady.
  - by apply off_ctx_steady.
  - by apply timeout_steady.
  - apply (steady_queues s); [apply execution_queues|done].
  - unfold install_seq_no. apply steady_seen; [|done]. apply keeps_bind; [done|]. intros x.
    apply on_consensus_seen, expect_keeps, install_seq_lock.
  - by apply joins_steady.
  - by apply joining_steady.
Qed.

Lemma iter_stop k q : q.(SyncTbo.stop) = [] -> (Nat.iter k SyncTbo.next_instance_queue q).(SyncTbo.stop) = [].
Proof.
  intros Hq. induction k as [|k IH]; [done|].
  change (tbo_advance_message_queue (Nat.iter k SyncTbo.next_instance_queue q).(SyncTbo.stop) = []). by rewrite IH, tbo_advance_tail.
Qed.

(** Moving on to another view keeps the flag, and an empty queue empty. *)
Definition waiting (q : SyncTbo.t) : Prop := q.(SyncTbo.get_queue) = true \/ q.(SyncTbo.stop) = [].

Lemma install_waiting v q : waiting q -> waiting (SyncTbo.install_view (W := Effect) v q).(r_st).
Proof.
  unfold SyncTbo.install_view. run. destruct (sn_index _ _) as [e|[|n]]; [done..|]. run. cbn [r_st ret modify]. run.
  intros [Hq|Hq]; [left; by rewrite iter_flag|right; by apply iter_stop].
Qed.

Lemma received_waiting v (sy : Synchronizer.t) :
  waiting sy.(Synchronizer.tbo) ->
  waiting (Synchronizer.received_view_from_state_transfer (W := Effect) v sy).(r_st).(Synchronizer.tbo).
Proof.
  assert (forall {X} (m : M Synchronizer.t Effect Error X) Y (k : X -> M Synchronizer.t Effect Error Y),
    (forall sy, waiting sy.(Synchronizer.tbo) -> waiting (m sy).(r_st).(Synchronizer.tbo)) ->
    (forall x sy, waiting sy.(Synchronizer.tbo) -> waiting (k x sy).(r_st).(Synchronizer.tbo)) ->
    forall sy, waiting sy.(Synchronizer.tbo) -> waiting ((m ≫= k) sy).(r_st).(Synchronizer.tbo)) as Hbind.
  { intros X m Y k Hm Hk sy' Hw. specialize (Hm sy' Hw). unfold mbind, M_bind, bind.
    destruct (m sy') as [[x|e|] s1 w]; cbn in *; auto. }
  assert (forall v0 sy0, waiting sy0.(Synchronizer.tbo) ->
    waiting (zoom Synchronizer.tbo Synchronizer.set_tbo (SyncTbo.install_view (W := Effect) v0) sy0).(r_st).(Synchronizer.tbo)) as Hinst.
  { intros v0 sy0 Hw. unfold zoom. cbn. by apply install_waiting. }
  unfold Synchronizer.received_view_from_state_transfer. revert sy. apply Hbind; [done|]. intros self.
  apply Hbind; [done|]. intros [pv|].
  - apply Hbind; [|intros _; apply Hbind; [done|]; intros s1; apply Hbind; [done|]; intros leader].
    + destruct (decide _); [|done]. apply Hbind; [apply Hinst|]. by intros [].
    + destruct (_ && _); [by intros sy Hw|]. destruct (Synchronizer.can_process_sync s1); [by intros sy Hw|].
      apply Hbind; [apply Hinst|]. done.
  - apply Hbind; [apply Hinst|]. intros []; done.
Qed.

Lemma install_view_steady v s : steady s -> (install_view v s).(r_out) <> Panic -> steady (install_view v s).(r_st).
Proof.
  intros Hs. unfold install_view. run. destruct (sn_index _ _) as [e|[|n]]; [done..|].
  match goal with |- context [(?M ≫= ?K) s] => assert (keeps seen M) as Hk; [|assert (forall x s, steady s -> (K x s).(r_out) <> Panic -> steady (K x s).(r_st)) as HK] end.
  { apply on_consensus_seen, expect_keeps, install_view_lock. }
  { clear s Hs Hk. intros _ s Hs.
    destruct (on_sync_expect (Synchronizer.received_view_from_state_transfer v) s) as [(b & sy' & eff & Hrun & E)|E].
    2: { unfold mbind, M_bind, bind. rewrite E. by intros []. }
    intros _. rewrite (bind_Ok _ _ _ _ _ _ E). cbn [r_st prepend]. set (s1 := set_world _ s). destruct b.
    - destruct (switch_run SyncPhase s1) as (s2 & -> & Hp2 & _). by apply syncing_steady.
    - intros Hp. pose proof (received_waiting v (synchronizer s)) as Hw. rewrite Hrun in Hw. exact (Hw (Hs Hp)). }
  pose proof (steady_seen _ s Hk Hs) as Hs1. unfold mbind at 1 3, M_bind, bind at 1 3.
  match type of Hs1 with steady (?R s).(r_st) => destruct (R s) as [[x|e|] s1 w] end; cbn [r_out r_st] in *; [|done..].
  by apply HK.
Qed.

Lemma lives_steady me s : lives me s -> agrees (seen s) /\ steady s.
Proof.
  intros Hl. split; [by eapply lives_agrees|]. induction Hl as [watermark quorum s Hi|s s' Hl IH Hc|s v Hl IH Hok].
  - unfold initialize_protocol, Synchronizer.initialize_with_quorum in Hi.
    destruct (ViewInfo.from_quorum _ _) as [v| |]; [|done..]. injection Hi as <-. intros _. by right.
  - apply lives_agrees in Hl. by eapply called_steady.
  - by apply install_view_steady.
Qed.

(** C18. Polling returns.  A replica that has not given up a view change goes through the loop over STOP messages at most once,
    however often it might, and [poll] has a result. *)
Theorem poll_returns me rng pp lag s fuel :
  lives me s -> (s.(phase) = NormalPhase -> ~ abandoned (synchronizer s)) ->
  ConsensusFacts.inv lag (consensus s) -> lag <= sn_window ->
  poll me rng pp (S fuel) s = poll me rng pp 1 s /\ (poll me rng pp 1 s).(r_out) <> Ok None.
Proof.
  intros Hst Hna Hinv Hlag. apply lives_steady in Hst as [Ha Hs]. unfold poll. run. destruct (phase s) eqn:Hp.
  - cbn [poll_normal_phase]. run. destruct (Synchronizer.can_process_stops (synchronizer s)) eqn:Hc.
    + pose proof (steady_stops s Hs Hp Hc) as Hw. unfold seen in Ha. rewrite Hp in Ha. destruct Ha as [Hl|Hab]; [|by destruct Hna].
      destruct (poll_sync_stop rng s Hl Hw Hc) as [(m & s' & E)|E].
      * rewrite !(bind_Ok_nil _ _ _ _ _ E). split; [done|]. unfold mbind, M_bind, bind.
        by destruct (handle_polled me rng pp m s') as [[] ? ?].
      * unfold mbind at 1 3 5, M_bind, bind. rewrite E. done.
    + split; [done|]. unfold poll_consensus.
      destruct (ConsensusFacts.poll_loop_spec (Consensus.poll_fuel (consensus s)) lag (consensus s) Hinv Hlag) as (st & c' & Hrun & _).
      { unfold ConsensusFacts.poll_measure, Consensus.poll_fuel, ConsensusFacts.initializing.
        pose proof (length_filter (fun d => d.(ConsensusDecision.phase) = Initialize) (consensus s).(Consensus.decisions)). lia. }
      assert (exists s', on_consensus Consensus.poll s = mkRun (Ok (Some st)) s' []) as [s' E].
      { unfold on_consensus, on_world, Synchronizer.on_consensus, zoom, Consensus.poll.
        change (Synchronizer.w_consensus (world s)) with (consensus s). rewrite Hrun. by eexists. }
      rewrite (bind_Ok_nil _ _ _ _ _ E). destruct st; [done..|]. unfold mbind, M_bind, bind.
      by destruct (handle_decided ds s') as [[] ? ?].
  - split; [done|]. unfold mbind, M_bind, bind. by destruct (poll_sync_phase rng s) as [[] ? ?].
Qed.

(** ** A view change that is given up *)

(** C27. A replica that gave up a view change and then has a STOP message to handle never returns from [poll]: every round of the loop
    finds the state as it was. *)
Theorem poll_livelock me rng pp fuel s :
  lives me s -> s.(phase) = NormalPhase -> abandoned (synchronizer s) ->
  Synchronizer.can_process_stops (synchronizer s) = true ->
  poll me rng pp fuel s = mkRun (Ok None) s [].
Proof.
  intros Hl Hp Hab Hc. apply lives_steady in Hl as [_ Hs]. pose proof (steady_stops s Hs Hp Hc) as Hw.
  unfold poll. run. rewrite Hp. induction fuel as [|fuel IH]; cbn [poll_normal_phase]; [done|]. run.
  by rewrite Hc, (bind_Ok_nil _ _ _ _ _ (abandoned_stuck rng s Hp Hab Hw)).
Qed.

(** A view change is given up when it is resumed after a state transfer and turns out to have no value: the leader proposed no request and
    the collects are not sound.  The replica goes back to the normal phase in its old view with the proposer
    still locked out, and panics on the next view change message it is handed. *)
Theorem resume_gives_up me rng pp fuel s state next :
  s.(phase) = SyncPhase -> sync_phase (synchronizer s) = SyncingState -> wake s = true ->
  (synchronizer s).(Synchronizer.finalize_state) = Some state ->
  state.(proposed).(fwd_consensus_msg).(cm_kind) = PrePrepare [] -> sound_test state.(fs_sound) = false ->
  Synchronizer.u32_succ (Synchronizer.last_executed (message_log s)) = Ok next ->
  exists s', poll me rng pp fuel s = mkRun (Ok (Some PollRePoll)) s' [] /\
    s'.(phase) = NormalPhase /\ abandoned (synchronizer s') /\ view s' = view s /\
    lock_of (consensus s') = lock_of (consensus s) /\
    forall m vc, message m = ViewChange vc -> (process_message me rng pp m s').(r_out) = Panic.
Proof.
  intros Hp Hph Hw Hfs Hprop Hsound Hnext. destruct s as [ph [sy c l]].
  unfold synchronizer, message_log, wake, flag_of in *. cbn in Hp, Hph, Hw, Hfs, Hnext. subst ph.
  set (sy' := Synchronizer.set_finalize_state None sy).
  exists (mk NormalPhase (Synchronizer.mkWorld _ sy' c l)). split_and!; try done.
  - unfold poll. run. cbn [phase]. unfold poll_sync_phase.
    match goal with |- ((on_synchronizer ?M ≫= ?K) ≫= _) ?S = _ => assert (on_synchronizer M S = mkRun (Ok ResumeViewChange) S []) as E end.
    { unfold on_synchronizer, on_world, Synchronizer.on_sync, zoom, Synchronizer.poll. cbn. by rewrite Hw, Hph. }
    match goal with |- (?M ≫= ?K) ?S = mkRun _ ?S' _ => assert (M S = mkRun (Ok PollRePoll) S' []) as ER end.
    2: by rewrite (bind_Ok_nil _ _ _ _ _ ER).
    rewrite (bind_Ok_nil _ _ _ _ _ E). unfold resume_sync.
    match goal with |- (on_world ?M ≫= ?K) ?S = mkRun _ ?S' _ =>
      assert (on_world M S = mkRun (Ok (Some SyncRunning)) (set_world (Synchronizer.mkWorld _ sy' c l) S) []) as E2 end.
    { unfold on_world, zoom, Synchronizer.expect, Synchronizer.resume_view_change. run. cbn [Synchronizer.w_sync world]. rewrite Hfs.
      unfold Synchronizer.modify_sync, Synchronizer.on_sync, Synchronizer.finalize_view_change, Synchronizer.pre_finalize.
      unfold mbind, M_bind, bind, zoom. cbn [Synchronizer.w_log Synchronizer.w_sync Synchronizer.set_sync r_out r_st modify get]. cbn. rewrite Hnext. cbn.
      rewrite decide_False by (unfold ZERO; lia). rewrite Hprop. cbn. rewrite Hsound. done. }
    rewrite (bind_Ok_nil _ _ _ _ _ E2). done.
  - intros m vc Hm. unfold process_message. run. cbn [phase]. unfold update_normal_phase. rewrite Hm.
    unfold PBFTOrderProtocol.sync_message, mbind, M_bind, bind, on_world, zoom, Synchronizer.expect. cbn [world].
    assert ((Synchronizer.process_message me rng pp m (Synchronizer.mkWorld _ sy' c l)).(r_out) = Panic) as Hpanic.
    { unfold Synchronizer.process_message, view_change. rewrite Hm. run. cbn [Synchronizer.w_sync]. unfold sy'. cbn. by rewrite Hph. }
    by rewrite Hpanic.
Qed.
End polling.
End ProtocolPolling.
