(* ===== verification/Cluster.v ===== *)
(** * The ordering protocol as a distributed system

    Replicas that each run [PBFTOrderProtocol] and, in a thread of its own, the proposer, exchange messages over a network that may delay, reorder
    and repeat them.  At most the members in [byz] are faulty; they may send anything in their own name. *)
From S2P Require Import Prelude Atlas Errors View Messages Decisions Deciding Log Network.
From S2P Require Import SyncAccessory Accessory Decision Consensus ConsensusFacts Offers Sync Proposer Protocol.

Module Cluster.
Section cluster.
Context {A : Atlas} {D : AtlasDecisions} {WF : WireFormat} {IO : IterationOrder} {SG : Signatures}.
Context (quorum : list NodeId) (watermark : nat) (byz : gset NodeId).

Abbreviation node := PBFTOrderProtocol.t.
Abbreviation packet := (NodeId * (NodeId * PBFTMessage))%type.

(** The replicas, and what was sent so far: by whom, to whom, what. *)
Record t := mk {
  replica : NodeId -> node;
  net : list packet;
}.

Definition upd (x : NodeId) (s : node) (f : NodeId -> node) : NodeId -> node := fun y => if decide (y = x) then s else f y.

(** [msg] as it arrives at [x] from [from]. *)
Definition packed (from x : NodeId) (msg : PBFTMessage) : Shareable := mkStored (wire_header from x msg) msg.

(** A member sent it, and if that member is correct it really did. *)
Definition genuine (net : list packet) (from x : NodeId) (msg : PBFTMessage) : Prop :=
  from ∈ quorum /\ (from ∉ byz -> (from, (x, msg)) ∈ net).

(** The proposer, with a batch of requests of clients, between two accesses of the replica thread to the guard. *)
Definition proposer_of (s : node) (batch : list (StoredMessage RQ)) (last now : N) : Proposer.t :=
  Proposer.mk (Proposer.mkBuilder batch last) (PBFTOrderProtocol.consensus s).(Consensus.consensus_guard)
    (PBFTOrderProtocol.synchronizer s) false now [].
Definition is_leader (x : NodeId) (s : node) : bool := bool_decide (x ∈ (PBFTOrderProtocol.view s).(ViewInfo.leader_set)).
Definition propose (p : ProposerParams) (nonce : N) (x : NodeId) (batch : list (StoredMessage RQ)) (last now : N) (s : node)
    : list Effect * node :=
  let r := Proposer.propose_ordered p nonce (is_leader x s) (proposer_of s batch last now) in
  (r.(r_eff), (PBFTOrderProtocol.on_guard (fun _ => r.(r_st).(Proposer.consensus_guard)) s).(r_st)).

(** The thread pool of an instance makes progress. *)
Definition tick (i j : nat) (c : Consensus.t) : Consensus.t :=
  match c.(Consensus.decisions) !! i with
  | Some d => Consensus.set_decisions (<[i := ConsensusDecision.set_accessory (accessory_tick j d.(ConsensusDecision.accessory)) d]>
                c.(Consensus.decisions)) c
  | None => c
  end.

(** What a replica does.  A [calm] system is one in which nobody asks for another view: no timeouts, no view change messages. *)
Inductive act (calm : bool) (net : list packet) (x : NodeId) (s : node) : list Effect -> node -> Prop :=
  | do_message rng pp from msg out s' eff :
      genuine net from x msg -> (calm = true -> exists cm, consensus msg = Ok cm) ->
      PBFTOrderProtocol.process_message x rng pp (packed from x msg) s = mkRun out s' eff -> out <> Panic ->
      act calm net x s eff s'
  | do_poll rng pp fuel res s' eff :
      PBFTOrderProtocol.poll x rng pp fuel s = mkRun (Ok (Some res)) s' eff ->
      (forall m, res <> PollExec m) -> act calm net x s eff s'
  (** the layer above has a message that was waiting executed at once *)
  | do_poll_exec rng pp fuel m s1 eff1 out s' eff :
      PBFTOrderProtocol.poll x rng pp fuel s = mkRun (Ok (Some (PollExec m))) s1 eff1 ->
      PBFTOrderProtocol.process_message x rng pp m s1 = mkRun out s' eff -> out <> Panic ->
      act calm net x s (eff1 ++ eff) s'
  | do_off_ctx from msg s' eff :
      genuine net from x msg -> (calm = true -> exists cm, consensus msg = Ok cm) ->
      PBFTOrderProtocol.handle_off_ctx_message (packed from x msg) s = mkRun (Ok tt) s' eff ->
      act calm net x s eff s'
  | do_timeout pp l out s' eff : calm = false ->
      PBFTOrderProtocol.handle_timeout pp l s = mkRun out s' eff -> out <> Panic -> act calm net x s eff s'
  | do_execution b s' eff : PBFTOrderProtocol.handle_execution_changed b s = mkRun (Ok tt) s' eff -> act calm net x s eff s'
  | do_propose p nonce batch last now : p.(me) = x ->
      act calm net x s (propose p nonce x batch last now s).1 (propose p nonce x batch last now s).2
  | do_tick i j : act calm net x s [] (PBFTOrderProtocol.on_consensus (modify (tick i j)) s).(r_st).

(** Sequence numbers have not wrapped around, and signals are not too old to be told from those of the window. *)
Definition in_range (s : node) : Prop := Offers.bounded (PBFTOrderProtocol.consensus s) /\ Offers.signals_recent (PBFTOrderProtocol.consensus s).

Inductive step (calm : bool) (y : t) : t -> Prop :=
  | step_act x eff s' : x ∉ byz -> act calm y.(net) x (y.(replica) x) eff s' -> in_range s' ->
      step calm y (mk (upd x s' y.(replica)) (y.(net) ++ ((x,.) <$> sent eff))).

Inductive reachable (calm : bool) : t -> Prop :=
  | reachable_start f : (forall x, PBFTOrderProtocol.initialize_protocol x watermark quorum = Ok (f x)) -> reachable calm (mk f [])
  | reachable_step y y' : reachable calm y -> step calm y y' -> reachable calm y'.

(** What a replica decided last. *)
Definition last_decided (y : t) (x : NodeId) : option DecProof := Log.last_proof (PBFTOrderProtocol.message_log (y.(replica) x)).
End cluster.
End Cluster.
