(* ===== verification/ClusterFacts.v ===== *)
(** * Agreement of the whole protocol within a view

    As long as nobody asks for another view, the replicas of a cluster, each running the whole protocol and a proposer, refine the system
    of file Replicas; so the logs of correct replicas agree. *)
From S2P Require Import Prelude Atlas Errors View Messages Decisions Deciding Log Network.
From S2P Require Import SyncAccessory Accessory Decision Agreement Progress Consensus ConsensusFacts Offers Waiting Replicas.
From S2P Require Import Sync SyncFacts Proposer Protocol ProtocolFacts Cluster.

Module ClusterFacts.
Section facts.
Context {A : Atlas} {D : AtlasDecisions} {WF : WireFormat} {IO : IterationOrder} {SG : Signatures}.
Context {L : AtlasLaws} {WL : WireFormatLaws}.
Context (quorum : list NodeId) (watermark : nat) (byz : gset NodeId) (v : ViewInfo.t).
Context (Hwf : ViewInfo.wf v) (Hq : ViewInfo.from_quorum ZERO quorum = Ok v) (Hmembers : v.(ViewInfo.quorum_members) = quorum).
Context (Hw : 0 < watermark <= sn_window) (Hmax : (N.of_nat watermark <= sn_max)%N).

Abbreviation Sy := Synchronizer.t.
Abbreviation member := Replicas.member.
Abbreviation node := PBFTOrderProtocol.t.
Abbreviation act := (Replicas.act (Sy := Sy) v byz).
Abbreviation authentic := (Replicas.authentic v byz).
Abbreviation member_ok := (Replicas.member_ok v ZERO).
Abbreviation rep_reachable := (Replicas.reachable (Sy := Sy) v ZERO watermark byz).
Abbreviation packet := (NodeId * (NodeId * PBFTMessage))%type.

(** ** Several acts of one replica *)

Inductive acts (net : list (NodeId * PBFTMessage)) (m : member) : list PBFTMessage -> member -> Prop :=
  | acts_nil : acts net m [] m
  | acts_snoc out m1 out1 m2 : acts net m out m1 -> act net m1 out1 m2 -> Offers.bounded m2.(Replicas.window) -> acts net m (out ++ out1) m2.

Lemma acts_one net m out m' : act net m out m' -> Offers.bounded m'.(Replicas.window) -> acts net m out m'.
Proof. intros Ha Hb. exact (acts_snoc net m [] m out m' (acts_nil _ _) Ha Hb). Qed.
Lemma acts_trans net m out m1 out1 m2 : acts net m out m1 -> acts net m1 out1 m2 -> acts net m (out ++ out1) m2.
Proof.
  intros H1 H2. induction H2 as [|o m3 o1 m4 _ IH Ha Hb]; [by rewrite app_nil_r|]. rewrite app_assoc. by eapply acts_snoc.
Qed.

Lemma act_mono net net' m out m' : (forall p, p ∈ net -> p ∈ net') -> act net m out m' -> act net' m out m'.
Proof.
  intros Hsub Ha. destruct Ha as [st c' Hr Hp|rng sy msg cm Hsy [Hm Hau] Hc r|msg cm Hc|d b c' eff Hh Hf|i j d Hd|f].
  - by eapply Replicas.act_poll.
  - eapply Replicas.act_message; [exact Hsy| |exact Hc]. split; [done|eauto].
  - by eapply Replicas.act_queue.
  - by eapply Replicas.act_finalize.
  - by eapply Replicas.act_tick.
  - apply Replicas.act_guard.
Qed.

(** Acts of one correct replica are steps of the system. *)
Lemma acts_reachable z x out m' :
  rep_reachable z -> x ∉ byz -> acts z.(Replicas.net) (z.(Replicas.members) x) out m' ->
  exists z', rep_reachable z' /\ z'.(Replicas.members) x = m' /\ (forall x', x' <> x -> z'.(Replicas.members) x' = z.(Replicas.members) x') /\
    z'.(Replicas.net) = z.(Replicas.net) ++ ((x,.) <$> out).
Proof.
  intros Hz Hx Ha. induction Ha as [|out m1 out1 m2 _ IH Ha Hb].
  - exists z. split_and!; try done. by rewrite app_nil_r.
  - destruct IH as (z1 & Hz1 & Hm1 & Ho1 & Hn1).
    exists (Replicas.mk (Replicas.upd x m2 z1.(Replicas.members)) (z1.(Replicas.net) ++ ((x,.) <$> out1))). split_and!; cbn.
    + eapply Replicas.reachable_step; [exact Hz1|]. apply Replicas.step_act; [done| |done]. rewrite Hm1.
      eapply act_mono; [|exact Ha]. rewrite Hn1. intros p Hp. apply elem_of_app. by left.
    + unfold Replicas.upd. by rewrite decide_True.
    + intros x' Hx'. unfold Replicas.upd. rewrite decide_False by done. by apply Ho1.
    + by rewrite Hn1, fmap_app, app_assoc.
Qed.

Lemma acts_ok net x m out m' : member_ok x m -> acts net m out m' -> member_ok x m'.
Proof. intros Hm Ha. induction Ha as [|? ? ? ? _ IH Ha Hb]; [done|].
  exact (proj1 (Replicas.act_effect (Sy := Sy) v ZERO byz net x _ _ _ IH Ha Hb)).
Qed.

(** Finalizing one instance after the other, without wrapping around. *)
Lemma finalizes_acts net x bs : forall m c',
  ProtocolFacts.finalizes v m.(Replicas.window) bs c' -> member_ok x m ->
  (m.(Replicas.window).(Consensus.seq_no) + N.of_nat (length bs + length m.(Replicas.window).(Consensus.decisions)) <= sn_max)%N ->
  exists gone', acts net m [] (Replicas.mkMember c' gone' (m.(Replicas.delivered) ++ bs)).
Proof.
  induction bs as [|b bs IH]; intros m c' Hf Hm Hb; inversion Hf as [|? d ? c1 eff ? ? Hh Hrun Hs Hrest]; subst.
  - exists m.(Replicas.gone). rewrite app_nil_r. destruct m. constructor.
  - pose proof (Replicas.act_finalize (Sy := Sy) v byz net m d b c1 eff Hh Hrun) as Ha. rewrite Hs in Ha.
    destruct (Replicas.mo_inv _ _ _ _ Hm) as [lag Hi]. rewrite <- (Replicas.mo_view _ _ _ _ Hm) in Hrun.
    destruct (Replicas.finalize_instances _ _ _ _ _ _ Hi Hh Hrun) as (rest & pp & p & cc & Hds & _ & _ & _ & Hds' & Hs' & _).
    rewrite Hds in Hb. cbn in Hb. rewrite sn_next_succ in Hs' by lia.
    assert (length c1.(Consensus.decisions) = S (length rest)) as Hlen by (rewrite Hds', length_app; cbn; lia).
    set (m1 := Replicas.mkMember c1 (m.(Replicas.gone) ++ [d]) (m.(Replicas.delivered) ++ [b])) in *.
    assert (Offers.bounded c1) as Hb1 by (unfold Offers.bounded; rewrite Hs', Hlen; lia).
    pose proof (acts_one net m [] m1 Ha Hb1) as Ha1. pose proof (acts_ok net x m [] m1 Hm Ha1) as Hm1.
    destruct (IH m1 c' Hrest Hm1) as [gone' Ha2]; [cbn; rewrite Hs', Hlen; lia|]. exists gone'.
    replace (m.(Replicas.delivered) ++ b :: bs) with (m1.(Replicas.delivered) ++ bs) by (cbn; by rewrite <- app_assoc).
    exact (acts_trans _ _ [] _ [] _ Ha1 Ha2).
Qed.
(** ** What the protocol does in the normal phase *)

Definition calm_node (x : NodeId) (c : Consensus.t) (l : Log.t) : node :=
  PBFTOrderProtocol.mk NormalPhase (Synchronizer.mkWorld _ (Synchronizer.new_replica x v) c l).
Definition log_of (x : NodeId) (m : member) : Log.t := ProtocolFacts.log_after m.(Replicas.delivered) (Log.initialize_decided_log x).
Definition node_of (x : NodeId) (m : member) : node := calm_node x m.(Replicas.window) (log_of x m).

Lemma on_consensus_run {X} (f : M Consensus.t Effect Error X) x c l :
  PBFTOrderProtocol.on_consensus f (calm_node x c l) = mkRun (f c).(r_out) (calm_node x (f c).(r_st) l) (f c).(r_eff).
Proof. done. Qed.

Lemma fixed_bounded lag lag' c c' :
  ConsensusFacts.inv lag c -> ConsensusFacts.inv lag' c' -> ConsensusFacts.fixed c c' -> Offers.bounded c -> Offers.bounded c'.
Proof.
  intros Hi Hi' [_ Hs Hwm _]. unfold Offers.bounded. by rewrite (ConsensusFacts.i_len _ _ Hi), (ConsensusFacts.i_len _ _ Hi'), Hs, Hwm.
Qed.

Lemma finalizes_waits c bs c' m : ProtocolFacts.finalizes v c bs c' -> Waiting.waits c' m -> Waiting.waits c m.
Proof. induction 1 as [|c d b c1 eff bs c' _ Hrun _ _ IH]; [done|]. intros Hm. by eapply Waiting.finalize_waits, IH. Qed.

Lemma finalizes_watermark c bs c' : ProtocolFacts.finalizes v c bs c' -> c'.(Consensus.watermark) = c.(Consensus.watermark).
Proof.
  induction 1 as [|c d b c1 eff bs c' Hh Hrun _ _ IH]; [done|]. rewrite IH. destruct (Offers.finalize_state v c) as [E|E]; rewrite Hrun in E; cbn in E; subst c1; [done|].
  unfold Consensus.next_instance. run. destruct (Consensus.decisions c); [done|]. run. destruct (TboQueue.advance_queue _). run. by destruct (negb _ && _).
Qed.

(** Finalizing all that can be finalized. *)
Lemma decided_run net x m ds out s' eff :
  member_ok x m -> PBFTOrderProtocol.handle_decided ds (node_of x m) = mkRun out s' eff ->
  Offers.bounded (PBFTOrderProtocol.consensus s') ->
  exists m', acts net m [] m' /\ s' = node_of x m' /\ sent eff = [] /\
    forall msg, Waiting.waits m'.(Replicas.window) msg -> Waiting.waits m.(Replicas.window) msg.
Proof.
  intros Hm Hrun Hb. destruct (Replicas.mo_inv _ _ _ _ Hm) as [lag Hi]. pose proof (Replicas.mo_view _ _ _ _ Hm) as Hv.
  set (s := node_of x m) in *. change (m.(Replicas.window)) with (PBFTOrderProtocol.consensus s) in Hi, Hv.
  destruct (ProtocolFacts.finalize_loop_spec (S (Consensus.finalizeable_count (PBFTOrderProtocol.consensus s))) lag s Hi ltac:(lia))
    as (bs & c' & eff' & Hloop & Hfb & _ & Hs' & _ & _ & Hi' & _ & Hsent & Hfz).
  rewrite Hv in Hloop, Hfz.
  assert (PBFTOrderProtocol.finalize_all_possible s = mkRun (Ok (ProtocolFacts.executed <$> bs))
    (ProtocolFacts.with_decided c' (ProtocolFacts.log_after bs (PBFTOrderProtocol.message_log s)) s) eff') as E by exact Hloop.
  unfold PBFTOrderProtocol.handle_decided in Hrun. rewrite (bind_Ok _ _ _ _ _ _ E) in Hrun.
  unfold lift, prepend in Hrun. cbn [r_out r_st r_eff] in Hrun. injection Hrun as _ <- <-.
  change (PBFTOrderProtocol.consensus _) with c' in Hb.
  assert (length bs <= length m.(Replicas.window).(Consensus.decisions)) as Hle.
  { rewrite (ProtocolFacts.finalized_batches_length _ _ Hfb), length_take. cbn. lia. }
  pose proof (Replicas.mo_bounded _ _ _ _ Hm) as Hbm. unfold Offers.bounded in Hb, Hbm. change (PBFTOrderProtocol.consensus s) with m.(Replicas.window) in *.
  rewrite (Offers.sn_plus_num (length bs)) in Hs' by lia.
  assert (length c'.(Consensus.decisions) = length m.(Replicas.window).(Consensus.decisions)) as Hlen.
  { rewrite (ConsensusFacts.i_len _ _ Hi'), (ConsensusFacts.i_len _ _ Hi). by eapply finalizes_watermark. }
  destruct (finalizes_acts net x bs m c' Hfz Hm) as [gone' Ha]; [rewrite Hs', Hlen in Hb; lia|].
  eexists. split; [exact Ha|]. split_and!.
  - unfold node_of, log_of, ProtocolFacts.log_after. cbn. by rewrite foldl_app.
  - by rewrite app_nil_r.
  - intros msg. by apply finalizes_waits with (bs := bs).
Qed.
Lemma decided_then {X} net x m ds (k : list FeDecision -> X) out s' eff :
  member_ok x m -> (PBFTOrderProtocol.handle_decided ds ≫= fun d => ret (k d)) (node_of x m) = mkRun out s' eff ->
  Offers.bounded (PBFTOrderProtocol.consensus s') ->
  exists m', acts net m [] m' /\ s' = node_of x m' /\ sent eff = [] /\
    forall msg, Waiting.waits m'.(Replicas.window) msg -> Waiting.waits m.(Replicas.window) msg.
Proof.
  intros Hm Hrun Hb. destruct (PBFTOrderProtocol.handle_decided ds (node_of x m)) as [o2 s2 eff2] eqn:Hd.
  assert (s' = s2 /\ eff = eff2) as [-> ->].
  { revert Hrun. unfold mbind, M_bind, bind, prepend. rewrite Hd. destruct o2; cbn; intros [= _ <- <-]; by rewrite ?app_nil_r. }
  by eapply decided_run.
Qed.

Lemma same_view x m : member_ok x m -> sy_view (Synchronizer.new_replica x v) = m.(Replicas.window).(Consensus.curr_view).
Proof. intros Hm. symmetry. exact (Replicas.mo_view _ _ _ _ Hm). Qed.

Lemma window_message_ok x m rng msg cm :
  member_ok x m -> consensus msg.(message) = Ok cm ->
  let r := Consensus.process_message rng (Synchronizer.new_replica x v) msg m.(Replicas.window) in
  Offers.bounded r.(r_st).
Proof.
  intros Hm Hc. destruct (Replicas.mo_inv _ _ _ _ Hm) as [lag Hi].
  destruct (ConsensusFacts.process_message_inv lag _ rng (Synchronizer.new_replica x v) msg cm Hi (same_view x m Hm) Hc) as (Hi' & Hfx & _).
  eapply fixed_bounded; [exact Hi|exact Hi'|exact Hfx|]. exact (Replicas.mo_bounded _ _ _ _ Hm).
Qed.

(** A message is handled; what was decided is finalized. *)
Lemma message_run net x m rng pp msg cm out s' eff :
  member_ok x m -> authentic net msg -> consensus msg.(message) = Ok cm ->
  PBFTOrderProtocol.process_message x rng pp msg (node_of x m) = mkRun out s' eff -> Offers.bounded (PBFTOrderProtocol.consensus s') ->
  exists m', acts net m (sent eff).*2 m' /\ s' = node_of x m' /\
    forall msg', Waiting.waits m'.(Replicas.window) msg' -> msg' = msg \/ Waiting.waits m.(Replicas.window) msg'.
Proof.
  intros Hm Ha Hc Hrun Hb. pose proof (window_message_ok x m rng msg cm Hm Hc) as Hb1.
  pose proof (Replicas.act_message (Sy := Sy) v byz net m rng (Synchronizer.new_replica x v) msg cm eq_refl Ha Hc) as Hact.
  destruct (Replicas.mo_inv _ _ _ _ Hm) as [lag Hi].
  pose proof (fun msg' => Waiting.message_waits lag _ rng (Synchronizer.new_replica x v) msg cm msg' Hi (same_view x m Hm) Hc) as Hwait.
  unfold PBFTOrderProtocol.process_message in Hrun. rewrite run_get in Hrun. cbn [PBFTOrderProtocol.phase node_of calm_node] in Hrun.
  unfold PBFTOrderProtocol.update_normal_phase in Hrun.
  destruct (message msg) as [c0|?|?] eqn:Hmsg; try done. unfold PBFTOrderProtocol.adv_consensus in Hrun. rewrite run_get in Hrun.
  change (PBFTOrderProtocol.synchronizer _) with (Synchronizer.new_replica x v) in Hrun.
  set (r := Consensus.process_message rng (Synchronizer.new_replica x v) msg m.(Replicas.window)) in *.
  set (m1 := Replicas.mkMember r.(r_st) m.(Replicas.gone) m.(Replicas.delivered)) in *.
  pose proof (acts_one net m _ m1 Hact Hb1) as Hacts. pose proof (acts_ok net x m _ m1 Hm Hacts) as Hm1.
  assert (PBFTOrderProtocol.on_consensus (Consensus.process_message rng (Synchronizer.new_replica x v) msg) (node_of x m) =
    mkRun r.(r_out) (node_of x m1) r.(r_eff)) as E by exact (on_consensus_run _ x _ _).
  assert (forall (o o' : Result OPExecResult), mkRun o (node_of x m1) (r.(r_eff) ++ []) = mkRun o' s' eff ->
    exists m', acts net m (sent eff).*2 m' /\ s' = node_of x m' /\
    forall msg', Waiting.waits m'.(Replicas.window) msg' -> msg' = msg \/ Waiting.waits m.(Replicas.window) msg') as Hquiet.
  { intros o o' H. injection H as _ <- <-. exists m1. rewrite app_nil_r. split_and!; [done|done|exact Hwait]. }
  destruct r.(r_out) as [st|e|] eqn:Ho.
  - rewrite (bind_Ok _ _ _ _ _ _ E) in Hrun. destruct st as [n| | |ds|ds]; try (by eapply Hquiet).
    destruct ((PBFTOrderProtocol.handle_decided ds ≫= fun d => ret (ExecProgressed IgnoreAhead d)) (node_of x m1)) as [o2 s2 eff2] eqn:Hd.
    unfold prepend in Hrun. cbn [r_out r_st r_eff] in Hrun. injection Hrun as _ <- <-.
    destruct (decided_then net x m1 ds _ _ _ _ Hm1 Hd Hb) as (m' & Ha' & -> & Hse2 & Hw'). exists m'. rewrite sent_app, Hse2, app_nil_r. split_and!; [|done|].
    + rewrite <- (app_nil_r (sent (r_eff r)).*2). by eapply acts_trans.
    + intros msg' H. by apply Hwait, Hw'.
  - rewrite (bind_Err _ _ _ _ _ _ E), <- (app_nil_r r.(r_eff)) in Hrun. by eapply Hquiet.
  - rewrite (bind_Panic _ _ _ _ _ E), <- (app_nil_r r.(r_eff)) in Hrun. by eapply Hquiet.
Qed.

(** Polling the window. *)
Lemma window_poll x m :
  member_ok x m -> Offers.signals_recent m.(Replicas.window) ->
  exists st c', Consensus.poll m.(Replicas.window) = mkRun (Ok (Some st)) c' [] /\ Offers.bounded c' /\
    (forall msg, Waiting.waits c' msg -> Waiting.waits m.(Replicas.window) msg) /\
    (forall msg, st = CPNextMessage msg -> Waiting.waits m.(Replicas.window) msg).
Proof.
  intros Hm Hr. destruct (Replicas.mo_inv _ _ _ _ Hm) as [lag Hi]. apply Offers.recent_inv in Hi; [|done].
  destruct (ConsensusFacts.poll_run _ _ Hi (le_n _)) as (st & c' & Hrun & Hi' & Hfx & _). exists st, c'. split; [done|].
  pose proof (Waiting.poll_waits (Consensus.poll_fuel m.(Replicas.window)) m.(Replicas.window)) as Hwt.
  unfold Consensus.poll in Hrun. rewrite Hrun in Hwt. cbn in Hwt. split_and!.
  - eapply fixed_bounded; [exact Hi|exact Hi'|exact Hfx|]. exact (Replicas.mo_bounded _ _ _ _ Hm).
  - intros msg. apply Hwt.
  - intros msg ->. by apply Hwt.
Qed.

(** A poll of the protocol: the window is polled, and gives back a message that was waiting or finalizes. *)
Lemma protocol_poll_run net x m rng pp fuel res s' eff :
  member_ok x m -> Offers.signals_recent m.(Replicas.window) ->
  PBFTOrderProtocol.poll x rng pp fuel (node_of x m) = mkRun (Ok (Some res)) s' eff ->
  (forall msg, res = PollExec msg -> Waiting.waits m.(Replicas.window) msg) /\
  (Offers.bounded (PBFTOrderProtocol.consensus s') \/ (exists msg, res = PollExec msg) ->
   exists m', acts net m [] m' /\ s' = node_of x m' /\ sent eff = [] /\
     forall msg', Waiting.waits m'.(Replicas.window) msg' -> Waiting.waits m.(Replicas.window) msg').
Proof.
  intros Hm Hr Hrun. destruct (window_poll x m Hm Hr) as (st & c' & Hp & Hb' & Hw' & Hn).
  pose proof (Replicas.act_poll (Sy := Sy) v byz net m st c' Hr Hp) as Hact.
  set (m1 := Replicas.mkMember c' m.(Replicas.gone) m.(Replicas.delivered)) in *.
  pose proof (acts_one net m _ m1 Hact Hb') as Hacts. pose proof (acts_ok net x m _ m1 Hm Hacts) as Hm1.
  unfold PBFTOrderProtocol.poll in Hrun. rewrite run_get in Hrun. cbn [PBFTOrderProtocol.phase node_of calm_node] in Hrun.
  destruct fuel as [|fuel]; [done|]. cbn [PBFTOrderProtocol.poll_normal_phase] in Hrun. rewrite run_get in Hrun.
  assert (Synchronizer.can_process_stops (PBFTOrderProtocol.synchronizer (node_of x m)) = false) as Hcan by done. rewrite Hcan in Hrun.
  unfold PBFTOrderProtocol.poll_consensus in Hrun.
  assert (PBFTOrderProtocol.on_consensus Consensus.poll (node_of x m) = mkRun (Ok (Some st)) (node_of x m1) []) as E.
  { unfold node_of. rewrite on_consensus_run, Hp. done. }
  rewrite (bind_Ok_nil _ _ _ _ _ E) in Hrun. destruct st as [|msg|ds].
  - injection Hrun as <- <- <-. split; [done|]. intros _. by exists m1.
  - injection Hrun as <- <- <-. split; [by intros msg' [= <-]; apply Hn|]. intros _. by exists m1.
  - destruct (bind_inv _ _ _ _ _ _ Hrun) as (o & s2 & w1 & w2 & _ & Hret & _). injection Hret as <- _ _.
    split; [done|]. intros [Hb|[msg ?]]; [|done].
    destruct (decided_then net x m1 ds _ _ _ _ Hm1 Hrun Hb) as (m' & Ha' & -> & Hse2 & Hw2). exists m'. split_and!; try done.
    + exact (acts_trans _ _ [] _ [] _ Hacts Ha').
    + intros msg' H. by apply Hw', Hw2.
Qed.
(** The proposer sends proposals, and nothing else. *)
Definition proposal_effect (e : Effect) : Prop := forall p, p ∈ sent_of e -> System.is_proposal p.2.

Lemma propose_ordered_emits p nonce b : emits proposal_effect (Proposer.propose_ordered p nonce b).
Proof.
  unfold Proposer.propose_ordered, Proposer.propose, Proposer.retain_new, Proposer.elapsed, Proposer.can_propose, Proposer.next_seq_no, Proposer.interfere.
  repeat emit_step. apply Forall_singleton. intros q (tgt & -> & _)%list_elem_of_fmap. cbn. eexists _, _. split; reflexivity.
Qed.

Lemma sent_proposals l q : Forall proposal_effect l -> q ∈ sent l -> System.is_proposal q.2.
Proof. intros Hl (e & Hin & He)%list_elem_of_bind. rewrite Forall_forall in Hl. exact (Hl e He q Hin). Qed.

(** ** The simulation *)

Abbreviation cl_reachable := (Cluster.reachable quorum watermark byz true).

Record sim (y : Cluster.t) (z : Replicas.t) : Prop := {
  sm_reachable : rep_reachable z;
  sm_node : forall x, x ∉ byz -> y.(Cluster.replica) x = node_of x (z.(Replicas.members) x);
  sm_range : forall x, x ∉ byz -> Cluster.in_range (y.(Cluster.replica) x);
  sm_net : forall f t m, (f, (t, m)) ∈ y.(Cluster.net) -> ~ System.is_proposal m -> (f, m) ∈ z.(Replicas.net);
  sm_waits : forall x m, x ∉ byz -> Waiting.waits (z.(Replicas.members) x).(Replicas.window) m ->
    authentic z.(Replicas.net) m /\ exists cm, consensus m.(message) = Ok cm;
}.

Lemma genuine_authentic y z from x msg :
  sim y z -> Cluster.genuine quorum byz y.(Cluster.net) from x msg -> authentic z.(Replicas.net) (Cluster.packed from x msg).
Proof.
  intros Hs [Hin Hn]. unfold Cluster.packed. split; cbn; rewrite wire_header_from; [by rewrite Hmembers|].
  intros Hf Hp. eapply sm_net; [exact Hs|by apply Hn|done].
Qed.

(** What a calm act of a replica amounts to. *)
Lemma act_acts y z x eff s' :
  sim y z -> x ∉ byz -> member_ok x (z.(Replicas.members) x) ->
  Cluster.act quorum byz true y.(Cluster.net) x (y.(Cluster.replica) x) eff s' -> Cluster.in_range s' ->
  exists out m', acts z.(Replicas.net) (z.(Replicas.members) x) out m' /\ s' = node_of x m' /\
    (forall t m, (t, m) ∈ sent eff -> ~ System.is_proposal m -> m ∈ out) /\
    forall m, Waiting.waits m'.(Replicas.window) m ->
      (authentic z.(Replicas.net) m /\ exists cm, consensus m.(message) = Ok cm) \/ Waiting.waits (z.(Replicas.members) x).(Replicas.window) m.
Proof.
  intros Hs Hx Hm Hact [Hb Hr]. rewrite (sm_node _ _ Hs x Hx) in Hact.
  destruct (sm_range _ _ Hs x Hx) as [Hb0 Hr0]. rewrite (sm_node _ _ Hs x Hx) in Hr0, Hb0. cbn in Hr0, Hb0.
  set (m := z.(Replicas.members) x) in *. set (net := z.(Replicas.net)) in *.
  assert (forall t msg (eff : list Effect), (t, msg) ∈ sent eff -> msg ∈ (sent eff).*2) as Hsent.
  { intros t msg e Hin. apply list_elem_of_fmap. by exists (t, msg). }
  destruct Hact as [rng pp from msg out s' eff Hg Hcalm Hrun _|rng pp fuel res s' eff Hrun Hne|rng pp fuel msg s1 eff1 out s' eff Hp Hrun _
    |from msg s' eff Hg Hcalm Hrun|pp l out s' eff Hc|b s' eff Hrun|p nonce batch last now Hme|i j].
  - pose proof (genuine_authentic y z from x msg Hs Hg) as Ha. destruct (Hcalm eq_refl) as [cm Hc].
    destruct (message_run net x m rng pp (Cluster.packed from x msg) cm out s' eff Hm Ha Hc Hrun Hb) as (m' & Hacts & -> & Hw').
    exists (sent eff).*2, m'. split_and!; [done|done|eauto|]. intros m0 [->|?]%Hw'; eauto.
  - destruct (protocol_poll_run net x m rng pp fuel res s' eff Hm Hr0 Hrun) as [_ Hpl]. destruct (Hpl (or_introl Hb)) as (m' & Hacts & -> & He & Hw').
    exists [], m'. split_and!; [done|done| |eauto]. rewrite He. by intros t msg ?%elem_of_nil.
  - destruct (protocol_poll_run net x m rng pp fuel _ s1 eff1 Hm Hr0 Hp) as [Hwm Hpl].
    destruct (Hpl (or_intror (ex_intro _ _ eq_refl))) as (m1 & Hacts & -> & He & Hw1).
    destruct (sm_waits _ _ Hs x msg Hx (Hwm msg eq_refl)) as [Ha [cm Hc]].
    pose proof (acts_ok _ x _ _ _ Hm Hacts) as Hm1.
    destruct (message_run net x m1 rng pp msg cm out s' eff Hm1 Ha Hc Hrun Hb) as (m' & Hacts' & -> & Hw').
    exists (sent eff).*2, m'. split_and!; [exact (acts_trans _ _ [] _ _ _ Hacts Hacts')|done| |].
    + intros t mm. rewrite sent_app, He. eauto.
    + intros m0 [->|?]%Hw'; eauto.
  - pose proof (genuine_authentic y z from x msg Hs Hg) as Ha. destruct (Hcalm eq_refl) as [cm Hc].
    destruct (Replicas.mo_inv _ _ _ _ Hm) as [lag Hi]. destruct (ConsensusFacts.window_queue_inv lag _ (Cluster.packed from x msg) cm Hi Hc) as (c' & Hqr & _).
    pose proof (fun m0 => Waiting.queue_waits lag _ (Cluster.packed from x msg) cm m0 Hi Hc) as Hwt. rewrite Hqr in Hwt.
    assert (s' = calm_node x c' (log_of x m) /\ eff = []) as [-> ->].
    { unfold PBFTOrderProtocol.handle_off_ctx_message in Hrun. destruct (message (Cluster.packed from x msg)) eqn:E; cbn in E; subst; try done.
      unfold node_of in Hrun. rewrite on_consensus_run, Hqr in Hrun. by injection Hrun as <- <-. }
    exists [], (Replicas.mkMember c' m.(Replicas.gone) m.(Replicas.delivered)). split_and!; [|done|by intros t ? ?%elem_of_nil|].
    + pose proof (Replicas.act_queue (Sy := Sy) v byz net m (Cluster.packed from x msg) cm Hc) as Hact. rewrite Hqr in Hact. by apply acts_one.
    + intros m0 [->|?]%Hwt; eauto.
  - done.
  - assert (exists f, s' = calm_node x (Consensus.on_guard f m.(Replicas.window)) (log_of x m) /\ eff = []) as (f & -> & ->).
    { unfold PBFTOrderProtocol.handle_execution_changed in Hrun. destruct b; [rewrite run_get in Hrun; cbn in Hrun|]; injection Hrun as <- <-; by eexists. }
    exists [], (Replicas.mkMember (Consensus.on_guard f m.(Replicas.window)) m.(Replicas.gone) m.(Replicas.delivered)).
    split_and!; [|done|by intros t ? ?%elem_of_nil|eauto]. apply acts_one; [apply Replicas.act_guard|done].
  - set (g := (Proposer.propose_ordered p nonce (Cluster.is_leader x (node_of x m)) (Cluster.proposer_of (node_of x m) batch last now))).
    exists [], (Replicas.mkMember (Consensus.on_guard (fun _ => g.(r_st).(Proposer.consensus_guard)) m.(Replicas.window)) m.(Replicas.gone) m.(Replicas.delivered)).
    split_and!; [apply acts_one; [apply Replicas.act_guard|done]|done| |eauto].
    intros t mm Hin Hnp. exfalso. apply Hnp. exact (sent_proposals _ _ (propose_ordered_emits _ _ _ _) Hin).
  - unfold Cluster.tick in *. unfold node_of in *. rewrite on_consensus_run in *. cbn [modify r_st] in *.
    destruct (Consensus.decisions (Replicas.window m) !! i) as [d|] eqn:Hd.
    + eexists [], (Replicas.mkMember _ m.(Replicas.gone) m.(Replicas.delivered)).
      split_and!; [apply acts_one; [by eapply Replicas.act_tick|exact Hb]|done|by intros t ? ?%elem_of_nil|].
      intros m0 [Hin|]%(Waiting.insert_waits _ _ _ _ _ Hd); [|by right]. right. left. cbn in Hin. eauto.
    + exists [], m. split_and!; [constructor|done|by intros t ? ?%elem_of_nil|eauto].
Qed.
Lemma sim_step y z y' : sim y z -> Cluster.step quorum byz true y y' -> exists z', sim y' z'.
Proof.
  intros Hs Hst. destruct Hst as [x eff s' Hx Hact Hr].
  assert (member_ok x (z.(Replicas.members) x)) as Hm by exact (proj1 (Replicas.reachable_simulated v ZERO watermark byz Hwf Hw Hmax z (sm_reachable _ _ Hs)) x Hx).
  destruct (act_acts y z x eff s' Hs Hx Hm Hact Hr) as (out & m' & Hacts & -> & Hout & Hwt).
  destruct (acts_reachable z x out m' (sm_reachable _ _ Hs) Hx Hacts) as (z' & Hz' & Hmx & Hoth & Hnet). exists z'.
  assert (forall m, authentic z.(Replicas.net) m -> authentic z'.(Replicas.net) m) as Hmono.
  { intros m [H1 H2]. split; [done|]. intros G1 G2. rewrite Hnet. apply elem_of_app. left. eauto. }
  split; [done|..]; cbn.
  - intros x' Hx'. unfold Cluster.upd. case_decide as E; [by rewrite E, Hmx|]. rewrite Hoth by done. by apply (sm_node _ _ Hs).
  - intros x' Hx'. unfold Cluster.upd. case_decide as E; [done|]. by apply (sm_range _ _ Hs).
  - intros f t m [Hin|Hin]%elem_of_app Hp; rewrite Hnet; apply elem_of_app; [left; by eapply (sm_net _ _ Hs)|right].
    apply list_elem_of_fmap in Hin as ([t0 m0] & [= -> -> ->] & Hin). apply list_elem_of_fmap. exists m0. split; [done|by eapply Hout].
  - intros x' m Hx' Hwm. destruct (decide (x' = x)) as [->|Hne].
    + rewrite Hmx in Hwm. destruct (Hwt m Hwm) as [[Ha Hc]|Hold]; [by auto|].
      destruct (sm_waits _ _ Hs x m Hx Hold). auto.
    + rewrite Hoth in Hwm by done. destruct (sm_waits _ _ Hs x' m Hx' Hwm). auto.
Qed.

Lemma new_member_quiet x m : ~ Waiting.waits (Replicas.new_member v ZERO watermark x).(Replicas.window) m.
Proof.
  pose proof (Replicas.fill_decisions watermark v ZERO (Consensus.mk x watermark ZERO Signals.new v [] (TboQueue.new ZERO watermark) []
    (ProposerConsensusGuard.new v) false)) as [Hd _].
  destruct (ConsensusFacts.fill_spec watermark v ZERO 0 (Consensus.mk x watermark ZERO Signals.new v [] (TboQueue.new ZERO watermark) []
    (ProposerConsensusGuard.new v) false) ZERO) as (_ & _ & _ & Ht); [by apply ConsensusFacts.empty_window|done|done|].
  unfold Replicas.new_member, Consensus.new_replica. cbn [Replicas.window]. intros [(i & d & Hi & Hq')|[j Hj]].
  - rewrite Hd in Hi. apply list_elem_of_lookup_2, list_elem_of_fmap in Hi as (k & -> & _).
    destruct Hq' as [H|[H|H]]; cbn in H; by apply elem_of_nil in H.
  - rewrite Ht in Hj. cbn in Hj. destruct Hj as [H|[H|H]]; by apply elem_of_nil in H.
Qed.

Lemma sim_start f :
  (forall x, PBFTOrderProtocol.initialize_protocol x watermark quorum = Ok (f x)) -> sim (Cluster.mk f []) (Replicas.start v ZERO watermark).
Proof.
  intros Hf. assert (forall x, f x = node_of x (Replicas.new_member v ZERO watermark x)) as Hfx.
  { intros x. specialize (Hf x). unfold PBFTOrderProtocol.initialize_protocol, Synchronizer.initialize_with_quorum in Hf.
    rewrite Hq in Hf. cbn in Hf. by injection Hf as <-. }
  split; cbn.
  - constructor.
  - intros x _. apply Hfx.
  - intros x _. rewrite Hfx. destruct (Replicas.new_member_ok v ZERO watermark Hwf Hw Hmax x) as [Hm _].
    split; [exact (Replicas.mo_bounded _ _ _ _ Hm)|].
    destruct (ConsensusFacts.new_replica_inv x v ZERO watermark (ProposerConsensusGuard.new v) Hwf Hw) as (Hi & _).
    exact (Offers.inv_recent 0 _ Hi ltac:(lia)).
  - by intros f0 t m ?%elem_of_nil.
  - intros x m _ Hwm. by destruct (new_member_quiet x m).
Qed.

Lemma cluster_sim y : cl_reachable y -> exists z, sim y z.
Proof.
  induction 1 as [f Hf|y y' _ [z Hs] Hst]; [eexists; by apply sim_start|by eapply sim_step].
Qed.

(** ** Agreement of the logs *)

Lemma log_last bs : forall l, bs <> [] -> Log.last_proof (ProtocolFacts.log_after bs l) = Log.proof_of_batch <$> last bs.
Proof.
  induction bs as [|b bs _] using rev_ind; intros l Hne; [done|]. unfold ProtocolFacts.log_after. by rewrite foldl_app, last_snoc.
Qed.

(** The last entry of the log is the last batch that was finalized. *)
Lemma last_decided_batch y z x p :
  sim y z -> x ∉ byz -> Cluster.last_decided y x = Some p ->
  exists k b, (z.(Replicas.members) x).(Replicas.delivered) !! k = Some b /\ p = Log.proof_of_batch b.
Proof.
  intros Hs Hx Hp. unfold Cluster.last_decided in Hp. rewrite (sm_node _ _ Hs x Hx) in Hp. cbn in Hp. unfold log_of in Hp.
  destruct (decide ((z.(Replicas.members) x).(Replicas.delivered) = [])) as [E|Hne]; [by rewrite E in Hp|].
  rewrite log_last in Hp by done. apply fmap_Some in Hp as (b & Hb & ->). rewrite last_lookup in Hb. eauto.
Qed.

Context (Hn : ViewInfo.n v = 3 * ViewInfo.f v + 1) (Hbyz : size byz <= ViewInfo.f v).

Lemma logs_same y x x' p p' :
  cl_reachable y -> x ∉ byz -> x' ∉ byz ->
  Cluster.last_decided y x = Some p -> Cluster.last_decided y x' = Some p' ->
  DecProof.sequence_number p = DecProof.sequence_number p' ->
  (DecProof.metadata p).(pm_batch_digest) = (DecProof.metadata p').(pm_batch_digest) /\
  ((forall d d', ctx_finish (ctx_update ctx_new d) = ctx_finish (ctx_update ctx_new d') -> d = d') ->
   (DecProof.metadata p).(pm_pre_prepare_ordering) = (DecProof.metadata p').(pm_pre_prepare_ordering)).
Proof.
  intros Hy Hx Hx' Hp Hp' Hseq. destruct (cluster_sim y Hy) as [z Hs].
  destruct (last_decided_batch y z x p Hs Hx Hp) as (k & b & Hb & ->). destruct (last_decided_batch y z x' p' Hs Hx' Hp') as (k' & b' & Hb' & ->).
  pose proof (Replicas.same_batches v ZERO watermark byz Hwf Hw Hmax Hn Hbyz z) as Hsame.
  destruct (Hsame x x k b b (sm_reachable _ _ Hs) Hx Hx Hb Hb) as (Hk & _).
  destruct (Hsame x' x' k' b' b' (sm_reachable _ _ Hs) Hx' Hx' Hb' Hb') as (Hk' & _).
  cbn in Hseq. assert (k' = k) as -> by (rewrite Hk, Hk' in Hseq; lia).
  destruct (Hsame x x' k b b' (sm_reachable _ _ Hs) Hx Hx' Hb Hb') as (_ & _ & Hd & Ho). by split.
Qed.
End facts.

(** C1. Agreement of the whole protocol within a view.  Replicas that each run [PBFTOrderProtocol] (window of instances, log, queues of early
    messages, finalization) and a proposer on the guard they share, with at most [f] of [3f + 1] of them faulty: as long as nobody asks for another view, the logs
    of two correct replicas agree, in that a sequence number they both stand at was decided with the same batch. *)
Theorem logs_agree {A : Atlas} {D : AtlasDecisions} {WF : WireFormat} {IO : IterationOrder} {SG : Signatures} {L : AtlasLaws} {WL : WireFormatLaws}
    (quorum : list NodeId) (watermark f : nat) (byz : gset NodeId) y x x' p p' :
  NoDup quorum -> length quorum = 3 * f + 1 -> size byz <= f -> 0 < watermark <= sn_window -> (N.of_nat watermark <= sn_max)%N ->
  Cluster.reachable quorum watermark byz true y -> x ∉ byz -> x' ∉ byz ->
  Cluster.last_decided y x = Some p -> Cluster.last_decided y x' = Some p' ->
  DecProof.sequence_number p = DecProof.sequence_number p' ->
  (DecProof.metadata p).(pm_batch_digest) = (DecProof.metadata p').(pm_batch_digest) /\
  ((forall d d', ctx_finish (ctx_update ctx_new d) = ctx_finish (ctx_update ctx_new d') -> d = d') ->
   (DecProof.metadata p).(pm_pre_prepare_ordering) = (DecProof.metadata p').(pm_pre_prepare_ordering)).
Proof.
  intros Hnd Hlen Hbyz Hw Hmax. destruct (ViewInfo.from_quorum_ok ZERO quorum Hnd) as (v & Hq & Hwf & _ & Hm & Hf); [intros ->; cbn in Hlen; lia|].
  assert (ViewInfo.f v = f) as Hf' by (rewrite Hf, Hlen, Nat.add_sub, Nat.mul_comm; by apply Nat.div_mul).
  pose proof (proj1 (proj2 Hwf)) as Hn. rewrite Hm in Hn. apply (logs_same quorum watermark byz v); rewrite ?Hf'; try done. lia.
Qed.
End ClusterFacts.
