(* ===== verification/StateTransfer.v ===== *)
(** * Collaborative state transfer ([febft-state-transfer/src/lib.rs], [message/mod.rs])

    A replica that has fallen behind asks the others for the sequence number of their
    latest checkpoint, and for the checkpoint itself once a quorum names a
    later one than its own; f+1 matching replies are installed.  The same object keeps the
    replica's own checkpoint and answers the requests of others. *)
From S2P Require Import Prelude Atlas Errors.

(** ** The environment *)

(** [atlas_smr_core]'s [Checkpoint<S>] and the application state in it. *)
Class AppState := {
  St : Type;
  Checkpoint : Type;
  cp_sequence_number : Checkpoint -> SeqNo;
  cp_digest : Checkpoint -> Digest;
  cp_state : Checkpoint -> St;
}.

(** The trait [NetworkView] of atlas-core. *)
Record NetworkView := mkNetworkView {
  nv_quorum : nat;
  nv_f : nat;
  nv_quorum_members : list NodeId;
}.

(** [ExecutionResult], [STResult] of the layers above. *)
Inductive ExecutionResult := ExecNil | BeginCheckpoint.
Inductive STResult :=
  | StateTransferRunning
  | StateTransferFinished (s : SeqNo)
  | StateTransferNotNeeded (s : SeqNo).

Inductive STTimeoutResult := RunCst | CstNotNeeded.
Inductive STPollResult := ReceiveMsg.

Section messages.
Context {AS : AppState}.

Record RecoveryState := mkRecoveryState { rs_checkpoint : Checkpoint }.

Inductive CstMessageKind :=
  | RequestStateCid
  | ReplyStateCid (o : option (SeqNo * Digest))
  | RequestState
  | ReplyState (s : RecoveryState).

Record CstMessage := mkCstMessage {
  cst_seq : SeqNo;
  cst_kind : CstMessageKind;
}.

(** [take_state] leaves a request behind in the message, which is dropped afterwards. *)
Definition take_state (m : CstMessage) : option RecoveryState :=
  match m.(cst_kind) with ReplyState state => Some state | _ => None end.

Inductive CheckpointState :=
  | CpNone
  | CpPartial (seq : SeqNo)
  | CpPartialWithEarlier (seq : SeqNo) (earlier : Checkpoint)
  | CpComplete (c : Checkpoint).

Definition cps_sequence_number (s : CheckpointState) : SeqNo :=
  match s with
  | CpNone => ZERO
  | CpPartial _ => ZERO
  | CpPartialWithEarlier _ earlier => cp_sequence_number earlier
  | CpComplete c => cp_sequence_number c
  end.

Record ReceivedState := mkReceivedState { rcv_count : nat; rcv_state : RecoveryState }.
Record ReceivedStateCid := mkReceivedStateCid { rcc_cid : SeqNo; rcc_count : nat }.

Inductive CstStatus :=
  | CstNil
  | CstRunning
  | CstRequestStateCid
  | CstSeqNo (s : SeqNo)
  | CstRequestState
  | CstState (s : RecoveryState).

(** Orders to the network, the timeout layer, the executor and the persistent log. *)
Inductive StEffect :=
  | StSend (m : CstMessage) (target : NodeId)
  | StBroadcast (m : CstMessage) (targets : list NodeId)
  | StRequestTimeout (seq : SeqNo) (dur : N) (acks : nat)
  | StAckReceived (seq : SeqNo) (from : NodeId)
  | StInstallState (s : St)
  | StWriteCheckpoint (c : Checkpoint).

(** The orders whose failure the code looks at. *)
Record StNode := mkStNode {
  st_id : NodeId;
  ack_received : SeqNo -> NodeId -> ExternalError + unit;
  send_signed : CstMessage -> NodeId -> ExternalError + unit;
  install_channel_send : St -> ExternalError + unit;
  write_checkpoint : Checkpoint -> ExternalError + unit;
}.
End messages.

(** [Duration] in nanoseconds. *)
Definition duration_max : N := ((2 ^ 64 - 1) * 10 ^ 9 + 999999999)%N.

Module CollabStateTransfer.
Section cst.
Context {A : Atlas} {AS : AppState} {IO : IterationOrder}.

Abbreviation Stored := (StoredMessage CstMessage).

Inductive ProtoPhase :=
  | StInit
  | WaitingCheckpoint (waiting : list Stored)
  | ReceivingCid (i : nat)
  | ReceivingState (i : nat).

(** [CstProgress]. *)
Inductive CstProgress :=
  | ProgressNil
  | ProgressMessage (h : Header) (m : CstMessage).

Record t := mk {
  curr_seq : SeqNo;
  current_checkpoint_state : CheckpointState;
  base_timeout : N;
  curr_timeout : N;
  received_states : gmap (list byte) ReceivedState;
  received_state_ids : gmap (list byte) ReceivedStateCid;
  phase : ProtoPhase;
}.

Definition set_curr_seq x s := mk x s.(current_checkpoint_state) s.(base_timeout) s.(curr_timeout)
  s.(received_states) s.(received_state_ids) s.(phase).
Definition set_checkpoint x s := mk s.(curr_seq) x s.(base_timeout) s.(curr_timeout)
  s.(received_states) s.(received_state_ids) s.(phase).
Definition set_curr_timeout x s := mk s.(curr_seq) s.(current_checkpoint_state) s.(base_timeout) x
  s.(received_states) s.(received_state_ids) s.(phase).
Definition set_received_states x s := mk s.(curr_seq) s.(current_checkpoint_state) s.(base_timeout) s.(curr_timeout)
  x s.(received_state_ids) s.(phase).
Definition set_received_state_ids x s := mk s.(curr_seq) s.(current_checkpoint_state) s.(base_timeout) s.(curr_timeout)
  s.(received_states) x s.(phase).
Definition set_phase x s := mk s.(curr_seq) s.(current_checkpoint_state) s.(base_timeout) s.(curr_timeout)
  s.(received_states) s.(received_state_ids) x.

Abbreviation H := (M t StEffect Error).

Definition new (base_timeout : N) : t := mk ZERO CpNone base_timeout base_timeout ∅ ∅ StInit.

Definition needs_checkpoint (s : t) : bool :=
  match s.(phase) with WaitingCheckpoint _ => true | _ => false end.

Definition next_seq (s : t) : t := set_curr_seq (sn_next s.(curr_seq)) s.

Definition expect_sent (r : ExternalError + unit) : H unit := match r with inr _ => ret tt | inl _ => panic end.
Definition propagate (r : ExternalError + unit) : H unit :=
  match r with inr _ => ret tt | inl e => fail (EExternal e) end.

(** The checkpoint others can be given. *)
Definition stable (s : CheckpointState) : option Checkpoint :=
  match s with
  | CpPartialWithEarlier _ earlier => Some earlier
  | CpComplete c => Some c
  | _ => None
  end.

(** *** Requests of others *)

Definition process_request_seq (h : Header) (m : CstMessage) : H unit :=
  self ← get;
  let seq := match self.(current_checkpoint_state) with
             | CpPartialWithEarlier _ earlier => Some (cp_sequence_number earlier, cp_digest earlier)
             | CpComplete seq => Some (cp_sequence_number seq, cp_digest seq)
             | _ => None
             end in
  emit [StSend (mkCstMessage m.(cst_seq) (ReplyStateCid seq)) (hdr_from h)].

Definition process_request_state (node : StNode) (h : Header) (m : CstMessage) : H unit :=
  self ← get;
  match self.(phase) with
  | StInit =>
      match stable self.(current_checkpoint_state) with
      | Some state =>
          let reply := mkCstMessage m.(cst_seq) (ReplyState (mkRecoveryState state)) in
          emit [StSend reply (hdr_from h)];;
          expect_sent (node.(send_signed) reply (hdr_from h))
      | None => modify (set_phase (WaitingCheckpoint [mkStored h m]))
      end
  | WaitingCheckpoint waiting => modify (set_phase (WaitingCheckpoint (waiting ++ [mkStored h m])))
  | _ => ret tt
  end.

(** The most recent request of each node. *)
Definition keep_latest (map : gmap NodeId Stored) (request : Stored) : gmap NodeId Stored :=
  match map !! hdr_from request.(header) with
  | None => <[hdr_from request.(header) := request]> map
  | Some x =>
      if sn_ltb x.(message).(cst_seq) request.(message).(cst_seq)
      then <[hdr_from request.(header) := request]> map else map
  end.

Fixpoint process_requests (node : StNode) (reqs : list Stored) : H unit :=
  match reqs with
  | [] => ret tt
  | r :: reqs => process_request_state node r.(header) r.(message);; process_requests node reqs
  end.

Definition process_pending_state_requests (node : StNode) : H unit :=
  self ← get;
  modify (set_phase StInit);;
  match self.(phase) with
  | WaitingCheckpoint reqs => process_requests node (map_values (foldl keep_latest ∅ reqs))
  | _ => ret tt
  end.

(** *** Replies *)

Definition note_cid (cid : SeqNo) (digest : Digest) (ids : gmap (list byte) ReceivedStateCid)
    : gmap (list byte) ReceivedStateCid :=
  let active := default (mkReceivedStateCid cid 0) (ids !! digest) in
  <[digest := match sn_cmp cid active.(rcc_cid) with
              | Gt => mkReceivedStateCid cid 1
              | Eq => mkReceivedStateCid active.(rcc_cid) (active.(rcc_count) + 1)
              | Lt => active
              end]> ids.

(** [sort_by] descending counts, [first]: the first entry with the highest count. *)
Definition first_best {X} (count : X -> nat) (best : option X) (x : X) : option X :=
  match best with
  | Some b => if decide (count b < count x) then Some x else Some b
  | None => Some x
  end.

(** [max_by_key]: the last entry with the highest count. *)
Definition last_best {X} (count : X -> nat) (best : option X) (x : X) : option X :=
  match best with
  | Some b => if decide (count x < count b) then Some b else Some x
  | None => Some x
  end.

Definition most_received_cid (ids : gmap (list byte) ReceivedStateCid) : option ReceivedStateCid :=
  foldl (first_best rcc_count) None (map_values ids).

Definition most_received_state (states : gmap (list byte) ReceivedState) : option (list byte * ReceivedState) :=
  foldl (last_best (fun x => rcv_count x.2)) None (in_some_order (map_to_list states)).

Definition process_receiving_cid (node : StNode) (view : NetworkView) (i : nat) (h : Header) (m : CstMessage)
    : H CstStatus :=
  self ← get;
  if decide (m.(cst_seq) <> self.(curr_seq)) then ret CstRunning
  else
    match m.(cst_kind) with
    | ReplyStateCid state_cid =>
        match state_cid with
        | Some (cid, digest) =>
            modify (fun s => set_received_state_ids (note_cid cid digest s.(received_state_ids)) s)
        | None => ret tt
        end;;
        let i := i + 1 in
        if decide (view.(nv_quorum) <= i) then
          modify (set_phase StInit);;
          modify (fun s => set_curr_timeout s.(base_timeout) s);;
          self ← get;
          match most_received_cid self.(received_state_ids) with
          | Some r =>
              if decide (view.(nv_quorum) <= r.(rcc_count)) then ret (CstSeqNo r.(rcc_cid))
              else modify (set_phase (ReceivingCid i));; ret CstRunning
          | None => ret (CstSeqNo ZERO)
          end
        else modify (set_phase (ReceivingCid i));; ret CstRunning
    | RequestStateCid => process_request_seq h m;; ret CstRunning
    | RequestState => process_request_state node h m;; ret CstRunning
    | ReplyState _ => ret CstRunning
    end.

Definition note_state (state : RecoveryState) (states : gmap (list byte) ReceivedState)
    : gmap (list byte) ReceivedState :=
  let digest := cp_digest state.(rs_checkpoint) in
  match states !! digest with
  | None => <[digest := mkReceivedState 1 state]> states
  | Some current =>
      <[digest :=
          match sn_cmp (cp_sequence_number state.(rs_checkpoint)) (cp_sequence_number current.(rcv_state).(rs_checkpoint)) with
          | Lt | Eq => mkReceivedState (current.(rcv_count) + 1) current.(rcv_state)
          | Gt => mkReceivedState (current.(rcv_count) + 1) state
          end]> states
  end.

Definition process_receiving_state (view : NetworkView) (i : nat) (m : CstMessage) : H CstStatus :=
  self ← get;
  if decide (m.(cst_seq) <> self.(curr_seq)) then ret CstRunning
  else
    match take_state m with
    | None => ret CstRunning
    | Some state =>
        modify (fun s => set_received_states (note_state state s.(received_states)) s);;
        let i := i + 1 in
        if decide (i <= view.(nv_f)) then
          modify (set_phase (ReceivingState i));; ret CstRunning
        else
          self ← get;
          match most_received_state self.(received_states) with
          | None =>
              if decide (view.(nv_quorum) <= i) then
                modify (set_received_states ∅);; ret CstRequestState
              else ret CstRunning
          | Some (digest, _) =>
              let received_state := self.(received_states) !! digest in
              modify (set_received_states ∅);;
              modify (fun s => set_curr_timeout s.(base_timeout) s);;
              match received_state with
              | Some (mkReceivedState count state) =>
                  if decide (view.(nv_f) < count) then
                    modify (set_phase StInit);; ret (CstState state)
                  else ret CstRequestState
              | None => ret CstRequestState
              end
          end
    end.

(** [CollabStateTransfer::process_message], the state machine. *)
Definition advance (node : StNode) (view : NetworkView) (progress : CstProgress) : H CstStatus :=
  self ← get;
  match self.(phase) with
  | WaitingCheckpoint _ => process_pending_state_requests node;; ret CstNil
  | StInit =>
      match progress with
      | ProgressNil => ret CstNil
      | ProgressMessage h m =>
          match m.(cst_kind) with
          | RequestStateCid => process_request_seq h m
          | RequestState => process_request_state node h m
          | _ => ret tt
          end;;
          ret CstNil
      end
  | ReceivingCid i =>
      match progress with
      | ProgressNil => ret CstRequestStateCid
      | ProgressMessage h m => process_receiving_cid node view i h m
      end
  | ReceivingState i =>
      match progress with
      | ProgressNil => ret CstRequestState
      | ProgressMessage h m => process_receiving_state view i m
      end
  end.

(** *** Requests of our own *)

Definition others (node : StNode) (view : NetworkView) : list NodeId :=
  filter (fun id => id <> node.(st_id)) view.(nv_quorum_members).

Definition request_latest_consensus_seq_no (node : StNode) (view : NetworkView) : H unit :=
  modify (set_received_state_ids ∅);;
  modify next_seq;;
  self ← get;
  emit [StRequestTimeout self.(curr_seq) self.(curr_timeout) view.(nv_quorum)];;
  modify (set_phase (ReceivingCid 0));;
  emit [StBroadcast (mkCstMessage self.(curr_seq) RequestStateCid) (others node view)].

Definition request_latest_state (node : StNode) (view : NetworkView) : H unit :=
  modify (set_received_states ∅);;
  modify next_seq;;
  self ← get;
  emit [StRequestTimeout self.(curr_seq) self.(curr_timeout) view.(nv_quorum)];;
  modify (set_phase (ReceivingState 0));;
  emit [StBroadcast (mkCstMessage self.(curr_seq) RequestState) (others node view)].

(** [self.curr_timeout *= 2]: [Duration] panics when it overflows. *)
Definition double_timeout : H unit :=
  self ← get;
  if decide (2 * self.(curr_timeout) <= duration_max)%N
  then modify (set_curr_timeout (2 * self.(curr_timeout))%N) else panic.

Definition timed_out (seq : SeqNo) : H CstStatus :=
  self ← get;
  if decide (seq <> self.(curr_seq)) then ret CstNil
  else
    modify next_seq;;
    match self.(phase) with
    | ReceivingCid _ => double_timeout;; ret CstRequestStateCid
    | ReceivingState _ => double_timeout;; ret CstRequestState
    | _ => ret CstNil
    end.

Definition cst_request_timed_out (node : StNode) (seq : SeqNo) (view : NetworkView) : H bool :=
  status ← timed_out seq;
  match status with
  | CstRequestStateCid => request_latest_consensus_seq_no node view;; ret true
  | CstRequestState => request_latest_state node view;; ret true
  | _ => ret false
  end.

(** *** The trait [StateTransferProtocol] *)

(** [request_latest_state] of the trait starts with the sequence numbers. *)
Definition start (node : StNode) (view : NetworkView) : H unit := request_latest_consensus_seq_no node view.

(** The call of [cst_request_timed_out] is commented out. *)
Fixpoint handle_timeout (timeout : list SeqNo) : H STTimeoutResult :=
  match timeout with
  | [] => ret CstNotNeeded
  | _ :: timeout => handle_timeout timeout
  end.

Definition poll : H STPollResult := ret ReceiveMsg.

Definition handle_off_ctx_message (node : StNode) (view : NetworkView) (msg : Stored) : H unit :=
  let '(mkStored h m) := msg in
  match m.(cst_kind) with
  | RequestStateCid => process_request_seq h m
  | RequestState => process_request_state node h m
  | _ =>
      status ← advance node view (ProgressMessage h m);
      match status with CstNil => ret tt | _ => fail EAnyhow end
  end.

(** What follows from the status of the state machine. *)
Definition conclude (node : StNode) (view : NetworkView) (status : CstStatus) : H STResult :=
  match status with
  | CstRunning => ret StateTransferRunning
  | CstState state =>
      emit [StInstallState (cp_state state.(rs_checkpoint))];;
      expect_sent (node.(install_channel_send) (cp_state state.(rs_checkpoint)));;
      ret (StateTransferFinished (cp_sequence_number state.(rs_checkpoint)))
  | CstSeqNo seq =>
      self ← get;
      if sn_ltb (cps_sequence_number self.(current_checkpoint_state)) seq
      then request_latest_state node view;; ret StateTransferRunning
      else ret (StateTransferNotNeeded seq)
  | CstRequestStateCid => request_latest_consensus_seq_no node view;; ret StateTransferRunning
  | CstRequestState => request_latest_state node view;; ret StateTransferRunning
  | CstNil => ret StateTransferRunning
  end.

Definition handle_reply (node : StNode) (view : NetworkView) (h : Header) (m : CstMessage) : H STResult :=
  emit [StAckReceived m.(cst_seq) (hdr_from h)];;
  propagate (node.(ack_received) m.(cst_seq) (hdr_from h));;
  status ← advance node view (ProgressMessage h m);
  conclude node view status.

Definition process_message (node : StNode) (view : NetworkView) (msg : Stored) : H STResult :=
  let '(mkStored h m) := msg in
  match m.(cst_kind) with
  | RequestStateCid => process_request_seq h m;; ret StateTransferRunning
  | RequestState => process_request_state node h m;; ret StateTransferRunning
  | _ => handle_reply node view h m
  end.

(** *** The replica's own checkpoint *)

Definition handle_app_state_requested (seq : SeqNo) : H ExecutionResult :=
  self ← get;
  match self.(current_checkpoint_state) with
  | CpNone => modify (set_checkpoint (CpPartial seq));; ret BeginCheckpoint
  | CpComplete earlier => modify (set_checkpoint (CpPartialWithEarlier seq earlier));; ret BeginCheckpoint
  | _ => ret ExecNil
  end.

Definition finalize_checkpoint (node : StNode) (checkpoint : Checkpoint) : H unit :=
  self ← get;
  match self.(current_checkpoint_state) with
  | CpNone => fail (EStateTransfer CheckpointNotInitiated)
  | CpComplete _ => fail (EStateTransfer CheckpointAlreadyFinalized)
  | CpPartial _ | CpPartialWithEarlier _ _ =>
      modify (set_checkpoint (CpComplete checkpoint));;
      emit [StWriteCheckpoint checkpoint];;
      propagate (node.(write_checkpoint) checkpoint)
  end.

Definition handle_state_received_from_app (node : StNode) (state : Checkpoint) : H unit :=
  finalize_checkpoint node state;;
  self ← get;
  if needs_checkpoint self then process_pending_state_requests node else ret tt.
End cst.
Arguments t {A AS}.
End CollabStateTransfer.
