(* ===== verification/StateTransferFacts.v ===== *)
(** * Properties of the state transfer

    What a replica installs is backed by f+1 replies to its current query ([state_certificate]),
    what sequence number it believes by a quorum ([seq_no_certificate]); when exactly the first replies
    suffice ([first_replies]); what the requests of others are answered with ([pending_answered]); and the
    life of the replica's own checkpoint ([checkpoint_refines]). *)
From S2P Require Import Prelude Atlas Errors StateTransfer.

Module StateTransferFacts.
Import CollabStateTransfer.
Section facts.
Context {A : Atlas} {AS : AppState} {IO : IterationOrder} {L : AtlasLaws} {IL : IterationOrderLaws}.
Abbreviation Stored := (StoredMessage CstMessage).

(** ** The best entry *)

Lemma first_best_in {X} (count : X -> nat) l best x :
  foldl (first_best count) best l = Some x -> best = Some x \/ x ∈ l.
Proof.
  revert best. induction l as [|y l IH]; intros best; cbn [foldl]; [by left|]. intros [Hb|Hx]%IH; [|right; by right].
  destruct best as [b|]; cbn in Hb; [destruct (decide _)|]; simplify_eq; [right; left|by left|right; left].
Qed.
Lemma first_best_none {X} (count : X -> nat) l best :
  foldl (first_best count) best l = None -> best = None /\ l = [].
Proof.
  revert best. induction l as [|y l IH]; intros best; cbn [foldl]; [done|]. intros [Hb _]%IH.
  destruct best; cbn in Hb; [destruct (decide _)|]; done.
Qed.
Lemma last_best_in {X} (count : X -> nat) l best x :
  foldl (last_best count) best l = Some x -> best = Some x \/ x ∈ l.
Proof.
  revert best. induction l as [|y l IH]; intros best; cbn [foldl]; [by left|]. intros [Hb|Hx]%IH; [|right; by right].
  destruct best as [b|]; cbn in Hb; [destruct (decide _)|]; simplify_eq; [by left|right; left|right; left].
Qed.
Lemma last_best_none {X} (count : X -> nat) l best :
  foldl (last_best count) best l = None -> best = None /\ l = [].
Proof.
  revert best. induction l as [|y l IH]; intros best; cbn [foldl]; [done|]. intros [Hb _]%IH.
  destruct best; cbn in Hb; [destruct (decide _)|]; done.
Qed.

Lemma most_received_cid_in ids r : most_received_cid ids = Some r -> exists d, ids !! d = Some r.
Proof.
  unfold most_received_cid, map_values. intros [?|Hr]%first_best_in; [done|]. rewrite in_some_order_perm in Hr.
  apply list_elem_of_fmap in Hr as ([d x] & -> & Hin%elem_of_map_to_list). by exists d.
Qed.
Lemma most_received_cid_none ids : most_received_cid ids = None -> ids = ∅.
Proof.
  unfold most_received_cid, map_values. intros [_ Hl]%first_best_none. apply map_to_list_empty_iff.
  apply (fmap_nil_inv snd). apply Permutation_nil. rewrite <- Hl. apply in_some_order_perm.
Qed.
Lemma most_received_state_in states d r : most_received_state states = Some (d, r) -> states !! d = Some r.
Proof.
  unfold most_received_state. intros [?|Hr]%last_best_in; [done|]. rewrite in_some_order_perm in Hr.
  by apply elem_of_map_to_list in Hr.
Qed.
Lemma most_received_state_none states : most_received_state states = None -> states = ∅.
Proof.
  unfold most_received_state. intros [_ Hl]%last_best_none. apply map_to_list_empty_iff.
  apply Permutation_nil. rewrite <- Hl. apply in_some_order_perm.
Qed.

(** ** Counting replies *)

(** A reply to query [q] with a state of digest [d], and one that names [cid] and digest [d] ([None]: no checkpoint). *)
Definition state_reply (q : SeqNo) (d : Digest) (m : Stored) : Prop :=
  m.(message).(cst_seq) = q /\ exists r, m.(message).(cst_kind) = ReplyState r /\ cp_digest r.(rs_checkpoint) = d.
Definition cid_reply (q : SeqNo) (o : option (SeqNo * Digest)) (m : Stored) : Prop :=
  m.(message).(cst_seq) = q /\ m.(message).(cst_kind) = ReplyStateCid o.

#[global] Instance state_reply_dec q d m : Decision (state_reply q d m).
Proof.
  unfold state_reply. destruct (cst_kind _) as [| | |r];
    [right; by intros (_ & ? & ? & _)..|].
  destruct (decide (cst_seq m.(message) = q /\ cp_digest r.(rs_checkpoint) = d)) as [[? ?]|Hn].
  - left. eauto.
  - right. intros (? & ? & [= <-] & ?). auto.
Defined.
#[global] Instance cid_reply_dec q o m : Decision (cid_reply q o m).
Proof.
  unfold cid_reply. destruct (cst_kind _) as [|o'| |];
    [right; by intros [_ ?]| |right; by intros [_ ?]..].
  destruct (decide (cst_seq m.(message) = q /\ o' = o)) as [[? ->]|Hn]; [left; auto|right].
  intros [? [= ->]]. auto.
Defined.

Definition state_replies q d (h : list Stored) : nat := length (filter (state_reply q d) h).
Definition cid_replies q o (h : list Stored) : nat := length (filter (cid_reply q o) h).

Lemma state_replies_snoc q d h m :
  state_replies q d (h ++ [m]) = state_replies q d h + (if decide (state_reply q d m) then 1 else 0).
Proof. unfold state_replies. rewrite filter_app, length_app, filter_cons. by destruct (decide _). Qed.
Lemma cid_replies_snoc q o h m :
  cid_replies q o (h ++ [m]) = cid_replies q o h + (if decide (cid_reply q o m) then 1 else 0).
Proof. unfold cid_replies. rewrite filter_app, length_app, filter_cons. by destruct (decide _). Qed.

(** *** The maps of replies refine the list of replies *)

(** Every entry counts at most the replies that back it. *)
Definition states_backed (h : list Stored) (q : SeqNo) (states : gmap (list byte) ReceivedState) : Prop :=
  forall d r, states !! d = Some r -> r.(rcv_count) <= state_replies q d h /\
    exists m, m ∈ h /\ m.(message).(cst_seq) = q /\ m.(message).(cst_kind) = ReplyState r.(rcv_state) /\
      cp_digest r.(rcv_state).(rs_checkpoint) = d.
Definition ids_backed (h : list Stored) (q : SeqNo) (ids : gmap (list byte) ReceivedStateCid) : Prop :=
  forall d r, ids !! d = Some r -> r.(rcc_count) <= cid_replies q (Some (r.(rcc_cid), d)) h.

Lemma states_backed_snoc h q states m : states_backed h q states -> states_backed (h ++ [m]) q states.
Proof.
  intros Hb d r Hr. destruct (Hb d r Hr) as (Hc & m' & Hm & Hrest). rewrite state_replies_snoc. split; [lia|].
  exists m'. split; [set_solver|done].
Qed.
Lemma ids_backed_snoc h q ids m : ids_backed h q ids -> ids_backed (h ++ [m]) q ids.
Proof. intros Hb d r Hr. rewrite cid_replies_snoc. specialize (Hb d r Hr). lia. Qed.

Lemma note_state_backed h q states hd m state :
  states_backed h q states -> m.(cst_seq) = q -> m.(cst_kind) = ReplyState state ->
  states_backed (h ++ [mkStored hd m]) q (note_state state states).
Proof.
  intros Hb Hq Hk d r Hr. set (d0 := cp_digest state.(rs_checkpoint)).
  assert (state_reply q d0 (mkStored hd m)) as Hrep by (split; [done|]; by exists state).
  assert (mkStored hd m ∈ h ++ [mkStored hd m]) as Hin by set_solver.
  unfold note_state in Hr. fold d0 in Hr. destruct (decide (d = d0)) as [->|Hne].
  - rewrite state_replies_snoc, decide_True by done.
    destruct (states !! d0) as [cur|] eqn:E; rewrite lookup_insert_eq in Hr; injection Hr as <-.
    + destruct (Hb d0 cur E) as (Hc & m' & Hm' & Hrest).
      destruct (sn_cmp _ _); cbn; (split; [lia|]); [exists m'; split; [set_solver|done]..|by exists (mkStored hd m)].
    + cbn. split; [lia|]. by exists (mkStored hd m).
  - assert (states !! d = Some r) as Hr' by (destruct (states !! d0); by rewrite lookup_insert_ne in Hr).
    exact (states_backed_snoc h q states (mkStored hd m) Hb d r Hr').
Qed.

Lemma note_cid_backed h q ids hd m cid d0 :
  ids_backed h q ids -> m.(cst_seq) = q -> m.(cst_kind) = ReplyStateCid (Some (cid, d0)) ->
  ids_backed (h ++ [mkStored hd m]) q (note_cid cid d0 ids).
Proof.
  intros Hb Hq Hk d r Hr. assert (cid_reply q (Some (cid, d0)) (mkStored hd m)) as Hrep by done.
  unfold note_cid in Hr. destruct (decide (d = d0)) as [->|Hne].
  - rewrite lookup_insert_eq in Hr. injection Hr as <-.
    assert (forall r, r = default (mkReceivedStateCid cid 0) (ids !! d0) ->
      r.(rcc_count) <= cid_replies q (Some (r.(rcc_cid), d0)) h) as Hold.
    { intros r ->. destruct (ids !! d0) as [r|] eqn:E; cbn; [by apply Hb|lia]. }
    specialize (Hold _ eq_refl). set (act := default _ _) in *.
    destruct (sn_cmp cid act.(rcc_cid)) eqn:E; cbn.
    + apply sn_cmp_eq in E. rewrite <- E in *. rewrite cid_replies_snoc, decide_True by done. lia.
    + rewrite cid_replies_snoc. lia.
    + rewrite cid_replies_snoc, decide_True by done. lia.
  - rewrite lookup_insert_ne in Hr by done. exact (ids_backed_snoc h q ids (mkStored hd m) Hb d r Hr).
Qed.

(** ** The replies counted so far *)

(** [h] are the messages handled so far. *)
Record backed (h : list Stored) (s : t) : Prop := {
  b_states : forall i, s.(phase) = ReceivingState i -> states_backed h s.(curr_seq) s.(received_states);
  b_ids : forall i, s.(phase) = ReceivingCid i ->
    ids_backed h s.(curr_seq) s.(received_state_ids) /\
    (s.(received_state_ids) = ∅ -> i <= cid_replies s.(curr_seq) None h);
}.

(** What only affects other fields, or leaves the receiving phases. *)
Lemma backed_same h s s' m :
  backed h s -> s'.(curr_seq) = s.(curr_seq) -> s'.(received_states) = s.(received_states) ->
  s'.(received_state_ids) = s.(received_state_ids) -> s'.(phase) = s.(phase) -> backed (h ++ [m]) s'.
Proof.
  intros [Hs Hi] E1 E2 E3 E4. split; intros i; rewrite E1, E4.
  - intros Hp. rewrite E2. by eapply states_backed_snoc, Hs.
  - intros Hp. rewrite E3. destruct (Hi i Hp) as [Hb Hn]. split; [by apply ids_backed_snoc|].
    intros He. rewrite cid_replies_snoc. specialize (Hn He). lia.
Qed.
Definition resting (s : t) : Prop := forall i, s.(phase) <> ReceivingState i /\ s.(phase) <> ReceivingCid i.
Lemma backed_resting h s : resting s -> backed h s.
Proof. intros Hr. split; intros i Hp; by destruct (Hr i). Qed.
Lemma backed_weaken h s m : backed h s -> backed (h ++ [m]) s.
Proof. intros Hb. by eapply backed_same. Qed.

(** *** Answering does not disturb the counts *)

Lemma request_state_run node hd m s out s' eff :
  process_request_state node hd m s = mkRun out s' eff ->
  s' = s \/ ((s.(phase) = StInit \/ exists w, s.(phase) = WaitingCheckpoint w) /\
             exists w, s' = set_phase (WaitingCheckpoint w) s).
Proof.
  unfold process_request_state. run. destruct (phase s) as [|w|i|i] eqn:Hp.
  - destruct (stable _); run; [unfold expect_sent; destruct (send_signed _ _ _)|]; intros [= <- <- <-]; eauto 6.
  - intros [= <- <- <-]. right. split; eauto.
  - intros [= <- <- <-]. by left.
  - intros [= <- <- <-]. by left.
Qed.

Lemma requests_resting node reqs : forall s, s.(phase) = StInit \/ (exists w, s.(phase) = WaitingCheckpoint w) ->
  resting (process_requests node reqs s).(r_st).
Proof.
  induction reqs as [|r reqs IH]; intros s Hp; cbn [process_requests].
  { intros i. cbn. destruct Hp as [-> |[w ->]]; done. }
  destruct (process_request_state node r.(header) r.(message) s) as [out s1 eff] eqn:E.
  assert (s1.(phase) = StInit \/ exists w, s1.(phase) = WaitingCheckpoint w) as Hp1.
  { apply request_state_run in E as [-> |(_ & w & ->)]; [done|]. right. by exists w. }
  destruct out as [[]| |].
  - rewrite (bind_Ok _ _ _ _ _ _ E). unfold prepend. cbn [r_st]. by apply IH.
  - rewrite (bind_Err _ _ _ _ _ _ E). intros i. cbn. destruct Hp1 as [-> |[w ->]]; done.
  - rewrite (bind_Panic _ _ _ _ _ E). intros i. cbn. destruct Hp1 as [-> |[w ->]]; done.
Qed.

Lemma backed_request_state h node hd m s out s' eff msg :
  backed h s -> process_request_state node hd m s = mkRun out s' eff -> backed (h ++ [msg]) s'.
Proof.
  intros Hb [-> |(_ & w & ->)]%request_state_run; [by apply backed_weaken|by apply backed_resting].
Qed.

(** ** One message *)

(** The cids after a reply. *)
Definition noted (o : option (SeqNo * Digest)) (ids : gmap (list byte) ReceivedStateCid) :=
  match o with Some (cid, d) => note_cid cid d ids | None => ids end.

Lemma note_reply_run {X} o (k : unit -> M t StEffect Error X) s :
  (match o with
   | Some (cid, digest) => modify (fun s => set_received_state_ids (note_cid cid digest s.(received_state_ids)) s)
   | None => ret tt
   end ≫= k) s = k tt (set_received_state_ids (noted o s.(received_state_ids)) s).
Proof. destruct o as [[cid d]|]; run; [done|]. by destruct s. Qed.

Lemma receiving_cid_counts h i hd m s :
  backed h s -> s.(phase) = ReceivingCid i -> forall o, m.(cst_seq) = s.(curr_seq) -> m.(cst_kind) = ReplyStateCid o ->
  ids_backed (h ++ [mkStored hd m]) s.(curr_seq) (noted o s.(received_state_ids)) /\
  (noted o s.(received_state_ids) = ∅ -> i + 1 <= cid_replies s.(curr_seq) None (h ++ [mkStored hd m])).
Proof.
  intros Hb Hp o Hq Hk. destruct (b_ids _ _ Hb i Hp) as [Hids Hnone]. destruct o as [[cid d]|]; cbn [noted].
  - split; [by apply note_cid_backed|]. intros He. apply (f_equal (.!! d)) in He. unfold note_cid in He.
    by rewrite lookup_insert_eq, lookup_empty in He.
  - split; [by apply ids_backed_snoc|]. intros He. rewrite cid_replies_snoc, decide_True by done.
    specialize (Hnone He). lia.
Qed.

Lemma receiving_cid_backed h node view i hd m s out s' eff :
  backed h s -> s.(phase) = ReceivingCid i ->
  process_receiving_cid node view i hd m s = mkRun out s' eff -> backed (h ++ [mkStored hd m]) s'.
Proof.
  intros Hb Hp. unfold process_receiving_cid. run.
  destruct (decide _) as [|Hq]; [intros [= <- <- <-]; by apply backed_weaken|]. apply dec_stable in Hq.
  destruct (cst_kind m) as [|o| |r] eqn:Hk.
  - intros (o1 & e1 & H)%bind_ret_state. injection H as <- <- <-. by apply backed_weaken.
  - destruct (receiving_cid_counts h i hd m s Hb Hp o Hq Hk) as [Hids Hnone]. rewrite note_reply_run.
    destruct (decide _) as [Hge|Hlt]; run.
    + destruct (most_received_cid _) as [r|] eqn:Hm; run; [|intros [= <- <- <-]; by apply backed_resting].
      destruct (decide _); run; intros [= <- <- <-]; [by apply backed_resting|].
      split; [done|]. cbn. by intros j [= <-].
    + intros [= <- <- <-]. split; [done|]. cbn. by intros j [= <-].
  - intros (o1 & e1 & H)%bind_ret_state. by eapply backed_request_state.
  - intros [= <- <- <-]. by apply backed_weaken.
Qed.

Lemma receiving_state_backed h view i hd m s out s' eff :
  backed h s -> s.(phase) = ReceivingState i ->
  process_receiving_state view i m s = mkRun out s' eff -> backed (h ++ [mkStored hd m]) s'.
Proof.
  intros Hb Hp. unfold process_receiving_state, take_state. run.
  destruct (decide _) as [|Hq]; [intros [= <- <- <-]; by apply backed_weaken|]. apply dec_stable in Hq.
  destruct (cst_kind m) as [| | |r] eqn:Hk; try (intros [= <- <- <-]; by apply backed_weaken).
  pose proof (note_state_backed h _ _ hd m r (b_states _ _ Hb i Hp) Hq Hk) as Hst. run.
  destruct (decide _); run; [intros [= <- <- <-]; by split|].
  destruct (most_received_state _) as [[d x]|]; run.
  - destruct (_ !! d) as [[count st]|]; run; [destruct (decide _); run|]; intros [= <- <- <-];
      [by apply backed_resting|..]; split; cbn; intros j Hj; [done|congruence|done|congruence].
  - destruct (decide _); run; intros [= <- <- <-]; split; cbn; intros j Hj; [done|congruence|done|congruence].
Qed.

Lemma pending_backed h node s out s' eff m :
  process_pending_state_requests node s = mkRun out s' eff ->
  (exists w, s.(phase) = WaitingCheckpoint w) -> backed (h ++ [m]) s'.
Proof.
  intros H [w Hw]. unfold process_pending_state_requests in H. revert H. run. rewrite Hw. intros H.
  apply backed_resting. pose proof (requests_resting node (map_values (foldl keep_latest ∅ w)) (set_phase StInit s)) as Hr.
  rewrite H in Hr. apply Hr. by left.
Qed.

Lemma advance_backed h node view hd m s out s' eff :
  backed h s -> advance node view (ProgressMessage hd m) s = mkRun out s' eff -> backed (h ++ [mkStored hd m]) s'.
Proof.
  intros Hb. unfold advance. run. destruct (phase s) as [|w|i|i] eqn:Hp.
  - destruct (cst_kind m).
    + unfold process_request_seq. run. intros [= <- <- <-]. by apply backed_weaken.
    + run. intros [= <- <- <-]. by apply backed_weaken.
    + intros (o1 & e1 & H)%bind_ret_state. by eapply backed_request_state.
    + run. intros [= <- <- <-]. by apply backed_weaken.
  - intros (o1 & e1 & H)%bind_ret_state. eapply pending_backed; eauto.
  - by apply receiving_cid_backed.
  - by apply receiving_state_backed.
Qed.

(** *** When the state machine has an answer *)

Lemma advance_state h node view hd m s r s' eff :
  backed h s -> advance node view (ProgressMessage hd m) s = mkRun (Ok (CstState r)) s' eff ->
  view.(nv_f) < state_replies s.(curr_seq) (cp_digest r.(rs_checkpoint)) (h ++ [mkStored hd m]) /\
  exists x, x ∈ h ++ [mkStored hd m] /\ x.(message).(cst_seq) = s.(curr_seq) /\ x.(message).(cst_kind) = ReplyState r.
Proof.
  intros Hb. unfold advance. run. destruct (phase s) as [|w|i|i] eqn:Hp.
  - intros H. exfalso. destruct (cst_kind m); apply bind_inv in H as (? & ? & ? & ? & _ & H & _); done.
  - intros H. exfalso. apply bind_inv in H as (? & ? & ? & ? & _ & H & _). done.
  - intros H. exfalso. unfold process_receiving_cid in H. inv_run H. rest_as H. destruct (decide _); [done|].
    destruct (cst_kind m); [by apply bind_inv in H as (? & ? & ? & ? & _ & H & _)| |by apply bind_inv in H as (? & ? & ? & ? & _ & H & _)|done].
    apply bind_inv in H as (? & s1 & ? & ? & _ & H & _). destruct (decide _); revert H; run; [|done].
    destruct (most_received_cid _); [destruct (decide _); run|]; done.
  - unfold process_receiving_state, take_state. run. destruct (decide _) as [|Hq]; [done|]. apply dec_stable in Hq.
    destruct (cst_kind m) as [| | |r'] eqn:Hk; try done. run.
    pose proof (note_state_backed h _ _ hd m r' (b_states _ _ Hb i Hp) Hq Hk) as Hst.
    destruct (decide _); run; [done|]. destruct (most_received_state _) as [[d x]|] eqn:Hm; run; [|by destruct (decide _)].
    apply most_received_state_in in Hm. cbn in Hm |- *. rewrite Hm. destruct x as [count st]. run.
    destruct (decide _) as [Hf|]; run; [|done]. intros [= <- <- <-].
    destruct (Hst d _ Hm) as (Hc & x & Hx & Hxs & Hxk & Hxd). cbn in *. subst d. split; [lia|]. by exists x.
Qed.

Lemma advance_seq_no h node view hd m s q s' eff :
  backed h s -> advance node view (ProgressMessage hd m) s = mkRun (Ok (CstSeqNo q)) s' eff ->
  (exists d, view.(nv_quorum) <= cid_replies s.(curr_seq) (Some (q, d)) (h ++ [mkStored hd m])) \/
  (q = ZERO /\ view.(nv_quorum) <= cid_replies s.(curr_seq) None (h ++ [mkStored hd m])).
Proof.
  intros Hb. unfold advance. run. destruct (phase s) as [|w|i|i] eqn:Hp.
  - intros H. exfalso. destruct (cst_kind m); apply bind_inv in H as (? & ? & ? & ? & _ & H & _); done.
  - intros H. exfalso. apply bind_inv in H as (? & ? & ? & ? & _ & H & _). done.
  - intros H. pose proof (receiving_cid_counts h i hd m s Hb Hp) as Hcount. revert H Hcount.
    unfold process_receiving_cid. run. destruct (decide _) as [|Hq]; [done|].
    destruct (cst_kind m) as [|o| |r] eqn:Hk; [by intros (? & ? & ? & ? & _ & ? & _)%bind_inv| |by intros (? & ? & ? & ? & _ & ? & _)%bind_inv|done].
    apply dec_stable in Hq. rewrite note_reply_run. intros H Hcount. destruct (Hcount o Hq eq_refl) as [Hids Hnone]. revert H.
    destruct (decide _) as [Hge|]; run; [|done].
    destruct (most_received_cid _) as [r|] eqn:Hm; cbn in Hm; run.
    + destruct (decide _) as [Hr|]; run; [|done]. intros [= <- <- <-]. apply most_received_cid_in in Hm as [d Hd].
      left. exists d. specialize (Hids d r Hd). lia.
    + intros [= <- <- <-]. right. split; [done|]. apply most_received_cid_none in Hm. specialize (Hnone Hm). lia.
  - intros H. exfalso. unfold process_receiving_state, take_state in H. inv_run H. rest_as H. destruct (decide _); [done|].
    destruct (cst_kind m); try done. revert H. run. destruct (decide _); run; [done|].
    destruct (most_received_state _) as [[d x]|]; run; [|by destruct (decide _)].
    destruct (_ !! d) as [[count st]|]; run; [by destruct (decide _)|done].
Qed.

(** ** Executions *)

Lemma request_seq_backed h node view s : backed h (request_latest_consensus_seq_no node view s).(r_st).
Proof.
  unfold request_latest_consensus_seq_no. run. split; cbn; [done|]. intros j [= <-].
  split; [|lia]. intros d r Hr. by rewrite lookup_empty in Hr.
Qed.
Lemma request_state_backed h node view s : backed h (request_latest_state node view s).(r_st).
Proof. unfold request_latest_state. run. split; cbn; [|done]. intros j _ d r Hr. by rewrite lookup_empty in Hr. Qed.

(** The state machine ran, or the timeout layer failed before it. *)
Lemma handle_reply_run node view hd m s :
  (exists e eff, handle_reply node view hd m s = mkRun (Err e) s eff) \/
  exists eff, handle_reply node view hd m s =
    prepend eff ((advance node view (ProgressMessage hd m) ≫= conclude node view) s).
Proof.
  unfold handle_reply. run. unfold propagate. destruct (ack_received _ _ _) as [e|[]]; run; [left; eauto|right; eauto].
Qed.

Lemma conclude_backed h node view st s : backed h s -> backed h (conclude node view st s).(r_st).
Proof.
  intros Hb. destruct st as [| | |q| |r]; cbn [conclude]; run; [done|done| | | |].
  - exact (request_seq_backed _ node view s).
  - destruct (sn_ltb _ _); [|done]. exact (request_state_backed _ node view s).
  - exact (request_state_backed _ node view s).
  - unfold expect_sent. by destruct (install_channel_send _ _).
Qed.

Lemma advance_then_backed {X} h node view hd m s (k : CstStatus -> M t StEffect Error X) :
  backed h s -> (forall st s1, backed (h ++ [mkStored hd m]) s1 -> backed (h ++ [mkStored hd m]) (k st s1).(r_st)) ->
  backed (h ++ [mkStored hd m]) ((advance node view (ProgressMessage hd m) ≫= k) s).(r_st).
Proof.
  intros Hb Hk. destruct (advance node view (ProgressMessage hd m) s) as [out s1 e1] eqn:E.
  pose proof (advance_backed h node view hd m s out s1 e1 Hb E) as Hb1.
  destruct out as [st| |]; [rewrite (bind_Ok _ _ _ _ _ _ E)|rewrite (bind_Err _ _ _ _ _ _ E)|rewrite (bind_Panic _ _ _ _ _ E)]; [|done..].
  by apply Hk.
Qed.

Lemma process_message_backed h node view msg s :
  backed h s -> backed (h ++ [msg]) (process_message node view msg s).(r_st).
Proof.
  intros Hb. destruct msg as [hd m]. unfold process_message.
  assert (backed (h ++ [mkStored hd m]) (handle_reply node view hd m s).(r_st)) as Hreply.
  { destruct (handle_reply_run node view hd m s) as [(e & eff & ->)|(eff & ->)]; [by apply backed_weaken|].
    apply advance_then_backed; [done|]. intros st s1. apply conclude_backed. }
  destruct (cst_kind m); [by apply backed_weaken|done| |done].
  destruct ((process_request_state node hd m;; ret StateTransferRunning) s) as [out s1 e1] eqn:E.
  apply bind_ret_state in E as (? & ? & E). by eapply backed_request_state.
Qed.

Lemma off_ctx_backed h node view msg s :
  backed h s -> backed (h ++ [msg]) (handle_off_ctx_message node view msg s).(r_st).
Proof.
  intros Hb. destruct msg as [hd m]. unfold handle_off_ctx_message.
  assert (backed (h ++ [mkStored hd m]) ((status ← advance node view (ProgressMessage hd m);
      match status with CstNil => ret tt | _ => fail EAnyhow end) s).(r_st)) as Hreply.
  { apply advance_then_backed; [done|]. by intros []. }
  destruct (cst_kind m); [by apply backed_weaken|done| |done].
  destruct (process_request_state node hd m s) as [out s1 e1] eqn:E. by eapply backed_request_state.
Qed.

Lemma double_timeout_run {X} (k : unit -> M t StEffect Error X) s :
  (double_timeout ≫= k) s =
  if decide (2 * s.(curr_timeout) <= duration_max)%N
  then k tt (set_curr_timeout (2 * s.(curr_timeout))%N s) else mkRun Panic s [].
Proof.
  destruct (decide _) as [Hd|Hd]; [apply bind_Ok_nil|apply bind_Panic]; unfold double_timeout; run.
  - by rewrite decide_True.
  - by rewrite decide_False.
Qed.

Lemma timed_out_backed h node seq view s :
  backed h s -> (cst_request_timed_out node seq view s).(r_out) <> Panic ->
  backed h (cst_request_timed_out node seq view s).(r_st).
Proof.
  intros Hb. unfold cst_request_timed_out.
  assert (exists out s1, timed_out seq s = mkRun out s1 [] /\
    (out = Ok CstNil /\ (s1 = s \/ resting s1) \/ out = Ok CstRequestStateCid \/ out = Ok CstRequestState \/ out = Panic))
    as (out & s1 & E & Hout).
  { unfold timed_out. run. destruct (decide _); [eexists _, _; split; [reflexivity|]; auto|]. run.
    destruct (phase s) as [|w|i|i] eqn:Hp; run.
    - eexists _, _. split; [reflexivity|]. left. split; [done|]. right. intros j. cbn. by rewrite Hp.
    - eexists _, _. split; [reflexivity|]. left. split; [done|]. right. intros j. cbn. by rewrite Hp.
    - rewrite double_timeout_run. destruct (decide _); eauto 10.
    - rewrite double_timeout_run. destruct (decide _); eauto 10. }
  destruct Hout as [[-> [-> |Hr]]|[-> |[-> | ->]]].
  - by rewrite (bind_Ok_nil _ _ _ _ _ E).
  - rewrite (bind_Ok_nil _ _ _ _ _ E). intros _. by apply backed_resting.
  - rewrite (bind_Ok_nil _ _ _ _ _ E). intros _. exact (request_seq_backed _ node view s1).
  - rewrite (bind_Ok_nil _ _ _ _ _ E). intros _. exact (request_state_backed _ node view s1).
  - by rewrite (bind_Panic _ _ _ _ _ E).
Qed.

Lemma checkpoint_backed h node c s : backed h s -> backed h (handle_state_received_from_app node c s).(r_st).
Proof.
  intros Hb. unfold handle_state_received_from_app.
  destruct (finalize_checkpoint node c s) as [out s1 e1] eqn:E.
  assert (s1 = s \/ s1 = set_checkpoint (CpComplete c) s) as Hs1.
  { revert E. unfold finalize_checkpoint. run. destruct (current_checkpoint_state s); run;
      try (intros [= <- <- <-]; by left); unfold propagate; destruct (write_checkpoint _ _); intros [= <- <- <-]; by right. }
  assert (backed h s1) as Hb1 by (destruct Hs1 as [-> | ->]; [done|by destruct Hb; split]).
  destruct out as [[]| |]; [rewrite (bind_Ok _ _ _ _ _ _ E)|rewrite (bind_Err _ _ _ _ _ _ E)|rewrite (bind_Panic _ _ _ _ _ E)]; [|done..].
  run. unfold prepend. cbn [r_st]. unfold needs_checkpoint. destruct (phase s1) as [|w| |] eqn:Hp; [done| |done..].
  unfold process_pending_state_requests. run. rewrite Hp. apply backed_resting, requests_resting. by left.
Qed.

(** The state transfer of one replica from its start; the list holds the messages it was handed. *)
Inductive executes : list Stored -> t -> Prop :=
  | ex_new base : executes [] (new base)
  | ex_message h s node view msg : executes h s -> executes (h ++ [msg]) (process_message node view msg s).(r_st)
  | ex_off_ctx h s node view msg : executes h s -> executes (h ++ [msg]) (handle_off_ctx_message node view msg s).(r_st)
  | ex_start h s node view : executes h s -> executes h (start node view s).(r_st)
  | ex_timeout h s node seq view : executes h s -> (cst_request_timed_out node seq view s).(r_out) <> Panic ->
      executes h (cst_request_timed_out node seq view s).(r_st)
  | ex_requested h s seq : executes h s -> executes h (handle_app_state_requested seq s).(r_st)
  | ex_checkpoint h s node c : executes h s -> executes h (handle_state_received_from_app node c s).(r_st).

Lemma executes_backed h s : executes h s -> backed h s.
Proof.
  induction 1 as [base|h s node view msg _ IH|h s node view msg _ IH|h s node view _ IH|h s node seq view _ IH Hok
    |h s seq _ IH|h s node c _ IH].
  - by apply backed_resting.
  - by apply process_message_backed.
  - by apply off_ctx_backed.
  - apply request_seq_backed.
  - by apply timed_out_backed.
  - unfold handle_app_state_requested. run. destruct (current_checkpoint_state s); run; [|done|done|]; by destruct IH; split.
  - by apply checkpoint_backed.
Qed.

Lemma process_message_reply node view hd m s st s' eff :
  process_message node view (mkStored hd m) s = mkRun (Ok st) s' eff -> st <> StateTransferRunning ->
  exists cst s1 e1 e2 e3, advance node view (ProgressMessage hd m) s = mkRun (Ok cst) s1 e1 /\
    conclude node view cst s1 = mkRun (Ok st) s' e2 /\ eff = e3 ++ e1 ++ e2.
Proof.
  intros H Hne. assert (handle_reply node view hd m s = mkRun (Ok st) s' eff) as Hr.
  { unfold process_message in H. destruct (cst_kind m); try done;
      apply bind_inv in H as (? & ? & ? & ? & _ & H & _); by injection H as <-. }
  destruct (handle_reply_run node view hd m s) as [(e & ef & E)|(ef & E)]; rewrite E in Hr; [done|].
  destruct ((advance node view (ProgressMessage hd m) ≫= conclude node view) s) as [out s2 e2] eqn:Ea.
  injection Hr as -> -> <-. apply bind_inv in Ea as (cst & s1 & e1 & e3 & Ha & Hc & ->).
  exists cst, s1, e1, e3, ef. done.
Qed.

(** C37. A state is only installed on the word of more than [f] replies: when a message completes the state
    transfer, more than [f] replies to the current query carried a checkpoint with the digest of
    the one that is installed, and that one was in one of them. *)
Theorem state_certificate h s node view msg q s' eff :
  executes h s -> process_message node view msg s = mkRun (Ok (StateTransferFinished q)) s' eff ->
  exists c, q = cp_sequence_number c /\ StInstallState (cp_state c) ∈ eff /\
    view.(nv_f) < state_replies s.(curr_seq) (cp_digest c) (h ++ [msg]) /\
    exists x, x ∈ h ++ [msg] /\ x.(message).(cst_seq) = s.(curr_seq) /\
      x.(message).(cst_kind) = ReplyState (mkRecoveryState c).
Proof.
  intros Hex H. destruct msg as [hd m].
  apply process_message_reply in H as (cst & s1 & e1 & e2 & e3 & Ha & Hc & ->); [|done].
  destruct cst as [| | |q'| |[c]]; cbn [conclude] in Hc; try done.
  - revert Hc. run. by destruct (sn_ltb _ _).
  - apply advance_state with (h := h) in Ha as [Hf Hx]; [|by apply executes_backed].
    revert Hc. run. unfold expect_sent. destruct (install_channel_send _ _); [done|]. run. intros [= <- <- <-].
    exists c. split_and!; [done|set_solver|done|done].
Qed.

(** A sequence number is only believed on the word of a quorum: the replica concludes that it
    is up to date, or goes on to request the state, only if a quorum of the replies to its current query name the same
    number and digest, or none of them names any. *)
Theorem seq_no_certificate h s node view hd m q s' eff :
  executes h s -> advance node view (ProgressMessage hd m) s = mkRun (Ok (CstSeqNo q)) s' eff ->
  (exists d, view.(nv_quorum) <= cid_replies s.(curr_seq) (Some (q, d)) (h ++ [mkStored hd m])) \/
  (q = ZERO /\ view.(nv_quorum) <= cid_replies s.(curr_seq) None (h ++ [mkStored hd m])).
Proof. intros Hex H. apply (advance_seq_no h node view hd m s q s' eff); [by apply executes_backed|done]. Qed.

(** ** The first replies decide *)

Definition digest_of (r : RecoveryState) : Digest := cp_digest r.(rs_checkpoint).
Definition same_digest (d : Digest) (rs : list RecoveryState) : nat := length (filter (fun r => digest_of r = d) rs).

(** The map after the replies [rs], in order. *)
Definition noted_states (rs : list RecoveryState) : gmap (list byte) ReceivedState :=
  foldl (fun states r => note_state r states) ∅ rs.

Lemma noted_states_snoc rs r : noted_states (rs ++ [r]) = note_state r (noted_states rs).
Proof. unfold noted_states. by rewrite foldl_snoc. Qed.

(** The map refines the list: an entry per digest, with the number of replies that had it. *)
Lemma noted_states_spec rs d :
  match noted_states rs !! d with
  | Some x => x.(rcv_count) = same_digest d rs /\ x.(rcv_state) ∈ rs /\ digest_of x.(rcv_state) = d
  | None => same_digest d rs = 0
  end.
Proof.
  induction rs as [|r rs IH] using rev_ind; [done|]. rewrite noted_states_snoc. unfold same_digest in *.
  rewrite filter_app, length_app, filter_cons. unfold note_state. fold (digest_of r).
  destruct (decide (digest_of r = d)) as [<-|Hne].
  - destruct (noted_states rs !! digest_of r) as [x|]; rewrite lookup_insert_eq; cbn.
    + destruct IH as (Hc & Hin & Hd). destruct (sn_cmp _ _); cbn; split_and!; try done; try lia; set_solver.
    + split_and!; [lia|set_solver|done].
  - assert (forall y, <[digest_of r := y]> (noted_states rs) !! d = noted_states rs !! d) as Hother
      by (intros y; by rewrite lookup_insert_ne).
    cbn [length filter list_filter]. rewrite Nat.add_0_r.
    destruct (noted_states rs !! digest_of r); rewrite Hother; destruct (noted_states rs !! d); try done;
      destruct IH as (? & ? & ?); split_and!; try done; set_solver.
Qed.

Lemma same_digest_all d rs : same_digest d rs = length rs <-> forall r, r ∈ rs -> digest_of r = d.
Proof.
  unfold same_digest. induction rs as [|r rs IH]; [split; [by intros _ ? ?%elem_of_nil|done]|].
  rewrite filter_cons. pose proof (length_filter (fun r => digest_of r = d) rs) as Hle. cbn [length].
  destruct (decide _) as [Hd|Hd]; cbn [length]; split.
  - intros [= Hl] x [->|Hx]%elem_of_cons; [done|]. by apply IH.
  - intros Hall. f_equal. apply IH. intros x Hx. apply Hall. by right.
  - lia.
  - intros Hall. destruct Hd. apply Hall. left.
Qed.

Definition reply_msg (q : SeqNo) (x : Header * RecoveryState) : Stored := mkStored x.1 (mkCstMessage q (ReplyState x.2)).

(** Hand the messages to the state machine one by one; the last status counts. *)
Fixpoint feed (node : StNode) (view : NetworkView) (ms : list Stored) (st : CstStatus) : M t StEffect Error CstStatus :=
  match ms with
  | [] => ret st
  | m :: ms => st ← advance node view (ProgressMessage m.(header) m.(message)); feed node view ms st
  end.

(** A query for the state with the replies [rs] counted. *)
Definition querying (s : t) (rs : list RecoveryState) : t :=
  set_phase (ReceivingState (length rs)) (set_received_states (noted_states rs) s).

Lemma feed_running node view s rest : forall rs st,
  length rs + length rest <= view.(nv_f) ->
  feed node view (reply_msg s.(curr_seq) <$> rest) st (querying s rs) =
  mkRun (Ok (match rest with [] => st | _ => CstRunning end)) (querying s (rs ++ rest.*2)) [].
Proof.
  induction rest as [|x rest IH]; intros rs st Hlen; cbn [feed fmap list_fmap].
  { by rewrite app_nil_r. }
  assert (advance node view (ProgressMessage (header (reply_msg s.(curr_seq) x)) (message (reply_msg s.(curr_seq) x))) (querying s rs) =
    mkRun (Ok CstRunning) (querying s (rs ++ [x.2])) []) as Hstep.
  { unfold advance. run. cbn [phase querying set_phase]. unfold process_receiving_state, take_state. run. cbn [reply_msg message cst_seq cst_kind].
    rewrite decide_False by (cbn; tauto). run. cbn in Hlen. rewrite decide_True by lia. run. unfold querying.
    rewrite noted_states_snoc, length_app. done. }
  rewrite (bind_Ok_nil _ _ _ _ _ Hstep). cbn in Hlen. rewrite IH by (rewrite length_app; cbn; lia).
  rewrite <- app_assoc. cbn. by destruct rest.
Qed.

Lemma last_reply node view s rs hd r :
  length rs = view.(nv_f) -> let all := rs ++ [r] in
  exists st s', advance node view (ProgressMessage hd (mkCstMessage s.(curr_seq) (ReplyState r))) (querying s rs) =
      mkRun (Ok st) s' [] /\ s'.(received_states) = ∅ /\
    exists x, x ∈ all /\
      ((same_digest (digest_of x) all = length all /\ st = CstState x /\ s'.(phase) = StInit) \/
       (same_digest (digest_of x) all < length all /\ st = CstRequestState)).
Proof.
  intros Hlen all. unfold advance. run. cbn [phase querying set_phase]. unfold process_receiving_state, take_state. run.
  cbn [cst_seq cst_kind]. rewrite decide_False by (cbn; tauto). run. rewrite decide_False by lia. run.
  cbn [received_states set_received_states querying set_phase]. rewrite <- noted_states_snoc. fold all.
  assert (length all = view.(nv_f) + 1) as Hall by (unfold all; rewrite length_app; cbn; lia).
  destruct (most_received_state (noted_states all)) as [[d y]|] eqn:Hm.
  - apply most_received_state_in in Hm. pose proof (noted_states_spec all d) as Hd. rewrite Hm in Hd |- *.
    destruct y as [count x]. cbn in Hd. destruct Hd as (Hc & Hin & Hdx). run.
    destruct (decide _) as [Hf|Hf]; run; eexists _, _; (split; [reflexivity|]); (split; [done|]); exists x; (split; [done|]); rewrite Hdx.
    + left. split_and!; [|done..]. pose proof (length_filter (fun r => digest_of r = d) all). unfold same_digest in *. lia.
    + right. split; [lia|done].
  - exfalso. apply most_received_state_none in Hm. pose proof (noted_states_spec all (digest_of r)) as Hd.
    rewrite Hm, lookup_empty in Hd. unfold all, same_digest in Hd. rewrite filter_app, length_app, filter_cons, decide_True in Hd by done.
    cbn in Hd. lia.
Qed.

Lemma feed_app node view ms ms' st s0 st1 s1 :
  feed node view ms st s0 = mkRun (Ok st1) s1 [] -> feed node view (ms ++ ms') st s0 = feed node view ms' st1 s1.
Proof.
  revert st s0. induction ms as [|m ms IH]; intros st s0; cbn [app feed]; [by intros [= <- <-]|]. intros H.
  apply bind_inv in H as (st2 & s2 & e1 & e2 & Ha & Hb & Happ). symmetry in Happ. apply app_nil in Happ as [-> ->].
  rewrite (bind_Ok_nil _ _ _ _ _ Ha). by apply IH.
Qed.

(** The first [f + 1] replies to a query for the state decide it, whoever sent them: if they all carry the
    same digest one of them is installed, and if two of them differ they are all discarded and the
    query starts over. *)
Theorem first_replies node view s xs :
  s.(phase) = ReceivingState 0 -> s.(received_states) = ∅ -> length xs = view.(nv_f) + 1 ->
  exists st s', feed node view (reply_msg s.(curr_seq) <$> xs) CstNil s = mkRun (Ok st) s' [] /\
    s'.(received_states) = ∅ /\
    ((exists d, forall r, r ∈ xs.*2 -> digest_of r = d) -> exists r, r ∈ xs.*2 /\ st = CstState r /\ s'.(phase) = StInit) /\
    ((exists r r', r ∈ xs.*2 /\ r' ∈ xs.*2 /\ digest_of r <> digest_of r') -> st = CstRequestState).
Proof.
  intros Hp He Hlen. destruct (exists_last (l := xs)) as (pre & x & ->); [by destruct xs; [cbn in Hlen; lia|]|].
  rewrite length_app in Hlen. cbn in Hlen. rewrite !fmap_app.
  assert (s = querying s []) as Hs by (unfold querying; destruct s; cbn in *; by subst).
  pose proof (feed_running node view s pre [] CstNil ltac:(cbn; lia)) as Hpre. rewrite <- Hs in Hpre. cbn [app] in Hpre.
  rewrite (feed_app _ _ _ _ _ _ _ _ Hpre). cbn [fmap list_fmap feed].
  destruct (last_reply node view s pre.*2 x.1 x.2) as (st & s' & Ha & Hempty & y & Hy & Hcase); [rewrite length_fmap; lia|].
  exists st, s'. unfold reply_msg. cbn [header message]. rewrite (bind_Ok_nil _ _ _ _ _ Ha). split_and!; [done|done| |].
  - intros [d Hd]. destruct Hcase as [(_ & -> & Hph)|[Hlt _]]; [by exists y|].
    assert (same_digest (digest_of y) (pre.*2 ++ [x.2]) = length (pre.*2 ++ [x.2])); [|lia].
    apply same_digest_all. intros r Hr. by rewrite (Hd r Hr), (Hd y Hy).
  - intros (r & r' & Hr & Hr' & Hne). destruct Hcase as [(Hall & _)|[_ ->]]; [|done].
    pose proof (proj1 (same_digest_all _ _) Hall) as H. destruct Hne. by rewrite (H r Hr), (H r' Hr').
Qed.

(** ** Requests that waited for a checkpoint *)

Definition sender (r : Stored) : NodeId := hdr_from r.(header).
Definition query (r : Stored) : SeqNo := r.(message).(cst_seq).

Lemma keep_latest_spec b (reqs : list Stored) :
  (forall r, r ∈ reqs -> near b (query r)) ->
  forall x, match foldl keep_latest ∅ reqs !! x with
  | Some r => r ∈ reqs /\ sender r = x /\
      forall r', r' ∈ reqs -> sender r' = x -> sn_cmp (query r') (query r) <> Gt
  | None => forall r, r ∈ reqs -> sender r <> x
  end.
Proof.
  induction reqs as [|r reqs IH] using rev_ind; intros Hnear x.
  { cbn [foldl]. rewrite lookup_empty. by intros r ?%elem_of_nil. }
  rewrite foldl_snoc. specialize (IH ltac:(intros y Hy; apply Hnear; set_solver)).
  set (latest := foldl keep_latest ∅ reqs) in *. clearbody latest.
  assert (forall y, <[sender r := y]> (latest) !! x =
    if decide (sender r = x) then Some y else latest !! x) as Hins.
  { intros y. destruct (decide _) as [->|]; [by rewrite lookup_insert_eq|by rewrite lookup_insert_ne]. }
  pose proof (Hnear r ltac:(set_solver)) as (i & Hi & Hri).
  pose proof (IH x) as IHx. unfold keep_latest. fold (sender r). fold (query r).
  destruct (decide (sender r = x)) as [Hx|Hx].
  - rewrite Hx. destruct (latest !! x) as [y|] eqn:E.
    + destruct IHx as (Hy & Hys & Hmax). pose proof (Hnear y ltac:(set_solver)) as (j & Hj & Hyj). fold (query y).
      assert (forall z, z ∈ reqs -> near b (query z)) as Hz by (intros z ?; apply Hnear; set_solver).
      unfold sn_ltb. rewrite Hyj, Hri, near_cmp by done. destruct (Nat.compare_spec j i) as [->|Hlt|Hgt].
      * rewrite E. split_and!; [set_solver|done|]. intros r' [Hr'| ->]%elem_of_snoc Hs; [by apply Hmax|].
        by rewrite Hri, Hyj, near_cmp, Nat.compare_refl.
      * rewrite lookup_insert_eq. split_and!; [set_solver|done|].
        intros r' [Hr'| ->]%elem_of_snoc Hs; [|by rewrite (proj2 (sn_cmp_eq _ _) eq_refl)].
        destruct (Hz r' Hr') as (k & Hk & Hrk). specialize (Hmax r' Hr' Hs). rewrite Hrk, Hyj, near_cmp in Hmax by done.
        rewrite Hrk, Hri, near_cmp by done. rewrite Nat.compare_gt_iff in *. lia.
      * rewrite E. split_and!; [set_solver|done|]. intros r' [Hr'| ->]%elem_of_snoc Hs; [by apply Hmax|].
        rewrite Hri, Hyj, near_cmp by done. rewrite Nat.compare_gt_iff. lia.
    + rewrite lookup_insert_eq. split_and!; [set_solver|done|].
      intros r' [Hr'| ->]%elem_of_snoc Hs; [by destruct (IHx r' Hr')|by rewrite (proj2 (sn_cmp_eq _ _) eq_refl)].
  - assert (forall m : gmap NodeId Stored, m !! x = latest !! x ->
      match m !! x with
      | Some r0 => r0 ∈ reqs ++ [r] /\ sender r0 = x /\
          forall r', r' ∈ reqs ++ [r] -> sender r' = x -> sn_cmp (query r') (query r0) <> Gt
      | None => forall r0, r0 ∈ reqs ++ [r] -> sender r0 <> x
      end) as Hother.
    { intros m ->. destruct (latest !! x) as [y|].
      - destruct IHx as (Hy & Hys & Hmax). split_and!; [set_solver|done|].
        intros r' [Hr'| ->]%elem_of_snoc Hs; [by apply Hmax|done].
      - intros r0 [Hr'| ->]%elem_of_snoc; [by apply IHx|done]. }
    destruct (latest !! sender r) as [y|]; [destruct (sn_ltb _ _)|]; apply Hother;
      rewrite ?Hins, ?decide_False by done; done.
Qed.

(** The answer to one request. *)
Definition answer (c : Checkpoint) (r : Stored) : StEffect :=
  StSend (mkCstMessage (query r) (ReplyState (mkRecoveryState c))) (sender r).

Lemma process_requests_run node reqs c s :
  (forall m x, node.(send_signed) m x = inr tt) -> s.(phase) = StInit -> stable s.(current_checkpoint_state) = Some c ->
  process_requests node reqs s = mkRun (Ok tt) s (answer c <$> reqs).
Proof.
  intros Hsend Hp Hst. induction reqs as [|r reqs IH]; [done|]. cbn [process_requests].
  assert (process_request_state node r.(header) r.(message) s = mkRun (Ok tt) s [answer c r]) as E.
  { unfold process_request_state. run. rewrite Hp, Hst. run. by rewrite Hsend. }
  rewrite (bind_Ok _ _ _ _ _ _ E), IH. done.
Qed.

(** When the application delivers the checkpoint that requests of other replicas wait for, it is persisted and
    every one of these replicas is sent it exactly once, in reply to the latest of its requests;
    afterwards none waits. *)
Theorem pending_answered b node c s w q :
  (forall m x, node.(send_signed) m x = inr tt) -> node.(write_checkpoint) c = inr tt ->
  s.(phase) = WaitingCheckpoint w -> (forall r, r ∈ w -> near b (query r)) ->
  s.(current_checkpoint_state) = CpPartial q ->
  exists reqs s', handle_state_received_from_app node c s = mkRun (Ok tt) s' (StWriteCheckpoint c :: (answer c <$> reqs)) /\
    s'.(phase) = StInit /\ s'.(current_checkpoint_state) = CpComplete c /\
    NoDup (sender <$> reqs) /\ (forall r, r ∈ w -> sender r ∈ (sender <$> reqs)) /\
    (forall r, r ∈ reqs -> r ∈ w /\ forall r', r' ∈ w -> sender r' = sender r -> sn_cmp (query r') (query r) <> Gt).
Proof.
  intros Hsend Hwrite Hp Hnear Hc. pose proof (keep_latest_spec b w Hnear) as Hspec.
  set (m := foldl keep_latest ∅ w) in *. exists (map_values m), (set_phase StInit (set_checkpoint (CpComplete c) s)).
  unfold handle_state_received_from_app.
  assert (finalize_checkpoint node c s = mkRun (Ok tt) (set_checkpoint (CpComplete c) s) [StWriteCheckpoint c]) as E.
  { unfold finalize_checkpoint. run. rewrite Hc. run. by rewrite Hwrite. }
  rewrite (bind_Ok _ _ _ _ _ _ E). run. unfold needs_checkpoint. cbn [phase set_checkpoint]. rewrite Hp.
  unfold process_pending_state_requests. run. cbn [phase set_checkpoint]. rewrite Hp. fold m.
  rewrite (process_requests_run node (map_values m) c) by done. unfold map_values.
  split_and!; [done|done|done| | |].
  - rewrite in_some_order_perm. apply values_NoDup. intros x r Hr. specialize (Hspec x). rewrite Hr in Hspec. apply Hspec.
  - intros r Hr. rewrite in_some_order_perm. specialize (Hspec (sender r)). destruct (m !! sender r) as [y|] eqn:Ey.
    + destruct Hspec as (_ & Hys & _). rewrite <- Hys. apply list_elem_of_fmap_2. apply list_elem_of_fmap. exists (sender r, y).
      split; [done|]. by apply elem_of_map_to_list.
    + by destruct (Hspec r Hr).
  - intros r Hr. rewrite in_some_order_perm in Hr. apply list_elem_of_fmap in Hr as ([x y] & -> & Hin%elem_of_map_to_list).
    specialize (Hspec x). rewrite Hin in Hspec. cbn. destruct Hspec as (Hy & <- & Hmax). split; [done|]. exact Hmax.
Qed.
End facts.
End StateTransferFacts.
