(* ===== verification/CheckpointService.v ===== *)
(** * The checkpoint service of a replica ([febft-state-transfer/src/lib.rs])

    Seen from outside, the state transfer protocol offers one checkpoint at a time: the application is asked for a new
    one, delivers it, and from then on it is the one the other replicas are given.
    [Spec] states this contract as a labelled transition system, and [checkpoint_refines] shows that
    [CollabStateTransfer], with its phases, queues, queries and timeouts, implements it. *)
From S2P Require Import Prelude Atlas Errors StateTransfer.
Import CollabStateTransfer.

Module CheckpointService.
Section service.
Context {A : Atlas} {AS : AppState} {IO : IterationOrder}.

Abbreviation Stored := (StoredMessage CstMessage).

(** ** The contract *)

(** What the other replicas were given last, and whether the application owes a checkpoint. *)
Record Spec := mkSpec { published : option Checkpoint; owed : bool }.

(** What a reply tells another replica. *)
Inductive Offer :=
  | OfferSeq (o : option (SeqNo * Digest))
  | OfferState (c : Checkpoint).

Definition truthful (p : option Checkpoint) (o : Offer) : Prop :=
  match o with
  | OfferSeq o => o = (fun c => (cp_sequence_number c, cp_digest c)) <$> p
  | OfferState c => p = Some c
  end.

Inductive Event :=
  | EvRequested (r : ExecutionResult)
  | EvDelivered (c : Checkpoint) (refused : option StateTransferError) (offers : list Offer)
  | EvServed (offers : list Offer).

Definition refusal (p : option Checkpoint) : StateTransferError :=
  match p with None => CheckpointNotInitiated | Some _ => CheckpointAlreadyFinalized end.

Inductive spec_step : Spec -> Event -> Spec -> Prop :=
  | spec_begin p : spec_step (mkSpec p false) (EvRequested BeginCheckpoint) (mkSpec p true)
  | spec_busy p : spec_step (mkSpec p true) (EvRequested ExecNil) (mkSpec p true)
  | spec_deliver p c offers : Forall (truthful (Some c)) offers ->
      spec_step (mkSpec p true) (EvDelivered c None offers) (mkSpec (Some c) false)
  | spec_refuse p c : spec_step (mkSpec p false) (EvDelivered c (Some (refusal p)) []) (mkSpec p false)
  | spec_serve p o offers : Forall (truthful p) offers -> spec_step (mkSpec p o) (EvServed offers) (mkSpec p o).

Inductive spec_trace : Spec -> list Event -> Spec -> Prop :=
  | trace_nil p : spec_trace p [] p
  | trace_snoc p evs p' ev p'' : spec_trace p evs p' -> spec_step p' ev p'' -> spec_trace p (evs ++ [ev]) p''.

(** ** The implementation *)

(** The entry points of the protocol. *)
Inductive Op :=
  | OpMessage (node : StNode) (view : NetworkView) (msg : Stored)
  | OpOffCtx (node : StNode) (view : NetworkView) (msg : Stored)
  | OpStart (node : StNode) (view : NetworkView)
  | OpTimeout (node : StNode) (seq : SeqNo) (view : NetworkView)
  | OpRequested (seq : SeqNo)
  | OpDelivered (node : StNode) (c : Checkpoint).

Definition offer_of (e : StEffect) : option Offer :=
  match e with
  | StSend (mkCstMessage _ (ReplyStateCid o)) _ => Some (OfferSeq o)
  | StSend (mkCstMessage _ (ReplyState r)) _ => Some (OfferState r.(rs_checkpoint))
  | StBroadcast (mkCstMessage _ (ReplyStateCid o)) _ => Some (OfferSeq o)
  | StBroadcast (mkCstMessage _ (ReplyState r)) _ => Some (OfferState r.(rs_checkpoint))
  | _ => None
  end.
Definition offers (eff : list StEffect) : list Offer := omap offer_of eff.

(** An error of the service itself. *)
Definition refused {X} (r : Res Error X) : option StateTransferError :=
  match r with Err (EStateTransfer e) => Some e | _ => None end.

Definition served {X} (r : Run t StEffect Error X) : t * Event := (r.(r_st), EvServed (offers r.(r_eff))).

Definition apply_op (op : Op) (s : t) : t * Event :=
  match op with
  | OpMessage node view msg => served (process_message node view msg s)
  | OpOffCtx node view msg => served (handle_off_ctx_message node view msg s)
  | OpStart node view => served (start node view s)
  | OpTimeout node seq view => served (cst_request_timed_out node seq view s)
  | OpRequested seq =>
      let r := handle_app_state_requested seq s in
      (r.(r_st), EvRequested match r.(r_out) with Ok x => x | _ => ExecNil end)
  | OpDelivered node c =>
      let r := handle_state_received_from_app node c s in
      (r.(r_st), EvDelivered c (refused r.(r_out)) (offers r.(r_eff)))
  end.

Fixpoint apply_ops (ops : list Op) (s : t) : t * list Event :=
  match ops with
  | [] => (s, [])
  | op :: ops =>
      let (s1, ev) := apply_op op s in
      let (s2, evs) := apply_ops ops s1 in
      (s2, ev :: evs)
  end.

(** The abstraction function. *)
Definition abs (s : t) : Spec :=
  mkSpec (stable s.(current_checkpoint_state))
    match s.(current_checkpoint_state) with CpPartial _ | CpPartialWithEarlier _ _ => true | _ => false end.

(** ** Code that serves without touching the checkpoint *)

(** From a state that holds [c], the checkpoint stays, the replies are truthful about it and nothing is refused. *)
Definition serves (c : CheckpointState) {X} (m : M t StEffect Error X) : Prop :=
  forall s, s.(current_checkpoint_state) = c ->
  (m s).(r_st).(current_checkpoint_state) = c /\ Forall (truthful (stable c)) (offers (m s).(r_eff)) /\
  refused (m s).(r_out) = None.

Section rules.
Context (c : CheckpointState).

Lemma serves_ret {X} (x : X) : serves c (ret x).
Proof. by intros s. Qed.
Lemma serves_fail {X} e : refused (Err e : Res Error X) = None -> serves c (fail e : M t StEffect Error X).
Proof. by intros ? s. Qed.
Lemma serves_panic {X} : serves c (panic : M t StEffect Error X).
Proof. by intros s. Qed.
Lemma serves_modify f : (forall s, (f s).(current_checkpoint_state) = s.(current_checkpoint_state)) ->
  serves c (modify f).
Proof. intros Hf s Hs. split; [|done]. cbn. by rewrite Hf. Qed.
Lemma serves_emit e : Forall (truthful (stable c)) (offers e) -> serves c (emit e).
Proof. by intros He s Hs. Qed.
Lemma serves_get {X} (k : t -> M t StEffect Error X) :
  (forall s, s.(current_checkpoint_state) = c -> serves c (k s)) -> serves c (get ≫= k).
Proof. intros Hk s Hs. run. by apply Hk. Qed.
Lemma serves_bind {X Y} (m : M t StEffect Error X) (k : X -> M t StEffect Error Y) :
  serves c m -> (forall x, serves c (k x)) -> serves c (m ≫= k).
Proof.
  intros Hm Hk s Hs. specialize (Hm s Hs) as (Hc & Ho & Hr). unfold mbind, M_bind, bind.
  destruct (m s) as [[x|e|] s1 w]; cbn in *; [|done..].
  destruct (Hk x s1 Hc) as (Hc' & Ho' & Hr'). split_and!; [done| |done]. unfold offers. rewrite omap_app. by apply Forall_app.
Qed.
End rules.

Create HintDb serves.

(** Take code apart with the rules; what is left is for the lemmas of the parts. *)
Ltac serve_step :=
  lazymatch goal with
  | |- serves _ (ret _) => apply serves_ret
  | |- serves _ (mret _) => apply serves_ret
  | |- serves _ (fail _) => by apply serves_fail
  | |- serves _ panic => apply serves_panic
  | |- serves _ (modify _) => by apply serves_modify
  | |- serves _ (get ≫= _) => apply serves_get; let s := fresh "s" in let Hs := fresh "Hs" in intros s Hs
  | |- serves _ (_ ≫= _) => apply serves_bind; [|intro]
  | |- serves _ (emit _) => apply serves_emit; constructor
  | |- serves _ (match _ with _ => _ end) => case_match
  | |- serves _ (let _ := _ in _) => cbn zeta
  | |- serves _ _ => solve [auto with serves nocore]
  end.
Ltac serve := repeat serve_step.

Lemma expect_serves c r : serves c (expect_sent r).
Proof. unfold expect_sent. serve. Qed.
Lemma propagate_serves c r : serves c (propagate r).
Proof. unfold propagate. serve. Qed.
Lemma request_seq_serves c h m : serves c (process_request_seq h m).
Proof.
  unfold process_request_seq. apply serves_get. intros s <-. apply serves_emit.
  destruct (current_checkpoint_state s); cbn; by repeat constructor.
Qed.
Lemma request_state_serves c node h m : serves c (process_request_state node h m).
Proof.
  unfold process_request_state. apply serves_get. intros s <-. case_match; [|serve..].
  destruct (stable (current_checkpoint_state s)) eqn:E; [|serve]. apply serves_bind; [|intro; apply expect_serves].
  apply serves_emit. cbn. constructor; [|done]. by rewrite E.
Qed.
#[local] Hint Resolve expect_serves propagate_serves request_seq_serves request_state_serves : serves.

Lemma requests_serve c node reqs : serves c (process_requests node reqs).
Proof. induction reqs; cbn [process_requests]; serve. Qed.
#[local] Hint Resolve requests_serve : serves.
Lemma pending_serves c node : serves c (process_pending_state_requests node).
Proof. unfold process_pending_state_requests. serve. Qed.
Lemma receiving_cid_serves c node view i h m : serves c (process_receiving_cid node view i h m).
Proof. unfold process_receiving_cid. serve. Qed.
Lemma receiving_state_serves c view i m : serves c (process_receiving_state view i m).
Proof. unfold process_receiving_state. serve. Qed.
#[local] Hint Resolve pending_serves receiving_cid_serves receiving_state_serves : serves.
Lemma advance_serves c node view p : serves c (advance node view p).
Proof. unfold advance. serve. Qed.
Lemma ask_seq_serves c node view : serves c (request_latest_consensus_seq_no node view).
Proof. unfold request_latest_consensus_seq_no. serve. Qed.
Lemma ask_state_serves c node view : serves c (request_latest_state node view).
Proof. unfold request_latest_state. serve. Qed.
Lemma timed_out_serves c seq : serves c (timed_out seq).
Proof. unfold timed_out, double_timeout. serve. Qed.
#[local] Hint Resolve advance_serves ask_seq_serves ask_state_serves timed_out_serves : serves.

Lemma process_message_serves c node view msg : serves c (process_message node view msg).
Proof. unfold process_message, handle_reply, conclude. serve. Qed.
Lemma off_ctx_serves c node view msg : serves c (handle_off_ctx_message node view msg).
Proof. unfold handle_off_ctx_message. serve. Qed.
Lemma timeout_serves c node seq view : serves c (cst_request_timed_out node seq view).
Proof. unfold cst_request_timed_out. serve. Qed.

(** ** The simulation *)

Lemma served_step {X} (m : M t StEffect Error X) s :
  (forall c, serves c m) -> spec_step (abs s) (served (m s)).2 (abs (served (m s)).1).
Proof.
  intros Hm. destruct (Hm _ s eq_refl) as (Hc & Ho & _). unfold served, abs. cbn [fst snd]. rewrite Hc. by constructor.
Qed.

(** Code that starts by storing the delivered checkpoint and serves it afterwards. *)
Lemma delivered_serves {X} (m : M t StEffect Error X) s c :
  (abs s).(owed) = true -> serves (CpComplete c) m ->
  let r := m (set_checkpoint (CpComplete c) s) in
  spec_step (abs s) (EvDelivered c (refused r.(r_out)) (offers r.(r_eff))) (abs r.(r_st)).
Proof.
  intros Howed Hm. destruct (Hm (set_checkpoint (CpComplete c) s) eq_refl) as (Hc & Ho & Hr). cbn zeta.
  rewrite Hr. unfold abs at 2. rewrite Hc. destruct (abs s) as [p o]. cbn in Howed. subst o. by constructor.
Qed.

Lemma delivered_step node c s :
  spec_step (abs s) (apply_op (OpDelivered node c) s).2 (abs (apply_op (OpDelivered node c) s).1).
Proof.
  cbn [apply_op fst snd]. unfold handle_state_received_from_app.
  set (rest := fun _ => self ← get; if needs_checkpoint self then process_pending_state_requests node else ret tt).
  assert (serves (CpComplete c) ((emit [StWriteCheckpoint c];; propagate (node.(write_checkpoint) c)) ≫= rest)) as Hs.
  { subst rest. serve. }
  destruct (current_checkpoint_state s) as [|q|q e|e] eqn:E.
  1,4: rewrite (bind_Err _ _ _ (EStateTransfer (refusal (stable (current_checkpoint_state s)))) s [])
    by (unfold finalize_checkpoint; run; by rewrite E); unfold abs; cbn; rewrite E; constructor.
  all: assert ((finalize_checkpoint node c ≫= rest) s =
    ((emit [StWriteCheckpoint c];; propagate (node.(write_checkpoint) c)) ≫= rest) (set_checkpoint (CpComplete c) s)) as ->
    by (unfold finalize_checkpoint, mbind, M_bind, bind; cbn; rewrite E; cbn; by destruct (propagate _ _)).
  all: apply delivered_serves; [unfold abs; by rewrite E|done].
Qed.

Lemma op_step op s : spec_step (abs s) (apply_op op s).2 (abs (apply_op op s).1).
Proof.
  destruct op as [node view msg|node view msg|node view|node seq view|seq|node c].
  - apply served_step. intros. apply process_message_serves.
  - apply served_step. intros. apply off_ctx_serves.
  - apply served_step. intros. apply ask_seq_serves.
  - apply served_step. intros. apply timeout_serves.
  - cbn. unfold handle_app_state_requested. run. unfold abs. destruct (current_checkpoint_state s) eqn:E; cbn;
      rewrite ?E; constructor.
  - apply delivered_step.
Qed.

(** C38. Refinement.  Whatever sequence of messages, requests, timeouts and calls of the application a replica goes through
    from its start, and whether they succeed or fail, its state transfer behaves as the abstract checkpoint service: a
    checkpoint is asked of the application only when none is owed, a delivery is refused exactly when none is owed, and
    every sequence number, digest and state sent to another replica is the one of the checkpoint delivered last. *)
Theorem checkpoint_refines base ops :
  let (s, evs) := apply_ops ops (new base) in spec_trace (mkSpec None false) evs (abs s).
Proof.
  induction ops as [|op ops IH] using rev_ind; [constructor|].
  assert (forall ops s, apply_ops (ops ++ [op]) s =
    let (s1, evs) := apply_ops ops s in let (s2, ev) := apply_op op s1 in (s2, evs ++ [ev])) as ->.
  { clear. intros ops. induction ops as [|o ops IH]; intros s; cbn.
    - by destruct (apply_op op s).
    - destruct (apply_op o s) as [s1 ev]. rewrite IH. destruct (apply_ops ops s1) as [s2 evs].
      by destruct (apply_op op s2). }
  destruct (apply_ops ops (new base)) as [s1 evs]. pose proof (op_step op s1) as Hop.
  destruct (apply_op op s1) as [s2 ev]. by econstructor.
Qed.
End service.
End CheckpointService.
