(* ===== verification/Sample.v ===== *)
(** * A concrete environment

    [SampleAtlas], [SampleDecisions] and [SampleWire] instantiate the interfaces
    the development is parametric in and satisfy their laws; a view of four
    replicas and a run of one consensus instance in it are used to evaluate
    the definitions.  Sequence numbers are plain numbers (no wrap-around within
    the range anything is claimed of), digests are two bytes long, and the
    hash context collects the bytes it is given. *)
From S2P Require Import Prelude Atlas Errors View Messages Decisions Deciding Log Network.
From S2P Require Import SyncAccessory Accessory Decision Agreement Progress Consensus.
From S2P Require Import ConsensusFacts.

(** ** Byte strings *)

Definition byte_of (n : N) : byte := default x00 (Byte.of_N (n mod 256)).

Fixpoint be_digits (fuel : nat) (n : N) : list byte :=
  match fuel with
  | 0 => []
  | S fuel => if (n <? 256)%N then [byte_of n] else be_digits fuel (n / 256) ++ [byte_of n]
  end.

Lemma to_N_byte_of n : Byte.to_N (byte_of n) = (n mod 256)%N.
Proof.
  unfold byte_of. pose proof (N.mod_lt n 256 ltac:(done)).
  destruct (Byte.of_N (n mod 256)) as [b|] eqn:E; cbn.
  - by apply Byte.to_of_N.
  - apply Byte.of_N_None_iff in E. lia.
Qed.

Lemma be_digits_value fuel n : (n < 2 ^ N.of_nat fuel)%N -> be_value (be_digits fuel n) = n.
Proof.
  revert n. induction fuel as [|fuel IH]; intros n Hn; [cbn in *; lia|]. cbn [be_digits].
  destruct (N.ltb_spec n 256) as [H|H].
  - unfold be_value. cbn [foldl]. rewrite to_N_byte_of, N.mod_small by done. lia.
  - rewrite be_value_app, IH, to_N_byte_of.
    + pose proof (N.div_mod n 256 ltac:(done)). lia.
    + rewrite Nat2N.inj_succ, N.pow_succ_r' in Hn. apply N.Div0.div_lt_upper_bound. lia.
Qed.

Lemma size_nat_size n : N.of_nat (N.size_nat n) = N.size n.
Proof. destruct n as [|p]; [done|]. induction p; cbn in *; lia. Qed.

(** ** Message queues *)

Definition sample_index (s t : N) : InvalidSeqNo + nat :=
  if (t <=? s)%N then inr (N.to_nat (s - t)) else inl Small.

(** Pad the queue up to the bucket and append to it. *)
Definition pad {X} (n : nat) (q : list (list X)) : list (list X) := q ++ replicate (n - length q) [].

Definition sample_queue {X} (base : N) (q : list (list X)) (m : N * X) : list (list X) :=
  match sample_index m.1 base with
  | inl _ => q
  | inr i => let q := pad (S i) q in <[i := bucket i q ++ [m.2]]> q
  end.

Definition sample_pop {X} (q : list (list X)) : option X * list (list X) :=
  match q with
  | (x :: b) :: q => (Some x, b :: q)
  | _ => (None, q)
  end.

Lemma bucket_pad {X} n (q : list (list X)) j : bucket j (pad n q) = bucket j q.
Proof.
  unfold bucket, pad. destruct (decide (j < length q)).
  - by rewrite lookup_app_l.
  - rewrite lookup_app_r by lia. rewrite (lookup_ge_None_2 q) by lia.
    destruct (replicate _ _ !! _) as [b|] eqn:E; [|done]. apply lookup_replicate in E as [-> _]. done.
Qed.

(** ** The instance *)

Record SHeader := mkSHeader { sh_from : N; sh_digest : list byte; sh_unique : list byte }.
Record SRequest := mkSRequest { srq_seq : N; srq_session : N }.

#[refine] Instance SampleAtlas : Atlas := {
  sn_next s := (s + 1)%N;
  sn_prev s := (s - 1)%N;
  sn_add := N.add;
  sn_index := sample_index;
  sn_cmp := N.compare;
  sn_window := 1000;
  sn_max := 2 ^ 32 - 1;
  tbo_queue_message X := sample_queue;
  tbo_advance_message_queue X q := tail q;
  tbo_advance_message_queue_return X q := (head q, tail q);
  tbo_pop_message X := sample_pop;
  node_targets n := N.of_nat <$> seq 0 n;
  SystemParams := nat * nat;
  sp_new n f := if decide (3 * f + 1 <= n) then inr (n, f) else inl MkExternalError;
  sp_n := fst;
  sp_f := snd;
  sp_quorum p := 2 * p.2 + 1;
  digest_length := 2;
  HashContext := list byte;
  ctx_new := [];
  ctx_update := app;
  ctx_finish ctx := ctx;
  from_bytes_be := be_value;
  to_bytes_be n := be_digits (S (N.size_nat n)) n;
  Header := SHeader;
  hdr_from := sh_from;
  hdr_digest := sh_digest;
  hdr_unique_digest := sh_unique;
  RQ := SRequest;
  rq_sequence_number := srq_seq;
  rq_session_number := srq_session;
}.
Proof. Defined.

Lemma sample_plus n s : sn_plus n s = (s + N.of_nat n)%N.
Proof. 
  unfold sn_plus. induction n as [|n IH]; [cbn; lia|].
  rewrite Nat.iter_succ, IH. change (sn_next (s + N.of_nat n)%N) with (s + N.of_nat n + 1)%N. lia.
Qed.

#[global] Instance SampleAtlasLaws : AtlasLaws.
Proof.
  split.
  - intros n s _. rewrite sample_plus. cbn. unfold sample_index.
    destruct (N.leb_spec s (s + N.of_nat n)); [f_equal; lia|lia].
  - intros s t n. rewrite sample_plus. cbn. unfold sample_index.
    destruct (N.leb_spec t s); intros [= <-]; lia.
  - intros n s Hn. rewrite sample_plus. cbn. unfold sample_index.
    destruct (N.leb_spec (s + N.of_nat n) s); [lia|eauto].
  - intros n s _. by rewrite sample_plus.
  - intros s t. apply N.compare_eq_iff.
  - intros n s Hn. rewrite sample_plus. apply N.compare_lt_iff. lia.
  - intros n s Hn. rewrite sample_plus. apply N.compare_gt_iff. lia.
  - cbn. lia.
  - done.
  - intros X base q s x e. cbn. unfold sample_queue. cbn. by intros ->.
  - intros X base q s x i Hi j. cbn in *. unfold sample_queue. cbn. rewrite Hi.
    assert (i < length (pad (S i) q)) as Hl.
    { unfold pad. rewrite length_app, length_replicate. lia. }
    destruct (decide (i = j)) as [<-|Hne].
    + unfold bucket at 1. rewrite list_lookup_insert_eq by done. cbn. by rewrite bucket_pad.
    + unfold bucket at 1. rewrite list_lookup_insert_ne by done. fold (bucket j (pad (S i) q)).
      by rewrite bucket_pad, app_nil_r.
  - done.
  - done.
  - intros X [|[|x b] q]; done.
  - done.
  - done.
  - intros n f p. cbn. destruct (decide _); [|done]. by intros [= <-].
  - intros n f H. cbn. rewrite decide_True by done. eauto.
  - done.
  - done.
  - intros n. cbn -[be_digits]. apply be_digits_value.
    rewrite Nat2N.inj_succ, N.pow_succ_r'. pose proof (N.size_gt n).
    rewrite size_nat_size. lia.
Qed.

(** Decisions as the plain data they carry. *)
Inductive SDecision :=
  | SFull (s : N) (md : ProofMetadata) (ms : list Shareable) (p : N * (list (StoredMessage RQ)) * list ClientRqInfo * Digest)
  | SMessages (s : N) (ms : list Shareable) (done : option (N * (list (StoredMessage RQ)) * list ClientRqInfo * Digest)).

Definition sd_seq (d : SDecision) : N := match d with SFull s _ _ _ => s | SMessages s _ _ => s end.

#[global] Instance SampleDecisions : AtlasDecisions := {
  BatchedDecision := list (StoredMessage RQ);
  bd_new_with_cap _ _ := [];
  bd_add_message b m := b ++ [m];
  ProtocolConsensusDecision := N * list (StoredMessage RQ) * list ClientRqInfo * Digest;
  pcd_new s b i d := (s, b, i, d);
  pcd_sequence_number p := p.1.1.1;
  FeDecision := SDecision;
  dec_full_decision_info s md _ ms p := SFull s md ms p;
  dec_from_message s m := SMessages s [m] None;
  dec_from_metadata_and_messages s _ _ ms := SMessages s ms None;
  dec_completed s p := SMessages s [] (Some p);
  dec_sequence_number := sd_seq;
  dec_merge d e := if decide (sd_seq d = sd_seq e) then inr d else inl MkExternalError;
  dec_append_done d p := match d with SMessages s ms _ => SMessages s ms (Some p) | SFull _ _ _ _ => d end;
}.

#[global] Instance SampleDecisionsLaws : AtlasDecisionsLaws.
Proof.
  split; try done.
  - intros d e H. exists d. cbn in *. by rewrite decide_True.
  - by intros [].
Qed.

#[global] Instance SampleWire : WireFormat := {
  wire_header me peer m := mkSHeader me [] [];
}.
#[global] Instance SampleWireLaws : WireFormatLaws.
Proof. by split. Qed.

(** ** A view of four replicas *)

Definition view_of (r : Result ViewInfo.t) : ViewInfo.t :=
  match r with Ok v => v | _ => ViewInfo.mk 0 [] [] ∅ (0, 0) end.

(** View 0: the members are 0 to 3, one of them may fail, replica 0 leads. *)
Definition view0 : ViewInfo.t := view_of (ViewInfo.new 0 4 1).
Definition view1 : ViewInfo.t := view_of (ViewInfo.new 1 4 1).

Lemma view_of_wf s : ViewInfo.wf (view_of (ViewInfo.new s 4 1)).
Proof.
  destruct (ViewInfo.new_ok s 4 1) as (v & Hv & Hwf & _); [done|lia|]. by rewrite Hv.
Qed.
Lemma view0_wf : ViewInfo.wf view0.
Proof. apply view_of_wf. Qed.
Lemma view1_wf : ViewInfo.wf view1.
Proof. apply view_of_wf. Qed.

(** ** Messages for instance 5 *)

Definition digest5 : Digest := [x01; x02].
Definition request (n : N) : StoredMessage RQ := mkStored (mkSHeader 9 [x07; byte_of n] [x07; byte_of n]) (mkSRequest n 1).

Definition pre_prepare_msg (s v : SeqNo) : Shareable :=
  mkStored (mkSHeader v digest5 digest5)
    (Messages.Consensus (mkConsensusMessage s v 0 (PrePrepare [request 1; request 2]))).
Definition prepare_msg (s v : SeqNo) (from : NodeId) : Shareable :=
  mkStored (mkSHeader from [] []) (Messages.Consensus (mkConsensusMessage s v 0 (Prepare digest5))).
Definition commit_msg (s v : SeqNo) (from : NodeId) : Shareable :=
  mkStored (mkSHeader from [] []) (Messages.Consensus (mkConsensusMessage s v 0 (Commit digest5))).

(** Votes overtake the proposal: they are queued until their phase. *)
Definition messages5 : list Shareable :=
  [prepare_msg 5 0 1; commit_msg 5 0 2; pre_prepare_msg 5 0; prepare_msg 5 0 0; prepare_msg 5 0 3;
   commit_msg 5 0 0; commit_msg 5 0 1].

Definition rng0 : nat -> N := fun _ => 0%N.
Definition sync (v : ViewInfo.t) : SynchronizerRole * ViewInfo.t := (ReplicaRole, v).

Abbreviation decision := ConsensusDecision.t.

(** Handle the messages in turn. *)
Definition deliver (v : ViewInfo.t) (m : Shareable) (d : decision) : Run decision Effect Error DecisionStatus :=
  ConsensusDecision.process_message rng0 d.(ConsensusDecision.node_id) (sync v) m d.

Fixpoint deliver_all (v : ViewInfo.t) (ms : list Shareable) (eff : list Effect) (d : decision)
    : list Effect * decision :=
  match ms with
  | [] => (eff, d)
  | m :: ms => let r := deliver v m d in deliver_all v ms (eff ++ r.(r_eff)) r.(r_st)
  end.

Definition is_consensus (m : Shareable) : bool :=
  match consensus m.(message) with Ok _ => true | _ => false end.

Lemma deliver_all_reach v d0 ms : forall eff d,
  forallb is_consensus ms = true -> ConsensusDecision.reach (Sy := SynchronizerRole * ViewInfo.t) v d0 eff d ->
  ConsensusDecision.reach (Sy := SynchronizerRole * ViewInfo.t) v d0 (deliver_all v ms eff d).1 (deliver_all v ms eff d).2.
Proof.
  induction ms as [|m ms IH]; intros eff d Hms Hr; [done|]. cbn in Hms.
  apply andb_true_iff in Hms as [Hm Hms]. cbn [deliver_all]. apply IH; [done|].
  unfold is_consensus in Hm. destruct (consensus m.(message)) as [c| |] eqn:Hc; try done.
  eapply ConsensusDecision.reach_step; [exact Hr|].
  exact (ConsensusDecision.step_message v d rng0 (sync v) m c eq_refl Hc).
Qed.

(** Replica 1 opens instance 5, and handles the messages above. *)
Definition start5 : decision := ConsensusDecision.init_decision 1 5 view0.
Definition opened5 : decision := (ConsensusDecision.poll start5).2.
Definition partial5 : list Effect * decision := deliver_all view0 (take 4 messages5) [] opened5.

Lemma opened5_reach : ConsensusDecision.reach (Sy := SynchronizerRole * ViewInfo.t) view0 start5 [] opened5.
Proof. exact (ConsensusDecision.reach_step _ _ [] _ [] _ (ConsensusDecision.reach_init _ _) (ConsensusDecision.step_poll _ _)). Qed.

(** Queued votes are handed back by [poll] one at a time. *)
Definition settle1 (v : ViewInfo.t) (acc : list Effect * decision) : list Effect * decision :=
  match ConsensusDecision.poll acc.2 with
  | (NextMessage m, d) => if is_consensus m then deliver_all v [m] acc.1 d else acc
  | (_, d) => (acc.1, d)
  end.

Lemma settle_reach v d0 n acc :
  ConsensusDecision.reach (Sy := SynchronizerRole * ViewInfo.t) v d0 acc.1 acc.2 ->
  ConsensusDecision.reach (Sy := SynchronizerRole * ViewInfo.t) v d0
    (Nat.iter n (settle1 v) acc).1 (Nat.iter n (settle1 v) acc).2.
Proof.
  intros Hr. induction n as [|n IH]; [done|]. rewrite Nat.iter_succ.
  set (a := Nat.iter n (settle1 v) acc) in *. unfold settle1.
  assert (ConsensusDecision.reach (Sy := SynchronizerRole * ViewInfo.t) v d0 a.1 (ConsensusDecision.poll a.2).2) as Hp.
  { rewrite <- (app_nil_r a.1). exact (ConsensusDecision.reach_step _ _ _ _ _ _ IH (ConsensusDecision.step_poll _ _)). }
  destruct (ConsensusDecision.poll a.2) as [[] d]; cbn in Hp; try exact Hp.
  destruct (is_consensus m) eqn:Hm; [|done]. apply deliver_all_reach; [cbn; by rewrite Hm|done].
Qed.

Definition decided5 : list Effect * decision := Nat.iter 4 (settle1 view0) (deliver_all view0 messages5 [] opened5).

Lemma partial5_reach :
  ConsensusDecision.reach (Sy := SynchronizerRole * ViewInfo.t) view0 start5 partial5.1 partial5.2.
Proof. apply deliver_all_reach; [done|apply opened5_reach]. Qed.
Lemma decided5_reach :
  ConsensusDecision.reach (Sy := SynchronizerRole * ViewInfo.t) view0 start5 decided5.1 decided5.2.
Proof. apply settle_reach, deliver_all_reach; [done|apply opened5_reach]. Qed.
Lemma decided5_phase : decided5.2.(ConsensusDecision.phase) = PhaseDecided.
Proof. by vm_compute. Qed.

(** ** A run of the whole system: replica 3 is faulty and silent *)

Definition byz3 : gset NodeId := {[3%N]}.

Inductive Action :=
  | APoll (x : NodeId)
  | APropose (x : NodeId) (m : Shareable)
  (** hand the [k]-th message sent so far to [x] *)
  | ADeliver (x : NodeId) (k : nat).

Definition act_message (y : System.t) (a : Action) : option (NodeId * Shareable) :=
  match a with
  | APoll _ => None
  | APropose x m => Some (x, m)
  | ADeliver x k => p ← y.(System.net) !! k; Some (x, mkStored (mkSHeader p.1 [] []) p.2)
  end.

Definition system_deliver (v : ViewInfo.t) (x : NodeId) (m : Shareable) (y : System.t) : System.t :=
  let r := ConsensusDecision.process_message rng0 x (sync v) m (y.(System.replica) x) in
  System.mk (System.update x r.(r_st) y.(System.replica)) (y.(System.net) ++ ((x,.) <$> (sent r.(r_eff)).*2)).

Definition act (v : ViewInfo.t) (a : Action) (y : System.t) : System.t :=
  match a with
  | APoll x => System.mk (System.update x (ConsensusDecision.poll (y.(System.replica) x)).2 y.(System.replica)) y.(System.net)
  | _ => match act_message y a with Some (x, m) => system_deliver v x m y | None => y end
  end.

Definition is_pre_prepare (m : Shareable) : bool :=
  match m.(message) with Messages.Consensus (mkConsensusMessage _ _ _ (PrePrepare _)) => true | _ => false end.

(** Only correct replicas act, and they are handed what was sent or a proposal of a
    member. *)
Definition allowed (v : ViewInfo.t) (byz : gset NodeId) (a : Action) (y : System.t) : bool :=
  match a with
  | APoll x => bool_decide (x ∉ byz)
  | APropose x m => bool_decide (x ∉ byz) && bool_decide (hdr_from m.(header) ∈ v.(ViewInfo.quorum_members)) && is_pre_prepare m
  | ADeliver x k => bool_decide (x ∉ byz) &&
      match y.(System.net) !! k with
      | Some p => bool_decide (p.1 ∈ v.(ViewInfo.quorum_members)) &&
          match consensus p.2 with Ok _ => true | _ => false end
      | None => false
      end
  end.

Fixpoint play (v : ViewInfo.t) (byz : gset NodeId) (l : list Action) (y : System.t) : option System.t :=
  match l with
  | [] => Some y
  | a :: l => if allowed v byz a y then play v byz l (act v a y) else None
  end.

Abbreviation sys_step := (System.step (Sy := SynchronizerRole * ViewInfo.t)).
Abbreviation sys_reachable := (System.reachable (Sy := SynchronizerRole * ViewInfo.t)).

Lemma act_step v byz a y : allowed v byz a y = true -> sys_step v byz y (act v a y).
Proof.
  destruct a as [x|x m|x k]; cbn; intros Ha.
  - apply bool_decide_eq_true in Ha. by apply System.sys_poll.
  - apply andb_true_iff in Ha as [[Hx Hin]%andb_true_iff Hpp].
    apply bool_decide_eq_true in Hx, Hin. unfold is_pre_prepare in Hpp.
    destruct m as [h [[s w n [rqs|d|d]]|?|?]]; try done.
    eapply (System.sys_deliver _ _ _ x rng0 (sync v)); [done|done| |reflexivity]. split; [done|].
    intros _ []. cbn. repeat eexists.
  - apply andb_true_iff in Ha as [Hx Hk]. apply bool_decide_eq_true in Hx.
    destruct (y.(System.net) !! k) as [[z m]|] eqn:E; [|done]. cbn in *.
    apply andb_true_iff in Hk as [Hz Hc]. apply bool_decide_eq_true in Hz.
    destruct (consensus m) as [c| |] eqn:Hm; try done.
    eapply (System.sys_deliver _ _ _ x rng0 (sync v)); [done|done| |exact Hm]. split; [done|].
    intros _ _. by eapply list_elem_of_lookup_2.
Qed.

Lemma play_reachable v s byz l : forall y y',
  play v byz l y = Some y' -> sys_reachable v s byz y -> sys_reachable v s byz y'.
Proof.
  induction l as [|a l IH]; intros y y'; cbn; [by intros [= <-]|].
  destruct (allowed v byz a y) eqn:Ha; [|done]. intros Hp Hr.
  eapply IH; [done|]. eapply System.reachable_step; [done|]. by apply act_step.
Qed.

(** Every correct replica opens the instance and gets the proposal, then everybody gets the three PREPAREs,
    then the three COMMITs. *)
Definition schedule5 : list Action :=
  (x ← [0; 1; 2]%N; [APoll x; APropose x (pre_prepare_msg 5 0)]) ++
  (x ← [0; 1; 2]%N; [ADeliver x 0; ADeliver x 4; ADeliver x 8]) ++
  (x ← [0; 1; 2]%N; [ADeliver x 12; ADeliver x 16; ADeliver x 20]).

Definition system5 : System.t :=
  default (System.start view0 5) (play view0 byz3 schedule5 (System.start view0 5)).

Lemma system5_reachable : sys_reachable view0 5 byz3 system5.
Proof.
  unfold system5. destruct (play view0 byz3 schedule5 (System.start view0 5)) as [y|] eqn:E; cbn.
  - eapply play_reachable; [exact E|]. apply System.reachable_start.
  - apply System.reachable_start.
Qed.
Lemma system5_decided :
  ((system5.(System.replica) 1%N).(ConsensusDecision.phase), (system5.(System.replica) 2%N).(ConsensusDecision.phase)) =
  (PhaseDecided, PhaseDecided).
Proof. by vm_compute. Qed.

(** ** A run of the window of replica 1 *)

Inductive WindowAction := WPoll | WMessage (m : Shareable) | WFinalize.

(** Poll, and handle the message given back, if any. *)
Definition window_act (a : WindowAction) (s : nat * Consensus.t) : option (nat * Consensus.t) :=
  let '(lag, c) := s in
  match a with
  | WPoll =>
      match Consensus.poll c with
      | mkRun (Ok (Some (CPNextMessage m))) c' [] =>
          if is_consensus m
          then Some (lag, (Consensus.process_message rng0 (sync c'.(Consensus.curr_view)) m c').(r_st))
          else None
      | mkRun (Ok (Some _)) c' [] => Some (0, c')
      | _ => None
      end
  | WMessage m =>
      if is_consensus m then Some (lag, (Consensus.process_message rng0 (sync c.(Consensus.curr_view)) m c).(r_st))
      else None
  | WFinalize => Some (S lag, (Consensus.finalize c.(Consensus.curr_view) c).(r_st))
  end.

Definition window_run (l : list WindowAction) (s : nat * Consensus.t) : option (nat * Consensus.t) :=
  foldl (fun acc a => s ← acc; if decide (s.1 <= 10) then window_act a s else None) (Some s) l.

Abbreviation window_reachable := (ConsensusFacts.reachable (Sy := SynchronizerRole * ViewInfo.t)).

Lemma window_message c0 lag c m :
  is_consensus m = true -> window_reachable c0 lag c ->
  window_reachable c0 lag (Consensus.process_message rng0 (sync c.(Consensus.curr_view)) m c).(r_st).
Proof.
  unfold is_consensus. destruct (consensus m.(message)) as [cm| |] eqn:E; try done. intros _ Hr.
  exact (ConsensusFacts.reachable_op _ _ _ _ _ Hr
    (ConsensusFacts.op_message lag c rng0 (sync c.(Consensus.curr_view)) m cm eq_refl E)).
Qed.

Lemma window_act_reachable c0 a lag c s' :
  window_reachable c0 lag c -> lag <= 10 -> window_act a (lag, c) = Some s' -> window_reachable c0 s'.1 s'.2.
Proof.
  intros Hr Hlag. destruct a as [|m|]; cbn [window_act].
  - destruct (Consensus.poll c) as [[[st|]| |] c' [|? ?]] eqn:E; try done; [|by destruct st].
    pose proof (ConsensusFacts.reachable_op _ _ _ _ _ Hr
      (ConsensusFacts.op_poll (Sy := SynchronizerRole * ViewInfo.t) lag c st c' ltac:(cbn; lia) E)) as Hr'.
    destruct st as [|m|ds]; [by intros [= <-]| |by intros [= <-]].
    destruct (is_consensus m) eqn:Hm; [|done]. intros [= <-]. by apply window_message.
  - destruct (is_consensus m) eqn:Hm; [|done]. intros [= <-]. by apply window_message.
  - intros [= <-]. exact (ConsensusFacts.reachable_op _ _ _ _ _ Hr (ConsensusFacts.op_finalize lag c)).
Qed.

Lemma window_run_reachable c0 l : forall s s',
  window_reachable c0 s.1 s.2 -> window_run l s = Some s' -> window_reachable c0 s'.1 s'.2.
Proof.
  unfold window_run. induction l as [|a l IH] using rev_ind; intros s s' Hr; [by intros [= <-]|].
  rewrite foldl_snoc. destruct (foldl _ _ l) as [[lag c]|] eqn:E; cbn; [|done].
  destruct (decide (lag <= 10)) as [Hl|]; [|done]. intros Ha.
  exact (window_act_reachable c0 a lag c s' (IH _ _ Hr E) Hl Ha).
Qed.

(** A window of three instances from 5; instance 5 is decided, and a message
    for instance 9, past the window, has arrived. *)
Definition window0 : Consensus.t := Consensus.new_replica 1 view0 5 3 (ProposerConsensusGuard.new view0).
Definition window5 : nat * Consensus.t :=
  default (0, window0) (window_run
    (replicate 3 WPoll ++ (WMessage <$> messages5) ++ [WMessage (pre_prepare_msg 9 0)] ++ replicate 6 WPoll) (0, window0)).

Lemma window5_reachable : window_reachable window0 window5.1 window5.2.
Proof.
  unfold window5. destruct (window_run _ _) as [s|] eqn:E; cbn.
  - eapply window_run_reachable; [|exact E]. apply ConsensusFacts.reachable_init.
  - apply ConsensusFacts.reachable_init.
Qed.
Lemma window5_decided : Consensus.can_finalize window5.2 = true.
Proof. by vm_compute. Qed.
Lemma window5_lag : window5.1 = 0.
Proof. by vm_compute. Qed.
