(* ===== verification/Witnesses.v ===== *)
(** * The properties at concrete inputs

    Each property with hypotheses is applied to data of the sample environment
    (file Sample) at which the hypotheses hold. *)
From S2P Require Import Prelude Atlas Errors View Messages Decisions Verification Deciding Log Network.
From S2P Require Import SyncAccessory Accessory Decision Agreement Metrics Progress Consensus.
From S2P Require Import ConsensusFacts Sample.

(** ** One instance *)

Definition proof5 : DecProof :=
  mkDecProof (mkProofMetadata 5 digest5 [digest5] 2) [pre_prepare_msg 5 0]
    [prepare_msg 5 0 0; prepare_msg 5 0 1; prepare_msg 5 0 3]
    [commit_msg 5 0 0; commit_msg 5 0 1; commit_msg 5 0 2].

Lemma proof5_wf : DecProof.wf proof5.
Proof.
  split; cbn; try done.
  all: repeat (apply Forall_cons; split); try apply Forall_nil; try (eexists; reflexivity).
  all: try apply NoDup_singleton; try done.
Qed.

Lemma agreement_witness :
  exists b b', ConsensusDecision.finalize (system5.(System.replica) 1%N) = Ok b /\
    ConsensusDecision.finalize (system5.(System.replica) 2%N) = Ok b' /\
    b.(cb_digest) = b'.(cb_digest) /\ b.(cb_pre_prepare_ordering) = b'.(cb_pre_prepare_ordering).
Proof.
  destruct (System.agreement view0 5 byz3 view0_wf eq_refl (le_n 1) system5 1%N 2%N
    system5_reachable ltac:(by vm_compute) ltac:(by vm_compute)
    (f_equal fst system5_decided) (f_equal snd system5_decided))
    as (b & b' & Hb & Hb' & _ & Hd & Ho).
  exists b, b'. split_and!; [done..|]. apply Ho. intros d d'. by cbn.
Defined.

Lemma reachable_inv_witness : ConsensusDecision.inv view0 decided5.2.
Proof. exact (ConsensusDecision.reachable_inv 1 5 view0 MessageQueue.new _ _ view0_wf decided5_reach). Defined.

Lemma decided_certificate_witness : exists dg,
  ConsensusDecision.digest_of decided5.2 = Some dg /\
  length (ConsensusDecision.stored_commits decided5.2) = 3.
Proof.
  destruct (ConsensusDecision.decided_certificate 1 5 view0 MessageQueue.new _ _ view0_wf decided5_reach decided5_phase)
    as (dg & pps & Hd & _ & _ & _ & _ & Hc & _).
  exists dg. split; [exact Hd|]. rewrite Hc. by vm_compute.
Defined.

Lemma process_message_total_witness :
  let r := ConsensusDecision.process_message rng0 1 (sync view0) (prepare_msg 5 0 3) partial5.2 in
  (exists st, r.(r_out) = Ok st) \/ exists e, r.(r_out) = Err (EDecidingLog e).
Proof.
  destruct (ConsensusDecision.process_message_total (SH := role_handle) 1 5 (sync view0) MessageQueue.new _ _ rng0 (prepare_msg 5 0 3)
    _ view0_wf partial5_reach eq_refl) as [H|(e & H & _)]; [left; exact H|right; exists e; exact H].
Defined.

Lemma sent_votes_consistent_witness : exists to m dg,
  (to, m) ∈ sent decided5.1 /\ ConsensusDecision.digest_of decided5.2 = Some dg.
Proof.
  destruct (sent decided5.1) as [|[to m] rest] eqn:E; [exfalso; revert E; by vm_compute|].
  assert ((to, m) ∈ sent decided5.1) as Hin by (rewrite E; left).
  destruct (ConsensusDecision.sent_votes_consistent 1 5 view0 MessageQueue.new _ _ to m view0_wf decided5_reach Hin)
    as (dg & Hd & _).
  exists to, m, dg. split; [apply list_elem_of_here|exact Hd].
Defined.

Lemma finalize_correct_witness : exists b, ConsensusDecision.finalize decided5.2 = Ok b /\ b.(cb_seq) = 5%N.
Proof.
  destruct (ConsensusDecision.finalize_correct 1 5 view0 MessageQueue.new _ _ view0_wf decided5_reach) as [H _].
  destruct (H decided5_phase) as (b & Hb & Hs & _). exists b. exact (conj Hb Hs).
Defined.

Lemma deciding_correct_witness :
  ConsensusDecision.deciding 1 partial5.2 =
  Ok (mkIncompleteProof 5 [mkViewDecisionPair 0 digest5] None).
Proof.
  destruct (ConsensusDecision.deciding_correct 1 5 view0 MessageQueue.new _ _ view0_wf partial5_reach)
    as [[H _]|(dg & Hd & H)]; [exfalso; revert H; by vm_compute|].
  assert (dg = digest5) as -> by (revert Hd; vm_compute; congruence).
  exact H.
Defined.

(** ** The working log, the proof of a decision, catching up *)

Lemma init_from_messages_roundtrip_witness :
  exists ps cs, DecProof.init_from_messages (DecProof.into_parts proof5).1 (rev (DecProof.into_parts proof5).2) =
      Ok (mkDecProof (DecProof.metadata proof5) (DecProof.pre_prepares proof5) ps cs) /\
    ps ≡ₚ DecProof.prepares proof5 /\ cs ≡ₚ DecProof.commits proof5.
Proof.
  exact (proj2 (DecProof.init_from_messages_roundtrip proof5 (rev (DecProof.into_parts proof5).2) proof5_wf
    (symmetry (Permutation_rev _)))).
Defined.

Definition log_of (d : decision) : WorkingDecisionLog.t := d.(ConsensusDecision.working_log).

Lemma decided5_inv : ConsensusDecision.inv view0 decided5.2.
Proof.
  pose proof (ConsensusDecision.init_inv 1 5 view0 MessageQueue.new view0_wf) as Hi.
  exact (proj1 (ConsensusDecision.reach_all _ _ _ _ view0_wf Hi decided5_reach)).
Qed.

Definition proof4 : DecProof := mkDecProof (mkProofMetadata 4 digest5 [] 0) [] [] [].
(** A log that stands at decision 4. *)
Definition log4 : Log.t := Log.mk (DecisionLog.init (Some proof4)).
Definition empty_log : Log.t := Log.initialize_decided_log 1.

Lemma install_proof_spec_witness : exists d,
  (Log.install_proof (W := Effect) proof5 log4).(r_out) = Ok d /\
  Log.last_proof (Log.install_proof (W := Effect) proof5 log4).(r_st) = Some proof5.
Proof.
  destruct (Log.install_proof_spec (W := Effect) proof5 log4) as (H1 & _ & _ & H4).
  destruct H4 as (d & Hd & Hr).
  - by vm_compute.
  - right. by exists 4%N.
  - eexists. split; [exact Hr|]. exact (proj2 (H1 4%N eq_refl _ Hr)).
Defined.

Lemma catch_up_same_batch_witness : exists b p,
  WorkingDecisionLog.finish_processing_batch (log_of decided5.2) = Ok (Some b) /\
  Log.last_proof (Log.install_proof (W := Effect) p log4).(r_st) = Some p.
Proof.
  destruct (Log.catch_up_same_batch (W := Effect) (log_of decided5.2) empty_log log4 4%N
    (ConsensusDecision.d_log _ _ decided5_inv) ltac:(by vm_compute) eq_refl ltac:(by vm_compute))
    as (b & p & batch & infos & infos' & Hb & _ & Hi & _).
  exists b, p. split; [exact Hb|]. by rewrite Hi.
Defined.

Lemma operation_key_raw_injective_witness :
  (operation_key_raw 7 1 < 2 ^ 64)%N /\ (operation_key_raw 7 1 = operation_key_raw 7 1 -> 7%N = 7%N /\ 1%N = 1%N).
Proof. exact (operation_key_raw_injective 7 7 1 1 eq_refl eq_refl eq_refl eq_refl). Defined.

(** ** The accessory *)

(** The thread pool has signed three of the four COMMITs, or all of them: the former are signed again, the latter are used. *)
Definition signed_ahead (k : nat) : ReplicaAccessory.t :=
  foldl (fun a j => ReplicaAccessory.tick j a)
    (ReplicaAccessory.handle_pre_prepare_phase_completed rng0 1 (log_of partial5.2) view0 ReplicaAccessory.new).(r_st) (replicate k 0).

Lemma signed_ahead_sizes :
  size (signed_ahead 3).(ReplicaAccessory.speculative_commits) = 3 /\ size (signed_ahead 4).(ReplicaAccessory.speculative_commits) = 4.
Proof. split; by vm_compute. Qed.

Abbreviation commits_after k :=
  (sent (ReplicaAccessory.handle_preparing_quorum rng0 (log_of partial5.2) view0 (signed_ahead k)).(r_eff)).
Abbreviation commits_to_all nonce :=
  ((fun peer => (peer, ReplicaAccessory.vote nonce (log_of partial5.2) view0 (Commit digest5))) <$> view0.(ViewInfo.quorum_members)).

Lemma speculative_commits_equivalent_witness :
  (exists nonce, commits_after 3 ≡ₚ commits_to_all nonce) /\ (exists nonce, commits_after 4 ≡ₚ commits_to_all nonce).
Proof.
  split.
  - destruct (ReplicaAccessory.speculative_commits_equivalent rng0 rng0 1 (log_of partial5.2) view0 digest5 (replicate 3 0)
      ltac:(by vm_compute) ltac:(by vm_compute)) as (_ & _ & _ & nonce & H). exists nonce. exact H.
  - destruct (ReplicaAccessory.speculative_commits_equivalent rng0 rng0 1 (log_of partial5.2) view0 digest5 (replicate 4 0)
      ltac:(by vm_compute) ltac:(by vm_compute)) as (_ & _ & _ & nonce & H). exists nonce. exact H.
Defined.

(** Members 1 to 4: the last of them is not among the first four nodes. *)
Definition view_1234 : ViewInfo.t := view_of (ViewInfo.from_quorum 0 [1; 2; 3; 4]%N).

Lemma speculative_commits_miss_witness : forall m,
  (4%N, m) ∉ sent (ReplicaAccessory.handle_preparing_quorum rng0 (log_of partial5.2) view_1234
    (foldl (fun a j => ReplicaAccessory.tick j a)
       (ReplicaAccessory.handle_pre_prepare_phase_completed rng0 1 (log_of partial5.2) view_1234 ReplicaAccessory.new).(r_st)
       (replicate (ViewInfo.n view_1234) 0))).(r_eff).
Proof.
  exact (proj2 (ReplicaAccessory.speculative_commits_miss rng0 rng0 1 (log_of partial5.2) view_1234 digest5 4%N
    ltac:(by vm_compute) ltac:(by vm_compute) ltac:(by apply (bool_decide_eq_true_1 (4%N ∈ _)); vm_compute) ltac:(by apply (bool_decide_eq_true_1 (4%N ∉ _)); vm_compute))).
Defined.

(** ** Progress *)

Abbreviation history := (Progress.history (Sy := SynchronizerRole * ViewInfo.t)).

Lemma deliver_all_history v d0 ms : forall eff h d,
  forallb is_consensus ms = true -> history v d0 h d ->
  history v d0 (h ++ ms) (deliver_all v ms eff d).2.
Proof.
  induction ms as [|m ms IH]; intros eff h d Hms Hh; [by rewrite app_nil_r|]. cbn in Hms.
  apply andb_true_iff in Hms as [Hm Hms]. cbn [deliver_all].
  replace (h ++ m :: ms) with ((h ++ [m]) ++ ms) by (by rewrite <- app_assoc). apply IH; [done|].
  unfold is_consensus in Hm. destruct (consensus m.(message)) as [c| |] eqn:Hc; try done.
  exact (Progress.hist_deliver v d0 h d rng0 (sync v) m c eq_refl Hc Hh).
Qed.

Definition given5 : decision := (deliver_all view0 messages5 [] opened5).2.

Lemma history5 : history view0 start5 messages5 given5.
Proof.
  refine (deliver_all_history view0 start5 messages5 [] [] opened5 eq_refl _).
  exact (Progress.hist_poll view0 start5 [] start5 rng0 (sync view0) eq_refl (Progress.hist_init _ _)).
Qed.

Lemma empty_kinds : Progress.queue_kinds (MessageQueue.from_messages [] [] []).
Proof. repeat split; apply Forall_nil_2. Qed.

Lemma drain_terminates_witness : Progress.quiescent (Progress.drain 10 rng0 (sync view0) given5).
Proof.
  exact (proj1 (Progress.drain_terminates (SH := role_handle) view0 view0_wf 1 5 [] [] [] messages5 given5 10 rng0 (sync view0)
    empty_kinds eq_refl history5 ltac:(vm_compute; lia))).
Defined.

Definition settled5 : decision := Nat.iter 5 (Progress.poll_once rng0 (sync view0)) given5.

Lemma settled5_history : history view0 start5 messages5 settled5.
Proof.
  unfold settled5. generalize 5 as k. induction k as [|k IH]; [exact history5|]. rewrite Nat.iter_succ.
  exact (Progress.hist_poll view0 start5 messages5 _ rng0 (sync view0) eq_refl IH).
Qed.

(** The messages at the positions [is] form a quorum. *)
Lemma votes5 (P : PBFTMessage -> Prop) (l : list Shareable) (positions : list nat) :
  mapM (messages5 !!.) positions = Some l -> bool_decide (NoDup (WorkingDecisionLog.senders l)) = true ->
  3 <= length l -> Forall (fun m => P m.(message)) l -> Progress.quorum_of view0 P messages5.
Proof.
  intros Hl Hnd Hlen HP. exists l. split_and!; [|by apply bool_decide_eq_true in Hnd|done|done].
  intros m Hm. apply mapM_Some_1 in Hl. apply list_elem_of_lookup in Hm as [i Hi].
  destruct (Forall2_lookup_r _ _ _ _ _ Hl Hi) as (k & _ & Hk). by eapply list_elem_of_lookup_2.
Qed.

Lemma quorum_decides_witness : settled5.(ConsensusDecision.phase) = PhaseDecided.
Proof.
  refine (Progress.quorum_decides (SH := role_handle) view0 view0_wf 1 5 [] [] [] messages5 settled5
    empty_kinds settled5_history _ _ _).
  - right. by vm_compute.
  - intros x Hx. exists (pre_prepare_msg 5 0).
    split; [exact (list_elem_of_lookup_2 messages5 2 (pre_prepare_msg 5 0) eq_refl)|].
    assert (x = 0%N) as -> by (revert Hx; vm_compute; intros Hx; by apply list_elem_of_singleton in Hx).
    split_and!; [done|by vm_compute; left|]. exists 0%N, [request 1; request 2]. split; [done|right].
    eexists. split; by vm_compute.
  - intros dg Hd. assert (dg = digest5) as -> by (revert Hd; vm_compute; congruence). split.
    + refine (votes5 _ _ [0; 3; 4] eq_refl eq_refl (le_n 3) _). repeat constructor; by exists 0%N.
    + refine (votes5 _ _ [1; 5; 6] eq_refl eq_refl (le_n 3) _). repeat constructor; by exists 0%N.
Defined.

(** ** The window of instances *)

Lemma window0_inv : ConsensusFacts.inv 0 window0.
Proof.
  assert (0 < 3 <= sn_window) as H3 by (cbn; lia).
  exact (proj1 (ConsensusFacts.new_replica_inv 1 view0 5 3 (ProposerConsensusGuard.new view0) view0_wf H3)).
Qed.

Lemma window5_inv : ConsensusFacts.inv 0 window5.2.
Proof.
  pose proof window5_reachable as Hr. rewrite window5_lag in Hr.
  revert Hr. generalize 0 at 1 2 as lag, window5.2 as c. intros lag c Hr.
  induction Hr as [|lag c lag' c' _ IH Hop]; [exact window0_inv|].
  exact (ConsensusFacts.op_inv _ _ _ _ IH Hop).
Qed.

Lemma window_invariant_witness :
  length window5.2.(Consensus.decisions) = window5.2.(Consensus.watermark).
Proof.
  exact (proj1 (ConsensusFacts.window_invariant 1 view0 5 3 _ _ _ view0_wf
    ltac:(cbn; lia) window5_reachable)).
Defined.

Lemma install_sequence_number_ok_witness :
  exists c', Consensus.install_sequence_number 7 window5.2.(Consensus.curr_view) window5.2 = mkRun (Ok tt) c' [] /\
    c'.(Consensus.seq_no) = 7%N.
Proof.
  destruct (ConsensusFacts.install_sequence_number_ok 0 window5.2 7%N window5_inv) as (c' & H & _ & Hs & _).
  exists c'. exact (conj H Hs).
Defined.

Lemma finalize_in_order_witness : exists c' b eff,
  Consensus.finalize window5.2.(Consensus.curr_view) window5.2 = mkRun (Ok (Some b)) c' eff /\
  b.(cb_seq) = window5.2.(Consensus.seq_no).
Proof.
  destruct (ConsensusFacts.finalize_in_order 0 window5.2 window5_inv) as [(c' & b & eff & H & _ & Hs & _)|[_ H]].
  - exists c', b, eff. exact (conj H Hs).
  - exfalso. rewrite window5_decided in H. discriminate H.
Defined.

Lemma poll_correct_witness : exists st c', Consensus.poll window0 = mkRun (Ok (Some st)) c' [].
Proof.
  destruct (ConsensusFacts.poll_correct 0 window0 window0_inv ltac:(cbn; lia)) as (st & c' & H & _).
  exists st, c'. exact H.
Defined.

(** The proposal the view change to view 1 carries for instance 5. *)
Definition forwarded : ConsensusMessage := mkConsensusMessage 5 1 0 (PrePrepare [request 1; request 2]).

Lemma finalize_view_change_ok_witness :
  let r := Consensus.finalize_view_change rng0 (mkSHeader 1 digest5 digest5) forwarded view1 (sync view1) window0 in
  r.(r_out) <> Panic /\ r.(r_st).(Consensus.curr_view) = view1.
Proof.
  destruct (ConsensusFacts.finalize_view_change_ok (SH := role_handle) 0 window0 rng0 (mkSHeader 1 digest5 digest5)
    forwarded view1 (sync view1) 0 window0_inv view1_wf eq_refl ltac:(by vm_compute)) as (H & _ & Hv & _).
  exact (conj H Hv).
Defined.

Lemma catch_up_ok_witness : exists dec,
  (Consensus.catch_up_to_quorum view0 proof5 (window0, log4)).(r_out) = Ok dec /\
  (Consensus.catch_up_to_quorum view0 proof5 (window0, log4)).(r_st).1.(Consensus.seq_no) = 6%N.
Proof.
  destruct (ConsensusFacts.catch_up_ok 0 window0 log4 proof5 4%N window0_inv eq_refl) as [H _].
  change (Consensus.curr_view window0) with view0 in H.
  destruct ((Consensus.catch_up_to_quorum view0 proof5 (window0, log4)).(r_out)) as [dec|e|] eqn:E.
  - exists dec. split; [reflexivity|]. destruct (H dec eq_refl) as (_ & _ & Hs & _). exact Hs.
  - exfalso. revert E. by vm_compute.
  - exfalso. revert E. by vm_compute.
Defined.

Lemma tbo_delivers_witness : exists q',
  TboQueue.queue (W := Effect) (pre_prepare_msg 9 0) (TboQueue.new 5 3) = mkRun (Ok tt) q' [] /\
  pre_prepare_msg 9 0 ∈ MessageQueue.pre_prepares (TboQueue.advance_queue (TboQueue.next_instance_queue q')).1.
Proof.
  destruct (ConsensusFacts.tbo_delivers (TboQueue.new 5 3) (pre_prepare_msg 9 0)
    (mkConsensusMessage 9 0 0 (PrePrepare [request 1; request 2])) 1
    ltac:(cbn; lia) ltac:(cbn; lia) eq_refl ltac:(by vm_compute)) as (q' & Hq & Hin & _).
  exists q'. exact (conj Hq Hin).
Defined.

(** ** Views *)

Lemma division_partition_witness : exists m, calculate_hash_space_division [2; 0; 1]%N = Ok m /\
  exists l, l ∈ [2; 0; 1]%N /\ exists sp, m !! l = Some sp /\ is_request_in_hash_space [x80; x00] sp = true.
Proof.
  destruct (division_partition [2; 0; 1]%N [x80; x00]) as (m & Hm & l & Hl & _).
  - apply (bool_decide_eq_true (NoDup [2; 0; 1]%N)). by vm_compute.
  - discriminate.
  - reflexivity.
  - exists m. split; [exact Hm|]. exists l. exact Hl.
Defined.

Lemma leader_rotation_witness : exists k v', k < 4 /\ ViewInfo.views_ahead k view0 = Ok v' /\ ViewInfo.leader v' = Ok 3%N.
Proof.
  destruct (ViewInfo.leader_rotation 0 4 1 view0 3%N) as (k & v' & Hk & Hv & Hl & _);
    [reflexivity|lia|discriminate|by vm_compute| |exists k, v'; exact (conj Hk (conj Hv Hl))].
  apply (bool_decide_eq_true (3%N ∈ ViewInfo.quorum_members view0)). by vm_compute.
Defined.

(** ** Verification of messages *)

(** Requests of client 9 are signed; a SYNC message inside another one is refused. *)
Definition signed_request (h : Header) (r : RQ) : Result unit := if decide (hdr_from h = 9%N) then Ok tt else Err EAnyhow.
Definition signed_message (h : Header) (m : PBFTMessage) : Result unit :=
  match m with
  | ViewChange (mkViewChangeMessage _ (Sync _)) => Err EAnyhow
  | _ => Verification.internally_verify_message signed_request (fun _ _ => Err EAnyhow) m
  end.
Definition sync_of_request1 : PBFTMessage :=
  ViewChange (mkViewChangeMessage 1 (Sync (mkLeaderCollects
    (mkFwdConsensusMessage (mkSHeader 1 [] []) (mkConsensusMessage 5 1 0 (PrePrepare [request 1]))) []))).

Lemma accepted_verified_witness :
  Verification.internally_verify_message signed_request signed_message sync_of_request1 = Ok tt /\
  signed_request (request 1).(header) (request 1).(message) = Ok tt.
Proof.
  assert (Verification.internally_verify_message signed_request signed_message sync_of_request1 = Ok tt) as Hok by reflexivity.
  split; [exact Hok|].
  refine (proj2 (proj1 (Verification.accepted_verified signed_request signed_message sync_of_request1 _) Hok) (request 1) _).
  - intros h [c|[v [rqs|n|data|collects]]|o]; cbn; intros H; first [exact H|discriminate H].
  - apply Verification.carries_proposed. eapply Verification.carries_pre_prepare; [reflexivity|left].
Defined.

(** ** Metrics *)

Abbreviation measured_run := (Metered.run (Sy := SynchronizerRole * ViewInfo.t) 1 view0 1 5).

(** Poll and handle what the poll hands out, or handle a message; the clock is read several times in each, one nanosecond apart. *)
Definition metered_message (t : N) (m : Shareable) (x : Metered.t * list Measurement) : Metered.t * list Measurement :=
  let r := Metered.process_message (fun i => t + N.of_nat i)%N (fun i => t + 2 + N.of_nat i)%N rng0 x.1.(Metered.instance).(ConsensusDecision.node_id) (sync view0) m x.1 in
  (r.1, x.2 ++ r.2).
Definition metered_act (x : N * (Metered.t * list Measurement)) (a : option Shareable) : N * (Metered.t * list Measurement) :=
  let '(t, (y, l)) := x in
  ((t + 10)%N,
   match a with
   | Some m => if is_consensus m then metered_message t m (y, l) else (y, l)
   | None =>
       match Metered.poll (fun i => t + N.of_nat i)%N y with
       | (NextMessage m, y') => if is_consensus m then metered_message t m (y', l) else (y', l)
       | (_, y') => (y', l)
       end
   end).

Lemma metered_message_run t m x : is_consensus m = true -> measured_run x.1 x.2 -> measured_run (metered_message t m x).1 (metered_message t m x).2.
Proof.
  unfold is_consensus. destruct (consensus m.(message)) as [c| |] eqn:Hc; try done. intros _ Hr.
  assert (forall t0, Metered.steady 1 (fun i => t0 + N.of_nat i)%N) as Hst by (intros t0; unfold Metered.steady; cbn; lia).
  exact (Metered.run_message 1 view0 1 5 _ _ rng0 (sync view0) m c x.1 x.2 Hr (Hst t) (Hst (t + 2)%N) eq_refl Hc).
Qed.
Lemma metered_act_run x a : measured_run x.2.1 x.2.2 -> measured_run (metered_act x a).2.1 (metered_act x a).2.2.
Proof.
  destruct x as [t [y l]]. intros Hr. destruct a as [m|]; cbn [metered_act fst snd].
  - destruct (is_consensus m) eqn:Hm; [|exact Hr]. exact (metered_message_run t m (y, l) Hm Hr).
  - pose proof (Metered.run_poll 1 view0 1 5 (fun i => t + N.of_nat i)%N y l Hr) as Hp.
    destruct (Metered.poll _ y) as [st y']. cbn [snd] in Hp. destruct st as [| |m|]; try exact Hp.
    destruct (is_consensus m) eqn:Hm; [|exact Hp]. exact (metered_message_run t m (y', l) Hm Hp).
Qed.

Definition metered_start : Metered.t := Metered.mk start5 (ConsensusMetrics.new (fun _ => 0%N)).
Definition metered5 : N * (Metered.t * list Measurement) :=
  foldl metered_act (100%N, (metered_start, [])) ([None] ++ (Some <$> messages5) ++ replicate 4 None).
Lemma metered5_run : measured_run metered5.2.1 metered5.2.2.
Proof.
  unfold metered5. generalize ([None] ++ (Some <$> messages5) ++ replicate 4 None). intros l.
  assert (measured_run (100%N, (metered_start, @nil Measurement)).2.1 (100%N, (metered_start, @nil Measurement)).2.2) as H0.
  { exact (Metered.run_start 1 view0 1 5 (fun _ => 0%N) MessageQueue.new). }
  revert H0. generalize (100%N, (metered_start, @nil Measurement)). induction l as [|a l IH]; intros x Hx; [exact Hx|].
  cbn [foldl]. apply IH. by apply metered_act_run.
Qed.
Lemma metered5_phase : ConsensusDecision.phase metered5.2.1.(Metered.instance) = PhaseDecided.
Proof. by vm_compute. Qed.

Lemma decided_measured_witness :
  exists b, ConsensusDecision.finalize metered5.2.1.(Metered.instance) = Ok b /\
    Forall2 (Metered.meets 1) (Metered.after_commits metered5.2.1.(Metered.consensus_metrics) (length b.(cb_client_requests))) (Metered.others metered5.2.2).
Proof.
  destruct (Metered.decided_measured (Sy := SynchronizerRole * ViewInfo.t) 1 view0 1 5 metered5.2.1 metered5.2.2 view0_wf metered5_run metered5_phase)
    as (b & Hb & H & _).
  exists b. exact (conj Hb H).
Defined.

(** What it reported: the batch has two requests. *)
Example metered5_report :
  metered5.2.2 = [metric_duration 110 31; metric_duration 111 3; metric_store_count 116 2; metric_duration 112 9; metric_duration 113 43;
                  metric_duration 114 9; metric_duration 115 31].
Proof. vm_compute. reflexivity. Qed.

(** Replica 1 holds a PRE-PREPARE for instance 9, past its window. *)
Lemma queues_typed_witness :
  bucket 1 window5.2.(Consensus.tbo_queue).(TboQueue.pre_prepares) <> [] /\
  Forall (Forall (fun m => exists k, consensus m.(message) = Ok k)) window5.2.(Consensus.view_queue).
Proof.
  split; [by vm_compute|].
  exact (proj2 (proj2 (ConsensusFacts.queues_typed 1 view0 5 3 (ProposerConsensusGuard.new view0) window5.1 window5.2 view0_wf
    ltac:(cbn; lia) window5_reachable))).
Defined.
