(* ===== verification/ReplicasWitnesses.v ===== *)
(** * Total order at a concrete run

    Three correct replicas out of four order two batches; a run of the system of file Replicas is played and evaluated. *)
From S2P Require Import Prelude Atlas Errors View Messages Decisions Verification Deciding Log Network.
From S2P Require Import SyncAccessory Accessory Decision Agreement Progress Consensus ConsensusFacts Offers Replicas Sample.

Abbreviation rep_reachable := (Replicas.reachable (Sy := SynchronizerRole * ViewInfo.t) view0 5 1 byz3).
Abbreviation rep_step := (Replicas.step (Sy := SynchronizerRole * ViewInfo.t) view0 byz3).
Abbreviation rep_act := (Replicas.act (Sy := SynchronizerRole * ViewInfo.t) view0 byz3).

(** What a replica does: poll, handle a proposal or the [k]-th message sent so far, finalize. *)
Inductive RAction := RPoll | RPropose (m : Shareable) | RDeliver (k : nat) | RFinalize.

Definition r_message (m : Shareable) (me : Replicas.member) : list PBFTMessage * Replicas.member :=
  let r := Consensus.process_message rng0 (sync view0) m me.(Replicas.window) in
  ((sent r.(r_eff)).*2, Replicas.mkMember r.(r_st) me.(Replicas.gone) me.(Replicas.delivered)).

Definition r_act (net : list (NodeId * PBFTMessage)) (me : Replicas.member) (a : RAction)
    : option (list PBFTMessage * Replicas.member) :=
  match a with
  | RPoll =>
      if decide (Offers.signals_recent me.(Replicas.window)) then
        match Consensus.poll me.(Replicas.window) with
        | mkRun (Ok (Some st)) c' [] =>
            Some ([], Replicas.mkMember c' me.(Replicas.gone) me.(Replicas.delivered))
        | _ => None
        end
      else None
  | RPropose m =>
      if bool_decide (hdr_from m.(header) ∈ view0.(ViewInfo.quorum_members)) && is_pre_prepare m then Some (r_message m me) else None
  | RDeliver k =>
      p ← net !! k;
      if bool_decide (p.1 ∈ view0.(ViewInfo.quorum_members)) && is_consensus (mkStored (mkSHeader p.1 [] []) p.2)
      then Some (r_message (mkStored (mkSHeader p.1 [] []) p.2) me) else None
  | RFinalize =>
      d ← head me.(Replicas.window).(Consensus.decisions);
      match Consensus.finalize view0 me.(Replicas.window) with
      | mkRun (Ok (Some b)) c' eff =>
          Some ((sent eff).*2, Replicas.mkMember c' (me.(Replicas.gone) ++ [d]) (me.(Replicas.delivered) ++ [b]))
      | _ => None
      end
  end.

Lemma r_message_sound net me m cm out me' :
  Replicas.authentic view0 byz3 net m -> consensus m.(message) = Ok cm -> Some (r_message m me) = Some (out, me') ->
  rep_act net me out me'.
Proof.
  intros Ha Hc E. apply (inj Some) in E. pose proof (f_equal fst E) as E1. pose proof (f_equal snd E) as E2. cbn [fst snd] in E1, E2. subst.
  exact (Replicas.act_message view0 byz3 net me rng0 (sync view0) m cm eq_refl Ha Hc).
Qed.

Lemma r_act_sound net me a out me' : r_act net me a = Some (out, me') -> rep_act net me out me'.
Proof.
  destruct a as [|m|k|]; cbn [r_act].
  - destruct (decide _) as [Hl|]; [|done]. destruct (Consensus.poll _) as [[[st|]| |] c' [|? ?]] eqn:E; try done.
    intros [= <- <-]. by eapply Replicas.act_poll.
  - destruct (_ && _) eqn:Hc; [|done]. apply andb_true_iff in Hc as [Hin Hpp]. apply bool_decide_eq_true in Hin.
    unfold is_pre_prepare in Hpp. destruct m as [h [[s w n [rqs|d|d]]|?|?]]; try done.
    apply r_message_sound with (cm := mkConsensusMessage s w n (PrePrepare rqs)); [|done]. split; [done|]. intros _ []. repeat eexists.
  - destruct (net !! k) as [p|] eqn:Hk; [|done]. cbn [mbind option_bind]. destruct (_ && _) eqn:Hc; [|done].
    apply andb_true_iff in Hc as [Hin Hm]. apply bool_decide_eq_true in Hin. unfold is_consensus in Hm. cbn in Hm.
    destruct (consensus p.2) as [cm| |] eqn:E; try done.
    apply r_message_sound with (cm := cm); [|done]. split; [done|]. intros _ _. destruct p. by eapply list_elem_of_lookup_2.
  - destruct (head _) as [d|] eqn:Hd; [|done]. cbn [mbind option_bind].
    destruct (Consensus.finalize _ _) as [[[b|]| |] c' eff] eqn:E; try done. intros [= <- <-].
    by apply Replicas.act_finalize.
Qed.

Definition r_step (y : Replicas.t) (xa : NodeId * RAction) : option Replicas.t :=
  '(out, me') ← r_act y.(Replicas.net) (y.(Replicas.members) xa.1) xa.2;
  if bool_decide (xa.1 ∉ byz3) && bool_decide (Offers.bounded me'.(Replicas.window))
  then Some (Replicas.mk (Replicas.upd xa.1 me' y.(Replicas.members)) (y.(Replicas.net) ++ ((xa.1,.) <$> out))) else None.

Definition r_play (l : list (NodeId * RAction)) (y : Replicas.t) : option Replicas.t := foldl (fun o a => y ← o; r_step y a) (Some y) l.

Lemma r_play_reachable l : forall y y', rep_reachable y -> r_play l y = Some y' -> rep_reachable y'.
Proof.
  unfold r_play. induction l as [|[x a] l IH] using rev_ind; intros y y' Hr; [by intros [= <-]|]. rewrite foldl_snoc.
  destruct (foldl _ _ l) as [y1|] eqn:E; [|done]. cbn [mbind option_bind]. unfold r_step. cbn [fst snd].
  destruct (r_act _ _ a) as [[out me']|] eqn:Ha; [|done]. cbn [mbind option_bind].
  destruct (_ && _) eqn:Hc; [|done]. apply andb_true_iff in Hc as [Hx Hb]. apply bool_decide_eq_true in Hx, Hb. intros [= <-].
  eapply Replicas.reachable_step; [exact (IH _ _ Hr E)|]. apply Replicas.step_act; [done| |done]. by eapply r_act_sound.
Qed.

(** Instance 6 is past the window of one instance: its proposal is kept for later. *)
Definition others : list NodeId := [0; 1; 2]%N.
Definition schedule56 : list (NodeId * RAction) :=
  (x ← others; (x,.) <$> [RPoll; RPropose (pre_prepare_msg 6 0); RPropose (pre_prepare_msg 5 0)]) ++
  (x ← others; (x,.) <$> [RDeliver 0; RDeliver 4; RDeliver 8]) ++
  (x ← others; (x,.) <$> [RDeliver 12; RDeliver 16; RDeliver 20; RFinalize; RPoll; RPropose (pre_prepare_msg 6 0)]) ++
  (x ← others; (x,.) <$> [RDeliver 24; RDeliver 28; RDeliver 32]) ++
  (x ← [1; 2]%N; (x,.) <$> [RDeliver 36; RDeliver 40; RDeliver 44; RFinalize]).

Definition start56 : Replicas.t := Replicas.start view0 5 1.
Definition replicas56 : Replicas.t := default start56 (r_play schedule56 start56).

Lemma replicas56_reachable : rep_reachable replicas56.
Proof.
  unfold replicas56. destruct (r_play schedule56 start56) as [y|] eqn:E; cbn [default].
  - eapply r_play_reachable; [|exact E]. apply Replicas.reachable_start.
  - apply Replicas.reachable_start.
Qed.
Definition batches (x : NodeId) : list CompletedBatch := (replicas56.(Replicas.members) x).(Replicas.delivered).
Lemma replicas56_delivered : (cb_seq <$> batches 0, cb_seq <$> batches 1, cb_seq <$> batches 2) = ([5], [5; 6], [5; 6])%N.
Proof. by vm_compute. Qed.

Lemma window_refines_instances_witness :
  exists z, System.reachable (Sy := SynchronizerRole * ViewInfo.t) view0 6 byz3 z /\
    (z.(System.replica) 1%N).(ConsensusDecision.phase) = PhaseDecided /\ System.net z <> [].
Proof.
  destruct (Replicas.window_refines_instances (Sy := SynchronizerRole * ViewInfo.t) view0 5 1 byz3 view0_wf ltac:(cbn; lia) ltac:(by vm_compute) replicas56 1
    replicas56_reachable) as (z & Hz & Hi & Hn).
  exists z. split; [exact Hz|]. rewrite (Hi 1%N ltac:(by vm_compute)), Hn. split; [by vm_compute|]. intros E. apply (f_equal length) in E. revert E. by vm_compute.
Defined.

Lemma total_order_witness :
  exists b b', batches 1 !! 1 = Some b /\ batches 2 !! 1 = Some b' /\ b.(cb_seq) = 6%N /\ b.(cb_digest) = b'.(cb_digest).
Proof.
  destruct (batches 1 !! 1) as [b|] eqn:E; [|exfalso; revert E; by vm_compute].
  destruct (batches 2 !! 1) as [b'|] eqn:E'; [|exfalso; revert E'; by vm_compute].
  destruct (Replicas.total_order (Sy := SynchronizerRole * ViewInfo.t) view0 5 1 byz3 view0_wf ltac:(cbn; lia) ltac:(by vm_compute) eq_refl (le_n 1) replicas56
    1%N 2%N 1 b b' replicas56_reachable ltac:(by vm_compute) ltac:(by vm_compute) E E') as (Hs & _ & Hd & _).
  exists b, b'. exact (conj eq_refl (conj eq_refl (conj Hs Hd))).
Defined.
