(* ===== verification/SyncWitnesses.v ===== *)
(** * The view change properties at concrete inputs

    Replica 1 of the sample environment leaves view 0, leads view 1 and goes on to view 5,
    which it leads again. *)
From S2P Require Import Prelude Atlas Errors View Messages Decisions Deciding Log Network.
From S2P Require Import SyncAccessory Accessory Decision Consensus ConsensusFacts Sync Collects SyncFacts.
From S2P Require Import Sample Witnesses.

Import Synchronizer.

(** ** The environment of the synchronizer *)

#[global] Instance SampleOrder : IterationOrder := { in_some_order X l := l }.
#[global] Instance SampleOrderLaws : IterationOrderLaws.
Proof. by split. Qed.
(** Another order: hash sets are read back to front. *)
Definition ReversedOrder : IterationOrder := {| in_some_order X l := rev l |}.
Lemma ReversedOrderLaws : @IterationOrderLaws ReversedOrder.
Proof. split. intros X l. symmetry. apply Permutation_rev. Qed.

#[global] Instance SampleSignatures : Signatures := {
  wire_parses _ := true;
  knows_key _ := true;
  signature_valid _ := true;
}.

Definition pp0 : PreProcessor := mkPreProcessor _ (inr [request 1]) (fun _ => inr tt) (fun _ => inr [request 1]).

(** ** A run of the synchronizer *)

Inductive SyncAction :=
  | STimeout (rqs : list (StoredMessage RQ))
  | SMessage (m : Shareable)
  | SQueue (m : Shareable)
  | SSignal
  (** poll, and handle the message given back *)
  | SPoll.

Definition run_state {S X} (r : Run S Effect Error X) : option S :=
  match r.(r_out) with Ok _ => Some r.(r_st) | _ => None end.

Definition message_act (m : Shareable) (hw : list Shareable * World) : option (list Shareable * World) :=
  (fun w => (hw.1 ++ [m], w)) <$> run_state (process_message 1 rng0 pp0 m hw.2).

Definition sync_act (a : SyncAction) (hw : list Shareable * World) : option (list Shareable * World) :=
  let '(h, w) := hw in
  match a with
  | STimeout rqs => (fun s => (h, set_sync s w)) <$> run_state (begin_view_change (Some rqs) w.(w_sync))
  | SMessage m => message_act m hw
  | SQueue m => (fun s => (h, set_sync s w)) <$> run_state (Synchronizer.queue m w.(w_sync))
  | SSignal => Some (h, set_sync (signal w.(w_sync)) w)
  | SPoll =>
      match poll w.(w_sync) with
      | (Ok (SyncNextMessage m), s) => message_act m (h, set_sync s w)
      | (Ok _, s) => Some (h, set_sync s w)
      | _ => None
      end
  end.

Definition sync_run (l : list SyncAction) (hw : list Shareable * World) : option (list Shareable * World) :=
  foldl (fun acc a => hw ← acc; sync_act a hw) (Some hw) l.

Lemma run_state_inv {S X} (r : Run S Effect Error X) s :
  run_state r = Some s -> exists x eff, r = mkRun (Ok x) s eff.
Proof. destruct r as [[x| |] s' eff]; cbn; [|done..]. intros [= ->]. eauto. Qed.

Lemma message_act_executes m hw hw' :
  SyncFacts.executes 1 [] hw.1 hw.2 -> message_act m hw = Some hw' -> SyncFacts.executes 1 [] hw'.1 hw'.2.
Proof.
  intros Hex H. unfold message_act in H.
  destruct (run_state (process_message 1 rng0 pp0 m hw.2)) as [w'|] eqn:E; [|discriminate H].
  cbn in H. injection H as <-. apply run_state_inv in E as (st & eff & E).
  exact (SyncFacts.ex_message 1 [] _ _ _ _ _ _ _ _ Hex E).
Qed.

Lemma sync_act_executes a hw hw' :
  SyncFacts.executes 1 [] hw.1 hw.2 -> sync_act a hw = Some hw' -> SyncFacts.executes 1 [] hw'.1 hw'.2.
Proof.
  destruct hw as [h w]. intros Hex H. destruct a as [rqs|m|m| |]; cbn [sync_act] in H.
  - destruct (run_state (begin_view_change (Some rqs) w.(w_sync))) as [s|] eqn:E; [|discriminate H].
    cbn in H. injection H as <-. apply run_state_inv in E as (st & eff & E).
    exact (SyncFacts.ex_timeout 1 [] _ _ _ _ _ _ Hex E).
  - exact (message_act_executes _ _ _ Hex H).
  - destruct (run_state (Synchronizer.queue m w.(w_sync))) as [s|] eqn:E; [|discriminate H].
    cbn in H. injection H as <-. apply run_state_inv in E as ([] & eff & E).
    exact (SyncFacts.ex_queue 1 [] _ _ _ _ _ Hex E).
  - injection H as <-. exact (SyncFacts.ex_signal 1 [] _ _ Hex).
  - destruct (poll w.(w_sync)) as [[st| |] s] eqn:E; [|discriminate H..].
    pose proof (SyncFacts.ex_poll 1 [] _ _ _ _ Hex E) as Hex'.
    destruct st; [injection H as <-; exact Hex'|exact (message_act_executes m (h, set_sync s w) hw' Hex' H)|injection H as <-; exact Hex'].
Qed.

Lemma sync_run_executes l : forall hw hw',
  SyncFacts.executes 1 [] hw.1 hw.2 -> sync_run l hw = Some hw' -> SyncFacts.executes 1 [] hw'.1 hw'.2.
Proof.
  unfold sync_run. induction l as [|a l IH] using rev_ind; intros hw hw' Hex; [by intros [= <-]|].
  rewrite foldl_snoc. destruct (foldl _ _ l) as [hw1|] eqn:E; [|done]. cbn. intros H.
  exact (sync_act_executes _ _ _ (IH _ _ Hex E) H).
Qed.

Definition stop_msg (v : SeqNo) (from : NodeId) : Shareable :=
  mkStored (mkSHeader from [] []) (ViewChange (mkViewChangeMessage v (Stop [request from]))).
Definition stop_data_msg (v : SeqNo) (from : NodeId) : Shareable :=
  mkStored (mkSHeader from [] [])
    (ViewChange (mkViewChangeMessage v (StopData (mkCollectData (mkIncompleteProof 5 [] None) None)))).
Definition fwd_of (v : SeqNo) (leader : NodeId) : FwdConsensusMessage :=
  mkFwdConsensusMessage (mkSHeader leader digest5 digest5) (mkConsensusMessage 5 v 0 (PrePrepare [request 1])).
Definition sync_msg (v : SeqNo) (leader : NodeId) : Shareable :=
  mkStored (mkSHeader leader [] [])
    (ViewChange (mkViewChangeMessage v (Sync (mkLeaderCollects (fwd_of v leader) [])))).

Definition world0 : World := mkWorld _ (new_replica 1 view0) window0 (Log.initialize_decided_log 1).
Definition after (l : list SyncAction) : list Shareable * World := default ([], world0) (sync_run l ([], world0)).

Lemma after_executes l : SyncFacts.executes 1 [] (after l).1 (after l).2.
Proof.
  unfold after. pose proof (SyncFacts.ex_start 1 view0 window0 (Log.initialize_decided_log 1)) as H0.
  destruct (sync_run l ([], world0)) as [hw|] eqn:E; [|exact H0]. exact (sync_run_executes l ([], world0) hw H0 E).
Qed.

(** Replica 1 times out; it hears the STOP messages of 0 and 2 ([stopping]), of itself, and then
    the STOP-DATA messages of 0 and 1 ([collecting]). *)
Definition stop_actions : list SyncAction := [STimeout [request 1]; SMessage (stop_msg 1 0); SMessage (stop_msg 1 2)].
Definition collect_actions : list SyncAction :=
  stop_actions ++ [SMessage (stop_msg 1 1); SMessage (stop_data_msg 1 0); SMessage (stop_data_msg 1 1)].
Definition stopping : list Shareable * World := after stop_actions.
Definition collecting : list Shareable * World := after collect_actions.

(** It leads view 1; views 2, 3 and 4 follow, and then the view change to view 5, all started by STOP messages
    of the others. *)
Definition stop_by_others (v : SeqNo) : list SyncAction :=
  [SQueue (stop_msg v 0); SQueue (stop_msg v 2); SQueue (stop_msg v 3); SSignal; SPoll; SPoll; SPoll].
Definition follow (v : SeqNo) (leader : NodeId) : list SyncAction := stop_by_others v ++ [SMessage (sync_msg v leader)].
Definition leading_again : list Shareable * World :=
  after (collect_actions ++ [SMessage (stop_data_msg 1 2)] ++ follow 2 2 ++ follow 3 3 ++ follow 4 0 ++ stop_by_others 5).

Definition is_some {X} (o : option X) : bool := match o with Some _ => true | None => false end.
Definition is_ok {S W E X} (r : Run S W E X) : bool := match r.(r_out) with Ok _ => true | _ => false end.
Lemma is_ok_run {S W E X} (r : Run S W E X) : is_ok r = true -> exists x, r = mkRun (Ok x) r.(r_st) r.(r_eff).
Proof. destruct r as [[x| |] s eff]; cbn; [|done..]. eauto. Qed.

(** The STOP message that completes the quorum, and the STOP-DATA message that does. *)
Definition stopped_run := process_message 1 rng0 pp0 (stop_msg 1 3) stopping.2.
Definition led_run := process_message 1 rng0 pp0 (stop_data_msg 1 2) collecting.2.

Lemma stop_certificate_witness :
  exists S nv, 3 <= size S /\ SyncFacts.stops_from [] (stopping.1 ++ [stop_msg 1 3]) 1 S /\
    next_view stopped_run.(r_st).(w_sync) = Some nv.
Proof.
  destruct (is_ok_run stopped_run ltac:(by vm_compute)) as [st Hst].
  destruct (SyncFacts.stop_certificate 1 [] stopping.1 stopping.2 2 rng0 pp0 (stop_msg 1 3) st
    stopped_run.(r_st) stopped_run.(r_eff) (after_executes stop_actions)
    ltac:(right; by vm_compute) ltac:(by vm_compute) Hst ltac:(left; exists 0; by vm_compute))
    as (_ & S & nv & leader & msg & Hsz & Hst' & _ & Hnv & _).
  exists S, nv. exact (conj Hsz (conj Hst' Hnv)).
Defined.

(** State transfer gives replica 1 view 3 after it has handled two STOP messages for view 1. *)
Definition view3 : ViewInfo.t := view_of (ViewInfo.new 3 4 1).
Definition given_run := received_view_from_state_transfer (W := Effect) view3 stopping.2.(w_sync).
Definition given : World := set_sync given_run.(r_st) stopping.2.
Definition hasty_run := process_message 1 rng0 pp0 (stop_msg 4 3) given.

Lemma given_executes : SyncFacts.executes 1 stopping.1 [] given.
Proof.
  destruct (is_ok_run given_run ltac:(by vm_compute)) as [b Hb]. unfold given. revert Hb. generalize (r_st given_run), (r_eff given_run).
  unfold given_run, stopping. intros s' eff Hb. pose proof (SyncFacts.ex_install 1 [] _ _ view3 b s' eff (after_executes stop_actions) Hb) as H.
  rewrite app_nil_l in H. exact H.
Qed.

(** STOP messages for a view that was left behind still count: with two of them for view 1, a single one for view 4 makes a replica that was given view 3
    leave it, although a quorum is three. *)
Theorem stale_stops_counted :
  exists old w w' st eff m, SyncFacts.executes 1 old [] w /\ ViewInfo.quorum (view w.(w_sync)) = 3 /\ ViewInfo.seq (view w.(w_sync)) = 3%N /\
    (forall m', m' ∈ old -> SyncFacts.is_stop 1 m') /\
    process_message 1 rng0 pp0 m w = mkRun (Ok st) w' eff /\ w'.(w_sync).(phase) = Syncing /\
    ViewInfo.seq <$> next_view w'.(w_sync) = Some 4%N.
Proof.
  destruct (is_ok_run hasty_run ltac:(by vm_compute)) as [st Hst].
  exists stopping.1, given, hasty_run.(r_st), st, hasty_run.(r_eff), (stop_msg 4 3). split; [exact given_executes|].
  split; [by vm_compute|]. split; [by vm_compute|]. split; [|split; [exact Hst|split; by vm_compute]].
  assert (stopping.1 = [stop_msg 1 0; stop_msg 1 2]) as -> by (by vm_compute).
  intros m' [->|[->|[]%elem_of_nil]%elem_of_cons]%elem_of_cons; by eexists.
Qed.

Lemma sync_certificate_witness : exists nv rqs values eff',
  led_run.(r_eff) = BroadcastSigned (SyncFacts.sync_message nv (SyncFacts.sync_proposal rng0 1 rqs nv collecting.2) values)
    (filter (fun x => x <> 1%N) nv.(ViewInfo.quorum_members)) :: eff' /\ ViewInfo.quorum nv <= length values.
Proof.
  destruct (is_ok_run led_run ltac:(by vm_compute)) as [st Hst].
  destruct (SyncFacts.sync_certificate SampleOrderLaws 1 [] collecting.1 collecting.2 2 rng0 pp0 (stop_data_msg 1 2) st
    led_run.(r_st) led_run.(r_eff) (after_executes collect_actions) ltac:(by vm_compute) Hst)
    as [H|(nv & rqs & values & eff' & _ & _ & _ & He & Hq & _)].
  - exfalso. assert (length led_run.(r_eff) <> 0) as Hne by (apply Nat.eqb_neq; by vm_compute). exact (Hne (f_equal length H)).
  - exists nv, rqs, values, eff'. exact (conj He Hq).
Defined.

Lemma collecting_in_step : SyncFacts.in_step 0 collecting.2.
Proof.
  assert (w_consensus collecting.2 = window0) as Hc by vm_cast_no_check (eq_refl window0).
  assert (view collecting.2.(w_sync) = view0) as Hv by by vm_compute.
  assert (next_view collecting.2.(w_sync) = Some view1) as Hn by by vm_compute.
  assert (0 < 3 <= sn_window) as H3 by (cbn; lia).
  split; rewrite ?Hc, ?Hv, ?Hn.
  - exact (proj1 (ConsensusFacts.new_replica_inv 1 view0 5 3 (ProposerConsensusGuard.new view0) view0_wf H3)).
  - reflexivity.
  - by vm_compute.
  - intros nv [= <-]. split_and!; [exact view1_wf|by vm_compute|exists 0; by vm_compute].
  - intros _. exists view1. reflexivity.
Qed.

Lemma new_view_agreed_witness : SyncFacts.in_step 0 led_run.(r_st) /\ view led_run.(r_st).(w_sync) = view1.
Proof.
  destruct (is_ok_run led_run ltac:(by vm_compute)) as [st Hst].
  assert (phase (w_sync collecting.2) = StoppingData 2) as Hph by by vm_compute.
  destruct (SyncFacts.new_view_agreed 0 1 rng0 pp0 (stop_data_msg 1 2) collecting.2 st led_run.(r_st) led_run.(r_eff)
    collecting_in_step ltac:(intros i; rewrite Hph; split; discriminate) Hst) as [Hin _].
  split; [exact Hin|]. by vm_compute.
Defined.

Definition view5 : ViewInfo.t := view_of (ViewInfo.new 5 4 1).

(** Handle messages one after the other. *)
Fixpoint handle_all (ms : list Shareable) (w : World) : option World :=
  match ms with
  | [] => Some w
  | m :: ms => run_state (process_message 1 rng0 pp0 m w) ≫= handle_all ms
  end.

Lemma handle_all_handles ms : forall w w', handle_all ms w = Some w' -> SyncFacts.handles 1 ms w w'.
Proof.
  induction ms as [|m ms IH]; intros w w'; cbn [handle_all]; [intros [= <-]; apply SyncFacts.handles_nil|].
  destruct (run_state (process_message 1 rng0 pp0 m w)) as [w1|] eqn:E; [|done]. cbn. intros H.
  apply run_state_inv in E as (st & eff & E). exact (SyncFacts.handles_cons 1 m ms w _ _ _ _ _ _ E (IH _ _ H)).
Qed.

(** The STOP-DATA messages of all four members for view 5. *)
Definition stop_data5 : list Shareable := stop_data_msg 5 <$> [0; 1; 2; 3]%N.

Lemma stop_data5_members :
  Forall (fun m : Shareable => hdr_from m.(header) ∈ view5.(ViewInfo.quorum_members)) stop_data5.
Proof.
  apply (bool_decide_eq_true (Forall (fun m : Shareable => hdr_from m.(header) ∈ view5.(ViewInfo.quorum_members)) stop_data5)).
  by vm_compute.
Qed.
Lemma leading_again_short : SyncFacts.short view5 leading_again.2.
Proof. split; [by vm_compute|]. exists 0. split; [by vm_compute|]. apply Nat.ltb_lt. by vm_compute. Qed.

Lemma stale_collects_block_witness : exists j w', handle_all stop_data5 leading_again.2 = Some w' /\
  w'.(w_sync).(phase) = StoppingData j /\ j < ViewInfo.quorum view5.
Proof.
  assert (is_some (handle_all stop_data5 leading_again.2) = true) as Hsome by by vm_compute.
  destruct (handle_all stop_data5 leading_again.2) as [w'|] eqn:E; [|discriminate Hsome].
  destruct (SyncFacts.stale_collects_block 1 view5 stop_data5 leading_again.2 w' leading_again_short
    stop_data5_members (handle_all_handles _ _ _ E)) as (j & Hj & Hlt).
  exists j, w'. exact (conj eq_refl (conj Hj Hlt)).
Defined.

(** Replica 1 waits for the SYNC message of replica 2. *)
Definition waiting : list Shareable * World :=
  after (collect_actions ++ [SMessage (stop_data_msg 1 2)] ++ stop_by_others 2).

Lemma sync_without_collects_witness :
  view (process_message 1 rng0 pp0 (mkStored (mkSHeader 2 [] [])
    (SyncFacts.sync_message (view_of (ViewInfo.new 2 4 1)) (fwd_of 2 2) [])) waiting.2).(r_st).(w_sync) =
  view_of (ViewInfo.new 2 4 1).
Proof.
  rewrite (SyncFacts.sync_without_collects 1 rng0 pp0 (mkSHeader 2 [] []) (fwd_of 2 2) (view_of (ViewInfo.new 2 4 1))
    waiting.2 [request 1] 1 ltac:(by vm_compute) ltac:(by vm_compute) ltac:(by vm_compute) eq_refl
    ltac:(discriminate) ltac:(by vm_compute)).
  by vm_compute.
Defined.

(** ** Requests *)

Lemma stopped_requests_cover_witness :
  SyncFacts.rq_digest (request 1) ∈ (SyncFacts.rq_digest <$> stopped_requests stopping.2.(w_sync) (Some [request 1])).
Proof.
  apply (SyncFacts.stopped_requests_cover SampleOrderLaws stopping.2.(w_sync) (Some [request 1])).
  left. apply list_elem_of_here.
Defined.

(** Request 1 timed out once, request 2 twice, and others want to stop for requests 0 and 2. *)
Definition timeouts12 : list ModTimeout :=
  [mkModTimeout (Some (rq_info (request 1))) 1; mkModTimeout (Some (rq_info (request 2))) 2].

Definition reports_timeouts (st : SynchronizerStatus) : bool :=
  match st with RequestsTimedOut _ _ => true | _ => false end.

Lemma client_requests_timed_out_spec_witness : exists stopped,
  client_requests_timed_out stopping.2.(w_sync) timeouts12 = RequestsTimedOut [rq_info (request 1)] stopped /\
  rq_info (request 2) ∈ stopped.
Proof.
  pose proof (SyncFacts.client_requests_timed_out_spec SampleOrderLaws stopping.2.(w_sync) timeouts12) as H.
  assert (reports_timeouts (client_requests_timed_out stopping.2.(w_sync) timeouts12) = true) as Hr by by vm_compute.
  destruct (client_requests_timed_out stopping.2.(w_sync) timeouts12) as [| | | | |forwarded stopped];
    [discriminate Hr..|]. destruct H as (_ & Hf & Hs).
  exists stopped. split.
  - f_equal. rewrite Hf. by vm_compute.
  - apply Hs. left. vm_compute. apply list_elem_of_here.
Defined.

(** ** Collects *)

(** Three collects that report the batch as prepared in view 0. *)
Definition reporting : CollectData :=
  mkCollectData (mkIncompleteProof 5 [mkViewDecisionPair 0 digest5] (Some (mkViewDecisionPair 0 digest5))) None.
Definition reporting3 : collects_t := replicate 3 (Some reporting).

Lemma sound_deterministic_witness :
  @sound _ SampleOrder view1 reporting3 = @sound _ ReversedOrder view1 reporting3 /\
  @sound _ SampleOrder view1 reporting3 = Bound digest5.
Proof.
  destruct (SyncPredicates.sound_deterministic SampleOrder ReversedOrder view1 0 reporting3 SampleOrderLaws
    ReversedOrderLaws ltac:(by vm_compute)) as [H _].
  - intros c Hc. apply elem_of_replicate_inv in Hc. injection Hc as ->. intros p [= <-]. exists 0.
    split; [cbn; lia|reflexivity].
  - split; [exact H|]. by vm_compute.
Defined.

Definition offer5 : Shareable :=
  mkStored (mkSHeader 2 [] [])
    (ViewChange (mkViewChangeMessage 1 (StopData (mkCollectData (mkIncompleteProof 6 [] None) (Some proof5))))).

Lemma highest_proof_correct_witness :
  exists r, highest_proof view0 [offer5] = Ok r /\ r <> None.
Proof.
  destruct (SyncPredicates.highest_proof_correct view0 0 [offer5]) as (r & Hr & Hnone & _).
  - apply Forall_singleton. by eexists.
  - intros p (m & s & i & Hm & Hms). apply list_elem_of_singleton in Hm as ->. injection Hms as _ _ <-. split.
    + repeat (apply Forall_cons; split); try apply Forall_nil_2; by eexists.
    + exists 5. split; [cbn; lia|by vm_compute].
  - exists r. split; [exact Hr|]. rewrite Hnone. intros H. apply (H proof5).
    + exists offer5, 1%N, (mkIncompleteProof 6 [] None). split; [apply list_elem_of_here|reflexivity].
    + split; apply Nat.leb_le; by vm_compute.
Defined.

(** A proof made of two votes of replica 3 only. *)
Definition forged5 : DecProof :=
  SyncPredicates.repeated_votes view0 (mkProofMetadata 5 digest5 [] 0) [] (prepare_msg 5 0 3) (commit_msg 5 0 3).

Lemma one_replica_forges_proof_witness :
  highest_proof view0 [mkStored (mkSHeader 3 [] []) (ViewChange (mkViewChangeMessage 1
    (StopData (mkCollectData (mkIncompleteProof 6 [] None) (Some forged5)))))] = Ok (Some forged5).
Proof.
  apply (SyncPredicates.one_replica_forges_proof view0 (mkProofMetadata 5 digest5 [] 0) [] (prepare_msg 5 0 3)
    (commit_msg 5 0 3) _ 1 (mkIncompleteProof 6 [] None)); [eexists; split_and!; by vm_compute..|reflexivity].
Defined.

Lemma malformed_collect_panics_witness : highest_proof view0 [prepare_msg 5 0 3] = Panic.
Proof.
  exact (SyncPredicates.malformed_collect_panics view0 [prepare_msg 5 0 3] (prepare_msg 5 0 3)
    (list_elem_of_here _ _) (or_introl eq_refl)).
Defined.
