(* ===== verification/StWitnesses.v ===== *)
(** * The state transfer properties at concrete inputs

    In a view of four replicas with [f = 1], replica 0 finds out that the others have a checkpoint of instance 5 and
    fetches it; afterwards it serves its own. *)
From S2P Require Import Prelude Atlas Errors View Messages StateTransfer StateTransferFacts CheckpointService Sample Witnesses SyncWitnesses.

Import CollabStateTransfer StateTransferFacts.

Record SCheckpoint := mkSCheckpoint { scp_seq : N; scp_digest : list byte; scp_state : nat }.

#[global] Instance SampleState : AppState := {
  St := nat;
  Checkpoint := SCheckpoint;
  cp_sequence_number := scp_seq;
  cp_digest := scp_digest;
  cp_state := scp_state;
}.

Definition st_node : StNode := {|
  st_id := 0%N;
  ack_received _ _ := inr tt;
  send_signed _ _ := inr tt;
  install_channel_send _ := inr tt;
  write_checkpoint _ := inr tt;
|}.
Definition st_view : NetworkView := mkNetworkView 3 1 [0; 1; 2; 3]%N.

Definition cp5 : @Checkpoint SampleState := mkSCheckpoint 5 [x01; x05] 42.
Definition st_from (n : N) : SHeader := mkSHeader n [x00; x00] [].
Definition seq_reply (n : N) : StoredMessage CstMessage :=
  mkStored (st_from n) (mkCstMessage 1%N (ReplyStateCid (Some (5%N, [x01; x05])))).
Definition state_reply_of (n : N) : StoredMessage CstMessage :=
  mkStored (st_from n) (mkCstMessage 2%N (ReplyState (mkRecoveryState cp5))).

Definition st_start : CollabStateTransfer.t := (start st_node st_view (new 100%N)).(r_st).
Definition st_after (ms : list (StoredMessage CstMessage)) : CollabStateTransfer.t :=
  foldl (fun s m => (process_message st_node st_view m s).(r_st)) st_start ms.

Lemma st_after_executes ms : executes ms (st_after ms).
Proof.
  induction ms as [|m ms IH] using rev_ind.
  - apply ex_start, ex_new.
  - unfold st_after. rewrite foldl_snoc. by apply ex_message.
Qed.

Definition seq_replies : list (StoredMessage CstMessage) := seq_reply <$> [1; 2; 3]%N.

(** Two replies with the same checkpoint complete the transfer. *)
Lemma state_certificate_witness :
  executes (seq_replies ++ [state_reply_of 1]) (st_after (seq_replies ++ [state_reply_of 1])) /\
  1 < state_replies 2%N [x01; x05] (seq_replies ++ [state_reply_of 1; state_reply_of 2]).
Proof.
  split; [apply st_after_executes|].
  destruct (state_certificate _ _ st_node st_view (state_reply_of 2) 5%N _ _
    (st_after_executes (seq_replies ++ [state_reply_of 1])) eq_refl) as (c & _ & _ & Hf & x & Hx & _ & Hkind).
  assert (c = cp5) as ->.
  { repeat (apply elem_of_cons in Hx as [->|Hx]); [cbn in Hkind; try discriminate Hkind; by injection Hkind as <-..|].
    by apply elem_of_nil in Hx. }
  exact Hf.
Defined.

Lemma seq_no_certificate_witness :
  (exists d, 3 <= cid_replies 1%N (Some (5%N, d)) seq_replies) \/ (5%N = ZERO /\ 3 <= cid_replies 1%N None seq_replies).
Proof.
  exact (seq_no_certificate _ _ st_node st_view (st_from 3) (mkCstMessage 1%N (ReplyStateCid (Some (5%N, [x01; x05])))) 5%N _ _
    (st_after_executes (seq_reply <$> [1; 2]%N)) eq_refl).
Defined.

(** Two replies that differ: the query starts over. *)
Definition cp6 : @Checkpoint SampleState := mkSCheckpoint 5 [x01; x06] 43.
Lemma first_replies_witness :
  exists st s', feed st_node st_view (reply_msg 2%N <$> [(st_from 1, mkRecoveryState cp5); (st_from 2, mkRecoveryState cp6)])
    CstNil (st_after seq_replies) = mkRun (Ok st) s' [] /\ st = CstRequestState.
Proof.
  destruct (first_replies st_node st_view (st_after seq_replies)
    [(st_from 1, mkRecoveryState cp5); (st_from 2, mkRecoveryState cp6)] eq_refl eq_refl eq_refl) as (st & s' & Hrun & _ & _ & Hdiff).
  exists st, s'. split; [exact Hrun|]. apply Hdiff. exists (mkRecoveryState cp5), (mkRecoveryState cp6).
  split_and!; [left|right; left|done].
Defined.

(** Replica 2 asks twice and replica 3 once before there is a checkpoint. *)
Definition asks (n q : N) : StoredMessage CstMessage := mkStored (st_from n) (mkCstMessage q RequestState).
Definition st_waiting : CollabStateTransfer.t :=
  foldl (fun s m => (process_message st_node st_view m s).(r_st)) (handle_app_state_requested 5%N (new 100%N)).(r_st)
    [asks 2 1; asks 3 1; asks 2 2].

Lemma pending_answered_witness :
  exists reqs s', handle_state_received_from_app st_node cp5 st_waiting =
    mkRun (Ok tt) s' (StWriteCheckpoint cp5 :: (answer cp5 <$> reqs)) /\ NoDup (sender <$> reqs).
Proof.
  destruct (pending_answered 0%N st_node cp5 st_waiting [asks 2 1; asks 3 1; asks 2 2] 5%N) as (reqs & s' & Hrun & _ & _ & Hnd & _).
  - done.
  - done.
  - reflexivity.
  - intros r Hr. repeat (apply elem_of_cons in Hr as [->|Hr]); [exists 1|exists 1|exists 2|by apply elem_of_nil in Hr];
      (split; [vm_compute; lia|reflexivity]).
  - reflexivity.
  - exists reqs, s'. split; [exact Hrun|exact Hnd].
Defined.
