(* ===== verification/ProtocolWitnesses.v ===== *)
(** * The properties of the ordering protocol at concrete inputs

    Replica 2 of four leaves view 0 after a timeout and follows the leader of view 1, whose SYNC message carries a
    proof that is ahead of its log and proposes nothing. *)
From S2P Require Import Prelude Atlas Errors View Messages Decisions Deciding Log Network.
From S2P Require Import SyncAccessory Accessory Decision Consensus ConsensusFacts Sync SyncFacts Protocol ProtocolFacts ProtocolPhases ProtocolPolling.
From S2P Require Import Sample Witnesses SyncWitnesses.

Import PBFTOrderProtocol ProtocolPhases.

(** ** A run *)

Inductive PAction := PMessage (m : Shareable) | PPoll | POffCtx (m : Shareable) | PTimeout (l : list ModTimeout).

Definition unless_panic {X} (r : Run t Effect Error X) : option t :=
  match r.(r_out) with Panic => None | _ => Some r.(r_st) end.

Definition protocol_act (a : PAction) (s : t) : option t :=
  match a with
  | PMessage m => unless_panic (process_message 2 rng0 pp0 m s)
  | PPoll => unless_panic (poll 2 rng0 pp0 1 s)
  | POffCtx m => unless_panic (handle_off_ctx_message m s)
  | PTimeout l => unless_panic (handle_timeout pp0 l s)
  end.

Definition start2 : Result t := initialize_protocol 2 3 [0; 1; 2; 3]%N.
Definition begun : t := match start2 with Ok s => s | _ => mk NormalPhase world0 end.
Definition protocol_run (l : list PAction) : option t := foldl (fun acc a => s ← acc; protocol_act a s) (Some begun) l.
Definition at_end (l : list PAction) : t := default begun (protocol_run l).

Lemma unless_panic_inv {X} (r : Run t Effect Error X) s : unless_panic r = Some s -> r.(r_out) <> Panic /\ r.(r_st) = s.
Proof. unfold unless_panic. by destruct (r_out r); intros [= <-]. Qed.

Lemma begun_lives : lives 2 begun.
Proof. apply (lives_init 2 3 [0; 1; 2; 3]%N). reflexivity. Qed.

Lemma protocol_act_called a s s' : protocol_act a s = Some s' -> called 2 s s'.
Proof.
  destruct a; cbn [protocol_act]; intros [Hok <-]%unless_panic_inv.
  - by apply call_message.
  - by apply call_poll.
  - by apply call_off_ctx.
  - by apply call_timeout.
Qed.

Lemma at_end_lives l : lives 2 (at_end l).
Proof.
  unfold at_end. destruct (protocol_run l) as [s|] eqn:E; [|exact begun_lives]. cbn. revert s E. unfold protocol_run.
  induction l as [|a l IH] using rev_ind; intros s; [intros [= <-]; exact begun_lives|]. rewrite foldl_snoc.
  destruct (foldl _ _ l) as [s1|]; [|done]. cbn. intros Ha%protocol_act_called.
  exact (lives_call 2 s1 s (IH _ eq_refl) Ha).
Qed.

(** The SYNC message of replica 1: no request, and a collect whose proof is of instance 5. *)
Definition empty_sync : Shareable :=
  mkStored (mkSHeader 1 [] []) (ViewChange (mkViewChangeMessage 1 (Sync (mkLeaderCollects
    (mkFwdConsensusMessage (mkSHeader 1 digest5 digest5) (mkConsensusMessage 0 1 0 (PrePrepare []))) [offer5])))).

Definition to_syncing : list PAction :=
  [PTimeout timeouts12; PMessage (stop_msg 1 0); PMessage (stop_msg 1 1); PMessage (stop_msg 1 3)].
Definition to_cst : list PAction := to_syncing ++ [PMessage empty_sync].
Definition to_given_up : list PAction := to_cst ++ [PPoll].
Definition to_stuck : list PAction := to_given_up ++ [POffCtx (stop_msg 1 0)].

Lemma phases_agree_witness : lock_of (consensus (at_end to_cst)) = false.
Proof.
  pose proof (phases_agree 2 (at_end to_cst) (at_end_lives to_cst)) as H.
  assert ((at_end to_cst).(phase) = SyncPhase) as Hp by by vm_compute. rewrite Hp in H. exact (proj1 H).
Defined.

Lemma normal_phase_reachable_witness :
  exists s' eff, process_message 2 rng0 pp0 (stop_msg 1 0) begun = mkRun (Ok MessageProcessedNoUpdate) s' eff.
Proof.
  assert (is_ok (Synchronizer.process_message 2 rng0 pp0 (stop_msg 1 0) begun.(world)) = true) as Hok by by vm_compute.
  apply is_ok_run in Hok as [st Hok].
  apply (normal_phase_reachable 2 rng0 pp0 (stop_msg 1 0) begun (mkViewChangeMessage 1 (Stop [request 0]))).
  - exact begun_lives.
  - reflexivity.
  - reflexivity.
  - rewrite Hok. discriminate.
  - intros e. rewrite Hok. discriminate.
Defined.

Lemma begun_inv : ConsensusFacts.inv 0 (consensus begun).
Proof.
  assert (ViewInfo.wf (view begun)) as Hwf.
  { destruct (ViewInfo.from_quorum_ok ZERO [0; 1; 2; 3]%N) as (v & Hv & H & _); [apply (bool_decide_eq_true (NoDup [0; 1; 2; 3]%N)); by vm_compute|discriminate|].
    assert (view begun = v) as ->; [|exact H]. assert (Ok (view begun) = Ok v :> Result ViewInfo.t) as E.
    { rewrite <- Hv. by vm_compute. } by injection E. }
  exact (proj1 (ConsensusFacts.new_replica_inv 2 (view begun) 0 3 (ProposerConsensusGuard.new (view begun)) Hwf ltac:(cbn; lia))).
Qed.

Lemma poll_returns_witness : poll 2 rng0 pp0 10 begun = poll 2 rng0 pp0 1 begun /\ (poll 2 rng0 pp0 1 begun).(r_out) <> Ok None.
Proof.
  apply (ProtocolPolling.poll_returns 2 rng0 pp0 0 begun 9 begun_lives).
  - intros _ [H _]. vm_compute in H. discriminate H.
  - exact begun_inv.
  - cbn. lia.
Defined.

(** The view change was given up, and a STOP message is there. *)
Lemma given_up : (at_end to_stuck).(phase) = NormalPhase /\ abandoned (synchronizer (at_end to_stuck)).
Proof. split; [|split]; by vm_compute. Qed.

Lemma poll_livelock_witness : poll 2 rng0 pp0 1000 (at_end to_stuck) = mkRun (Ok None) (at_end to_stuck) [].
Proof.
  exact (ProtocolPolling.poll_livelock 2 rng0 pp0 1000 (at_end to_stuck) (at_end_lives to_stuck) (proj1 given_up)
    (proj2 given_up) ltac:(by vm_compute)).
Defined.

Definition cst_state : FinalizeState :=
  default (mkFinalizeState 0 (Unbound false) (fwd_of 0 0) None) (synchronizer (at_end to_cst)).(Synchronizer.finalize_state).

Lemma resume_gives_up_witness :
  exists s', poll 2 rng0 pp0 1 (at_end to_cst) = mkRun (Ok (Some PollRePoll)) s' [] /\ abandoned (synchronizer s').
Proof.
  assert (is_some (synchronizer (at_end to_cst)).(Synchronizer.finalize_state) = true) as Hs by by vm_compute.
  assert ((synchronizer (at_end to_cst)).(Synchronizer.finalize_state) = Some cst_state) as Hf.
  { unfold cst_state. destruct (Synchronizer.finalize_state _); [reflexivity|discriminate Hs]. }
  destruct (ProtocolPolling.resume_gives_up 2 rng0 pp0 1 (at_end to_cst) cst_state 1 ltac:(by vm_compute) ltac:(by vm_compute)
    ltac:(by vm_compute) Hf ltac:(by vm_compute) ltac:(by vm_compute) ltac:(by vm_compute)) as (s' & Hrun & _ & Hab & _).
  exists s'. exact (conj Hrun Hab).
Defined.

(** Replica 1 with instance 5 decided. *)
Definition holding5 : t := mk NormalPhase (Synchronizer.mkWorld _ (Synchronizer.new_replica 1 view0) window5.2 (Log.initialize_decided_log 1)).

Lemma handle_decided_delivers_witness :
  exists out s' eff, handle_decided [] holding5 = mkRun (Ok out) s' eff /\ (dec_sequence_number <$> out) <> [].
Proof.
  assert (consensus holding5 = window5.2) as Hc by reflexivity.
  destruct (ProtocolFacts.handle_decided_delivers 0 0 holding5 []) as (bs & out & c' & eff & Hrun & _ & _ & _ & Hkeys & _).
  - exact window5_inv.
  - by vm_compute.
  - exists 5. split; [by vm_compute|]. apply Nat.leb_le. by vm_compute.
  - intros d Hd. destruct (not_elem_of_nil d Hd).
  - exists out. eexists. exists eff. split; [exact Hrun|]. intros Hnil. rewrite Hnil in Hkeys.
    apply (not_elem_of_nil (sn_plus 0 (consensus holding5).(Consensus.seq_no))). apply Hkeys. right. exists 0.
    split; [apply Nat.ltb_lt; by vm_compute|reflexivity].
Defined.

(** Five replicas tolerate one fault by these functions, but two quorums of three may only share the faulty one. *)
Lemma tolerance_exact_witness :
  ~ (forall U P Q B : gset NodeId, size U = 5 -> P ⊆ U -> Q ⊆ U -> 3 <= size P -> 3 <= size Q -> size B <= 1 ->
       exists x, x ∈ P /\ x ∈ Q /\ x ∉ B).
Proof.
  intros H. assert (5 = get_n_for_f 1) as E by exact (proj1 (ProtocolFacts.tolerance_exact 5 1 3 eq_refl eq_refl) H).
  discriminate E.
Defined.
