(* ===== verification/ProposerWitnesses.v ===== *)
(** * The properties of the proposer at concrete inputs

    Replica 0 of four leads view 0; replica 1 follows. *)
From S2P Require Import Prelude Atlas Errors View Messages Decisions Deciding Log Network.
From S2P Require Import SyncAccessory Accessory Decision Consensus ConsensusFacts Offers Sync Proposer ProposerFacts.
From S2P Require Import Sample.

Import Proposer ProposerFacts.

Definition client_request (seq : N) : StoredMessage RQ := mkStored (mkSHeader 9 [] []) (mkSRequest seq 1).

(** One request per batch, a limit of one millisecond. *)
Definition params0 (me : N) (checks : bool) : ProposerParams := mkParams me 1 1000 1 checks.
Definition open_guard : ProposerConsensusGuard.t := ProposerConsensusGuard.mk true ([3; 4]%N, view0) false None.
Definition proposer0 (g : ProposerConsensusGuard.t) (rqs : list (StoredMessage RQ)) (now : N) (o : list Interference) : t :=
  mk (mkBuilder rqs 0) g (Synchronizer.new_replica 1 view0) false now o.

(** Batches of at most eight requests; the SYNC message had request 5, and another number becomes available while the leader works. *)
Definition roomy : ProposerParams := mkParams 0 1 1000 8 true.
Definition synced : t :=
  proposer0 (ProposerConsensusGuard.install_sync_message_requests [rq_info (client_request 5)] open_guard) [] 0
    [mkInterference [] 2; mkInterference [MakeSeqAvailable 5] 7].
Definition received (rqs : list (StoredMessage RQ)) (s : t) : t := (process_received_messages roomy view0 rqs s).(r_st).
Definition tried (nonce : N) (s : t) : t := (propose_ordered roomy nonce true s).(r_st).
Definition turn1 : t := received [client_request 5; client_request 6] synced.
Definition turn2 : t := received [client_request 7] (tried 0 turn1).
Local Abbreviation sent_at nonce s := (propose_ordered roomy nonce true s).(r_eff).
Definition broadcast : list Effect := sent_at 0 turn1 ++ sent_at 1 turn2.

Lemma tried_leads arrived eff s nonce :
  leads roomy synced arrived eff s -> length (accumulated s) <= 8 -> (propose_ordered roomy nonce true s).(r_out) = Ok true ->
  leads roomy synced arrived (eff ++ sent_at nonce s) (tried nonce s).
Proof.
  intros Hl Hlen Ho. apply (ld_propose roomy synced arrived eff s nonce true (tried nonce s) (sent_at nonce s) Hl Hlen).
  rewrite <- Ho. symmetry. apply Run_eta.
Qed.

Lemma received_leads arrived eff s rqs :
  leads roomy synced arrived eff s -> leads roomy synced (arrived ++ rqs) eff (received rqs s).
Proof.
  intros Hl. assert (roomy.(me) ∈ view0.(ViewInfo.leader_set)) as Hme by (apply (proj1 (bool_decide_eq_true _)); vm_compute; reflexivity).
  assert (filter_map_leader rqs (length view0.(ViewInfo.leader_set)) (view0.(ViewInfo.leader_hash_space_division) !! roomy.(me)) = Ok rqs) as Hf.
  { change (length (ViewInfo.leader_set view0)) with 1. generalize (view0.(ViewInfo.leader_hash_space_division) !! roomy.(me)). intros o.
    induction rqs as [|x rqs IH]; cbn; [done|]. by rewrite IH. }
  apply (ld_receive roomy synced arrived eff s view0 rqs rqs (received rqs s) Hl Hme Hf).
  unfold received, process_received_messages. rewrite decide_True by exact Hme. rewrite Hf. by run.
Qed.

Lemma two_turns : leads roomy synced [client_request 5; client_request 6; client_request 7] broadcast (tried 1 turn2).
Proof.
  assert (length (accumulated turn1) <= 8) as L1 by (vm_compute; lia). assert (length (accumulated turn2) <= 8) as L2 by (vm_compute; lia).
  assert ((propose_ordered roomy 0 true turn1).(r_out) = Ok true) as O1 by (vm_compute; reflexivity).
  assert ((propose_ordered roomy 1 true turn2).(r_out) = Ok true) as O2 by (vm_compute; reflexivity).
  pose proof (received_leads _ _ _ [client_request 5; client_request 6] (ld_start roomy synced)) as H1. fold turn1 in H1.
  pose proof (received_leads _ _ _ [client_request 7] (tried_leads _ _ _ 0%N H1 L1 O1)) as H2. fold turn2 in H2.
  exact (tried_leads _ _ _ 1%N H2 L2 O2).
Qed.

Lemma sync_requests_not_repeated_witness :
  proposed broadcast = [client_request 6; client_request 7] /\
  (forall x r, x ∈ proposed broadcast -> r ∈ [rq_info (client_request 5)] -> same_session x r ->
     sn_gtb (rq_sequence_number x.(message)) r.(rq_seq_no) = true).
Proof.
  assert (forall n, (n <= 1000)%N -> comparable (fun _ _ => 0%N) (rq_info (client_request n))) as Hc.
  { intros n Hn. exists (N.to_nat n). split; [cbn; lia|]. rewrite sample_plus. cbn. lia. }
  split; [vm_compute; reflexivity|].
  refine (proj1 (sync_requests_not_repeated (fun _ _ => 0%N) roomy synced [rq_info (client_request 5)] open_guard
    [client_request 5; client_request 6; client_request 7] broadcast (tried 1 turn2) _ _ _ _ _ two_turns)).
  - repeat constructor.
  - reflexivity.
  - repeat constructor. apply Hc. lia.
  - repeat constructor; apply Hc; lia.
  - repeat constructor; intros _; vm_compute; reflexivity.
Defined.

Lemma split_repeats_request_witness :
  exists s1 s2 eff1 eff2,
    propose_ordered (params0 0 true) 0 true
      (proposer0 (ProposerConsensusGuard.install_sync_message_requests [rq_info (client_request 5)] open_guard)
         [client_request 5; client_request 6] 0 []) = mkRun (Ok true) s1 eff1 /\ proposed eff1 = [client_request 6] /\
    propose_ordered (params0 0 true) 1 true s1 = mkRun (Ok true) s2 eff2 /\ proposed eff2 = [client_request 5].
Proof.
  apply (split_repeats_request (params0 0 true) 0 1 _ (client_request 5) (client_request 6) 3 4 view0 None);
    try reflexivity; cbn; lia.
Defined.

(** Replica 1 becomes the leader while it receives. *)
Definition promoted : list Interference :=
  [mkInterference [] 0; mkInterference [] 0; mkInterference [] 0; mkInterference [SyncMoves (Synchronizer.new_replica 1 view1)] 5].

Lemma non_leader_never_watches_witness :
  exists s', iteration (params0 1 true) 0 [Received [client_request 5]; Received [client_request 6]]
    (proposer0 open_guard [] 0 promoted) = mkRun (Ok Waiting) s' [].
Proof.
  apply (non_leader_never_watches (params0 1 true) 0 [Received [client_request 5]; Received [client_request 6]]).
  - reflexivity.
  - reflexivity.
  - apply (proj1 (bool_decide_eq_false _)). vm_compute. reflexivity.
  - intros [?|[?|?%elem_of_nil]%elem_of_cons]%elem_of_cons; done.
Defined.

(** The guard is opened just before the proposer registers as a listener. *)
Definition unlucky : list Interference := [mkInterference [] 0; mkInterference [] 0; mkInterference [Unlock] 0; mkInterference [MakeSeqAvailable 5] 7].

Lemma wake_up_lost_witness :
  exists s', iteration (params0 0 true) 0 [Received [client_request 5]]
    (proposer0 (ProposerConsensusGuard.lock_consensus open_guard) [] 0 unlucky) = mkRun (Ok Waiting) s' [] /\
    s'.(consensus_guard).(ProposerConsensusGuard.can_propose) = true.
Proof.
  apply (wake_up_lost (params0 0 true) 0 [Received [client_request 5]]).
  - reflexivity.
  - reflexivity.
  - reflexivity.
  - constructor; [|constructor]. split; intros [?|?%elem_of_nil]%elem_of_cons; done.
Defined.

(** Three milliseconds after the last proposal. *)
Lemma time_until_next_propose_spec_witness :
  (get_time_until_next_propose (params0 0 true) (proposer0 open_guard [] 3000000 [])).(r_out) = Panic /\
  (get_time_until_next_propose (params0 0 false) (proposer0 open_guard [] 3000000 [])).(r_out) = Ok 500%N.
Proof.
  rewrite (time_until_next_propose_spec (params0 0 true) (proposer0 open_guard [] 3000000 []) eq_refl eq_refl).
  rewrite (time_until_next_propose_spec (params0 0 false) (proposer0 open_guard [] 3000000 []) eq_refl eq_refl).
  exact (conj eq_refl eq_refl).
Defined.

(** Replica 0 polls its window and the proposer takes the first two numbers. *)
Definition leading : Consensus.t := Consensus.new_replica 0 view0 5 3 (ProposerConsensusGuard.new view0).
Definition offering : Consensus.t := (Consensus.poll leading).(r_st).
Definition take_number (c : Consensus.t) : Consensus.t :=
  Consensus.set_consensus_guard (ProposerConsensusGuard.next_seq_no c.(Consensus.consensus_guard)).2 c.
Abbreviation number_of c := (ProposerConsensusGuard.next_seq_no c.(Consensus.consensus_guard)).1.

Lemma offering_run : Consensus.poll leading = mkRun (Ok (Some CPRecv)) offering [].
Proof.
  assert ((Consensus.poll leading).(r_out) = Ok (Some CPRecv)) as Ho by (vm_compute; reflexivity).
  assert ((Consensus.poll leading).(r_eff) = []) as He by (vm_compute; reflexivity).
  unfold offering. rewrite <- Ho, <- He. symmetry. apply Run_eta.
Qed.

Abbreviation shared := (Offers.shared (Sy := SynchronizerRole * ViewInfo.t) leading).

Lemma take_shared lag c taken n : shared lag c taken -> number_of c = Some n -> shared lag (take_number c) (taken ++ [n]).
Proof.
  intros H Hn. unfold take_number. destruct (ProposerConsensusGuard.next_seq_no _) as [o g] eqn:E. cbn in *. subst o.
  exact (Offers.sh_take leading lag c taken n g H E).
Qed.

Lemma offering_shared : shared 0 offering [].
Proof.
  assert (0 < 3 <= sn_window) as H3 by (cbn; lia).
  assert (Offers.bounded offering) as Hb by (vm_compute; discriminate).
  refine (Offers.sh_replica leading 0 leading [] 0 offering _ (Offers.vo_poll 0 leading CPRecv offering _ offering_run) Hb); [|lia].
  apply Offers.sh_start. exact (proj1 (ConsensusFacts.new_replica_inv 0 view0 5 3 (ProposerConsensusGuard.new view0) view0_wf H3)).
Qed.

(** State transfer moves the window on to number 6 once number 5 was taken. *)
Definition moved_on (c : Consensus.t) : Consensus.t := (Consensus.install_sequence_number 6 c.(Consensus.curr_view) c).(r_st).

Lemma moved_on_shared lag c taken : shared lag c taken -> (c.(Consensus.seq_no) <= 6)%N -> Offers.bounded (moved_on c) ->
  shared (lag + c.(Consensus.watermark)) (moved_on c) taken.
Proof. intros H Hle Hb. exact (Offers.sh_replica leading lag c taken _ (moved_on c) H (Offers.vo_install lag c 6%N Hle) Hb). Qed.

Lemma numbers_offered_once_witness : NoDup ([(5, view0); (6, view0)]%N.*1 ++ Offers.started leading).
Proof.
  assert (number_of offering = Some (5%N, view0)) as H5 by (vm_compute; reflexivity).
  assert (number_of (moved_on (take_number offering)) = Some (6%N, view0)) as H6 by (vm_compute; reflexivity).
  assert (Offers.bounded leading) as Hb by (vm_compute; discriminate).
  assert (Offers.bounded (moved_on (take_number offering))) as Hb' by (vm_compute; discriminate).
  assert ((take_number offering).(Consensus.seq_no) <= 6)%N as Hle by (vm_compute; discriminate).
  assert (leading.(Consensus.consensus_guard).(ProposerConsensusGuard.seq_no_queue) = ([], view0)) as Hg by reflexivity.
  pose proof (moved_on_shared _ _ _ (take_shared _ _ _ _ offering_shared H5) Hle Hb') as Hi.
  apply (take_shared _ _ _ _ Hi) in H6.
  exact (proj1 (Offers.numbers_offered_once view0 leading _ _ _ Hb Hg H6)).
Defined.

(** The window is set back to number 4 in the same view, as [install_seq_no] does when state transfer gives an older number, and
    polled again: number 5, which the proposer already took, is offered a second time. *)
Definition set_back (c : Consensus.t) : Consensus.t :=
  (Consensus.poll (Consensus.install_sequence_number 4 c.(Consensus.curr_view) c).(r_st)).(r_st).

Theorem numbers_offered_again :
  number_of offering = Some (5, view0)%N /\
  number_of (set_back (take_number offering)) = Some (4, view0)%N /\
  number_of (take_number (set_back (take_number offering))) = Some (5, view0)%N.
Proof. split_and!; vm_compute; reflexivity. Qed.
