(* ===== verification/LivenessWitnesses.v ===== *)
(** * Progress at concrete runs

    Four replicas of view 0, the last of them faulty: it has sent COMMITs before anything was proposed. *)
From S2P Require Import Prelude Atlas Errors View Messages Decisions Deciding Log Network.
From S2P Require Import SyncAccessory Accessory Decision Progress Consensus ConsensusFacts Waiting Liveness.
From S2P Require Import Sync Proposer ProposerFacts LeaderProgress Sample ProposerWitnesses.

Abbreviation handle := (SynchronizerRole * ViewInfo.t)%type.

Lemma view0_members : view0.(ViewInfo.quorum_members) = node_targets (ViewInfo.n view0).
Proof. by vm_compute. Qed.
Lemma members4 x : x ∈ [0; 1; 2; 3]%N -> x ∈ view0.(ViewInfo.quorum_members).
Proof. assert (view0.(ViewInfo.quorum_members) = [0; 1; 2; 3]%N) as -> by (by vm_compute). done. Qed.
Lemma correct1 : 1%N ∉ byz3.
Proof. by vm_compute. Qed.
Lemma correct2 : 2%N ∉ byz3.
Proof. by vm_compute. Qed.
Lemma byz3_few : size byz3 <= ViewInfo.f view0.
Proof. vm_compute. lia. Qed.
Lemma sync_view0 : sy_view (sync view0) = view0.
Proof. done. Qed.

(** After each step of a replica its thread pool does up to five steps of the first job. *)
Definition pool0 (_ : Liveness.node) : list nat := replicate 5 0.

Definition no_early : NodeId -> list Shareable * list Shareable * list Shareable := fun _ => ([], [], []).
Lemma no_early_ok : Liveness.early_ok no_early.
Proof. intros x. by repeat split. Qed.

(** The replicas after the first message of the faulty one. *)
Definition disturbed (x : NodeId) : Liveness.node :=
  Liveness.delivered rng0 (sync view0) (commit_msg 5 0 3) (Liveness.start view0 5 no_early x).
Lemma disturbed_evolves : Liveness.evolves (Sy := handle) view0 byz3 (Liveness.start view0 5 no_early) disturbed.
Proof. intros x _. apply rtc_once. by eapply (Liveness.do_deliver view0 _ rng0 (sync view0)). Qed.
Lemma disturbed_only P : Liveness.only view0 5 byz3 P disturbed.
Proof.
  intros x l m _ _ _ Hm (_ & nonce & rqs & Hp). cbn in Hm. apply list_elem_of_singleton in Hm as ->. discriminate Hp.
Qed.

Definition offer5 (_ : NodeId) : list Shareable := [pre_prepare_msg 5 0].
Lemma offer5_consensus x : Liveness.consensus_messages (offer5 x).
Proof. intros m ->%list_elem_of_singleton. by eexists. Qed.
Lemma offer5_accepted :
  forallb (fun r => is_request_in_hash_space (rq_digest (rq_info r)) (default ([], []) (view0.(ViewInfo.leader_hash_space_division) !! 0%N))) [request 1; request 2] = true.
Proof. by vm_compute. Qed.
Lemma leader0 : view0.(ViewInfo.leader_set) = [0%N].
Proof. by vm_compute. Qed.
Lemma offer5_valid x l : l ∈ view0.(ViewInfo.leader_set) ->
  (exists m, m ∈ offer5 x /\ Progress.valid_proposal view0 5 x l m) /\
  (forall m, m ∈ offer5 x -> Liveness.proposal_of view0 5 l m -> hdr_digest m.(header) = digest5).
Proof.
  intros Hl. rewrite leader0 in Hl. apply list_elem_of_singleton in Hl as ->. split; [|by intros m ->%list_elem_of_singleton].
  exists (pre_prepare_msg 5 0). split; [by left|]. split; [done|]. split; [rewrite leader0; by left|].
  exists 0%N, [request 1; request 2]. split; [done|]. right.
  destruct (view0.(ViewInfo.leader_hash_space_division) !! 0%N) as [slice|] eqn:E; [|revert E; by vm_compute].
  exists slice. split; [done|]. pose proof offer5_accepted as H. by rewrite E in H.
Qed.

(** *** Rounds *)

Abbreviation play5 := (Liveness.three_rounds (Sy := handle) view0 byz3 rng0 (sync view0) pool0 offer5 disturbed).

Lemma three_rounds_decide_witness :
  (play5 1%N).(Liveness.instance).(ConsensusDecision.phase) = PhaseDecided /\
  ConsensusDecision.digest_of (play5 1%N).(Liveness.instance) = Some (Liveness.batch_of digest5).
Proof.
  destruct (Liveness.three_rounds_decide (Sy := handle) view0 5 byz3 view0_wf view0_members rng0 (sync view0) pool0 sync_view0 no_early digest5 offer5 disturbed
    byz3_few no_early_ok disturbed_evolves (disturbed_only _) offer5_consensus (fun x l _ _ Hl => offer5_valid x l Hl)) as [_ H].
  apply H; [apply correct1|apply members4; set_solver].
Defined.

(** *** Any three moments *)

Definition moment1 := Liveness.round (Sy := handle) view0 byz3 rng0 (sync view0) pool0 offer5 disturbed.
Definition moment2 := Liveness.round (Sy := handle) view0 byz3 rng0 (sync view0) pool0 Liveness.nothing moment1.
Definition moment3 := Liveness.round (Sy := handle) view0 byz3 rng0 (sync view0) pool0 Liveness.nothing moment2.

Section moments.
Local Abbreviation good := (Liveness.all_good view0 5 byz3).
Local Abbreviation nothing_ok := Liveness.nothing_consensus.

Lemma disturbed_good : good disturbed.
Proof. exact (Liveness.started_good (Sy := handle) view0 5 byz3 view0_wf view0_members no_early disturbed no_early_ok disturbed_evolves). Qed.

Lemma moment_spec e y : good y -> (forall x, Liveness.consensus_messages (e x)) ->
  let y' := Liveness.round (Sy := handle) view0 byz3 rng0 (sync view0) pool0 e y in
  good y' /\ Liveness.evolves (Sy := handle) view0 byz3 y y' /\ Liveness.settled view0 byz3 y' /\ Liveness.arrived view0 byz3 y y'.
Proof.
  intros Hg He.
  pose proof (Liveness.round_spec (Sy := handle) view0 5 byz3 view0_wf view0_members rng0 (sync view0) pool0 sync_view0 e y) as Hr.
  split_and!; [intros x Hx; by apply Hr..|intros x Hx _; by apply Hr|].
  exact (Liveness.round_arrived (Sy := handle) view0 5 byz3 view0_wf view0_members rng0 (sync view0) pool0 sync_view0 e y Hg He).
Qed.
End moments.

Lemma offered1 : Liveness.offered view0 5 byz3 moment1.
Proof.
  intros x l Hx Hxm Hl. destruct (offer5_valid x l Hl) as [(m & Hm & Hv) _]. exists m. split; [|done].
  destruct (Liveness.round_spec (Sy := handle) view0 5 byz3 view0_wf view0_members rng0 (sync view0) pool0 sync_view0 offer5 disturbed x disturbed_good (offer5_consensus x) Hx)
    as (_ & _ & _ & E). unfold moment1. rewrite E, !elem_of_app. auto.
Qed.
Lemma unequivocal3 : Liveness.unequivocal view0 5 byz3 digest5 moment3.
Proof.
  destruct (Liveness.three_rounds_only (Sy := handle) view0 5 byz3 view0_wf view0_members rng0 (sync view0) pool0 sync_view0
    (fun m => hdr_digest m.(header) = digest5) offer5 disturbed disturbed_good offer5_consensus (disturbed_only _)) as (_ & _ & H).
  - intros x l m _ _ Hl. by apply offer5_valid.
  - unfold Liveness.three_rounds in H. unfold Liveness.unequivocal, moment3, moment2, moment1. exact H.
Qed.

Lemma three_delays_decide_witness :
  (moment3 2%N).(Liveness.instance).(ConsensusDecision.phase) = PhaseDecided.
Proof.
  destruct (moment_spec offer5 disturbed disturbed_good offer5_consensus) as (G1 & E1 & S1 & _).
  destruct (moment_spec Liveness.nothing moment1 G1 Liveness.nothing_consensus) as (G2 & E2 & S2 & A2).
  destruct (moment_spec Liveness.nothing moment2 G2 Liveness.nothing_consensus) as (_ & E3 & S3 & A3).
  refine (proj1 (Liveness.three_delays_decide (Sy := handle) view0 5 byz3 view0_wf view0_members no_early digest5 moment1 moment2 moment3 byz3_few no_early_ok
    _ E2 E3 S1 S2 S3 offered1 unequivocal3 A2 A3 2%N correct2 (members4 2%N _))).
  - intros x Hx. etransitivity; [exact (disturbed_evolves x Hx)|exact (E1 x Hx)].
  - set_solver.
Defined.

(** *** From the proposer to the decisions *)

Definition requests12 : list (StoredMessage RQ) := [request 1; request 2].
Definition leader_thread : Proposer.t := proposer0 open_guard requests12 0 [mkInterference [Lock] 3; mkInterference [Unlock] 5].
Definition proposal12 := Proposer.propose 7 5 view0 requests12 leader_thread.
Definition after12 : NodeId -> Liveness.node :=
  Liveness.three_rounds (Sy := handle) view0 byz3 rng0 (sync view0) pool0 (LeaderProgress.arrivals 0 (sent proposal12.(r_eff))) disturbed.

Lemma requests12_digests : Forall (fun r => length (rq_digest (rq_info r)) = digest_length) requests12.
Proof. by repeat constructor. Qed.
Lemma same_digest0 (me x x' : NodeId) (m : PBFTMessage) : hdr_digest (wire_header me x m) = hdr_digest (wire_header me x' m).
Proof. by vm_compute. Qed.
Lemma leads0 : 0%N ∈ view0.(ViewInfo.leader_set).
Proof. rewrite leader0. by left. Qed.
Lemma notes12 : (Proposer.retain requests12 (ProposerFacts.sync_notes leader_thread)).1 = requests12.
Proof. by vm_compute. Qed.

Lemma proposal_decided_witness :
  exists b, ConsensusDecision.finalize (after12 2%N).(Liveness.instance) = Ok b /\ b.(cb_seq) = 5%N /\ b.(cb_client_requests) = requests12.
Proof.
  destruct (LeaderProgress.proposal_decided (Sy := handle) view0 5 byz3 view0_wf view0_members rng0 (sync view0) pool0 sync_view0 same_digest0
    0 7 requests12 leader_thread no_early disturbed byz3_few leads0 requests12_digests no_early_ok disturbed_evolves (disturbed_only _)) as (_ & _ & H).
  destruct (H 2%N correct2 (members4 2%N ltac:(set_solver))) as (b & Hb & Hs & Hr). exists b. rewrite notes12 in Hr. exact (conj Hb (conj Hs Hr)).
Defined.

(** *** Votes of strangers *)

Lemma strangers : NoDup [7; 8; 9]%N /\ ViewInfo.quorum view0 <= 3 /\ forall z, z ∈ [7; 8; 9]%N -> z ∉ view0.(ViewInfo.quorum_members).
Proof.
  split; [apply (bool_decide_eq_true_1 _); by vm_compute|]. split; [vm_compute; lia|].
  assert (view0.(ViewInfo.quorum_members) = [0; 1; 2; 3]%N) as -> by (by vm_compute). set_solver.
Qed.
Lemma pre_prepare5_valid : Progress.valid_proposal view0 5 1 0 (pre_prepare_msg 5 0).
Proof. destruct (offer5_valid 1 0 leads0) as [(m & Hm & Hv) _]. by apply list_elem_of_singleton in Hm as ->. Qed.

Lemma strangers_decide_witness :
  (Liveness.settle rng0 (sync view0) pool0 (Liveness.take_in rng0 (sync view0) pool0
     (pre_prepare_msg 5 0 :: (Liveness.vote_of view0 5 1 Prepare (Liveness.batch_of digest5) <$> [7; 8; 9]%N) ++
                             (Liveness.vote_of view0 5 1 Commit (Liveness.batch_of digest5) <$> [7; 8; 9]%N))
     (Liveness.start view0 5 no_early 1%N))).(Liveness.instance).(ConsensusDecision.phase) = PhaseDecided.
Proof.
  exact (Liveness.strangers_decide (Sy := handle) view0 5 view0_wf view0_members rng0 (sync view0) pool0 sync_view0 1 0 (pre_prepare_msg 5 0) [7; 8; 9]%N
    leads0 pre_prepare5_valid (proj1 strangers) (proj1 (proj2 strangers)) (proj2 (proj2 strangers))).
Defined.
