(* ===== verification/ClusterWitnesses.v ===== *)
(** * The cluster at concrete runs

    Four correct replicas order a batch of client requests; before all of them have decided, three of them time out and change the view. *)
From S2P Require Import Prelude Atlas Errors View Messages Decisions Deciding Log Network.
From S2P Require Import SyncAccessory Accessory Decision Consensus ConsensusFacts Offers Sync Proposer Protocol.
From S2P Require Import Cluster ClusterFacts Sample Witnesses SyncWitnesses.

(** ** The environment *)

(** The digest in a header depends on what the message says. *)
Definition digest_of_message (m : PBFTMessage) : Digest :=
  match m with
  | Messages.Consensus (mkConsensusMessage s v _ (PrePrepare rqs)) => [byte_of v; byte_of (N.of_nat (length rqs))]
  | _ => []
  end.
Definition HashWire : WireFormat := {| wire_header me peer m := mkSHeader me (digest_of_message m) (digest_of_message m) |}.
#[local] Existing Instance HashWire.
Lemma HashWireLaws : WireFormatLaws.
Proof. by split. Qed.

(** Requests 1 and 2 are pending. *)
Definition pending12 : PreProcessor :=
  mkPreProcessor _ (inr [request 1; request 2]) (fun _ => inr tt) (fun _ => inr [request 1; request 2]).

Definition quorum4 : list NodeId := [0; 1; 2; 3]%N.
Definition fallback : PBFTOrderProtocol.t := PBFTOrderProtocol.mk NormalPhase world0.
Definition first_state (x : NodeId) : PBFTOrderProtocol.t :=
  match PBFTOrderProtocol.initialize_protocol x 1 quorum4 with Ok s => s | _ => fallback end.
Definition cluster0 : Cluster.t := Cluster.mk first_state [].

Abbreviation packet := (NodeId * (NodeId * PBFTMessage))%type.
Abbreviation cl_reachable calm byz := (Cluster.reachable quorum4 1 byz calm).

(** ** Playing a run *)

(** Deliver the [k]-th packet, poll, time out, hear that the executor works, propose. *)
Inductive CAction := CDeliver (k : nat) | CPoll | CTimeout (l : list ModTimeout) | CExec | CPropose (batch : list (StoredMessage RQ)).

Definition ran {X} (r : Run PBFTOrderProtocol.t Effect Error X) : option (list Effect * PBFTOrderProtocol.t) :=
  match r.(r_out) with Panic => None | _ => Some (r.(r_eff), r.(r_st)) end.
Definition params (x : NodeId) : ProposerParams := mkParams x 1 0 10 true.

Definition calm_ok (calm : bool) (msg : PBFTMessage) : bool :=
  negb calm || match consensus msg with Ok _ => true | _ => false end.

Definition c_act (calm : bool) (net : list packet) (x : NodeId) (s : PBFTOrderProtocol.t) (a : CAction)
    : option (list Effect * PBFTOrderProtocol.t) :=
  match a with
  | CDeliver k =>
      '(from, (to, msg)) ← net !! k;
      if bool_decide (to = x) && bool_decide (from ∈ quorum4) && calm_ok calm msg
      then ran (PBFTOrderProtocol.process_message x rng0 pending12 (Cluster.packed from x msg) s) else None
  | CPoll =>
      match PBFTOrderProtocol.poll x rng0 pending12 10 s with
      | mkRun (Ok (Some (PollExec m))) s1 eff1 =>
          '(eff, s') ← ran (PBFTOrderProtocol.process_message x rng0 pending12 m s1); Some (eff1 ++ eff, s')
      | mkRun (Ok (Some _)) s1 eff1 => Some (eff1, s1)
      | _ => None
      end
  | CTimeout l => if calm then None else ran (PBFTOrderProtocol.handle_timeout pending12 l s)
  | CExec => match PBFTOrderProtocol.handle_execution_changed true s with mkRun (Ok tt) s' eff => Some (eff, s') | _ => None end
  | CPropose batch => Some (Cluster.propose (params x) 0 x batch 0 0 s)
  end.

Lemma ran_run {X} (r : Run PBFTOrderProtocol.t Effect Error X) eff s :
  ran r = Some (eff, s) -> exists out, r = mkRun out s eff /\ out <> Panic.
Proof. unfold ran. destruct r as [out s' eff']. cbn. destruct out; intros [= <- <-]; eauto. Qed.

Lemma c_act_sound calm byz net x s a eff s' :
  c_act calm net x s a = Some (eff, s') -> Cluster.act quorum4 byz calm net x s eff s'.
Proof.
  destruct a as [k| |l| |batch]; cbn [c_act].
  - destruct (net !! k) as [[from [to msg]]|] eqn:Hk; [|done]. cbn [mbind option_bind].
    destruct (_ && _ && _) eqn:Hc; [|done]. apply andb_true_iff in Hc as [[Hto Hin]%andb_true_iff Hcm].
    apply bool_decide_eq_true in Hto, Hin. subst to. intros (out & Hr & Ho)%ran_run.
    eapply Cluster.do_message; [split; [done|]|..]; [|..|exact Hr|exact Ho].
    + intros _. by eapply list_elem_of_lookup_2.
    + intros ->. unfold calm_ok in Hcm. cbn in Hcm. destruct (consensus msg); try done. eauto.
  - destruct (PBFTOrderProtocol.poll _ _ _ _ s) as [[[res|]| |] s1 eff1] eqn:Hp; [|done..].
    destruct res as [| |m|a ds|a ds j|].
    3: { destruct (ran _) as [[eff2 s2]|] eqn:Hr; [|done]. cbn [mbind option_bind]. intros [= <- <-].
         apply ran_run in Hr as (out & Hr & Ho). exact (Cluster.do_poll_exec quorum4 byz calm net x s rng0 pending12 10 m s1 eff1 out s2 eff2 Hp Hr Ho). }
    all: intros [= <- <-]; eapply Cluster.do_poll; [exact Hp|done].
  - destruct calm; [done|]. intros (out & Hr & Ho)%ran_run. by eapply Cluster.do_timeout.
  - destruct (PBFTOrderProtocol.handle_execution_changed true s) as [[[]| |] s1 eff1] eqn:Hr; [|done..].
    intros [= <- <-]. by eapply Cluster.do_execution.
  - intros E. apply (inj Some) in E. rewrite (surjective_pairing (Cluster.propose _ _ _ _ _ _ _)) in E.
    pose proof (f_equal fst E) as E1. pose proof (f_equal snd E) as E2. cbn [fst snd] in E1, E2. subst eff s'. by apply Cluster.do_propose.
Qed.

Definition c_step (calm : bool) (byz : gset NodeId) (y : Cluster.t) (xa : NodeId * CAction) : option Cluster.t :=
  '(eff, s') ← c_act calm y.(Cluster.net) xa.1 (y.(Cluster.replica) xa.1) xa.2;
  if bool_decide (xa.1 ∉ byz) && bool_decide (Cluster.in_range s')
  then Some (Cluster.mk (Cluster.upd xa.1 s' y.(Cluster.replica)) (y.(Cluster.net) ++ ((xa.1,.) <$> sent eff))) else None.
Definition c_play (calm : bool) (byz : gset NodeId) (l : list (NodeId * CAction)) : option Cluster.t :=
  foldl (fun o a => y ← o; c_step calm byz y a) (Some cluster0) l.
Definition c_state (calm : bool) (byz : gset NodeId) (l : list (NodeId * CAction)) : Cluster.t := default cluster0 (c_play calm byz l).

Lemma first_state_ok x : PBFTOrderProtocol.initialize_protocol x 1 quorum4 = Ok (first_state x).
Proof. reflexivity. Qed.

Lemma c_state_reachable calm byz l : cl_reachable calm byz (c_state calm byz l).
Proof.
  assert (cl_reachable calm byz cluster0) as H0 by (apply Cluster.reachable_start, first_state_ok).
  unfold c_state. destruct (c_play calm byz l) as [y|] eqn:E; [|exact H0]. cbn [default]. revert y E. unfold c_play.
  induction l as [|[x a] l IH] using rev_ind; intros y; [intros [= <-]; exact H0|]. rewrite foldl_snoc.
  destruct (foldl _ _ l) as [y1|] eqn:E; [|done]. cbn [mbind option_bind]. unfold c_step. cbn [fst snd].
  destruct (c_act calm _ x _ a) as [[eff s']|] eqn:Ha; [|done]. cbn [mbind option_bind].
  destruct (_ && _) eqn:Hc; [|done]. apply andb_true_iff in Hc as [Hx Hb]. apply bool_decide_eq_true in Hx, Hb. intros [= <-].
  eapply Cluster.reachable_step; [exact (IH _ eq_refl)|]. apply Cluster.step_act; [done| |done]. by eapply c_act_sound.
Qed.

(** ** A run within a view *)

(** Hand packets [i, i + 4, i + 8] to replica [i]: each of the first three replicas broadcast to all four. *)
Definition round (from : nat) (xs : list nat) : list (NodeId * CAction) :=
  i ← xs; (N.of_nat i,.) <$> [CDeliver (from + i); CDeliver (from + 4 + i); CDeliver (from + 8 + i)].

(** Replica 3 is faulty and silent; the others decide in view 0. *)
Definition calm_run : list (NodeId * CAction) :=
  (x ← [0; 1; 2]%N; [(x, CExec); (x, CPoll)]) ++ [(0%N, CPropose [request 1])] ++
  [(0%N, CDeliver 0); (1%N, CDeliver 1); (2%N, CDeliver 2)] ++ round 4 [0; 1; 2] ++ round 16 [0; 1; 2].
Definition calm_cluster : Cluster.t := c_state true byz3 calm_run.
Definition digest_at (y : Cluster.t) (x : NodeId) : option Digest := (fun p => (DecProof.metadata p).(pm_batch_digest)) <$> Cluster.last_decided y x.
Definition seq_at (y : Cluster.t) (x : NodeId) : option SeqNo := DecProof.sequence_number <$> Cluster.last_decided y x.

Lemma calm_reachable : cl_reachable true byz3 calm_cluster.
Proof. exact (c_state_reachable true byz3 calm_run). Qed.
Lemma quorum4_nodup : NoDup quorum4.
Proof. apply (bool_decide_eq_true (NoDup quorum4)). by vm_compute. Qed.
Lemma calm_decided : seq_at calm_cluster 1 = Some 0%N /\ seq_at calm_cluster 2 = Some 0%N.
Proof. split; vm_compute; reflexivity. Qed.

Lemma logs_agree_witness : exists d, digest_at calm_cluster 1 = Some d /\ digest_at calm_cluster 2 = Some d.
Proof.
  pose proof calm_decided as [R R']. unfold seq_at, digest_at in *.
  destruct (Cluster.last_decided calm_cluster 1) as [p|] eqn:E; [|discriminate R]. destruct (Cluster.last_decided calm_cluster 2) as [p'|] eqn:E'; [|discriminate R'].
  apply (inj Some) in R as H. apply (inj Some) in R' as H'.
  pose proof (ClusterFacts.logs_agree (WL := HashWireLaws) quorum4 1 1 byz3 calm_cluster 1%N 2%N p p' quorum4_nodup eq_refl (le_n 1)
    ltac:(cbn; lia) ltac:(by vm_compute) calm_reachable) as Hag.
  destruct (Hag ltac:(by vm_compute) ltac:(by vm_compute) E E' (eq_trans H (eq_sym H'))) as [Hd _].
  exists (DecProof.metadata p').(pm_batch_digest). cbn. rewrite Hd. exact (conj eq_refl eq_refl).
Defined.

(** ** A view change after a decision *)

(** Replica 0 proposes request 1, all four vote; replica 3 gets the COMMITs and decides. *)
Definition view0_run : list (NodeId * CAction) :=
  (x ← quorum4; [(x, CExec); (x, CPoll)]) ++ [(0%N, CPropose [request 1])] ++
  [(0%N, CDeliver 0); (1%N, CDeliver 1); (2%N, CDeliver 2); (3%N, CDeliver 3)] ++ round 4 [0; 1; 2; 3] ++ round 20 [3].
(** The others time out and send STOPs, replica 1 collects their STOP-DATAs and sends its SYNC. *)
Definition view_change_run : list (NodeId * CAction) :=
  (x ← [0; 1; 2]%N; [(x, CTimeout timeouts12)]) ++ round 36 [0; 1; 2] ++
  ((1%N,.) <$> [CDeliver 48; CDeliver 49; CDeliver 50]) ++ [(0%N, CDeliver 51); (2%N, CDeliver 52)].
(** They decide the instance in view 1. *)
Definition view1_run : list (NodeId * CAction) := round 54 [0; 1; 2] ++ round 66 [0; 1; 2].

Definition cluster1 : Cluster.t := c_state false ∅ (view0_run ++ view_change_run ++ view1_run).

(** What the SYNC message of the leader is based on. *)
Definition sync_collects (y : Cluster.t) : list CollectData :=
  match snd <$> (Cluster.net y !! 51) with
  | Some (_, ViewChange (mkViewChangeMessage _ (Sync (mkLeaderCollects _ cs)))) => match collect_data cs with Ok l => l | _ => [] end
  | _ => []
  end.

Lemma cluster1_decided :
  DecProof.metadata <$> Cluster.last_decided cluster1 3 = Some (mkProofMetadata 0 [x00; x01] [[x00; x01]] 1) /\
  DecProof.metadata <$> Cluster.last_decided cluster1 0 = Some (mkProofMetadata 0 [x01; x02] [[x01; x02]] 2).
Proof. split; vm_compute; reflexivity. Qed.
Lemma cluster1_bound : sound view1 (normalized_collects 0 (sync_collects cluster1)) = Bound [x00; x01].
Proof. vm_compute. reflexivity. Qed.

(** C23. Decisions are not kept across a view change.  There is a run of four correct replicas, none of them faulty, in which
    replica 3 decides instance 0 in view 0, and the others, after a view change, decide it in view 1 with another batch: the leader of view 1 learns from
    the STOP-DATA messages which batch may be decided (they bind its digest), and proposes the requests that are pending instead. *)
Theorem decisions_differ_across_views :
  exists y p p', cl_reachable false ∅ y /\
    Cluster.last_decided y 3 = Some p /\ Cluster.last_decided y 0 = Some p' /\
    DecProof.sequence_number p = DecProof.sequence_number p' /\
    sound view1 (normalized_collects (DecProof.sequence_number p) (sync_collects y)) = Bound (DecProof.metadata p).(pm_batch_digest) /\
    (DecProof.metadata p).(pm_batch_digest) <> (DecProof.metadata p').(pm_batch_digest) /\
    (DecProof.metadata p).(pm_contained_client_rqs) = 1 /\ (DecProof.metadata p').(pm_contained_client_rqs) = 2.
Proof.
  pose proof cluster1_decided as [R R'].
  destruct (Cluster.last_decided cluster1 3) as [p|] eqn:E; [|discriminate R]. destruct (Cluster.last_decided cluster1 0) as [p'|] eqn:E'; [|discriminate R'].
  apply (inj Some) in R as H. apply (inj Some) in R' as H'.
  exists cluster1, p, p'. unfold DecProof.sequence_number. rewrite H, H'. split; [apply c_state_reachable|].
  split; [exact E|]. split; [exact E'|]. split; [reflexivity|]. split; [exact cluster1_bound|]. split; [discriminate|]. split; reflexivity.
Qed.
